(** * simple-db: the paged B+Tree table (table.c) in Rocq

    A shallow embedding of [src/table.c] over the declarations of
    [src/c/db.h].  Pages are byte buffers, node fields are read and written
    through the accessor functions of db.h at the byte offsets of the file
    format, and the functions of table.c are written in a small state and
    error monad over the table (pager cache included). *)

From Stdlib Require Import ZArith List Lia Bool Sorted Permutation.
Import ListNotations.
Local Open Scope Z_scope.

(** ** Machine integers *)

(** [uint32_t] arithmetic wraps modulo 2^32. *)
Definition u32 (z : Z) : Z := z mod 4294967296.

(** ** Pages as byte buffers *)

(** A page is a buffer of [PAGE_SIZE] bytes: offset -> byte.  Only the
    offsets [0 <= a < PAGE_SIZE] belong to the buffer; every access is
    bounds-checked by [load]/[store] below. *)
Definition page : Type := Z -> Z.

Definition zero_page : page := fun _ => 0.

Definition byte_at (p : page) (a : Z) : Z := p a mod 256.

(** [blit p dst len src] overwrites the [len] bytes of [p] from offset
    [dst] with [src 0 .. src (len-1)]. *)
Definition blit (p : page) (dst len : Z) (src : Z -> Z) : page :=
  fun a => if (dst <=? a) && (a <? dst + len) then src (a - dst) else p a.

(** Little-endian 32-bit field at a byte offset. *)
Definition get32 (p : page) (off : Z) : Z :=
  byte_at p off + 256 * byte_at p (off + 1)
  + 65536 * byte_at p (off + 2) + 16777216 * byte_at p (off + 3).

Definition le32 (v : Z) : Z -> Z :=
  fun i => (v / 2 ^ (8 * i)) mod 256.

(** The bytes of a list, for [serialize_row]. *)
Definition of_list (l : list Z) : Z -> Z :=
  fun i => nth (Z.to_nat i) l 0.

(** [len] bytes of a page from offset [off]. *)
Definition bytes_at (p : page) (off : Z) (len : nat) : list Z :=
  map (fun i => byte_at p (off + Z.of_nat i)) (seq 0 len).

(** ** Constants of db.h

    db.h declares the layout constants without their values; the values
    are those of the file format. *)

Definition TABLE_MAX_PAGES : Z := 100.

(** Modelled from the spec: the values of the constants db.h declares
    ([PAGE_SIZE = 4096], [ROW_SIZE = 4 + 33 + 256], common header of 6
    bytes, leaf and internal headers of 14 bytes, leaf cell = key (4) + row
    (293), internal cell = child (4) + key (4)). *)
Definition PAGE_SIZE : Z := 4096.
Definition ID_SIZE : Z := 4.
Definition USERNAME_SIZE : Z := 33.
Definition EMAIL_SIZE : Z := 256.
Definition ROW_SIZE : Z := ID_SIZE + USERNAME_SIZE + EMAIL_SIZE.

Definition NODE_TYPE_OFFSET : Z := 0.
Definition IS_ROOT_OFFSET : Z := 1.
Definition PARENT_POINTER_OFFSET : Z := 2.
Definition COMMON_NODE_HEADER_SIZE : Z := 6.

Definition LEAF_NODE_NUM_CELLS_OFFSET : Z := COMMON_NODE_HEADER_SIZE.
Definition LEAF_NODE_NEXT_LEAF_OFFSET : Z := LEAF_NODE_NUM_CELLS_OFFSET + 4.
Definition LEAF_NODE_HEADER_SIZE : Z := COMMON_NODE_HEADER_SIZE + 4 + 4.
Definition LEAF_NODE_KEY_SIZE : Z := 4.
Definition LEAF_NODE_VALUE_SIZE : Z := ROW_SIZE.
Definition LEAF_NODE_CELL_SIZE : Z := LEAF_NODE_KEY_SIZE + LEAF_NODE_VALUE_SIZE.
Definition LEAF_NODE_SPACE_FOR_CELLS : Z := PAGE_SIZE - LEAF_NODE_HEADER_SIZE.
Definition LEAF_NODE_MAX_CELLS : Z :=
  LEAF_NODE_SPACE_FOR_CELLS / LEAF_NODE_CELL_SIZE.
Definition LEAF_NODE_RIGHT_SPLIT_COUNT : Z := (LEAF_NODE_MAX_CELLS + 1) / 2.
Definition LEAF_NODE_LEFT_SPLIT_COUNT : Z :=
  (LEAF_NODE_MAX_CELLS + 1) - LEAF_NODE_RIGHT_SPLIT_COUNT.

Definition INTERNAL_NODE_NUM_KEYS_OFFSET : Z := COMMON_NODE_HEADER_SIZE.
Definition INTERNAL_NODE_RIGHT_CHILD_OFFSET : Z :=
  INTERNAL_NODE_NUM_KEYS_OFFSET + 4.
Definition INTERNAL_NODE_HEADER_SIZE : Z := COMMON_NODE_HEADER_SIZE + 4 + 4.
Definition INTERNAL_NODE_CHILD_SIZE : Z := 4.
Definition INTERNAL_NODE_KEY_SIZE : Z := 4.
Definition INTERNAL_NODE_CELL_SIZE : Z :=
  INTERNAL_NODE_CHILD_SIZE + INTERNAL_NODE_KEY_SIZE.

(** [typedef enum { NODE_INTERNAL, NODE_LEAF } NodeType;] *)
Definition NODE_INTERNAL : Z := 0.
Definition NODE_LEAF : Z := 1.

(** ** Structs of db.h *)

(** [Row]: the two character arrays are lists of bytes. *)
Record Row := mkRow { id : Z; username : list Z; email : list Z }.

(** [Pager]: the file behind [file_descriptor] as its sequence of pages,
    the page count and the cache [pages] ([None] is the NULL pointer). *)
Record Pager := mkPager {
  file : list page;
  num_pages : Z;
  pages : Z -> option page
}.

Record Table := mkTable { pager : Pager; root_page_num : Z }.

(** [Cursor]: the [table] field points to the one table, which is the
    state every function below runs in. *)
Record Cursor := mkCursor {
  page_num : Z;
  cell_num : Z;
  end_of_table : bool
}.

(** A [void*] into a page of the cache: page number and byte offset. *)
Record ptr := mkPtr { ptr_page : Z; ptr_off : Z }.

Definition padd (p : ptr) (d : Z) : ptr := mkPtr (ptr_page p) (ptr_off p + d).

(** ** Outcomes and the monad *)

Inductive fatal := PageNumberOutOfBounds | NeedToSplitInternalNode.

(** A call returns normally, terminates the process through
    [exit(EXIT_FAILURE)] (the table as it is in memory at that point is
    kept), has undefined behaviour (an access outside a page buffer or
    through a NULL page pointer, a non-void function that falls off its
    end), or does not terminate within the fuel. *)
Inductive outcome (A : Type) : Type :=
| Ok (a : A) (t : Table)
| Exit (e : fatal) (t : Table)
| Fault
| Diverge.
Arguments Ok {A} a t.
Arguments Exit {A} e t.
Arguments Fault {A}.
Arguments Diverge {A}.

Definition M (A : Type) : Type := Table -> outcome A.

Definition ret {A} (a : A) : M A := fun t => Ok a t.

Definition bind {A B} (m : M A) (k : A -> M B) : M B :=
  fun t => match m t with
           | Ok a t' => k a t'
           | Exit e t' => Exit e t'
           | Fault => Fault
           | Diverge => Diverge
           end.

Definition exit_failure {A} (e : fatal) : M A := fun t => Exit e t.
Definition fault {A} : M A := fun _ => Fault.
Definition diverge {A} : M A := fun _ => Diverge.

Declare Scope m_scope.
Delimit Scope m_scope with M.
Notation "x <- m ;; k" := (bind m (fun x => k))
  (at level 61, m at next level, right associativity) : m_scope.
Notation "m ;; k" := (bind m (fun _ => k))
  (at level 61, right associativity) : m_scope.
Local Open Scope m_scope.

(** [for (i = lo + n; i > lo; i--) body(i)] *)
Fixpoint for_down (n : nat) (lo : Z) (body : Z -> M unit) : M unit :=
  match n with
  | O => ret tt
  | S n' => body (lo + Z.of_nat n) ;; for_down n' lo body
  end.

(** ** Memory access through the page cache *)

Definition cache_lookup (t : Table) (n : Z) : option page := pages (pager t) n.

Definition set_page (t : Table) (n : Z) (c : page) : Table :=
  mkTable
    (mkPager (file (pager t)) (num_pages (pager t))
       (fun m => if m =? n then Some c else pages (pager t) m))
    (root_page_num t).

Definition in_page (off len : Z) : bool :=
  (0 <=? off) && (off + len <=? PAGE_SIZE).

(** Read access to [len] bytes at [p]: the page buffer. *)
Definition deref (p : ptr) (len : Z) : M page := fun t =>
  match cache_lookup t (ptr_page p) with
  | Some c => if in_page (ptr_off p) len then Ok c t else Fault
  | None => Fault
  end.

(** Write access: [len] bytes at [p] become [src 0 .. src (len-1)]. *)
Definition poke (p : ptr) (len : Z) (src : Z -> Z) : M unit := fun t =>
  match cache_lookup t (ptr_page p) with
  | Some c =>
      if in_page (ptr_off p) len
      then Ok tt (set_page t (ptr_page p) (blit c (ptr_off p) len src))
      else Fault
  | None => Fault
  end.

(** Loads and stores through a [uint32_t] or [uint8_t] pointer. *)
Definition load32 (p : ptr) : M Z :=
  c <- deref p 4 ;; ret (get32 c (ptr_off p)).
Definition load8 (p : ptr) : M Z :=
  c <- deref p 1 ;; ret (byte_at c (ptr_off p)).
Definition store32 (p : ptr) (v : Z) : M unit := poke p 4 (le32 v).
Definition store8 (p : ptr) (v : Z) : M unit := poke p 1 (le32 v).

(** [memcpy(dst, src, n)]: the source bytes are read before any byte is
    written (table.c copies a cell onto itself in the split loop). *)
Definition memcpy (dst src : ptr) (n : Z) : M unit :=
  c <- deref src n ;; poke dst n (fun i => c (ptr_off src + i)).

(** ** The pager (pager.c is not among the sources) *)

Definition file_page (pg : Pager) (n : Z) : page :=
  nth (Z.to_nat n) (file pg) zero_page.

(** Modelled from the spec: [pager_open], missing from src/.  The page
    count is the file length in pages and nothing is cached. *)
Definition pager_open (f : list page) : Pager :=
  mkPager f (Z.of_nat (length f)) (fun _ => None).

(** Modelled from the spec: [get_page], missing from src/.  It returns the
    cached buffer for page [n], loading it from the file if not cached and
    [n] is within the current page count; beyond the page count it returns
    a newly zeroed buffer and raises the page count to [n+1]; it fails
    fatally when the page count would exceed [TABLE_MAX_PAGES]. *)
Definition get_page (n : Z) : M ptr := fun t =>
  let pg := pager t in
  if TABLE_MAX_PAGES <=? n then Exit PageNumberOutOfBounds t
  else match pages pg n with
       | Some _ => Ok (mkPtr n 0) t
       | None =>
           if n <? num_pages pg
           then Ok (mkPtr n 0) (set_page t n (file_page pg n))
           else Ok (mkPtr n 0)
                  (mkTable
                     (mkPager (file pg) (n + 1)
                        (fun m => if m =? n then Some zero_page
                                  else pages pg m))
                     (root_page_num t))
       end.

(** Modelled from the spec: [get_unused_page_num], missing from src/: the
    next unused page number is the current page count. *)
Definition get_unused_page_num : M Z :=
  fun t => Ok (num_pages (pager t)) t.

(** [table->root_page_num] *)
Definition get_root_page_num : M Z := fun t => Ok (root_page_num t) t.

(** ** The node codec (its definitions are not among the sources)

    Modelled from the spec: the accessors db.h declares, at the offsets of
    the file format: common header type(1) + is_root(1) + parent(4); leaf
    header num_cells(4)@6, next_leaf(4)@10, cells of 297 bytes from offset
    14 (key 4 + row 293); internal header num_keys(4)@6, right_child(4)@10,
    cells of 8 bytes from offset 14 (child 4 + key 4). *)

Definition node_parent (node : ptr) : ptr := padd node PARENT_POINTER_OFFSET.

Definition get_node_type (node : ptr) : M Z :=
  load8 (padd node NODE_TYPE_OFFSET).

Definition set_node_type (node : ptr) (type : Z) : M unit :=
  store8 (padd node NODE_TYPE_OFFSET) type.

Definition is_node_root (node : ptr) : M bool :=
  v <- load8 (padd node IS_ROOT_OFFSET) ;; ret (negb (v =? 0)).

Definition set_node_root (node : ptr) (is_root : bool) : M unit :=
  store8 (padd node IS_ROOT_OFFSET) (if is_root then 1 else 0).

Definition leaf_node_num_cells (node : ptr) : ptr :=
  padd node LEAF_NODE_NUM_CELLS_OFFSET.

Definition leaf_node_next_leaf (node : ptr) : ptr :=
  padd node LEAF_NODE_NEXT_LEAF_OFFSET.

Definition leaf_node_cell (node : ptr) (cell_num : Z) : ptr :=
  padd node (LEAF_NODE_HEADER_SIZE + cell_num * LEAF_NODE_CELL_SIZE).

Definition leaf_node_key (node : ptr) (cell_num : Z) : ptr :=
  leaf_node_cell node cell_num.

Definition leaf_node_value (node : ptr) (cell_num : Z) : ptr :=
  padd (leaf_node_cell node cell_num) LEAF_NODE_KEY_SIZE.

Definition internal_node_num_keys (node : ptr) : ptr :=
  padd node INTERNAL_NODE_NUM_KEYS_OFFSET.

Definition internal_node_right_child (node : ptr) : ptr :=
  padd node INTERNAL_NODE_RIGHT_CHILD_OFFSET.

Definition internal_node_cell (node : ptr) (cell_num : Z) : ptr :=
  padd node (INTERNAL_NODE_HEADER_SIZE + cell_num * INTERNAL_NODE_CELL_SIZE).

Definition internal_node_key (node : ptr) (key_num : Z) : ptr :=
  padd (internal_node_cell node key_num) INTERNAL_NODE_CHILD_SIZE.

(** Modelled from the spec: [internal_node_child], missing from src/: child
    index [key_count] selects the rightmost child, a smaller index the
    child reference of that cell. *)
Definition internal_node_child (node : ptr) (child_num : Z) : M ptr :=
  num_keys <- load32 (internal_node_num_keys node) ;;
  if child_num =? num_keys then ret (internal_node_right_child node)
  else ret (internal_node_cell node child_num).

(** Modelled from the spec: [initialize_leaf_node] and
    [initialize_internal_node], missing from src/: they set the type tag
    and zero the header fields (root flag, count, next leaf); cell storage
    is not cleared. *)
Definition initialize_leaf_node (node : ptr) : M unit :=
  set_node_type node NODE_LEAF ;;
  set_node_root node false ;;
  store32 (leaf_node_num_cells node) 0 ;;
  store32 (leaf_node_next_leaf node) 0.

Definition initialize_internal_node (node : ptr) : M unit :=
  set_node_type node NODE_INTERNAL ;;
  set_node_root node false ;;
  store32 (internal_node_num_keys node) 0.

(** Modelled from the spec: [get_node_max_key], missing from src/: the last
    cell's key of a leaf; for an internal node, the maximum key of its
    rightmost child, resolved through the page store.  [fuel] bounds the
    depth of the recursion. *)
Fixpoint get_node_max_key_rec (fuel : nat) (node : ptr) : M Z :=
  match fuel with
  | O => diverge
  | S fuel' =>
      type <- get_node_type node ;;
      if type =? NODE_INTERNAL then
        right_child_page_num <- load32 (internal_node_right_child node) ;;
        right_child <- get_page right_child_page_num ;;
        get_node_max_key_rec fuel' right_child
      else if type =? NODE_LEAF then
        num_cells <- load32 (leaf_node_num_cells node) ;;
        load32 (leaf_node_key node (u32 (num_cells - 1)))
      else fault
  end.

(** A path of the tree visits a page at most once, and the store holds at
    most [TABLE_MAX_PAGES] pages. *)
Definition DEPTH_FUEL : nat := Z.to_nat TABLE_MAX_PAGES.

Definition get_node_max_key (node : ptr) : M Z :=
  get_node_max_key_rec DEPTH_FUEL node.

(** Modelled from the spec: [serialize_row], missing from src/: id (4
    bytes), username (33 bytes, null-padded), email (256 bytes,
    null-padded). *)
Definition fixed (n : nat) (l : list Z) : list Z :=
  firstn n (l ++ repeat 0 n).

Definition row_bytes (r : Row) : list Z :=
  map (le32 (id r)) [0; 1; 2; 3] ++ fixed 33 (username r)
  ++ fixed 256 (email r).

Definition serialize_row (source : Row) (destination : ptr) : M unit :=
  poke destination ROW_SIZE (of_list (row_bytes source)).

(** ** table.c *)

Definition set_cell_num (c : Cursor) (n : Z) : Cursor :=
  mkCursor (page_num c) n (end_of_table c).
Definition set_page_num (c : Cursor) (n : Z) : Cursor :=
  mkCursor n (cell_num c) (end_of_table c).
Definition set_end_of_table (c : Cursor) (b : bool) : Cursor :=
  mkCursor (page_num c) (cell_num c) b.

(** The interval of a binary search over 32-bit indices halves at every
    iteration. *)
Definition SEARCH_FUEL : nat := 33.

(** The [while] loop of [leaf_node_find]; the result is the cell number the
    cursor gets. *)
Fixpoint leaf_node_find_loop (fuel : nat) (node : ptr) (key : Z)
    (min_index one_past_max_index : Z) : M Z :=
  if one_past_max_index =? min_index then ret min_index
  else
    match fuel with
    | O => diverge
    | S fuel' =>
        let index := u32 (min_index + one_past_max_index) / 2 in
        key_at_index <- load32 (leaf_node_key node index) ;;
        if key =? key_at_index then ret index
        else if key <? key_at_index
             then leaf_node_find_loop fuel' node key min_index index
             else leaf_node_find_loop fuel' node key (u32 (index + 1))
                    one_past_max_index
    end.

(** [leaf_node_find].  [mem] is the content of the block [malloc] returns
    for the cursor: the function assigns [table], [page_num] and
    [cell_num] and no other field. *)
Definition leaf_node_find (mem : Cursor) (page_num key : Z) : M Cursor :=
  node <- get_page page_num ;;
  num_cells <- load32 (leaf_node_num_cells node) ;;
  let cursor := mem in
  let cursor := set_page_num cursor page_num in
  cell <- leaf_node_find_loop SEARCH_FUEL node key 0 num_cells ;;
  ret (set_cell_num cursor cell).

(** The [while] loop of [internal_node_find_child]. *)
Fixpoint internal_node_find_child_loop (fuel : nat) (node : ptr) (key : Z)
    (min_index max_index : Z) : M Z :=
  if min_index =? max_index then ret min_index
  else
    match fuel with
    | O => diverge
    | S fuel' =>
        let index := u32 (min_index + max_index) / 2 in
        key_to_right <- load32 (internal_node_key node index) ;;
        if key_to_right >=? key
        then internal_node_find_child_loop fuel' node key min_index index
        else internal_node_find_child_loop fuel' node key (u32 (index + 1))
               max_index
    end.

Definition internal_node_find_child (node : ptr) (key : Z) : M Z :=
  num_keys <- load32 (internal_node_num_keys node) ;;
  internal_node_find_child_loop SEARCH_FUEL node key 0 num_keys.

(** [internal_node_find]: the [switch] has no default, so a child that is
    neither a leaf nor an internal node leaves the function without a
    return value. *)
Fixpoint internal_node_find (fuel : nat) (mem : Cursor) (page_num key : Z)
    : M Cursor :=
  match fuel with
  | O => diverge
  | S fuel' =>
      node <- get_page page_num ;;
      child_index <- internal_node_find_child node key ;;
      child_ref <- internal_node_child node child_index ;;
      child_num <- load32 child_ref ;;
      child <- get_page child_num ;;
      type <- get_node_type child ;;
      if type =? NODE_LEAF then leaf_node_find mem child_num key
      else if type =? NODE_INTERNAL
           then internal_node_find fuel' mem child_num key
           else fault
  end.

Definition table_find (mem : Cursor) (key : Z) : M Cursor :=
  root_page_num <- get_root_page_num ;;
  root_node <- get_page root_page_num ;;
  type <- get_node_type root_node ;;
  if type =? NODE_LEAF then leaf_node_find mem root_page_num key
  else internal_node_find DEPTH_FUEL mem root_page_num key.

Definition table_start (mem : Cursor) : M Cursor :=
  cursor <- table_find mem 0 ;;
  node <- get_page (page_num cursor) ;;
  num_cells <- load32 (leaf_node_num_cells node) ;;
  ret (set_end_of_table cursor (num_cells =? 0)).

Definition cursor_value (cursor : Cursor) : M ptr :=
  let page_num := page_num cursor in
  page <- get_page page_num ;;
  ret (leaf_node_value page (cell_num cursor)).

Definition cursor_advance (cursor : Cursor) : M Cursor :=
  let page_num := page_num cursor in
  node <- get_page page_num ;;
  let cursor := set_cell_num cursor (u32 (cell_num cursor + 1)) in
  num_cells <- load32 (leaf_node_num_cells node) ;;
  if cell_num cursor >=? num_cells then
    next_page_num <- load32 (leaf_node_next_leaf node) ;;
    if next_page_num =? 0 then ret (set_end_of_table cursor true)
    else ret (set_cell_num (set_page_num cursor next_page_num) 0)
  else ret cursor.

(** [db_open] on the file [f]. *)
Definition db_open (f : list page) : outcome unit :=
  let pager := pager_open f in
  let table := mkTable pager 0 in
  if num_pages pager =? 0 then
    (root_node <- get_page 0 ;;
     initialize_leaf_node root_node ;;
     set_node_root root_node true) table
  else Ok tt table.

Definition update_internal_node_key (node : ptr) (old_key new_key : Z)
    : M unit :=
  old_child_index <- internal_node_find_child node old_key ;;
  store32 (internal_node_key node old_child_index) new_key.

Definition create_new_root (right_child_page_num : Z) : M unit :=
  root_page <- get_root_page_num ;;
  root <- get_page root_page ;;
  right_child <- get_page right_child_page_num ;;
  left_child_page_num <- get_unused_page_num ;;
  left_child <- get_page left_child_page_num ;;
  memcpy left_child root PAGE_SIZE ;;
  set_node_root left_child false ;;
  initialize_internal_node root ;;
  set_node_root root true ;;
  store32 (internal_node_num_keys root) 1 ;;
  child0 <- internal_node_child root 0 ;;
  store32 child0 left_child_page_num ;;
  left_child_max_key <- get_node_max_key left_child ;;
  store32 (internal_node_key root 0) left_child_max_key ;;
  store32 (internal_node_right_child root) right_child_page_num ;;
  root_page' <- get_root_page_num ;;
  store32 (node_parent left_child) root_page' ;;
  root_page'' <- get_root_page_num ;;
  store32 (node_parent right_child) root_page''.

Section InternalCapacity.

(** db.h declares [INTERNAL_NODE_MAX_CELLS] ("keep this small for
    testing") without its value. *)
Variable INTERNAL_NODE_MAX_CELLS : Z.

Definition internal_node_insert (parent_page_num child_page_num : Z)
    : M unit :=
  parent <- get_page parent_page_num ;;
  child <- get_page child_page_num ;;
  child_max_key <- get_node_max_key child ;;
  index <- internal_node_find_child parent child_max_key ;;
  original_num_keys <- load32 (internal_node_num_keys parent) ;;
  store32 (internal_node_num_keys parent) (u32 (original_num_keys + 1)) ;;
  if original_num_keys >=? INTERNAL_NODE_MAX_CELLS then
    exit_failure NeedToSplitInternalNode
  else
    right_child_page_num <- load32 (internal_node_right_child parent) ;;
    right_child <- get_page right_child_page_num ;;
    right_max <- get_node_max_key right_child ;;
    if child_max_key >? right_max then
      child_ref <- internal_node_child parent original_num_keys ;;
      store32 child_ref right_child_page_num ;;
      right_max' <- get_node_max_key right_child ;;
      store32 (internal_node_key parent original_num_keys) right_max' ;;
      store32 (internal_node_right_child parent) child_page_num
    else
      for_down (Z.to_nat (original_num_keys - index)) index
        (fun i =>
           let destination := internal_node_cell parent i in
           let source := internal_node_cell parent (u32 (i - 1)) in
           memcpy destination source INTERNAL_NODE_CELL_SIZE) ;;
      child_ref <- internal_node_child parent index ;;
      store32 child_ref child_page_num ;;
      store32 (internal_node_key parent index) child_max_key.

(** The body of the [for] loop of [leaf_node_split_and_insert] at virtual
    index [i]. *)
Definition split_step (cursor : Cursor) (key : Z) (value : Row)
    (old_node new_node : ptr) (i : Z) : M unit :=
  let destination_node :=
    if i >=? LEAF_NODE_LEFT_SPLIT_COUNT then new_node else old_node in
  let index_within_node := i mod LEAF_NODE_LEFT_SPLIT_COUNT in
  let destination := leaf_node_cell destination_node index_within_node in
  if i =? cell_num cursor then
    serialize_row value (leaf_node_value destination_node index_within_node) ;;
    store32 (leaf_node_key destination_node index_within_node) key
  else if i >? cell_num cursor then
    memcpy destination (leaf_node_cell old_node (i - 1)) LEAF_NODE_CELL_SIZE
  else
    memcpy destination (leaf_node_cell old_node i) LEAF_NODE_CELL_SIZE.

(** [leaf_node_split_and_insert] up to the update of the cell counts: the
    new leaf is created and linked and the cells are distributed.  Returns
    the old node, its maximum key before the split and the new page. *)
Definition leaf_node_split (cursor : Cursor) (key : Z) (value : Row)
    : M (ptr * Z * Z) :=
  old_node <- get_page (page_num cursor) ;;
  old_max <- get_node_max_key old_node ;;
  new_page_num <- get_unused_page_num ;;
  new_node <- get_page new_page_num ;;
  initialize_leaf_node new_node ;;
  old_parent <- load32 (node_parent old_node) ;;
  store32 (node_parent new_node) old_parent ;;
  old_next <- load32 (leaf_node_next_leaf old_node) ;;
  store32 (leaf_node_next_leaf new_node) old_next ;;
  store32 (leaf_node_next_leaf old_node) new_page_num ;;
  for_down (Z.to_nat (LEAF_NODE_MAX_CELLS + 1)) (-1)
    (split_step cursor key value old_node new_node) ;;
  store32 (leaf_node_num_cells old_node) LEAF_NODE_LEFT_SPLIT_COUNT ;;
  store32 (leaf_node_num_cells new_node) LEAF_NODE_RIGHT_SPLIT_COUNT ;;
  ret (old_node, old_max, new_page_num).

(** The rest of [leaf_node_split_and_insert]: a new root, or the new leaf
    registered in the parent. *)
Definition leaf_node_split_finish (old_node : ptr) (old_max new_page_num : Z)
    : M unit :=
  is_root <- is_node_root old_node ;;
  if is_root then create_new_root new_page_num
  else
    parent_page_num <- load32 (node_parent old_node) ;;
    new_max <- get_node_max_key old_node ;;
    parent <- get_page parent_page_num ;;
    update_internal_node_key parent old_max new_max ;;
    internal_node_insert parent_page_num new_page_num.

Definition leaf_node_split_and_insert (cursor : Cursor) (key : Z)
    (value : Row) : M unit :=
  r <- leaf_node_split cursor key value ;;
  let '(old_node, old_max, new_page_num) := r in
  leaf_node_split_finish old_node old_max new_page_num.

Definition leaf_node_insert (cursor : Cursor) (key : Z) (value : Row)
    : M unit :=
  node <- get_page (page_num cursor) ;;
  num_cells <- load32 (leaf_node_num_cells node) ;;
  if num_cells >=? LEAF_NODE_MAX_CELLS then
    leaf_node_split_and_insert cursor key value
  else
    (if cell_num cursor <? num_cells then
       for_down (Z.to_nat (num_cells - cell_num cursor)) (cell_num cursor)
         (fun i =>
            memcpy (leaf_node_cell node i) (leaf_node_cell node (u32 (i - 1)))
              LEAF_NODE_CELL_SIZE)
     else ret tt) ;;
    n <- load32 (leaf_node_num_cells node) ;;
    store32 (leaf_node_num_cells node) (u32 (n + 1)) ;;
    store32 (leaf_node_key node (cell_num cursor)) key ;;
    serialize_row value (leaf_node_value node (cell_num cursor)).

End InternalCapacity.

(** ** The statement layer's use of the table *)

(** Modelled from the spec: the statement layer, missing from src/: an
    insertion is [find(key)] followed by [insert(cursor, key, row)]. *)
Definition insert_row (max_cells : Z) (mem : Cursor) (key : Z) (value : Row)
    : M unit :=
  cursor <- table_find mem key ;;
  leaf_node_insert max_cells cursor key value.

Fixpoint insert_rows (max_cells : Z) (mem : Cursor) (rows : list (Z * Row))
    : M unit :=
  match rows with
  | [] => ret tt
  | (key, value) :: rest =>
      insert_row max_cells mem key value ;; insert_rows max_cells mem rest
  end.

(** The key of the cell under the cursor. *)
Definition cursor_key (cursor : Cursor) : M Z :=
  node <- get_page (page_num cursor) ;;
  load32 (leaf_node_key node (cell_num cursor)).

(** Modelled from the spec: the statement layer's scan, missing from src/:
    [while (!cursor->end_of_table) { visit; cursor_advance(cursor); }] *)
Fixpoint scan_from (fuel : nat) (cursor : Cursor) : M (list Z) :=
  if end_of_table cursor then ret []
  else
    match fuel with
    | O => diverge
    | S fuel' =>
        k <- cursor_key cursor ;;
        cursor' <- cursor_advance cursor ;;
        rest <- scan_from fuel' cursor' ;;
        ret (k :: rest)
    end.

Definition scan (fuel : nat) (mem : Cursor) : M (list Z) :=
  cursor <- table_start mem ;; scan_from fuel cursor.


(** [n] successive calls of [cursor_advance]. *)
Fixpoint advance_times (n : nat) (cursor : Cursor) : M Cursor :=
  match n with
  | O => ret cursor
  | S n' => cursor' <- cursor_advance cursor ;; advance_times n' cursor'
  end.

(** ** Operations on an open table *)

(** The calls a statement layer makes on an open table. *)
Inductive operation : Type :=
| Find (mem : Cursor) (key : Z)
| Start (mem : Cursor)
| Value (cursor : Cursor)
| Advance (cursor : Cursor)
| Insert (cursor : Cursor) (key : Z) (value : Row).

Definition run_operation (max_cells : Z) (o : operation) : M unit :=
  match o with
  | Find mem key => _ <- table_find mem key ;; ret tt
  | Start mem => _ <- table_start mem ;; ret tt
  | Value cursor => _ <- cursor_value cursor ;; ret tt
  | Advance cursor => _ <- cursor_advance cursor ;; ret tt
  | Insert cursor key value => leaf_node_insert max_cells cursor key value
  end.

(** ** Closing the table *)

(** The file after [lseek] to the offset of page [n] and [write] of the
    [PAGE_SIZE] bytes of the buffer [c]: a write beyond the end of the
    file extends it, and the pages in between read as zero bytes. *)
Definition write_page (f : list page) (n : nat) (c : page) : list page :=
  firstn n f ++ repeat zero_page (n - length f) ++ c :: skipn (S n) f.

(** Modelled from the spec: [pager_flush], missing from src/.  It writes
    the cached buffer of page [n] back to the file at the offset of the
    page; the flush of a page that is not in the cache is fatal ([None]). *)
Definition pager_flush (pg : Pager) (n : Z) : option Pager :=
  match pages pg n with
  | Some c =>
      Some (mkPager (write_page (file pg) (Z.to_nat n) c) (num_pages pg)
              (pages pg))
  | None => None
  end.

(** [free(pager->pages[i]); pager->pages[i] = NULL;] *)
Definition free_page (pg : Pager) (i : Z) : Pager :=
  mkPager (file pg) (num_pages pg)
    (fun m => if m =? i then None else pages pg m).

(** How the close of a table ends: it returns (with what is left), the
    process exits through [exit(EXIT_FAILURE)], or the array [pages],
    which has [TABLE_MAX_PAGES] entries, is indexed beyond its end. *)
Inductive closing (A : Type) : Type :=
| Closed (a : A)
| CloseExit
| CloseFault.
Arguments Closed {A} a.
Arguments CloseExit {A}.
Arguments CloseFault {A}.

(** The first loop of [db_close], [n] iterations from [i]:
    [for (; i < pager->num_pages; i++)]. *)
Fixpoint flush_pages (n : nat) (i : Z) (pg : Pager) : closing Pager :=
  match n with
  | O => Closed pg
  | S n' =>
      if TABLE_MAX_PAGES <=? i then CloseFault
      else
        match pages pg i with
        | None => flush_pages n' (i + 1) pg
        | Some _ =>
            match pager_flush pg i with
            | Some pg' => flush_pages n' (i + 1) (free_page pg' i)
            | None => CloseExit
            end
        end
  end.

(** The second loop of [db_close], [n] iterations from [i]:
    [for (; i < TABLE_MAX_PAGES; i++)]. *)
Fixpoint free_pages (n : nat) (i : Z) (pg : Pager) : Pager :=
  match n with
  | O => pg
  | S n' =>
      free_pages n' (i + 1)
        (match pages pg i with
         | Some _ => free_page pg i
         | None => pg
         end)
  end.

(** [db_close]; [close_result] is what [close] returns for the file
    descriptor.  The pager and the table are freed at the end: what is
    left of a closed table is its file. *)
Definition db_close (close_result : Z) (t : Table) : closing (list page) :=
  let pager := pager t in
  match flush_pages (Z.to_nat (num_pages pager)) 0 pager with
  | Closed pager1 =>
      if close_result =? -1 then CloseExit
      else Closed (file (free_pages (Z.to_nat TABLE_MAX_PAGES) 0 pager1))
  | CloseExit => CloseExit
  | CloseFault => CloseFault
  end.
(** * Vocabulary of the specification *)

(** The bytes of page [n]: the cached buffer, or the file's page when the
    page is not loaded yet. *)
Definition content (t : Table) (n : Z) : page :=
  match pages (pager t) n with
  | Some c => c
  | None => file_page (pager t) n
  end.

Definition cached (t : Table) (n : Z) : Prop := pages (pager t) n <> None.

(** The cache holds only pages below the page count, which is within the
    capacity of the store. *)
Definition pager_wf (t : Table) : Prop :=
  0 <= num_pages (pager t) <= TABLE_MAX_PAGES /\
  Z.of_nat (length (file (pager t))) <= num_pages (pager t) /\
  forall m, cached t m -> 0 <= m < num_pages (pager t).

(** [get_page] of a page below the page count: the page is in the cache
    afterwards and no byte of the store changes. *)
Definition load_page (t : Table) (n : Z) : Table :=
  match pages (pager t) n with
  | Some _ => t
  | None => set_page t n (file_page (pager t) n)
  end.

(** [get_page] of the first unused page: a zeroed page is appended. *)
Definition append_page (t : Table) : Table :=
  let n := num_pages (pager t) in
  mkTable
    (mkPager (file (pager t)) (n + 1)
       (fun m => if m =? n then Some zero_page else pages (pager t) m))
    (root_page_num t).

Definition type_of (c : page) : Z := byte_at c NODE_TYPE_OFFSET.
Definition root_flag (c : page) : bool := negb (byte_at c IS_ROOT_OFFSET =? 0).
Definition parent_ref (c : page) : Z := get32 c PARENT_POINTER_OFFSET.
Definition cell_count (c : page) : Z := get32 c LEAF_NODE_NUM_CELLS_OFFSET.
Definition next_leaf_ref (c : page) : Z := get32 c LEAF_NODE_NEXT_LEAF_OFFSET.
Definition leaf_key (c : page) (i : Z) : Z :=
  get32 c (LEAF_NODE_HEADER_SIZE + i * LEAF_NODE_CELL_SIZE).
Definition leaf_cell (c : page) (i : Z) : list Z :=
  bytes_at c (LEAF_NODE_HEADER_SIZE + i * LEAF_NODE_CELL_SIZE)
    (Z.to_nat LEAF_NODE_CELL_SIZE).
Definition key_count (c : page) : Z := get32 c INTERNAL_NODE_NUM_KEYS_OFFSET.
Definition right_child_ref (c : page) : Z :=
  get32 c INTERNAL_NODE_RIGHT_CHILD_OFFSET.
Definition child_ref (c : page) (i : Z) : Z :=
  get32 c (INTERNAL_NODE_HEADER_SIZE + i * INTERNAL_NODE_CELL_SIZE).
Definition sep_key (c : page) (i : Z) : Z :=
  get32 c (INTERNAL_NODE_HEADER_SIZE + i * INTERNAL_NODE_CELL_SIZE
           + INTERNAL_NODE_CHILD_SIZE).

Definition wp {A} (m : M A) (t : Table) (Q : A -> Table -> Prop) : Prop :=
  match m t with
  | Ok a t' => Q a t'
  | _ => False
  end.

(** The keys of a leaf are strictly ascending. *)
Definition strictly_ascending (c : page) : Prop :=
  forall i j, 0 <= i < j -> j < cell_count c -> leaf_key c i < leaf_key c j.

(** What the loop of [leaf_node_find] establishes for the cell number [r]. *)
Definition find_post (c : page) (key r : Z) : Prop :=
  0 <= r <= cell_count c /\
  ((r < cell_count c /\ leaf_key c r = key) \/
   ((forall i, 0 <= i < r -> leaf_key c i < key) /\
    (forall i, r <= i < cell_count c -> key < leaf_key c i))).

(** The separator keys of an internal node are ascending, and its cells
    lie within the page. *)
Definition separators_ascending (c : page) : Prop :=
  forall i j, 0 <= i <= j -> j < key_count c -> sep_key c i <= sep_key c j.

Definition keys_in_page (c : page) : Prop :=
  INTERNAL_NODE_HEADER_SIZE + key_count c * INTERNAL_NODE_CELL_SIZE
  <= PAGE_SIZE.

(** [r] is the first index whose separator is at least [key]. *)
Definition first_separator_geq (c : page) (key r : Z) : Prop :=
  0 <= r <= key_count c /\
  (forall i, 0 <= i < r -> sep_key c i < key) /\
  (forall i, r <= i < key_count c -> key <= sep_key c i).

(** ** Sample tables *)

(** The table whose store holds the pages [l], all of them in the cache. *)
Definition table_of (l : list page) : Table :=
  mkTable
    (mkPager [] (Z.of_nat (length l))
       (fun m => if (0 <=? m) && (m <? Z.of_nat (length l))
                 then Some (nth (Z.to_nat m) l zero_page) else None))
    0.

Definition put32 (off v : Z) (c : page) : page := blit c off 4 (le32 v).
Definition put8 (off v : Z) (c : page) : page := blit c off 1 (le32 v).

(** A root leaf with the keys 10, 20, 30. *)
Definition sample_leaf : page :=
  put32 608 30 (put32 311 20 (put32 14 10
    (put32 6 3 (put8 1 1 (put8 0 NODE_LEAF zero_page))))).

(** An internal root with the separators 10, 20 over the children 2, 3 and
    the rightmost child 1. *)
Definition sample_internal : page :=
  put32 26 20 (put32 22 3 (put32 18 10 (put32 14 2
    (put32 10 1 (put32 6 2 (put8 1 1 (put8 0 NODE_INTERNAL zero_page))))))).

(** ** Relating two states of the table *)

(** [t'] has the file, the page count and the root page number of [t], and
    its cache holds the pages cached in [t] and possibly more pages of the
    store. *)
Definition extends (t t' : Table) : Prop :=
  file (pager t') = file (pager t) /\
  num_pages (pager t') = num_pages (pager t) /\
  root_page_num t' = root_page_num t /\
  (forall m, cached t m -> cached t' m) /\
  (forall m, cached t' m -> cached t m \/ 0 <= m < num_pages (pager t)).

(** The bytes from [lo] to [hi] moved up by [w] bytes. *)
Definition shifted (c : page) (lo hi w : Z) : page :=
  fun a => if (lo + w <=? a) && (a <? hi + w) then c (a - w) else c a.

(** Weakest precondition with a postcondition for [exit] as well. *)
Definition wpe {A} (m : M A) (t : Table) (Q : A -> Table -> Prop)
    (E : fatal -> Table -> Prop) : Prop :=
  match m t with
  | Ok a t' => Q a t'
  | Exit e t' => E e t'
  | _ => False
  end.

(** A leaf that holds at least one cell, and its last key. *)
Definition nonempty_leaf (c : page) : Prop :=
  type_of c = NODE_LEAF /\ 1 <= cell_count c <= LEAF_NODE_MAX_CELLS.

Definition leaf_max_key (c : page) : Z := leaf_key c (cell_count c - 1).

(** A page holds [n] internal cells after the header. *)
Definition internal_cells_fit (n : Z) : Prop :=
  INTERNAL_NODE_HEADER_SIZE + n * INTERNAL_NODE_CELL_SIZE <= PAGE_SIZE.

(** The cells of an internal node after [internal_node_insert] of [child]
    (maximum key [child_max]) at [index], where [rc] (maximum key
    [rc_max]) was the rightmost child: [c] before, [c'] after. *)
Definition child_inserted (c c' : page) (index child child_max rc rc_max : Z)
    : Prop :=
  key_count c' = key_count c + 1 /\
  (forall a, 0 <= a < COMMON_NODE_HEADER_SIZE -> c' a = c a) /\
  (rc_max < child_max ->
   right_child_ref c' = child /\
   child_ref c' (key_count c) = rc /\
   sep_key c' (key_count c) = rc_max /\
   (forall i, 0 <= i < key_count c ->
              child_ref c' i = child_ref c i /\ sep_key c' i = sep_key c i)) /\
  (child_max <= rc_max ->
   right_child_ref c' = rc /\
   child_ref c' index = child /\
   sep_key c' index = child_max /\
   (forall i, 0 <= i < index ->
              child_ref c' i = child_ref c i /\ sep_key c' i = sep_key c i) /\
   (forall i, index < i <= key_count c ->
              child_ref c' i = child_ref c (i - 1) /\
              sep_key c' i = sep_key c (i - 1))).

(** The table after [create_new_root] with right child [r], where the old
    root was a leaf: [t] before, [t'] after. *)
Definition root_promoted (t t' : Table) (r : Z) : Prop :=
  let left := num_pages (pager t) in
  let old_root := content t 0 in
  num_pages (pager t') = left + 1 /\
  root_page_num t' = root_page_num t /\
  (forall a, 0 <= a < PAGE_SIZE -> a < IS_ROOT_OFFSET \/
             COMMON_NODE_HEADER_SIZE <= a ->
             content t' left a = old_root a) /\
  root_flag (content t' left) = false /\
  parent_ref (content t' left) = 0 /\
  type_of (content t' 0) = NODE_INTERNAL /\
  root_flag (content t' 0) = true /\
  key_count (content t' 0) = 1 /\
  child_ref (content t' 0) 0 = left /\
  sep_key (content t' 0) 0 = leaf_max_key old_root /\
  right_child_ref (content t' 0) = r /\
  parent_ref (content t' r) = 0 /\
  (forall a, a < PARENT_POINTER_OFFSET \/ COMMON_NODE_HEADER_SIZE <= a ->
             content t' r a = content t r a) /\
  (forall m, m <> 0 -> m <> r -> m <> left -> content t' m = content t m).

(** ** Splitting a leaf *)

(** The bytes of the cell made of [key] and the serialized [value]. *)
Definition cell_image (key : Z) (value : Row) : Z -> Z :=
  fun d => if d <? LEAF_NODE_KEY_SIZE then le32 key d
           else of_list (row_bytes value) (d - LEAF_NODE_KEY_SIZE).

(** Byte [d] of virtual cell [i] of the split: the cells of the full leaf
    [c] with the new cell at [index]. *)
Definition split_source (c : page) (index key : Z) (value : Row) (i d : Z)
    : Z :=
  if i =? index then cell_image key value d
  else if index <? i
       then c (LEAF_NODE_HEADER_SIZE + (i - 1) * LEAF_NODE_CELL_SIZE + d)
       else c (LEAF_NODE_HEADER_SIZE + i * LEAF_NODE_CELL_SIZE + d).

(** The table after the cells of the full leaf [p] were distributed: [t]
    before, [t'] after, the new leaf on the page that was unused. *)
Definition leaf_split_done (t t' : Table) (p index key : Z) (value : Row)
    : Prop :=
  let new := num_pages (pager t) in
  let old := content t p in
  num_pages (pager t') = new + 1 /\
  root_page_num t' = root_page_num t /\
  (forall m, m <> p -> m <> new -> content t' m = content t m) /\
  (forall a, 0 <= a < COMMON_NODE_HEADER_SIZE -> content t' p a = old a) /\
  cell_count (content t' p) = LEAF_NODE_LEFT_SPLIT_COUNT /\
  next_leaf_ref (content t' p) = new /\
  (forall i d, 0 <= i < LEAF_NODE_LEFT_SPLIT_COUNT ->
               0 <= d < LEAF_NODE_CELL_SIZE ->
               content t' p (LEAF_NODE_HEADER_SIZE + i * LEAF_NODE_CELL_SIZE + d)
               = split_source old index key value i d) /\
  type_of (content t' new) = NODE_LEAF /\
  root_flag (content t' new) = false /\
  parent_ref (content t' new) = parent_ref old /\
  cell_count (content t' new) = LEAF_NODE_RIGHT_SPLIT_COUNT /\
  next_leaf_ref (content t' new) = next_leaf_ref old /\
  (forall i d, 0 <= i < LEAF_NODE_RIGHT_SPLIT_COUNT ->
               0 <= d < LEAF_NODE_CELL_SIZE ->
               content t' new
                 (LEAF_NODE_HEADER_SIZE + i * LEAF_NODE_CELL_SIZE + d)
               = split_source old index key value
                   (LEAF_NODE_LEFT_SPLIT_COUNT + i) d).

(** The loop of the split after the virtual cells [k ..] were placed. *)
Definition split_progress (t0 t' : Table) (p new index key : Z) (value : Row)
    (k : Z) : Prop :=
  extends t0 t' /\
  (forall m, m <> p -> m <> new -> content t' m = content t0 m) /\
  (forall a, a < 14 + Z.min k 7 * 297 \/ 14 + 7 * 297 <= a ->
             content t' p a = content t0 p a) /\
  (forall i d, k <= i < 7 -> 0 <= d < 297 ->
               content t' p (14 + i * 297 + d)
               = split_source (content t0 p) index key value i d) /\
  (forall a, a < 14 + (Z.max k 7 - 7) * 297 \/ 14 + 7 * 297 <= a ->
             content t' new a = content t0 new a) /\
  (forall i d, Z.max k 7 <= i <= 13 -> 0 <= d < 297 ->
               content t' new (14 + (i - 7) * 297 + d)
               = split_source (content t0 p) index key value i d).

(** The first [n] cells of a leaf, the cell made of a key and a row, and
    the ordered merge of the cells of a full leaf with a new cell at
    [index]. *)
Definition leaf_cells (c : page) (n : nat) : list (list Z) :=
  map (fun i => leaf_cell c (Z.of_nat i)) (seq 0 n).

Definition new_cell (key : Z) (value : Row) : list Z :=
  bytes_at (cell_image key value) 0 (Z.to_nat LEAF_NODE_CELL_SIZE).


(** A leaf with the single key [k], and a full leaf with the keys
    10, 20, .., 130. *)
Definition sample_leaf_of (k : Z) : page :=
  put32 14 k (put32 6 1 (put8 0 NODE_LEAF zero_page)).


(** The root [sample_internal] with its three leaves (pages 1, 2, 3) and
    one more leaf on page 4. *)
Definition sample_tree : Table :=
  table_of [sample_internal; sample_leaf_of 30; sample_leaf_of 10;
            sample_leaf_of 20; sample_leaf_of 15].

(** ** The root flag *)

(** Weakest liberal precondition: what holds if the call returns. *)
Definition wlp {A} (m : M A) (t : Table) (Q : A -> Table -> Prop) : Prop :=
  match m t with
  | Ok a t' => Q a t'
  | _ => True
  end.

(** Between [t] and [t'] no root flag and not the type of page 0 changed. *)
Definition flags_kept (t t' : Table) : Prop :=
  pager_wf t' /\
  root_page_num t' = root_page_num t /\
  num_pages (pager t) <= num_pages (pager t') /\
  type_of (content t' 0) = type_of (content t 0) /\
  forall n, root_flag (content t' n) = root_flag (content t n).

(** A computation that keeps the flags, and returns results in [P]. *)
Definition keeps {A} (m : M A) (P : A -> Prop) : Prop :=
  forall t, pager_wf t -> wlp m t (fun a t' => flags_kept t t' /\ P a).

(** Page 0 is the root, the one page whose root flag is set, and it holds
    a leaf or an internal node. *)
Definition root_inv (t : Table) : Prop :=
  pager_wf t /\
  root_page_num t = 0 /\
  0 < num_pages (pager t) /\
  (forall n, 0 <= n -> (root_flag (content t n) = true <-> n = 0)) /\
  (type_of (content t 0) = NODE_LEAF \/ type_of (content t 0) = NODE_INTERNAL).

(** The arguments of an operation are values of their C types. *)
Definition uint32 (z : Z) : Prop := 0 <= z < 4294967296.

Definition cursor_ok (c : Cursor) : Prop :=
  uint32 (page_num c) /\ uint32 (cell_num c).

Definition operation_ok (o : operation) : Prop :=
  match o with
  | Find mem key => uint32 key
  | Start mem => True
  | Value cursor => cursor_ok cursor
  | Advance cursor => cursor_ok cursor
  | Insert cursor key value => cursor_ok cursor /\ uint32 key
  end.

(** A database file written by this engine: at most [TABLE_MAX_PAGES]
    pages, and if it has pages, page 0 is the root, the one page with the
    root flag. *)
Definition file_ok (f : list page) : Prop :=
  Z.of_nat (length f) <= TABLE_MAX_PAGES /\
  (f <> [] ->
   (forall n, root_flag (nth n f zero_page) = true <-> n = O) /\
   (type_of (nth O f zero_page) = NODE_LEAF \/
    type_of (nth O f zero_page) = NODE_INTERNAL)).

(** The states of a table between [db_open] and [db_close]. *)
Inductive reachable (max_cells : Z) : Table -> Prop :=
| reachable_open f t :
    file_ok f -> db_open f = Ok tt t -> reachable max_cells t
| reachable_step t o t' :
    reachable max_cells t -> operation_ok o ->
    run_operation max_cells o t = Ok tt t' -> reachable max_cells t'.

(** One operation leads from [t] to [t']: the invariant holds again and a
    root that was an internal node still is one. *)
Definition root_step (t t' : Table) : Prop :=
  root_inv t' /\
  (type_of (content t 0) = NODE_INTERNAL ->
   type_of (content t' 0) = NODE_INTERNAL).

(** ** The tree as a list of leaves *)

(** The page [c] holds a leaf with the keys [ks]. *)
Definition leaf_keys_are (c : page) (ks : list Z) : Prop :=
  type_of c = NODE_LEAF /\
  cell_count c = Z.of_nat (length ks) /\
  (length ks <= 13)%nat /\
  forall i, (i < length ks)%nat -> leaf_key c (Z.of_nat i) = nth i ks 0.

(** Page [p] of [t] is a leaf with the keys [ks], followed by the leaf
    [next]; a leaf that is not the root has page 0 as parent. *)
Definition leaf_at (t : Table) (p : Z) (ks : list Z) (next : Z)
    (is_root : bool) : Prop :=
  leaf_keys_are (content t p) ks /\
  root_flag (content t p) = is_root /\
  (is_root = false -> parent_ref (content t p) = 0) /\
  next_leaf_ref (content t p) = next.

Definition first_page (ls : list (Z * list Z)) (stop : Z) : Z :=
  match ls with
  | [] => stop
  | (q, _) :: _ => q
  end.

(** The leaves [ls] (page, keys) are non-empty leaves of [t] below the
    root, each linked to the next one, the last one to [stop]. *)
Fixpoint linked (t : Table) (ls : list (Z * list Z)) (stop : Z) : Prop :=
  match ls with
  | [] => True
  | (p, ks) :: rest =>
      0 < p < num_pages (pager t) /\ ks <> [] /\
      leaf_at t p ks (first_page rest stop) false /\
      linked t rest stop
  end.

Definition all_keys (ls : list (Z * list Z)) : list Z := concat (map snd ls).

(** The cells of the internal node [c] are the leaves [ls]: a cell per
    leaf but the last, keyed by the leaf's maximum, and the last leaf as
    rightmost child. *)
Definition root_cells (c : page) (ls : list (Z * list Z)) : Prop :=
  key_count c = Z.of_nat (length ls) - 1 /\
  (forall i, (S i < length ls)%nat ->
             child_ref c (Z.of_nat i) = fst (nth i ls (0, [])) /\
             sep_key c (Z.of_nat i) = last (snd (nth i ls (0, []))) 0) /\
  right_child_ref c = fst (last ls (0, [])).

(** The table [t] holds the tree whose leaves are [ls], in key order:
    either the root is the one leaf, or it is an internal node over at
    least two leaves. *)
Definition tree_rep (t : Table) (ls : list (Z * list Z)) : Prop :=
  pager_wf t /\ root_page_num t = 0 /\ 0 < num_pages (pager t) /\
  StronglySorted Z.lt (all_keys ls) /\
  ((exists ks, ls = [(0, ks)] /\ leaf_at t 0 ks 0 true) \/
   (type_of (content t 0) = NODE_INTERNAL /\ (2 <= length ls)%nat /\
    root_cells (content t 0) ls /\ linked t ls 0 /\ NoDup (map fst ls))).

(** [key] put at position [idx] of [ks]. *)
Definition insert_at (idx : nat) (key : Z) (ks : list Z) : list Z :=
  firstn idx ks ++ key :: skipn idx ks.

(** The call returns with [Q], or the process exits on exhausted capacity;
    there is no undefined behaviour and no divergence. *)
Definition wpx {A} (m : M A) (t : Table) (Q : A -> Table -> Prop) : Prop :=
  wpe m t Q (fun _ _ => True).

(** Leaf [j] of [ls] replaced by [x], or by the two leaves [x] and [y]. *)
Definition replace_leaf (j : nat) (x : Z * list Z) (ls : list (Z * list Z))
    : list (Z * list Z) :=
  firstn j ls ++ x :: skipn (S j) ls.

Definition split_leaf (j : nat) (x y : Z * list Z) (ls : list (Z * list Z))
    : list (Z * list Z) :=
  firstn j ls ++ x :: y :: skipn (S j) ls.

(** Leaf [j] of [ls] in the table [t], linked to the leaf after it. *)
Definition leaf_ok (t : Table) (ls : list (Z * list Z)) (stop : Z) (j : nat)
    : Prop :=
  0 < fst (nth j ls (0, [])) < num_pages (pager t) /\
  snd (nth j ls (0, [])) <> [] /\
  leaf_at t (fst (nth j ls (0, []))) (snd (nth j ls (0, [])))
    (if (S j <? length ls)%nat then fst (nth (S j) ls (0, [])) else stop)
    false.

(** Where [table_find] of [key] lands: on leaf [j], the first leaf whose
    maximum is at least [key] or the last leaf, at the cell [find_post]
    describes. *)
Definition found_at (t : Table) (ls : list (Z * list Z)) (key : Z)
    (c : Cursor) (j : nat) : Prop :=
  (j < length ls)%nat /\
  page_num c = fst (nth j ls (0, [])) /\
  find_post (content t (page_num c)) key (cell_num c) /\
  (forall i, (i < j)%nat -> last (snd (nth i ls (0, []))) 0 < key) /\
  ((S j < length ls)%nat -> key <= last (snd (nth j ls (0, []))) 0).

(** The keys of the tree around the position of a new key in leaf [j]. *)
Definition keys_before (ls : list (Z * list Z)) (j r : nat) : list Z :=
  all_keys (firstn j ls) ++ firstn r (snd (nth j ls (0, []))).

Definition keys_after (ls : list (Z * list Z)) (j r : nat) : list Z :=
  skipn r (snd (nth j ls (0, []))) ++ all_keys (skipn (S j) ls).

(** The leaves [ls] of [t] as the chain that [cursor_advance] follows. *)
Definition chain (t : Table) (ls : list (Z * list Z)) : Prop :=
  forall i, (i < length ls)%nat ->
    0 <= fst (nth i ls (0, [])) < num_pages (pager t) /\
    leaf_keys_are (content t (fst (nth i ls (0, []))))
      (snd (nth i ls (0, []))) /\
    next_leaf_ref (content t (fst (nth i ls (0, []))))
    = (if (S i <? length ls)%nat then fst (nth (S i) ls (0, [])) else 0) /\
    ((S i < length ls)%nat ->
     fst (nth (S i) ls (0, [])) <> 0 /\ snd (nth (S i) ls (0, [])) <> []).

(** The keys from cell [r] of leaf [j] on. *)
Definition keys_from (ls : list (Z * list Z)) (j r : nat) : list Z :=
  skipn r (snd (nth j ls (0, []))) ++ all_keys (skipn (S j) ls).

(** ** The rows of a table *)

(** The leaf [c] holds, for each of its keys [ks], the cell made of the key
    and of the row that [f] gives for it. *)
Definition leaf_holds (c : page) (ks : list Z) (f : Z -> Row) : Prop :=
  forall i d, (i < length ks)%nat -> 0 <= d < LEAF_NODE_CELL_SIZE ->
    c (LEAF_NODE_HEADER_SIZE + Z.of_nat i * LEAF_NODE_CELL_SIZE + d)
    = cell_image (nth i ks 0) (f (nth i ks 0)) d.

Definition tree_holds (t : Table) (ls : list (Z * list Z)) (f : Z -> Row)
    : Prop :=
  forall j, (j < length ls)%nat ->
    leaf_holds (content t (fst (nth j ls (0, [])))) (snd (nth j ls (0, []))) f.

(** [f] with the row [value] under [key]. *)
Definition with_row (f : Z -> Row) (key : Z) (value : Row) : Z -> Row :=
  fun k => if k =? key then value else f k.

(** The row each key has after the inserts of [rows], one after the other. *)
Definition row_of (rows : list (Z * Row)) (d : Row) : Z -> Row :=
  fold_left (fun f kv => with_row f (fst kv) (snd kv)) rows (fun _ => d).

(** The leaves [ls'] of [t'] after the insert of [key] into the leaves [ls]
    of [t]: the key went into a leaf with room, or the root leaf was split
    (two new pages), or a leaf below the root was (one new page). *)
Definition grown (t t' : Table) (ls ls' : list (Z * list Z)) (key : Z)
    : Prop :=
  exists j r,
    (j < length ls)%nat /\ (r <= length (snd (nth j ls (0%Z, []))))%nat /\
    let p := fst (nth j ls (0, [])) in
    let ks' := insert_at r key (snd (nth j ls (0, []))) in
    let np := num_pages (pager t) in
    ((length ks' <= 13)%nat /\ ls' = replace_leaf j (p, ks') ls /\
     num_pages (pager t') = np) \/
    (length ks' = 14%nat /\ length ls = 1%nat /\
     ls' = [(np + 1, firstn 7 ks'); (np, skipn 7 ks')] /\
     num_pages (pager t') = np + 2) \/
    (length ks' = 14%nat /\ (2 <= length ls)%nat /\
     ls' = split_leaf j (p, firstn 7 ks') (np, skipn 7 ks') ls /\
     num_pages (pager t') = np + 1).

(** Every page of the store is the root or one of the leaves. *)
Definition pages_used (t : Table) (ls : list (Z * list Z)) : Prop :=
  num_pages (pager t)
  = if (length ls =? 1)%nat then 1 else Z.of_nat (length ls) + 1.

(** The leaves below an internal root are at least half full. *)
Definition half_full (ls : list (Z * list Z)) : Prop :=
  (2 <= length ls)%nat ->
  forall j, (j < length ls)%nat ->
            (7 <= length (snd (nth j ls (0%Z, []))))%nat.

(** The condition under which an insert into the tree [ls] of [t] exits:
    no page is left for the new leaf (and the copy of the root), or the
    root holds [max_cells] keys already. *)
Definition capacity_reached (max_cells : Z) (t : Table)
    (ls : list (Z * list Z)) (e : fatal) : Prop :=
  match e with
  | PageNumberOutOfBounds =>
      TABLE_MAX_PAGES
      <= num_pages (pager t) + (if (length ls =? 1)%nat then 1 else 0)
  | NeedToSplitInternalNode =>
      (2 <= length ls)%nat /\ max_cells <= Z.of_nat (length ls) - 1
  end.

(** ** A sample run *)

(** The table an outcome leaves, and whether the call returned. *)
Definition final {A} (o : outcome A) (d : Table) : Table :=
  match o with
  | Ok _ t => t
  | _ => d
  end.

Definition returns {A} (o : outcome A) : bool :=
  match o with
  | Ok _ _ => true
  | _ => false
  end.

(** The value an outcome returns. *)
Definition result {A} (o : outcome A) (d : A) : A :=
  match o with
  | Ok a _ => a
  | _ => d
  end.

(** Twenty-two rows in no particular order: the fourteenth insert splits
    the root, the twenty-first one a leaf below it. *)
Definition sample_row (key : Z) : Z * Row :=
  (key, mkRow key [117; 115; 101; 114] [117; 64; 120]).

Definition sample_rows : list (Z * Row) :=
  map sample_row
    [50; 10; 90; 30; 70; 20; 80; 40; 60; 100; 5; 95; 15; 85;
     200; 207; 201; 206; 202; 205; 203; 204].

Definition sample_empty : Table :=
  final (db_open []) (mkTable (pager_open []) 0).

Definition sample_filled : Table :=
  final (insert_rows 3 (mkCursor 0 0 true) sample_rows sample_empty)
    sample_empty.

(** Whether a close returned, and the file it left. *)
Definition closes {A} (c : closing A) : bool :=
  match c with
  | Closed _ => true
  | _ => false
  end.

Definition closed_file (c : closing (list page)) : list page :=
  match c with
  | Closed f => f
  | _ => []
  end.

(** The sample table closed and opened again, and three more rows. *)
Definition sample_file : list page := closed_file (db_close 0 sample_filled).

Definition sample_reopened : Table :=
  final (db_open sample_file) sample_empty.

Definition sample_more_rows : list (Z * Row) := map sample_row [300; 1; 150].

Definition sample_extended : Table :=
  final (insert_rows 3 (mkCursor 0 0 true) sample_more_rows sample_reopened)
    sample_reopened.
(** ** Layout constants as numbers *)

Lemma LEAF_NODE_MAX_CELLS_eq : LEAF_NODE_MAX_CELLS = 13.
Proof. reflexivity. Qed.

Lemma LEAF_NODE_LEFT_SPLIT_COUNT_eq : LEAF_NODE_LEFT_SPLIT_COUNT = 7.
Proof. reflexivity. Qed.

Lemma LEAF_NODE_RIGHT_SPLIT_COUNT_eq : LEAF_NODE_RIGHT_SPLIT_COUNT = 7.
Proof. reflexivity. Qed.

Ltac consts :=
  change LEAF_NODE_MAX_CELLS with 13 in *;
  change LEAF_NODE_LEFT_SPLIT_COUNT with 7 in *;
  change LEAF_NODE_RIGHT_SPLIT_COUNT with 7 in *;
  change LEAF_NODE_CELL_SIZE with 297 in *;
  change LEAF_NODE_HEADER_SIZE with 14 in *;
  change LEAF_NODE_KEY_SIZE with 4 in *;
  change LEAF_NODE_NUM_CELLS_OFFSET with 6 in *;
  change LEAF_NODE_NEXT_LEAF_OFFSET with 10 in *;
  change INTERNAL_NODE_NUM_KEYS_OFFSET with 6 in *;
  change INTERNAL_NODE_RIGHT_CHILD_OFFSET with 10 in *;
  change INTERNAL_NODE_HEADER_SIZE with 14 in *;
  change INTERNAL_NODE_CELL_SIZE with 8 in *;
  change INTERNAL_NODE_CHILD_SIZE with 4 in *;
  change COMMON_NODE_HEADER_SIZE with 6 in *;
  change PARENT_POINTER_OFFSET with 2 in *;
  change IS_ROOT_OFFSET with 1 in *;
  change NODE_TYPE_OFFSET with 0 in *;
  change ROW_SIZE with 293 in *;
  change PAGE_SIZE with 4096 in *;
  change TABLE_MAX_PAGES with 100 in *;
  change NODE_LEAF with 1 in *;
  change NODE_INTERNAL with 0 in *.

(** ** Bytes and 32-bit fields *)

Lemma byte_at_range p a : 0 <= byte_at p a < 256.
Proof. unfold byte_at. apply Z.mod_pos_bound. lia. Qed.

Lemma get32_range p off : 0 <= get32 p off < 4294967296.
Proof.
  unfold get32.
  pose proof (byte_at_range p off). pose proof (byte_at_range p (off + 1)).
  pose proof (byte_at_range p (off + 2)). pose proof (byte_at_range p (off + 3)).
  lia.
Qed.

Lemma u32_range z : 0 <= u32 z < 4294967296.
Proof. unfold u32. apply Z.mod_pos_bound. lia. Qed.

Lemma u32_small z : 0 <= z < 4294967296 -> u32 z = z.
Proof. unfold u32. intros. apply Z.mod_small. lia. Qed.

Lemma byte_at_blit_in p dst len src a :
  dst <= a < dst + len -> byte_at (blit p dst len src) a = src (a - dst) mod 256.
Proof.
  intros H. unfold byte_at, blit.
  replace ((dst <=? a) && (a <? dst + len)) with true; [reflexivity|].
  symmetry. apply andb_true_intro. split; [apply Z.leb_le | apply Z.ltb_lt]; lia.
Qed.

Lemma byte_at_blit_out p dst len src a :
  a < dst \/ dst + len <= a -> byte_at (blit p dst len src) a = byte_at p a.
Proof.
  intros H. unfold byte_at, blit.
  replace ((dst <=? a) && (a <? dst + len)) with false; [reflexivity|].
  symmetry. apply andb_false_iff.
  destruct H; [left; apply Z.leb_gt | right; apply Z.ltb_ge]; lia.
Qed.

(** A field outside the written range keeps its value. *)
Lemma get32_blit_out p dst len src off :
  off + 4 <= dst \/ dst + len <= off ->
  get32 (blit p dst len src) off = get32 p off.
Proof.
  intros H. unfold get32.
  rewrite !byte_at_blit_out by lia. reflexivity.
Qed.

(** A field inside a copied range has the value it had in the source. *)
Lemma get32_blit_copy p dst len (c : page) soff off :
  dst <= off -> off + 4 <= dst + len ->
  get32 (blit p dst len (fun i => c (soff + i))) off
  = get32 c (soff + (off - dst)).
Proof.
  intros H1 H2. unfold get32.
  rewrite !byte_at_blit_in by lia. unfold byte_at.
  repeat (f_equal; try lia).
Qed.

Lemma le32_sum v :
  le32 v 0 mod 256 + 256 * (le32 v 1 mod 256) + 65536 * (le32 v 2 mod 256)
  + 16777216 * (le32 v 3 mod 256) = u32 v.
Proof.
  unfold le32, u32.
  change (2 ^ (8 * 0)) with 1. change (2 ^ (8 * 1)) with 256.
  change (2 ^ (8 * 2)) with 65536. change (2 ^ (8 * 3)) with 16777216.
  rewrite !Z.mod_mod by lia.
  Z.div_mod_to_equations. lia.
Qed.

(** A stored field reads back, truncated to 32 bits. *)
Lemma get32_blit_le32 p off v :
  get32 (blit p off 4 (le32 v)) off = u32 v.
Proof.
  unfold get32. rewrite !byte_at_blit_in by lia.
  replace (off - off) with 0 by lia. replace (off + 1 - off) with 1 by lia.
  replace (off + 2 - off) with 2 by lia. replace (off + 3 - off) with 3 by lia.
  apply le32_sum.
Qed.

Lemma byte_at_blit_le32 p off v :
  byte_at (blit p off 1 (le32 v)) off = v mod 256.
Proof.
  rewrite byte_at_blit_in by lia. replace (off - off) with 0 by lia.
  unfold le32. change (2 ^ (8 * 0)) with 1. rewrite Z.div_1_r.
  apply Z.mod_mod. lia.
Qed.

(** ** The store seen through the cache *)

Lemma cached_lookup t n : cached t n -> cache_lookup t n = Some (content t n).
Proof.
  unfold cached, cache_lookup, content. destruct (pages (pager t) n); congruence.
Qed.

Lemma content_set_page t n c m :
  content (set_page t n c) m = if m =? n then c else content t m.
Proof. unfold content, set_page. simpl. destruct (m =? n); reflexivity. Qed.

Lemma content_set_page_same t n c : content (set_page t n c) n = c.
Proof. rewrite content_set_page, Z.eqb_refl. reflexivity. Qed.

Lemma content_set_page_other t n c m :
  m <> n -> content (set_page t n c) m = content t m.
Proof.
  intros H. rewrite content_set_page.
  destruct (Z.eqb_spec m n); [contradiction | reflexivity].
Qed.

Lemma cached_set_page t n c m : cached (set_page t n c) m <-> m = n \/ cached t m.
Proof.
  unfold cached, set_page. simpl. destruct (Z.eqb_spec m n).
  - split; [auto | intros _; discriminate].
  - split; [auto | intros [H | H]; [contradiction | exact H]].
Qed.

Lemma cached_set_page_mono t n c m : cached t m -> cached (set_page t n c) m.
Proof. intros. apply cached_set_page. auto. Qed.

Lemma cached_set_page_same t n c : cached (set_page t n c) n.
Proof. apply cached_set_page. auto. Qed.

Lemma num_pages_set_page t n c :
  num_pages (pager (set_page t n c)) = num_pages (pager t).
Proof. reflexivity. Qed.

Lemma root_page_num_set_page t n c :
  root_page_num (set_page t n c) = root_page_num t.
Proof. reflexivity. Qed.

Lemma pager_wf_set_page t n c :
  pager_wf t -> cached t n -> pager_wf (set_page t n c).
Proof.
  intros (H1 & H2 & H3) Hc. repeat split; simpl; try tauto; try lia;
    apply cached_set_page in H as [-> | H]; apply H3; assumption.
Qed.

Lemma content_load_page t n m : content (load_page t n) m = content t m.
Proof.
  unfold load_page. destruct (pages (pager t) n) eqn:E; [reflexivity|].
  rewrite content_set_page. destruct (Z.eqb_spec m n); [subst|reflexivity].
  unfold content. rewrite E. reflexivity.
Qed.

Lemma cached_load_page t n m : cached (load_page t n) m <-> m = n \/ cached t m.
Proof.
  unfold load_page. destruct (pages (pager t) n) eqn:E.
  - split; [auto|]. intros [-> | H]; [unfold cached; congruence | exact H].
  - apply cached_set_page.
Qed.

Lemma cached_load_page_same t n : cached (load_page t n) n.
Proof. apply cached_load_page. auto. Qed.

Lemma cached_load_page_mono t n m : cached t m -> cached (load_page t n) m.
Proof. intros. apply cached_load_page. auto. Qed.

Lemma num_pages_load_page t n :
  num_pages (pager (load_page t n)) = num_pages (pager t).
Proof. unfold load_page. destruct (pages (pager t) n); reflexivity. Qed.

Lemma root_page_num_load_page t n :
  root_page_num (load_page t n) = root_page_num t.
Proof. unfold load_page. destruct (pages (pager t) n); reflexivity. Qed.

Lemma pager_wf_load_page t n :
  pager_wf t -> 0 <= n < num_pages (pager t) -> pager_wf (load_page t n).
Proof.
  intros (H1 & H2 & H3) Hn. unfold load_page.
  destruct (pages (pager t) n) eqn:E; [exact (conj H1 (conj H2 H3))|].
  repeat split; simpl; try tauto; try lia;
    apply cached_set_page in H as [-> | H]; try lia; apply H3; assumption.
Qed.

Lemma get_page_old t n :
  0 <= n < num_pages (pager t) -> num_pages (pager t) <= TABLE_MAX_PAGES ->
  get_page n t = Ok (mkPtr n 0) (load_page t n).
Proof.
  intros Hn Hmax. unfold get_page, load_page.
  destruct (Z.leb_spec TABLE_MAX_PAGES n); [lia|].
  destruct (pages (pager t) n); [reflexivity|].
  destruct (Z.ltb_spec n (num_pages (pager t))); [reflexivity | lia].
Qed.

Lemma get_page_new t :
  pager_wf t -> num_pages (pager t) < TABLE_MAX_PAGES ->
  get_page (num_pages (pager t)) t
  = Ok (mkPtr (num_pages (pager t)) 0) (append_page t).
Proof.
  intros (H1 & H2 & H3) Hmax. unfold get_page, append_page.
  destruct (Z.leb_spec TABLE_MAX_PAGES (num_pages (pager t))); [lia|].
  destruct (pages (pager t) (num_pages (pager t))) eqn:E.
  - assert (cached t (num_pages (pager t))) as Hc by (unfold cached; congruence).
    apply H3 in Hc. lia.
  - rewrite Z.ltb_irrefl. reflexivity.
Qed.

Lemma content_append_page t m :
  content (append_page t) m
  = if m =? num_pages (pager t) then zero_page else content t m.
Proof.
  unfold content, append_page. simpl.
  destruct (m =? num_pages (pager t)); reflexivity.
Qed.

Lemma cached_append_page t m :
  cached (append_page t) m <-> m = num_pages (pager t) \/ cached t m.
Proof.
  unfold cached, append_page. simpl.
  destruct (Z.eqb_spec m (num_pages (pager t))).
  - split; [auto | intros _; discriminate].
  - split; [auto | intros [H | H]; [contradiction | exact H]].
Qed.

Lemma pager_wf_append_page t :
  pager_wf t -> num_pages (pager t) < TABLE_MAX_PAGES ->
  pager_wf (append_page t).
Proof.
  intros (H1 & H2 & H3) Hmax. repeat split; simpl; try lia;
    apply cached_append_page in H as [-> | H]; try lia; apply H3 in H; lia.
Qed.

(** ** Node fields of a page *)

Ltac views :=
  unfold type_of, root_flag, parent_ref, cell_count, next_leaf_ref, leaf_key,
    key_count, right_child_ref, child_ref, sep_key in *.

(** ** Weakest preconditions for normal return *)

Lemma wp_ret {A} (a : A) t Q : Q a t -> wp (ret a) t Q.
Proof. intros H. exact H. Qed.

Lemma wp_bind {A B} (m : M A) (k : A -> M B) t Q :
  wp m t (fun a t' => wp (k a) t' Q) -> wp (bind m k) t Q.
Proof. unfold wp, bind. destruct (m t); auto. Qed.

Lemma wp_mono {A} (m : M A) t (Q Q' : A -> Table -> Prop) :
  wp m t Q -> (forall a t', Q a t' -> Q' a t') -> wp m t Q'.
Proof. unfold wp. destruct (m t); auto. Qed.

Lemma wp_ok {A} (m : M A) t a t' (Q : A -> Table -> Prop) :
  m t = Ok a t' -> Q a t' -> wp m t Q.
Proof. unfold wp. intros ->. auto. Qed.

Lemma wp_elim {A} (m : M A) t Q :
  wp m t Q -> exists a t', m t = Ok a t' /\ Q a t'.
Proof. unfold wp. destruct (m t); try contradiction. eauto. Qed.

Lemma in_page_true off len :
  0 <= off -> off + len <= PAGE_SIZE -> in_page off len = true.
Proof.
  intros. unfold in_page. apply andb_true_intro.
  split; apply Z.leb_le; assumption.
Qed.

Lemma wp_deref p len t Q :
  cached t (ptr_page p) -> 0 <= ptr_off p -> ptr_off p + len <= PAGE_SIZE ->
  Q (content t (ptr_page p)) t -> wp (deref p len) t Q.
Proof.
  intros Hc H1 H2 HQ. unfold wp, deref.
  rewrite (cached_lookup _ _ Hc), in_page_true by assumption. exact HQ.
Qed.

Lemma wp_poke p len src t (Q : unit -> Table -> Prop) :
  cached t (ptr_page p) -> 0 <= ptr_off p -> ptr_off p + len <= PAGE_SIZE ->
  Q tt (set_page t (ptr_page p)
          (blit (content t (ptr_page p)) (ptr_off p) len src)) ->
  wp (poke p len src) t Q.
Proof.
  intros Hc H1 H2 HQ. unfold wp, poke.
  rewrite (cached_lookup _ _ Hc), in_page_true by assumption. exact HQ.
Qed.

Lemma wp_load32 p t Q :
  cached t (ptr_page p) -> 0 <= ptr_off p -> ptr_off p + 4 <= PAGE_SIZE ->
  Q (get32 (content t (ptr_page p)) (ptr_off p)) t -> wp (load32 p) t Q.
Proof.
  intros. unfold load32. apply wp_bind, wp_deref; auto.
Qed.

Lemma wp_load8 p t Q :
  cached t (ptr_page p) -> 0 <= ptr_off p -> ptr_off p + 1 <= PAGE_SIZE ->
  Q (byte_at (content t (ptr_page p)) (ptr_off p)) t -> wp (load8 p) t Q.
Proof.
  intros. unfold load8. apply wp_bind, wp_deref; auto.
Qed.

Lemma wp_store32 p v t (Q : unit -> Table -> Prop) :
  cached t (ptr_page p) -> 0 <= ptr_off p -> ptr_off p + 4 <= PAGE_SIZE ->
  Q tt (set_page t (ptr_page p)
          (blit (content t (ptr_page p)) (ptr_off p) 4 (le32 v))) ->
  wp (store32 p v) t Q.
Proof. intros. apply wp_poke; auto. Qed.

Lemma wp_store8 p v t (Q : unit -> Table -> Prop) :
  cached t (ptr_page p) -> 0 <= ptr_off p -> ptr_off p + 1 <= PAGE_SIZE ->
  Q tt (set_page t (ptr_page p)
          (blit (content t (ptr_page p)) (ptr_off p) 1 (le32 v))) ->
  wp (store8 p v) t Q.
Proof. intros. apply wp_poke; auto. Qed.

Lemma wp_memcpy dst src n t (Q : unit -> Table -> Prop) :
  cached t (ptr_page src) -> 0 <= ptr_off src -> ptr_off src + n <= PAGE_SIZE ->
  cached t (ptr_page dst) -> 0 <= ptr_off dst -> ptr_off dst + n <= PAGE_SIZE ->
  Q tt (set_page t (ptr_page dst)
          (blit (content t (ptr_page dst)) (ptr_off dst) n
             (fun i => content t (ptr_page src) (ptr_off src + i)))) ->
  wp (memcpy dst src n) t Q.
Proof.
  intros. unfold memcpy. apply wp_bind, wp_deref; auto. apply wp_poke; auto.
Qed.

Lemma wp_get_page_old n t Q :
  pager_wf t -> 0 <= n < num_pages (pager t) ->
  Q (mkPtr n 0) (load_page t n) -> wp (get_page n) t Q.
Proof.
  intros Hwf Hn HQ. eapply wp_ok; [|exact HQ].
  apply get_page_old; [assumption | apply Hwf].
Qed.

Lemma wp_get_page_new t Q :
  pager_wf t -> num_pages (pager t) < TABLE_MAX_PAGES ->
  Q (mkPtr (num_pages (pager t)) 0) (append_page t) ->
  wp (get_page (num_pages (pager t))) t Q.
Proof.
  intros Hwf Hn HQ. eapply wp_ok; [|exact HQ]. apply get_page_new; assumption.
Qed.

(** A descending [for] loop with invariant [I], indexed by the number of
    iterations still to run. *)
Lemma wp_for_down (I : nat -> Table -> Prop) n lo body t
    (Q : unit -> Table -> Prop) :
  I n t ->
  (forall k t', (k < n)%nat -> I (S k) t' ->
                wp (body (lo + Z.of_nat (S k))) t' (fun _ t'' => I k t'')) ->
  (forall t', I O t' -> Q tt t') ->
  wp (for_down n lo body) t Q.
Proof.
  revert t. induction n as [|n IH]; intros t HI Hstep HQ.
  - apply wp_ret. auto.
  - cbn [for_down]. apply wp_bind.
    eapply wp_mono; [apply (Hstep n t); [lia | exact HI]|].
    cbv beta. intros _ t' HI'. apply IH; auto.
Qed.


Ltac ptrs :=
  unfold node_parent, leaf_node_num_cells, leaf_node_next_leaf, leaf_node_key,
    leaf_node_value, leaf_node_cell, internal_node_num_keys,
    internal_node_right_child, internal_node_key, internal_node_cell, padd;
  cbn [ptr_page ptr_off]; rewrite ?Z.add_0_l.


Create HintDb store.
Create Rewrite HintDb store_rw.
#[export] Hint Resolve cached_set_page_mono cached_set_page_same
  cached_load_page_same cached_load_page_mono : store.
#[export] Hint Rewrite content_set_page_same content_load_page : store_rw.

Lemma half_lt a fuel :
  0 <= a -> a < 2 ^ Z.of_nat (S fuel) -> a / 2 < 2 ^ Z.of_nat fuel.
Proof.
  intros H0 H. rewrite Nat2Z.inj_succ, Z.pow_succ_r in H by lia.
  apply Z.div_lt_upper_bound; lia.
Qed.

Lemma pow2_pos n : 0 < 2 ^ Z.of_nat n.
Proof. apply Z.pow_pos_nonneg; lia. Qed.



(** ** Frames *)

Lemma extends_refl t : extends t t.
Proof. repeat split; auto. Qed.

Lemma extends_trans t1 t2 t3 : extends t1 t2 -> extends t2 t3 -> extends t1 t3.
Proof.
  intros (F1 & N1 & R1 & C1 & D1) (F2 & N2 & R2 & C2 & D2).
  repeat split; try congruence; auto.
  intros m H. apply D2 in H as [H | H]; [auto | right; lia].
Qed.

Lemma extends_load_page t n :
  0 <= n < num_pages (pager t) -> extends t (load_page t n).
Proof.
  intros Hn. unfold load_page. destruct (pages (pager t) n) eqn:E;
    [apply extends_refl|].
  repeat split; auto with store.
  intros m H. apply cached_set_page in H as [-> | H]; auto.
Qed.

Lemma extends_set_page t n c : cached t n -> extends t (set_page t n c).
Proof.
  intros Hc. repeat split; auto with store.
  intros m H. apply cached_set_page in H as [-> | H]; auto.
Qed.

Lemma extends_wf t t' : pager_wf t -> extends t t' -> pager_wf t'.
Proof.
  intros (H1 & H2 & H3) (F & N & R & C & D). unfold pager_wf.
  rewrite F, N. repeat split; try lia; apply D in H as [H | H]; try lia;
    apply H3 in H; lia.
Qed.

Lemma extends_cached t t' m : extends t t' -> cached t m -> cached t' m.
Proof. intros (_ & _ & _ & C & _). auto. Qed.

Lemma extends_num_pages t t' :
  extends t t' -> num_pages (pager t') = num_pages (pager t).
Proof. intros (_ & N & _). exact N. Qed.

Lemma extends_root_page_num t t' :
  extends t t' -> root_page_num t' = root_page_num t.
Proof. intros (_ & _ & R & _). exact R. Qed.

#[export] Hint Resolve extends_refl extends_load_page extends_set_page
  extends_cached : store.

Lemma get32_ext c c' off :
  (forall a, off <= a < off + 4 -> c a = c' a) -> get32 c off = get32 c' off.
Proof.
  intros H. unfold get32, byte_at.
  rewrite (H off), (H (off + 1)), (H (off + 2)), (H (off + 3)) by lia.
  reflexivity.
Qed.

Lemma get32_rel c c' off off' :
  (forall k, 0 <= k < 4 -> c (off + k) = c' (off' + k)) ->
  get32 c off = get32 c' off'.
Proof.
  intros H. unfold get32, byte_at.
  rewrite <- (Z.add_0_r off) at 1. rewrite <- (Z.add_0_r off') at 1.
  rewrite (H 0), (H 1), (H 2), (H 3) by lia. reflexivity.
Qed.

Lemma bytes_at_rel c c' off off' len :
  (forall k, 0 <= k < Z.of_nat len -> c (off + k) = c' (off' + k)) ->
  bytes_at c off len = bytes_at c' off' len.
Proof.
  intros H. unfold bytes_at. apply map_ext_in. intros i Hi.
  apply in_seq in Hi. unfold byte_at. rewrite H by lia. reflexivity.
Qed.

Lemma bytes_at_ext c c' off len :
  (forall a, off <= a < off + Z.of_nat len -> c a = c' a) ->
  bytes_at c off len = bytes_at c' off len.
Proof.
  intros H. unfold bytes_at. apply map_ext_in. intros i Hi.
  apply in_seq in Hi. unfold byte_at. rewrite H by lia. reflexivity.
Qed.

(** The loop that makes room for a cell: the cells [lo .. lo+n-1] of width
    [w] from offset [b] move up by one cell. *)
Lemma wp_shift_cells P b w n lo t (Q : unit -> Table -> Prop) :
  cached t P -> 0 < w -> 0 <= b -> 0 <= lo ->
  b + (lo + Z.of_nat n + 1) * w <= PAGE_SIZE ->
  lo + Z.of_nat n < 4294967296 ->
  (forall t',
      extends t t' ->
      (forall m, m <> P -> content t' m = content t m) ->
      (forall a, content t' P a
                 = shifted (content t P) (b + lo * w)
                     (b + (lo + Z.of_nat n) * w) w a) ->
      Q tt t') ->
  wp (for_down n lo
        (fun i => memcpy (mkPtr P (b + i * w)) (mkPtr P (b + u32 (i - 1) * w)) w))
     t Q.
Proof.
  intros Hc Hw Hb Hlo Hfit Hn HQ.
  apply wp_for_down with
    (I := fun k t' =>
            extends t t' /\
            (forall m, m <> P -> content t' m = content t m) /\
            (forall a, content t' P a
                       = shifted (content t P) (b + (lo + Z.of_nat k) * w)
                           (b + (lo + Z.of_nat n) * w) w a)).
  - split; [apply extends_refl|]. split; [auto|].
    intros a. unfold shifted.
    destruct (Z.leb_spec (b + (lo + Z.of_nat n) * w + w) a);
      destruct (Z.ltb_spec a (b + (lo + Z.of_nat n) * w + w));
      simpl; auto; lia.
  - intros k t' Hk (He & Hf & Hs).
    rewrite u32_small by lia.
    replace (lo + Z.of_nat (S k) - 1) with (lo + Z.of_nat k) by lia.
    assert ((lo + Z.of_nat (S k)) * w = (lo + Z.of_nat k) * w + w) as Ew
        by (rewrite Nat2Z.inj_succ; ring).
    assert ((lo + Z.of_nat k) * w + w <= (lo + Z.of_nat n) * w) as Hle.
    { rewrite <- Ew. apply Z.mul_le_mono_nonneg_r; lia. }
    assert (0 <= (lo + Z.of_nat k) * w) by (apply Z.mul_nonneg_nonneg; lia).
    assert ((lo + Z.of_nat n + 1) * w = (lo + Z.of_nat n) * w + w) as En by ring.
    rewrite Ew.
    apply wp_memcpy; cbn [ptr_page ptr_off]; eauto with store; try lia.
    assert (cached t' P) as Hc' by (apply (extends_cached _ _ _ He Hc)).
    split; [eapply extends_trans; [exact He | apply extends_set_page, Hc']|].
    split.
    + intros m Hm. rewrite content_set_page_other by exact Hm. auto.
    + intros a. rewrite content_set_page_same. unfold blit.
      rewrite !Hs. unfold shifted.
      repeat match goal with
             | |- context [Z.leb ?x ?y] => destruct (Z.leb_spec x y)
             | |- context [Z.ltb ?x ?y] => destruct (Z.ltb_spec x y)
             end; simpl; try lia; try (f_equal; lia).
  - intros t' (He & Hf & Hs). apply HQ; auto.
    intros a. rewrite Hs. replace (lo + Z.of_nat 0) with lo by lia. reflexivity.
Qed.

Lemma pager_wf_num_pages t : pager_wf t -> 0 <= num_pages (pager t) <= 100.
Proof. intros (H & _). exact H. Qed.



(** ** Fatal exits *)

Lemma wpe_bind {A B} (m : M A) (k : A -> M B) t Q E :
  wpe m t (fun a t' => wpe (k a) t' Q E) E -> wpe (bind m k) t Q E.
Proof. unfold wpe, bind. destruct (m t); auto. Qed.

Lemma wp_wpe {A} (m : M A) t Q E :
  wp m t Q -> wpe m t Q E.
Proof. unfold wp, wpe. destruct (m t); auto; contradiction. Qed.

Lemma wpe_elim_exit {A} (m : M A) t E :
  wpe m t (fun _ _ => False) E -> exists e t', m t = Exit e t' /\ E e t'.
Proof. unfold wpe. destruct (m t); try contradiction. eauto. Qed.

(** ** Fields after a shift *)

Lemma shifted_in c lo hi w a :
  lo + w <= a < hi + w -> shifted c lo hi w a = c (a - w).
Proof.
  intros H. unfold shifted.
  destruct (Z.leb_spec (lo + w) a); destruct (Z.ltb_spec a (hi + w));
    simpl; auto; lia.
Qed.

Lemma shifted_out c lo hi w a :
  a < lo + w \/ hi + w <= a -> shifted c lo hi w a = c a.
Proof.
  intros H. unfold shifted.
  destruct (Z.leb_spec (lo + w) a); destruct (Z.ltb_spec a (hi + w));
    simpl; auto; lia.
Qed.

Lemma get32_shifted_in c lo hi w off :
  lo + w <= off -> off + 4 <= hi + w ->
  get32 (shifted c lo hi w) off = get32 c (off - w).
Proof.
  intros H1 H2. apply get32_rel. intros k Hk.
  rewrite shifted_in by lia. f_equal. lia.
Qed.

Lemma get32_shifted_out c lo hi w off :
  off + 4 <= lo + w \/ hi + w <= off ->
  get32 (shifted c lo hi w) off = get32 c off.
Proof.
  intros H. apply get32_rel. intros k Hk. apply shifted_out. lia.
Qed.

(** ** The maximum key of a leaf *)

Lemma wp_get_node_type p t Q :
  cached t p -> Q (type_of (content t p)) t ->
  wp (get_node_type (mkPtr p 0)) t Q.
Proof.
  intros Hc HQ. unfold get_node_type.
  apply wp_load8; ptrs; consts; try lia; auto.
Qed.

Lemma wp_get_node_max_key_leaf p t Q :
  cached t p -> nonempty_leaf (content t p) ->
  Q (leaf_max_key (content t p)) t ->
  wp (get_node_max_key (mkPtr p 0)) t Q.
Proof.
  intros Hc [Hty Hn] HQ. unfold get_node_max_key.
  change DEPTH_FUEL with (S 99). cbn [get_node_max_key_rec].
  apply wp_bind, wp_get_node_type; auto. rewrite Hty. cbn [Z.eqb NODE_LEAF NODE_INTERNAL Pos.eqb].
  apply wp_bind, wp_load32; ptrs; consts; try lia; auto.
  change (get32 (content t p) 6) with (cell_count (content t p)).
  rewrite u32_small by lia.
  apply wp_load32; ptrs; consts; try lia; auto.
Qed.

(** ** [internal_node_find_child] without an order on the separators *)

Lemma internal_node_find_child_loop_total fuel p key t :
  cached t p ->
  keys_in_page (content t p) ->
  forall lo hi,
    0 <= lo <= hi -> hi <= key_count (content t p) ->
    hi - lo < 2 ^ Z.of_nat fuel ->
    wp (internal_node_find_child_loop fuel (mkPtr p 0) key lo hi) t
       (fun r t' => t' = t /\ lo <= r <= hi).
Proof.
  intros Hc Hn. unfold keys_in_page in Hn. consts.
  induction fuel as [|fuel IH]; intros lo hi Hlo Hhi Hf;
    cbn [internal_node_find_child_loop];
    destruct (Z.eqb_spec lo hi) as [->|Hne].
  - apply wp_ret. split; [reflexivity|lia].
  - cbn in Hf. lia.
  - apply wp_ret. split; [reflexivity|lia].
  - rewrite u32_small by lia.
    assert (lo <= (lo + hi) / 2 < hi) as Hmid
        by (split; [apply Z.div_le_lower_bound | apply Z.div_lt_upper_bound]; lia).
    set (index := (lo + hi) / 2) in *.
    apply wp_bind, wp_load32; ptrs; consts; try lia; [exact Hc|].
    pose proof (half_lt (hi - lo) fuel ltac:(lia) Hf).
    destruct (_ >=? _).
    + eapply wp_mono; [apply IH; try lia|].
      * assert (index - lo <= (hi - lo) / 2); [|lia].
        apply Z.div_le_lower_bound; try lia. subst index.
        pose proof (Z.mul_div_le (lo + hi) 2 ltac:(lia)). lia.
      * cbv beta. intros r t' [-> Hr]. split; [reflexivity|lia].
    + rewrite u32_small by lia.
      eapply wp_mono; [apply IH; try lia|].
      * assert (hi - (index + 1) <= (hi - lo) / 2); [|lia].
        apply Z.div_le_lower_bound; try lia. subst index.
        pose proof (Z.mod_pos_bound (lo + hi) 2 ltac:(lia)).
        pose proof (Z.div_mod (lo + hi) 2 ltac:(lia)). lia.
      * cbv beta. intros r t' [-> Hr]. split; [reflexivity|lia].
Qed.

Lemma wp_internal_node_find_child_total p key t Q :
  cached t p ->
  keys_in_page (content t p) ->
  (forall r, 0 <= r <= key_count (content t p) -> Q r t) ->
  wp (internal_node_find_child (mkPtr p 0) key) t Q.
Proof.
  intros Hc Hn HQ. unfold internal_node_find_child.
  pose proof Hn as Hn'. unfold keys_in_page in Hn'.
  apply wp_bind, wp_load32; ptrs; consts; try lia; [exact Hc|].
  change (get32 (content t p) 6) with (key_count (content t p)).
  pose proof (get32_range (content t p) 6) as Hr.
  change (get32 (content t p) 6) with (key_count (content t p)) in Hr.
  eapply wp_mono.
  - apply internal_node_find_child_loop_total; auto; try lia.
    change (2 ^ Z.of_nat SEARCH_FUEL) with 8589934592. lia.
  - cbv beta. intros r t' [-> Hpost]. apply HQ. lia.
Qed.

Ltac blits :=
  repeat first
    [ rewrite get32_blit_le32
    | rewrite get32_blit_out by lia
    | rewrite get32_shifted_in by lia
    | rewrite get32_shifted_out by lia ].

Lemma blit_out c dst len src a :
  a < dst \/ dst + len <= a -> blit c dst len src a = c a.
Proof.
  intros H. unfold blit.
  destruct (Z.leb_spec dst a); destruct (Z.ltb_spec a (dst + len));
    simpl; auto; lia.
Qed.

Lemma blit_in c dst len src a :
  dst <= a < dst + len -> blit c dst len src a = src (a - dst).
Proof.
  intros H. unfold blit.
  destruct (Z.leb_spec dst a); destruct (Z.ltb_spec a (dst + len));
    simpl; auto; lia.
Qed.

Lemma wp_get_root_page_num t Q :
  Q (root_page_num t) t -> wp get_root_page_num t Q.
Proof. auto. Qed.

Lemma wp_get_unused_page_num t Q :
  Q (num_pages (pager t)) t -> wp get_unused_page_num t Q.
Proof. auto. Qed.

Lemma content_append_page_same t :
  content (append_page t) (num_pages (pager t)) = zero_page.
Proof. rewrite content_append_page, Z.eqb_refl. reflexivity. Qed.

Lemma content_append_page_other t m :
  m <> num_pages (pager t) -> content (append_page t) m = content t m.
Proof.
  intros H. rewrite content_append_page.
  destruct (Z.eqb_spec m (num_pages (pager t))); [contradiction|reflexivity].
Qed.

Lemma cached_append_page_same t : cached (append_page t) (num_pages (pager t)).
Proof. apply cached_append_page. auto. Qed.

Lemma cached_append_page_mono t m : cached t m -> cached (append_page t) m.
Proof. intros. apply cached_append_page. auto. Qed.

Lemma num_pages_append_page t :
  num_pages (pager (append_page t)) = num_pages (pager t) + 1.
Proof. reflexivity. Qed.

Ltac cached_tac :=
  repeat first
    [ assumption
    | apply cached_set_page_same
    | apply cached_load_page_same
    | apply cached_append_page_same
    | apply cached_set_page_mono
    | apply cached_load_page_mono
    | apply cached_append_page_mono ].

Ltac content_tac :=
  repeat first
    [ rewrite content_set_page_same
    | rewrite content_load_page
    | rewrite content_append_page_same
    | rewrite content_set_page_other by (assumption || lia || congruence)
    | rewrite content_append_page_other by (assumption || lia || congruence) ].

Ltac pages_tac :=
  rewrite ?num_pages_set_page, ?num_pages_load_page, ?num_pages_append_page,
    ?root_page_num_set_page, ?root_page_num_load_page.

Ltac wp_seq :=
  lazymatch goal with
  | |- wp (bind _ _) _ _ => apply wp_bind
  end.
Ltac wp_seq_opt :=
  lazymatch goal with
  | |- wp (bind _ _) _ _ => apply wp_bind
  | _ => idtac
  end.
Ltac wp_load :=
  wp_seq_opt; apply wp_load32; ptrs; consts;
  [cached_tac | lia | lia | content_tac].
Ltac wp_store :=
  wp_seq_opt; apply wp_store32; ptrs; consts;
  [cached_tac | lia | lia | content_tac].
Ltac wp_store_byte :=
  wp_seq_opt; apply wp_store8; ptrs; consts;
  [cached_tac | lia | lia | content_tac].

Lemma extends_set_page_r t t' n c :
  extends t t' -> cached t' n -> extends t (set_page t' n c).
Proof.
  intros He Hc. eapply extends_trans; [exact He|]. apply extends_set_page, Hc.
Qed.

Ltac extends_tac :=
  repeat first
    [ assumption
    | apply extends_refl
    | apply extends_set_page_r; [|cached_tac] ].
(** ** Binary search in a leaf *)

Lemma leaf_node_find_loop_spec fuel p key t :
  cached t p ->
  cell_count (content t p) <= LEAF_NODE_MAX_CELLS ->
  strictly_ascending (content t p) ->
  forall lo hi,
    0 <= lo <= hi -> hi <= cell_count (content t p) ->
    hi - lo < 2 ^ Z.of_nat fuel ->
    (forall i, 0 <= i < lo -> leaf_key (content t p) i < key) ->
    (forall i, hi <= i < cell_count (content t p) ->
               key < leaf_key (content t p) i) ->
    wp (leaf_node_find_loop fuel (mkPtr p 0) key lo hi) t
       (fun r t' => t' = t /\ find_post (content t p) key r).
Proof.
  intros Hc Hn Hs. consts.
  induction fuel as [|fuel IH]; intros lo hi Hlo Hhi Hf Hl Hr;
    cbn [leaf_node_find_loop]; destruct (Z.eqb_spec hi lo) as [->|Hne].
  - apply wp_ret. split; [reflexivity|]. split; [lia|]. right. auto.
  - cbn in Hf. lia.
  - apply wp_ret. split; [reflexivity|]. split; [lia|]. right. auto.
  - rewrite u32_small by lia.
    assert (lo <= (lo + hi) / 2 < hi) as Hmid
        by (split; [apply Z.div_le_lower_bound | apply Z.div_lt_upper_bound]; lia).
    set (index := (lo + hi) / 2) in *.
    apply wp_bind, wp_load32; ptrs; consts; try lia; [exact Hc|].
    change (get32 (content t p) (14 + index * 297)) with (leaf_key (content t p) index).
    cbv beta.
    destruct (Z.eqb_spec key (leaf_key (content t p) index)) as [He|He].
    + apply wp_ret. split; [reflexivity|]. split; [lia|]. left. split; [lia|auto].
    + destruct (Z.ltb_spec key (leaf_key (content t p) index)) as [Hlt|Hge].
      * apply IH; try lia.
        -- pose proof (half_lt (hi - lo) fuel ltac:(lia) Hf).
           assert (index - lo <= (hi - lo) / 2); [|lia].
           apply Z.div_le_lower_bound; try lia. subst index.
           pose proof (Z.mul_div_le (lo + hi) 2 ltac:(lia)). lia.
        -- exact Hl.
        -- intros i Hi. destruct (Z.eq_dec i index) as [->|Hd]; [exact Hlt|].
           specialize (Hs index i ltac:(lia) ltac:(lia)). lia.
      * rewrite u32_small by lia. apply IH; try lia.
        -- pose proof (half_lt (hi - lo) fuel ltac:(lia) Hf).
           assert (hi - (index + 1) <= (hi - lo) / 2); [|lia].
           apply Z.div_le_lower_bound; try lia. subst index.
           pose proof (Z.mod_pos_bound (lo + hi) 2 ltac:(lia)).
           pose proof (Z.div_mod (lo + hi) 2 ltac:(lia)). lia.
        -- intros i Hi. destruct (Z.eq_dec i index) as [->|Hd]; [lia|].
           destruct (Z.lt_ge_cases i lo); [apply Hl; lia|].
           specialize (Hs i index ltac:(lia) ltac:(lia)). lia.
        -- exact Hr.
Qed.

Lemma wp_leaf_node_find mem p key t Q :
  pager_wf t -> 0 <= p < num_pages (pager t) ->
  cell_count (content t p) <= LEAF_NODE_MAX_CELLS ->
  strictly_ascending (content t p) ->
  (forall r, find_post (content t p) key r ->
             Q (mkCursor p r (end_of_table mem)) (load_page t p)) ->
  wp (leaf_node_find mem p key) t Q.
Proof.
  intros Hwf Hp Hn Hs HQ. unfold leaf_node_find.
  apply wp_bind, wp_get_page_old; auto.
  apply wp_bind, wp_load32; ptrs; consts; try lia;
    [apply cached_load_page_same|].
  rewrite content_load_page.
  change (get32 (content t p) 6) with (cell_count (content t p)).
  apply wp_bind.
  pose proof (get32_range (content t p) 6) as Hr.
  change (get32 (content t p) 6) with (cell_count (content t p)) in Hr.
  eapply wp_mono.
  - apply leaf_node_find_loop_spec with (p := p);
      rewrite ?content_load_page; auto; try lia.
    + apply cached_load_page_same.
    + change (2 ^ Z.of_nat SEARCH_FUEL) with 8589934592. lia.
  - cbv beta. intros r t' [-> Hpost]. apply wp_ret.
    rewrite content_load_page in Hpost. apply HQ. exact Hpost.
Qed.

(** C1.  On a leaf page whose keys are strictly ascending,
    [leaf_node_find] returns a cursor on that page; its cell number is the
    index of the cell holding the search key when there is one, and
    otherwise the index of the first cell with a greater key (the cell
    count when there is none): every cell before it has a smaller key and
    every cell from it on a greater one.  No byte of the store changes. *)
Theorem leaf_node_find_correct mem p key t :
  pager_wf t -> 0 <= p < num_pages (pager t) ->
  cell_count (content t p) <= LEAF_NODE_MAX_CELLS ->
  strictly_ascending (content t p) ->
  exists cursor t',
    leaf_node_find mem p key t = Ok cursor t' /\
    (forall m, content t' m = content t m) /\
    page_num cursor = p /\
    0 <= cell_num cursor <= cell_count (content t p) /\
    (forall i, 0 <= i < cell_count (content t p) ->
               leaf_key (content t p) i = key -> cell_num cursor = i) /\
    ((forall i, 0 <= i < cell_count (content t p) ->
                leaf_key (content t p) i <> key) ->
     (forall i, 0 <= i < cell_num cursor -> leaf_key (content t p) i < key) /\
     (forall i, cell_num cursor <= i < cell_count (content t p) ->
                key < leaf_key (content t p) i)).
Proof.
  intros Hwf Hp Hn Hs.
  assert (wp (leaf_node_find mem p key) t
            (fun cursor t' =>
               t' = load_page t p /\ page_num cursor = p /\
               find_post (content t p) key (cell_num cursor))) as H
      by (apply wp_leaf_node_find; auto).
  apply wp_elim in H as (cursor & t' & Hrun & -> & Hpg & Hrange & Hpost).
  exists cursor, (load_page t p). split; [exact Hrun|].
  split; [intros m; apply content_load_page|]. split; [exact Hpg|].
  split; [exact Hrange|]. split.
  - intros i Hi Hk. destruct Hpost as [[Hlt He] | [Hl Hr]].
    + destruct (Z.lt_trichotomy i (cell_num cursor)) as [H|[H|H]]; auto.
      * specialize (Hs i (cell_num cursor) ltac:(lia) ltac:(lia)). lia.
      * specialize (Hs (cell_num cursor) i ltac:(lia) ltac:(lia)). lia.
    + destruct (Z.lt_ge_cases i (cell_num cursor)) as [H|H].
      * specialize (Hl i ltac:(lia)). lia.
      * specialize (Hr i ltac:(lia)). lia.
  - intros Habs. destruct Hpost as [[Hlt He] | [Hl Hr]]; [|auto].
    exfalso. apply (Habs (cell_num cursor)); [lia | exact He].
Qed.

(** ** Binary search in an internal node *)

Lemma internal_node_find_child_loop_spec fuel p key t :
  cached t p ->
  keys_in_page (content t p) ->
  separators_ascending (content t p) ->
  forall lo hi,
    0 <= lo <= hi -> hi <= key_count (content t p) ->
    hi - lo < 2 ^ Z.of_nat fuel ->
    (forall i, 0 <= i < lo -> sep_key (content t p) i < key) ->
    (forall i, hi <= i < key_count (content t p) ->
               key <= sep_key (content t p) i) ->
    wp (internal_node_find_child_loop fuel (mkPtr p 0) key lo hi) t
       (fun r t' => t' = t /\ first_separator_geq (content t p) key r).
Proof.
  intros Hc Hn Hs. unfold keys_in_page in Hn. consts.
  induction fuel as [|fuel IH]; intros lo hi Hlo Hhi Hf Hl Hr;
    cbn [internal_node_find_child_loop];
    destruct (Z.eqb_spec lo hi) as [->|Hne].
  - apply wp_ret. split; [reflexivity|]. split; [lia|]. auto.
  - cbn in Hf. lia.
  - apply wp_ret. split; [reflexivity|]. split; [lia|]. auto.
  - rewrite u32_small by lia.
    assert (lo <= (lo + hi) / 2 < hi) as Hmid
        by (split; [apply Z.div_le_lower_bound | apply Z.div_lt_upper_bound]; lia).
    set (index := (lo + hi) / 2) in *.
    apply wp_bind, wp_load32; ptrs; consts; try lia; [exact Hc|].
    change (get32 (content t p) (14 + index * 8 + 4))
      with (sep_key (content t p) index).
    cbv beta.
    destruct (Z.geb_spec (sep_key (content t p) index) key) as [Hge|Hlt].
    + apply IH; try lia.
      * pose proof (half_lt (hi - lo) fuel ltac:(lia) Hf).
        assert (index - lo <= (hi - lo) / 2); [|lia].
        apply Z.div_le_lower_bound; try lia. subst index.
        pose proof (Z.mul_div_le (lo + hi) 2 ltac:(lia)). lia.
      * exact Hl.
      * intros i Hi.
        specialize (Hs index i ltac:(lia) ltac:(lia)). lia.
    + rewrite u32_small by lia. apply IH; try lia.
      * pose proof (half_lt (hi - lo) fuel ltac:(lia) Hf).
        assert (hi - (index + 1) <= (hi - lo) / 2); [|lia].
        apply Z.div_le_lower_bound; try lia. subst index.
        pose proof (Z.mod_pos_bound (lo + hi) 2 ltac:(lia)).
        pose proof (Z.div_mod (lo + hi) 2 ltac:(lia)). lia.
      * intros i Hi.
        specialize (Hs i index ltac:(lia) ltac:(lia)). lia.
      * exact Hr.
Qed.

Lemma wp_internal_node_find_child p key t Q :
  cached t p ->
  keys_in_page (content t p) ->
  separators_ascending (content t p) ->
  (forall r, first_separator_geq (content t p) key r -> Q r t) ->
  wp (internal_node_find_child (mkPtr p 0) key) t Q.
Proof.
  intros Hc Hn Hs HQ. unfold internal_node_find_child.
  apply wp_bind, wp_load32; ptrs; consts; try lia; [exact Hc|].
  change (get32 (content t p) 6) with (key_count (content t p)).
  pose proof (get32_range (content t p) 6) as Hr.
  change (get32 (content t p) 6) with (key_count (content t p)) in Hr.
  eapply wp_mono.
  - apply internal_node_find_child_loop_spec; auto; try lia.
    change (2 ^ Z.of_nat SEARCH_FUEL) with 8589934592. lia.
  - cbv beta. intros r t' [-> Hpost]. auto.
Qed.

(** C6.  For an internal node whose separator keys are ascending (and whose
    cells lie within the page), [internal_node_find_child] returns the
    smallest index [i] in [0, key_count] whose separator is at least the
    search key, and [key_count] (the rightmost child) when every separator
    is below it; the table is left as it was. *)
Theorem internal_node_find_child_correct p key t :
  cached t p ->
  keys_in_page (content t p) ->
  separators_ascending (content t p) ->
  exists r,
    internal_node_find_child (mkPtr p 0) key t = Ok r t /\
    0 <= r <= key_count (content t p) /\
    (forall i, 0 <= i < r -> sep_key (content t p) i < key) /\
    (forall i, r <= i < key_count (content t p) ->
               key <= sep_key (content t p) i) /\
    (r = key_count (content t p) <->
     forall i, 0 <= i < key_count (content t p) ->
               sep_key (content t p) i < key).
Proof.
  intros Hc Hn Hs.
  assert (wp (internal_node_find_child (mkPtr p 0) key) t
            (fun r t' => t' = t /\ first_separator_geq (content t p) key r))
    as H by (apply wp_internal_node_find_child; auto).
  apply wp_elim in H as (r & t' & Hrun & -> & Hrange & Hl & Hr).
  exists r. repeat split; auto; try lia.
  - intros -> i Hi. apply Hl. lia.
  - intros Hall. destruct (Z.eq_dec r (key_count (content t p))); [auto|].
    specialize (Hr r ltac:(lia)). specialize (Hall r ltac:(lia)). lia.
Qed.

(** ** Cursors *)

(** [leaf_node_find] assigns the page and the cell number of the cursor;
    [end_of_table] keeps the value the allocated block came with. *)
Lemma leaf_node_find_end_of_table mem p key t cursor t' :
  leaf_node_find mem p key t = Ok cursor t' ->
  end_of_table cursor = end_of_table mem.
Proof.
  unfold leaf_node_find, bind.
  destruct (get_page p t) as [node t1| | |]; try discriminate.
  destruct (load32 _ t1) as [n t2| | |]; try discriminate.
  destruct (leaf_node_find_loop _ _ _ _ _ t2) as [r t3| | |]; try discriminate.
  unfold ret. intros [= <- _]. reflexivity.
Qed.

Lemma internal_node_find_end_of_table fuel mem :
  forall p key t cursor t',
    internal_node_find fuel mem p key t = Ok cursor t' ->
    end_of_table cursor = end_of_table mem.
Proof.
  induction fuel as [|fuel IH]; intros p key t cursor t';
    cbn [internal_node_find]; [discriminate|].
  unfold bind at 1.
  destruct (get_page p t) as [node t1| | |]; try discriminate.
  unfold bind at 1.
  destruct (internal_node_find_child node key t1) as [ci t2| | |];
    try discriminate.
  unfold bind at 1.
  destruct (internal_node_child node ci t2) as [cr t3| | |]; try discriminate.
  unfold bind at 1.
  destruct (load32 cr t3) as [cn t4| | |]; try discriminate.
  unfold bind at 1.
  destruct (get_page cn t4) as [child t5| | |]; try discriminate.
  unfold bind at 1.
  destruct (get_node_type child t5) as [ty t6| | |]; try discriminate.
  destruct (ty =? NODE_LEAF); [apply leaf_node_find_end_of_table|].
  destruct (ty =? NODE_INTERNAL); [apply IH | discriminate].
Qed.

(** Whatever the table and the key, the cursor [table_find] returns has
    the [end_of_table] value of the memory [malloc] handed out. *)
Lemma table_find_end_of_table mem key t cursor t' :
  table_find mem key t = Ok cursor t' ->
  end_of_table cursor = end_of_table mem.
Proof.
  unfold table_find. unfold bind at 1. unfold get_root_page_num.
  unfold bind at 1.
  destruct (get_page (root_page_num t) t) as [node t1| | |]; try discriminate.
  unfold bind at 1.
  destruct (get_node_type node t1) as [ty t2| | |]; try discriminate.
  destruct (ty =? NODE_LEAF);
    [apply leaf_node_find_end_of_table | apply internal_node_find_end_of_table].
Qed.

(** C8 (the code departs from the claim).  On a newly created database,
    [table_find] called when the block [malloc] returns has a set
    [end_of_table] byte yields a cursor whose [end_of_table] is true:
    [leaf_node_find] never assigns the field. *)
Theorem table_find_end_of_table_not_cleared :
  match db_open [] with
  | Ok _ t =>
      match table_find (mkCursor 0 0 true) 1 t with
      | Ok cursor _ =>
          page_num cursor = 0 /\ cell_num cursor = 0 /\
          end_of_table cursor = true
      | _ => False
      end
  | _ => False
  end.
Proof. vm_compute. auto. Qed.

Lemma wp_cursor_advance_at_end cursor t Q :
  pager_wf t ->
  0 <= page_num cursor < num_pages (pager t) ->
  next_leaf_ref (content t (page_num cursor)) = 0 ->
  end_of_table cursor = true ->
  (forall cursor',
      page_num cursor' = page_num cursor -> end_of_table cursor' = true ->
      Q cursor' (load_page t (page_num cursor))) ->
  wp (cursor_advance cursor) t Q.
Proof.
  intros Hwf Hp Hnext Hend HQ. unfold cursor_advance.
  apply wp_bind, wp_get_page_old; auto.
  apply wp_bind, wp_load32; ptrs; consts; try lia; auto with store.
  cbn [cell_num set_cell_num].
  destruct (_ >=? _).
  - apply wp_bind, wp_load32; ptrs; consts; try lia; auto with store.
    autorewrite with store_rw.
    change (get32 (content t (page_num cursor)) 10)
      with (next_leaf_ref (content t (page_num cursor))).
    rewrite Hnext. cbn [Z.eqb]. apply wp_ret. apply HQ; reflexivity.
  - apply wp_ret. apply HQ; [reflexivity | exact Hend].
Qed.

(** C10.  For a cursor on the rightmost leaf (next-leaf reference 0) whose
    [end_of_table] is true, any number of further calls of
    [cursor_advance] return with [end_of_table] still true, the cursor
    still on that leaf and the store unchanged. *)
Theorem cursor_advance_keeps_end_of_table n cursor t :
  pager_wf t ->
  0 <= page_num cursor < num_pages (pager t) ->
  next_leaf_ref (content t (page_num cursor)) = 0 ->
  end_of_table cursor = true ->
  exists cursor' t',
    advance_times n cursor t = Ok cursor' t' /\
    end_of_table cursor' = true /\
    page_num cursor' = page_num cursor /\
    (forall m, content t' m = content t m).
Proof.
  intros Hwf Hp Hnext Hend.
  assert (wp (advance_times n cursor) t
            (fun cursor' t' =>
               end_of_table cursor' = true /\
               page_num cursor' = page_num cursor /\
               (forall m, content t' m = content t m))) as H.
  { revert cursor t Hwf Hp Hnext Hend.
    induction n as [|n IH]; intros cursor t Hwf Hp Hnext Hend;
      cbn [advance_times].
    - apply wp_ret. auto.
    - apply wp_bind, wp_cursor_advance_at_end; auto.
      intros cursor' Hpg He. eapply wp_mono.
      + apply IH; auto.
        * apply pager_wf_load_page; auto.
        * rewrite num_pages_load_page, Hpg. exact Hp.
        * rewrite content_load_page, Hpg. exact Hnext.
      + cbv beta. intros c t' (H1 & H2 & H3). split; [exact H1|].
        split; [congruence|]. intros m. rewrite H3. apply content_load_page. }
  apply wp_elim in H as (c & t' & Hrun & H). eauto.
Qed.


(** ** [internal_node_insert] *)

Lemma wpe_mono {A} (m : M A) t (Q Q' : A -> Table -> Prop)
    (E E' : fatal -> Table -> Prop) :
  wpe m t Q E ->
  (forall a t', Q a t' -> Q' a t') -> (forall e t', E e t' -> E' e t') ->
  wpe m t Q' E'.
Proof. unfold wpe. destruct (m t); auto. Qed.

(** At capacity the key count is stored, then the process exits. *)
Lemma wpe_internal_node_insert_full MAX parent child t :
  pager_wf t ->
  0 <= parent < num_pages (pager t) ->
  0 <= child < num_pages (pager t) ->
  type_of (content t parent) = NODE_INTERNAL ->
  MAX <= key_count (content t parent) ->
  internal_cells_fit (key_count (content t parent)) ->
  nonempty_leaf (content t child) ->
  wpe (internal_node_insert MAX parent child) t
    (fun _ _ => False)
    (fun e t' =>
       e = NeedToSplitInternalNode /\
       key_count (content t' parent) = u32 (key_count (content t parent) + 1) /\
       (forall a, a < 6 \/ 10 <= a ->
                  content t' parent a = content t parent a) /\
       (forall m, m <> parent -> content t' m = content t m)).
Proof.
  intros Hwf Hp Hch Hty Hn Hfit Hleaf.
  assert (parent <> child) as Hne.
  { intros ->. destruct Hleaf as [Hl _]. rewrite Hty in Hl. discriminate. }
  unfold internal_node_insert.
  apply wpe_bind, wp_wpe, wp_get_page_old; auto.
  assert (pager_wf (load_page t parent)) as Hwf1
      by (apply pager_wf_load_page; auto).
  apply wpe_bind, wp_wpe, wp_get_page_old; auto;
    [rewrite num_pages_load_page; lia|].
  set (t2 := load_page (load_page t parent) child).
  assert (forall m, content t2 m = content t m) as Hc2
      by (intros m; unfold t2; rewrite !content_load_page; reflexivity).
  assert (cached t2 parent) as Hcp by (unfold t2; auto with store).
  assert (cached t2 child) as Hcc by (unfold t2; auto with store).
  apply wpe_bind, wp_wpe, wp_get_node_max_key_leaf; auto;
    [rewrite Hc2; exact Hleaf|].
  unfold internal_cells_fit in Hfit.
  apply wpe_bind, wp_wpe, wp_internal_node_find_child_total; auto;
    [unfold keys_in_page; rewrite Hc2; exact Hfit|].
  intros index Hindex.
  apply wpe_bind, wp_wpe, wp_load32; ptrs; consts; try lia; auto.
  rewrite Hc2. change (get32 (content t parent) 6)
    with (key_count (content t parent)).
  apply wpe_bind, wp_wpe, wp_store32; ptrs; consts; try lia; auto.
  destruct (Z.geb_spec (key_count (content t parent)) MAX); [|lia].
  unfold wpe, exit_failure. split; [reflexivity|].
  rewrite content_set_page_same. split.
  - unfold key_count. consts. rewrite get32_blit_le32.
    unfold u32. apply Z.mod_mod. lia.
  - split.
    + intros a Ha. rewrite Hc2. unfold blit.
      destruct (Z.leb_spec 6 a); destruct (Z.ltb_spec a (6 + 4));
        simpl; auto; lia.
    + intros m Hm. rewrite content_set_page_other by exact Hm. apply Hc2.
Qed.

(** C4 (the code departs from the claim).  On a parent whose key count
    equals [INTERNAL_NODE_MAX_CELLS], [internal_node_insert] of a leaf
    terminates the process with the internal-split message, and the
    parent page in memory at that point has its key count incremented:
    the count is stored before the capacity is tested.  All other bytes
    of the store are as before. *)
Theorem internal_node_insert_full_exits MAX parent child t :
  pager_wf t ->
  0 <= parent < num_pages (pager t) ->
  0 <= child < num_pages (pager t) ->
  type_of (content t parent) = NODE_INTERNAL ->
  key_count (content t parent) = MAX ->
  internal_cells_fit MAX ->
  nonempty_leaf (content t child) ->
  exists t',
    internal_node_insert MAX parent child t = Exit NeedToSplitInternalNode t' /\
    key_count (content t' parent) = MAX + 1 /\
    (forall a, a < 6 \/ 10 <= a ->
               content t' parent a = content t parent a) /\
    (forall m, m <> parent -> content t' m = content t m).
Proof.
  intros Hwf Hp Hch Hty Hn Hfit Hleaf.
  pose proof (get32_range (content t parent) 6) as Hr.
  change (get32 (content t parent) 6) with (key_count (content t parent)) in Hr.
  assert (wpe (internal_node_insert MAX parent child) t
            (fun _ _ => False)
            (fun e t' =>
               e = NeedToSplitInternalNode /\
               key_count (content t' parent)
               = u32 (key_count (content t parent) + 1) /\
               (forall a, a < 6 \/ 10 <= a ->
                          content t' parent a = content t parent a) /\
               (forall m, m <> parent -> content t' m = content t m))) as H.
  { apply wpe_internal_node_insert_full; auto; [lia|]. rewrite Hn. exact Hfit. }
  apply wpe_elim_exit in H as (e & t' & Hrun & -> & Hk & H).
  exists t'. split; [exact Hrun|]. split; [|exact H].
  rewrite Hk, Hn. apply u32_small. unfold internal_cells_fit in Hfit.
  consts. lia.
Qed.

Lemma wp_internal_node_insert MAX parent child index t Q :
  pager_wf t ->
  0 <= parent < num_pages (pager t) ->
  0 <= child < num_pages (pager t) ->
  type_of (content t parent) = NODE_INTERNAL ->
  key_count (content t parent) < MAX ->
  internal_cells_fit (key_count (content t parent) + 1) ->
  separators_ascending (content t parent) ->
  nonempty_leaf (content t child) ->
  0 <= right_child_ref (content t parent) < num_pages (pager t) ->
  nonempty_leaf (content t (right_child_ref (content t parent))) ->
  first_separator_geq (content t parent)
    (leaf_max_key (content t child)) index ->
  (forall t',
      extends t t' ->
      (forall m, m <> parent -> content t' m = content t m) ->
      child_inserted (content t parent) (content t' parent) index child
        (leaf_max_key (content t child))
        (right_child_ref (content t parent))
        (leaf_max_key (content t (right_child_ref (content t parent)))) ->
      Q tt t') ->
  wp (internal_node_insert MAX parent child) t Q.
Proof.
  intros Hwf Hp Hch Hty Hn Hfit Hasc Hleaf Hrc Hrleaf Hidx HQ.
  set (cP := content t parent) in *.
  set (rc := right_child_ref cP) in *.
  set (m := leaf_max_key (content t child)) in *.
  set (mr := leaf_max_key (content t rc)) in *.
  set (N := key_count cP) in *.
  assert (parent <> child) as Hne.
  { intros <-. destruct Hleaf as [Hl _]. fold cP in Hl. rewrite Hty in Hl.
    discriminate. }
  assert (parent <> rc) as Hne'.
  { intros E. destruct Hrleaf as [Hl _]. rewrite <- E in Hl. fold cP in Hl.
    rewrite Hty in Hl. discriminate. }
  pose proof (get32_range cP 6) as HN. change (get32 cP 6) with N in HN.
  pose proof (pager_wf_num_pages t Hwf) as Hnp.
  assert (0 <= m < 4294967296) as Hm by apply get32_range.
  assert (0 <= mr < 4294967296) as Hmr by apply get32_range.
  unfold internal_cells_fit in Hfit. consts.
  unfold internal_node_insert.
  apply wp_bind, wp_get_page_old; auto.
  assert (pager_wf (load_page t parent)) as Hwf1
      by (apply pager_wf_load_page; auto).
  apply wp_bind, wp_get_page_old; auto; [rewrite num_pages_load_page; lia|].
  set (t2 := load_page (load_page t parent) child).
  assert (forall k, content t2 k = content t k) as Hc2
      by (intros k; unfold t2; rewrite !content_load_page; reflexivity).
  assert (extends t t2) as He2.
  { unfold t2. eapply extends_trans; apply extends_load_page; auto.
    rewrite num_pages_load_page. lia. }
  assert (pager_wf t2) as Hwf2 by (apply (extends_wf t); auto).
  assert (cached t2 parent) as Hcp by (unfold t2; auto with store).
  assert (cached t2 child) as Hcc by (unfold t2; auto with store).
  apply wp_bind, wp_get_node_max_key_leaf; auto; [rewrite Hc2; exact Hleaf|].
  rewrite Hc2. fold m.
  apply wp_bind, wp_internal_node_find_child; auto;
    [unfold keys_in_page; rewrite Hc2; fold cP; fold N; consts; lia
    |rewrite Hc2; exact Hasc|].
  intros index' Hidx'. rewrite Hc2 in Hidx'. fold cP in Hidx'.
  assert (index' = index) as ->.
  { destruct Hidx as (R1 & L1 & G1), Hidx' as (R2 & L2 & G2).
    destruct (Z.lt_trichotomy index' index) as [H|[H|H]]; auto.
    - specialize (L1 index' ltac:(lia)). specialize (G2 index' ltac:(lia)). lia.
    - specialize (L2 index ltac:(lia)). specialize (G1 index ltac:(lia)). lia. }
  destruct Hidx as (Hir & Hil & Hig). fold N in Hir, Hig.
  apply wp_bind, wp_load32; ptrs; consts; try lia; auto.
  rewrite Hc2. fold cP. change (get32 cP 6) with N.
  apply wp_bind, wp_store32; ptrs; consts; try lia; auto.
  rewrite Hc2. fold cP. rewrite (u32_small (N + 1)) by lia.
  set (c3 := blit cP 6 4 (le32 (N + 1))).
  set (t3 := set_page t2 parent c3).
  destruct (Z.geb_spec N MAX) as [Hge|_]; [lia|].
  assert (cached t3 parent) as Hcp3 by (unfold t3; auto with store).
  assert (extends t t3) as He3
      by (eapply extends_trans; [exact He2 | apply extends_set_page, Hcp]).
  assert (pager_wf t3) as Hwf3 by (apply (extends_wf t); auto).
  assert (content t3 parent = c3) as Hc3 by apply content_set_page_same.
  assert (forall k, k <> parent -> content t3 k = content t k) as Hf3.
  { intros k Hk. unfold t3. rewrite content_set_page_other by exact Hk.
    apply Hc2. }
  apply wp_bind, wp_load32; ptrs; consts; try lia; auto.
  rewrite Hc3. unfold c3 at 1. rewrite get32_blit_out by lia.
  change (get32 cP 10) with rc.
  apply wp_bind, wp_get_page_old; auto;
    [rewrite (extends_num_pages _ _ He3); lia|].
  set (t4 := load_page t3 rc).
  assert (extends t t4) as He4.
  { eapply extends_trans; [exact He3|]. apply extends_load_page.
    rewrite (extends_num_pages _ _ He3). lia. }
  assert (pager_wf t4) as Hwf4 by (apply (extends_wf t); auto).
  assert (forall k, content t4 k = content t3 k) as Hc4
      by (intros k; apply content_load_page).
  assert (cached t4 rc) as Hcr4 by (unfold t4; auto with store).
  assert (cached t4 parent) as Hcp4 by (unfold t4; auto with store).
  apply wp_bind, wp_get_node_max_key_leaf; auto;
    [rewrite Hc4, Hf3 by auto; exact Hrleaf|].
  rewrite Hc4, Hf3 by auto. fold mr.
  destruct (Z.gtb_spec m mr) as [Hgt|Hle].
  - (* the new child becomes the rightmost child *)
    unfold internal_node_child.
    apply wp_bind, wp_bind, wp_load32; ptrs; consts; try lia; auto.
    rewrite Hc4, Hc3. unfold c3 at 1. rewrite get32_blit_le32.
    rewrite (u32_small (N + 1)) by lia.
    destruct (Z.eqb_spec N (N + 1)) as [?|_]; [lia|].
    apply wp_ret. ptrs. consts.
    apply wp_bind, wp_store32; ptrs; consts; try lia; auto.
    rewrite Hc4, Hc3.
    set (t5 := set_page t4 parent _).
    assert (cached t5 rc) as Hcr5 by (unfold t5; auto with store).
    assert (cached t5 parent) as Hcp5 by (unfold t5; auto with store).
    apply wp_bind, wp_get_node_max_key_leaf; auto;
      [unfold t5; rewrite content_set_page_other, Hc4, Hf3 by auto;
       exact Hrleaf|].
    unfold t5 at 1. rewrite content_set_page_other, Hc4, Hf3 by auto. fold mr.
    apply wp_bind, wp_store32; ptrs; consts; try lia; auto.
    set (t6 := set_page t5 parent _).
    apply wp_store32; ptrs; consts; try lia; [unfold t6; auto with store|].
    apply HQ.
    + eapply extends_trans; [exact He4|].
      eapply extends_trans; [apply extends_set_page, Hcp4|].
      eapply extends_trans; [apply extends_set_page, Hcp5|].
      apply extends_set_page. unfold t6. auto with store.
    + intros k Hk. rewrite content_set_page_other by exact Hk.
      unfold t6. rewrite content_set_page_other by exact Hk.
      unfold t5. rewrite content_set_page_other by exact Hk.
      rewrite Hc4. auto.
    + rewrite content_set_page_same. unfold t6.
      rewrite content_set_page_same. unfold t5.
      rewrite content_set_page_same. fold cP. unfold c3.
      unfold child_inserted. fold N. split; [|split; [|split]].
      * unfold key_count. consts. blits. apply u32_small. lia.
      * consts. intros a Ha. rewrite !blit_out by lia. reflexivity.
      * intros _. unfold right_child_ref, child_ref, sep_key. consts.
        split; [blits; apply u32_small; lia|].
        split; [blits; apply u32_small; unfold rc; apply get32_range|].
        split; [blits; apply u32_small; lia|].
        intros i Hi. split; blits; reflexivity.
      * intros ?. lia.
  - (* the new child goes to the cell at [index] *)
    apply wp_bind.
    change (fun i : Z =>
              let destination := internal_node_cell (mkPtr parent 0) i in
              let source := internal_node_cell (mkPtr parent 0) (u32 (i - 1)) in
              memcpy destination source 8)
      with (fun i : Z =>
              memcpy (mkPtr parent (14 + i * 8))
                (mkPtr parent (14 + u32 (i - 1) * 8)) 8).
    apply wp_shift_cells; auto; try lia;
      rewrite ?Z2Nat.id by lia; consts; try lia.
    replace (index + (N - index)) with N by lia.
    intros t5 He5 Hf5 Hs5.
    assert (cached t5 parent) as Hcp5 by (apply (extends_cached _ _ _ He5 Hcp4)).
    assert (forall off, get32 (content t5 parent) off
                        = get32 (shifted c3 (14 + index * 8) (14 + N * 8) 8) off)
      as Hg5.
    { intros off. apply get32_ext. intros a _. rewrite Hs5, Hc4, Hc3.
      reflexivity. }
    unfold internal_node_child.
    apply wp_bind, wp_bind, wp_load32; ptrs; consts; try lia; auto.
    rewrite Hg5. unfold c3 at 1. blits. rewrite (u32_small (N + 1)) by lia.
    destruct (Z.eqb_spec index (N + 1)) as [?|_]; [lia|].
    apply wp_ret. ptrs. consts.
    apply wp_bind, wp_store32; ptrs; consts; try lia; auto.
    set (t6 := set_page t5 parent _).
    apply wp_store32; ptrs; consts; try lia; [unfold t6; auto with store|].
    apply HQ.
    + eapply extends_trans; [exact He4|].
      eapply extends_trans; [exact He5|].
      eapply extends_trans; [apply extends_set_page, Hcp5|].
      apply extends_set_page. unfold t6. auto with store.
    + intros k Hk. rewrite content_set_page_other by exact Hk.
      unfold t6. rewrite content_set_page_other by exact Hk.
      rewrite Hf5, Hc4 by exact Hk. auto.
    + rewrite content_set_page_same. unfold t6.
      rewrite content_set_page_same. fold cP.
      unfold child_inserted. fold N. split; [|split; [|split]].
      * unfold key_count. consts. blits. rewrite Hg5. unfold c3. blits.
        apply u32_small. lia.
      * consts. intros a Ha. rewrite !blit_out by lia.
        rewrite Hs5, Hc4, Hc3, shifted_out by lia. unfold c3.
        apply blit_out. lia.
      * intros ?. lia.
      * intros _. unfold right_child_ref, child_ref, sep_key. consts.
        split; [blits; rewrite Hg5; unfold c3; blits; reflexivity|].
        split; [blits; apply u32_small; lia|].
        split; [blits; apply u32_small; lia|].
        split; intros i Hi; split; blits; rewrite Hg5; unfold c3; blits;
          try reflexivity; f_equal; lia.
Qed.

Lemma content_table_of_0 c : content (table_of [c]) 0 = c.
Proof. reflexivity. Qed.

Lemma first_separator_geq_exists c key :
  keys_in_page c -> separators_ascending c ->
  exists r, first_separator_geq c key r.
Proof.
  intros Hfit Hasc.
  assert (wp (internal_node_find_child (mkPtr 0 0) key) (table_of [c])
            (fun r _ => first_separator_geq c key r)) as H.
  { apply wp_internal_node_find_child; auto.
    unfold cached. simpl. discriminate. }
  apply wp_elim in H as (r & _ & _ & H). eauto.
Qed.

(** C7.  [internal_node_insert] of a leaf [child] into an internal node
    with room: the key count grows by one; when the child's maximum key
    exceeds that of the rightmost child, the child becomes the rightmost
    child and the old rightmost child is appended as the cell after the
    existing ones, keyed by its own maximum; otherwise the cells from the
    [internal_node_find_child] index on move one slot to the right and the
    cell at that index becomes (child page, child's maximum key).  No other
    page changes. *)
Theorem internal_node_insert_correct MAX parent child t :
  pager_wf t ->
  0 <= parent < num_pages (pager t) ->
  0 <= child < num_pages (pager t) ->
  type_of (content t parent) = NODE_INTERNAL ->
  key_count (content t parent) < MAX ->
  internal_cells_fit MAX ->
  separators_ascending (content t parent) ->
  nonempty_leaf (content t child) ->
  0 <= right_child_ref (content t parent) < num_pages (pager t) ->
  nonempty_leaf (content t (right_child_ref (content t parent))) ->
  exists t' index,
    internal_node_insert MAX parent child t = Ok tt t' /\
    first_separator_geq (content t parent)
      (leaf_max_key (content t child)) index /\
    (forall m, m <> parent -> content t' m = content t m) /\
    child_inserted (content t parent) (content t' parent) index child
      (leaf_max_key (content t child))
      (right_child_ref (content t parent))
      (leaf_max_key (content t (right_child_ref (content t parent)))).
Proof.
  intros Hwf Hp Hch Hty Hn Hfit Hasc Hleaf Hrc Hrleaf.
  pose proof (get32_range (content t parent) 6) as HN.
  change (get32 (content t parent) 6) with (key_count (content t parent)) in HN.
  destruct (first_separator_geq_exists (content t parent)
              (leaf_max_key (content t child))) as [index Hidx]; auto.
  { unfold keys_in_page. unfold internal_cells_fit in Hfit. consts. lia. }
  assert (wp (internal_node_insert MAX parent child) t
            (fun _ t' =>
               (forall m, m <> parent -> content t' m = content t m) /\
               child_inserted (content t parent) (content t' parent) index
                 child (leaf_max_key (content t child))
                 (right_child_ref (content t parent))
                 (leaf_max_key
                    (content t (right_child_ref (content t parent))))))
    as H.
  { apply wp_internal_node_insert with (index := index); auto.
    unfold internal_cells_fit in *. consts. lia. }
  apply wp_elim in H as ([] & t' & Hrun & H1 & H2).
  exists t', index. auto.
Qed.


(** ** [create_new_root] *)

Lemma byte_at_blit_byte c off v a :
  byte_at (blit c off 1 (le32 v)) a
  = if a =? off then v mod 256 else byte_at c a.
Proof.
  destruct (Z.eqb_spec a off) as [->|H].
  - apply byte_at_blit_le32.
  - apply byte_at_blit_out. lia.
Qed.

Lemma wp_create_new_root r t Q :
  pager_wf t ->
  root_page_num t = 0 ->
  0 < r < num_pages (pager t) ->
  num_pages (pager t) < TABLE_MAX_PAGES ->
  nonempty_leaf (content t 0) ->
  (forall t', pager_wf t' -> root_promoted t t' r -> Q tt t') ->
  wp (create_new_root r) t Q.
Proof.
  intros Hwf Hroot Hr Hmax [Hty Hcnt] HQ.
  set (L := num_pages (pager t)) in *.
  set (R := content t 0) in *.
  consts.
  unfold create_new_root.
  apply wp_bind, wp_get_root_page_num. rewrite Hroot.
  apply wp_bind, wp_get_page_old; auto; [lia|].
  assert (pager_wf (load_page t 0)) as Hwf1
      by (apply pager_wf_load_page; auto; lia).
  apply wp_bind, wp_get_page_old; auto; [pages_tac; lia|].
  set (t2 := load_page (load_page t 0) r).
  assert (pager_wf t2) as Hwf2.
  { apply pager_wf_load_page; auto. pages_tac. lia. }
  assert (num_pages (pager t2) = L) as Hn2 by (unfold t2; pages_tac; reflexivity).
  apply wp_bind, wp_get_unused_page_num. rewrite Hn2.
  rewrite <- Hn2. apply wp_bind, wp_get_page_new; auto; [rewrite Hn2; consts; lia|].
  rewrite Hn2.
  set (t3 := append_page t2).
  assert (pager_wf t3) as Hwf3
      by (apply pager_wf_append_page; auto; rewrite Hn2; consts; lia).
  assert (cached t3 0) as Hc0 by (unfold t3, t2; cached_tac).
  assert (cached t3 r) as Hcr by (unfold t3, t2; cached_tac).
  assert (cached t3 L) as HcL by (unfold t3; rewrite <- Hn2; cached_tac).
  assert (content t3 L = zero_page) as H3L
      by (unfold t3; rewrite <- Hn2; apply content_append_page_same).
  assert (forall m, m <> L -> content t3 m = content t m) as H3o.
  { intros m Hm. unfold t3. rewrite content_append_page_other by (rewrite Hn2; exact Hm).
    unfold t2. content_tac. reflexivity. }
  assert (num_pages (pager t3) = L + 1) as Hn3
      by (unfold t3; rewrite num_pages_append_page, Hn2; reflexivity).
  assert (root_page_num t3 = 0) as Hr3 by (unfold t3, t2; simpl; pages_tac; exact Hroot).
  clearbody t3. clear t2 Hwf2 Hn2 Hwf1.
  assert (0 <> L) as HL0 by lia. assert (r <> L) as HLr by lia.
  assert (r <> 0) as Hr0 by lia.
  apply wp_bind, wp_memcpy; ptrs; consts; try lia; auto.
  rewrite H3L, H3o by lia. fold R.
  set (cl1 := blit zero_page 0 4096 R).
  unfold set_node_root.
  wp_store_byte.
  unfold initialize_internal_node, set_node_type, set_node_root.
  wp_seq. wp_store_byte. rewrite H3o by lia. fold R.
  wp_store_byte. wp_store. wp_store_byte. wp_store.
  unfold internal_node_child. wp_seq. wp_load.
  blits. rewrite (u32_small 1) by lia. cbn [Z.eqb].
  apply wp_ret. wp_store.
  set (cl2 := blit cl1 1 1 (le32 0)).
  assert (type_of cl2 = 1) as Htl.
  { unfold type_of, cl2, cl1. consts. rewrite byte_at_blit_out by lia.
    rewrite byte_at_blit_in by lia. rewrite Z.sub_0_r. exact Hty. }
  assert (forall off, 6 <= off -> off + 4 <= 4096 -> get32 cl2 off = get32 R off) as Hgl.
  { intros off H1 H2. unfold cl2, cl1. rewrite get32_blit_out by lia.
    apply get32_ext. intros a Ha. rewrite blit_in by lia. f_equal. lia. }
  apply wp_bind, wp_get_node_max_key_leaf; [cached_tac | |].
  { content_tac. split; [exact Htl|]. unfold cell_count. consts.
    rewrite Hgl by lia. exact Hcnt. }
  content_tac.
  assert (leaf_max_key cl2 = leaf_max_key R) as Hmk.
  { unfold leaf_max_key, leaf_key, cell_count in *. consts.
    rewrite (Hgl 6) by lia. apply Hgl; lia. }
  rewrite Hmk.
  wp_store. wp_store.
  apply wp_bind, wp_get_root_page_num. pages_tac. rewrite Hr3.
  wp_store.
  apply wp_bind, wp_get_root_page_num. pages_tac. rewrite Hr3.
  wp_store. rewrite H3o by lia.
  assert (0 <= leaf_max_key R < 4294967296) as Hmr by apply get32_range.
  apply HQ.
  - repeat (apply pager_wf_set_page; [|cached_tac]). exact Hwf3.
  - unfold root_promoted. fold L. fold R. consts. pages_tac.
    content_tac. fold cl1. fold cl2.
    split; [exact Hn3|]. split; [congruence|].
    split. { intros a Ha Ha'. rewrite blit_out by lia. unfold cl2.
             rewrite blit_out by lia. unfold cl1. rewrite blit_in by lia.
             f_equal. lia. }
    split. { unfold root_flag. consts. rewrite byte_at_blit_out by lia.
             unfold cl2. rewrite byte_at_blit_le32. reflexivity. }
    split. { unfold parent_ref. consts. blits. reflexivity. }
    split. { unfold type_of. consts. rewrite !byte_at_blit_out by lia.
             rewrite byte_at_blit_le32. reflexivity. }
    split. { unfold root_flag. consts. rewrite !byte_at_blit_out by lia.
             rewrite byte_at_blit_le32. reflexivity. }
    split. { unfold key_count. consts. blits. reflexivity. }
    split. { unfold child_ref. consts. blits. apply u32_small. lia. }
    split. { unfold sep_key. consts. blits. apply u32_small. lia. }
    split. { unfold right_child_ref. consts. blits. apply u32_small. lia. }
    split. { unfold parent_ref. consts. blits. reflexivity. }
    split. { intros a Ha. apply blit_out. lia. }
    intros m H1 H2 H3. content_tac. apply H3o. exact H3.
Qed.

(** C5.  [create_new_root] on a table whose root page 0 holds a (non-empty)
    leaf: the first unused page becomes the left child, a copy of the old
    root's bytes except for the cleared root flag and the parent
    reference, which is page 0; page 0 becomes an internal node marked
    root with one separator key, the left child's maximum key, child 0 the
    left child and the rightmost child [r]; the parent reference of [r] is
    page 0; nothing else changes. *)
Theorem create_new_root_correct r t :
  pager_wf t ->
  root_page_num t = 0 ->
  0 < r < num_pages (pager t) ->
  num_pages (pager t) < TABLE_MAX_PAGES ->
  nonempty_leaf (content t 0) ->
  exists t', create_new_root r t = Ok tt t' /\ root_promoted t t' r.
Proof.
  intros Hwf Hroot Hr Hmax Hleaf.
  assert (wp (create_new_root r) t (fun _ t' => root_promoted t t' r)) as H
      by (apply wp_create_new_root; auto).
  apply wp_elim in H as ([] & t' & Hrun & H). eauto.
Qed.


(** ** [leaf_node_split_and_insert]: distributing the cells *)

Lemma split_source_at c index key value d :
  split_source c index key value index d = cell_image key value d.
Proof. unfold split_source. rewrite Z.eqb_refl. reflexivity. Qed.

Lemma split_source_above c index key value i d :
  index < i ->
  split_source c index key value i d = c (14 + (i - 1) * 297 + d).
Proof.
  intros H. unfold split_source.
  destruct (Z.eqb_spec i index); [lia|].
  destruct (Z.ltb_spec index i); [reflexivity|lia].
Qed.

Lemma split_source_below c index key value i d :
  i < index ->
  split_source c index key value i d = c (14 + i * 297 + d).
Proof.
  intros H. unfold split_source.
  destruct (Z.eqb_spec i index); [lia|].
  destruct (Z.ltb_spec index i); [lia|reflexivity].
Qed.

Lemma cell_image_blit c base key value d :
  0 <= d < 297 ->
  blit (blit c (base + 4) 293 (of_list (row_bytes value))) base 4 (le32 key)
    (base + d)
  = cell_image key value d.
Proof.
  intros Hd. unfold cell_image. consts.
  destruct (Z.ltb_spec d 4).
  - rewrite blit_in by lia. f_equal. lia.
  - rewrite blit_out, blit_in by lia. f_equal. lia.
Qed.

Lemma wp_split_step cursor key value p new t0 t' k Q :
  p <> new -> cached t0 p -> cached t0 new ->
  0 <= k <= 13 -> 0 <= cell_num cursor <= 13 ->
  split_progress t0 t' p new (cell_num cursor) key value (k + 1) ->
  (forall t'',
      split_progress t0 t'' p new (cell_num cursor) key value k -> Q tt t'') ->
  wp (split_step cursor key value (mkPtr p 0) (mkPtr new 0) k) t' Q.
Proof.
  intros Hne Hcp Hcn Hk Hidx (He & Hf & Ho1 & Ho2 & Hn1 & Hn2) HQ.
  set (idx := cell_num cursor) in *.
  assert (cached t' p) as Hcp' by (apply (extends_cached _ _ _ He Hcp)).
  assert (cached t' new) as Hcn' by (apply (extends_cached _ _ _ He Hcn)).
  unfold split_step. consts. fold idx.
  destruct (Z.geb_spec k 7) as [Hge|Hlt].
  - (* destination: the new leaf *)
    assert (k mod 7 = k - 7) as ->.
    { symmetry. apply (Z.mod_unique_pos k 7 1); lia. }
    destruct (Z.eqb_spec k idx) as [Hki|Hki];
      [|destruct (Z.gtb_spec k idx) as [Hgt|Hle]].
    + unfold serialize_row. wp_seq. apply wp_poke; ptrs; consts; try lia; auto.
      apply wp_poke; ptrs; consts; try lia; [cached_tac|]. content_tac.
      apply HQ. split; [|split; [|split; [|split; [|split]]]].
      * eapply extends_trans; [exact He|]. eapply extends_trans;
          apply extends_set_page; cached_tac.
      * intros m H1 H2. content_tac. auto.
      * intros a Ha. content_tac. apply Ho1. lia.
      * intros i d Hi Hd. content_tac. apply Ho2; lia.
      * intros a Ha. content_tac. rewrite !blit_out by lia. apply Hn1. lia.
      * intros i d Hi Hd. content_tac.
        destruct (Z.eq_dec i k) as [->|Hik].
        -- replace (14 + (k - 7) * 297 + d) with (14 + (k - 7) * 297 + 0 + d)
             by lia.
           rewrite (Z.add_0_r (14 + (k - 7) * 297)).
           rewrite cell_image_blit by lia. rewrite Hki.
           symmetry. apply split_source_at.
        -- rewrite !blit_out by lia. apply Hn2; lia.
    + wp_seq_opt. apply wp_memcpy; ptrs; consts; try lia; auto.
      apply HQ. split; [|split; [|split; [|split; [|split]]]].
      * eapply extends_trans; [exact He|]. apply extends_set_page; cached_tac.
      * intros m H1 H2. content_tac. auto.
      * intros a Ha. content_tac. apply Ho1. lia.
      * intros i d Hi Hd. content_tac. apply Ho2; lia.
      * intros a Ha. content_tac. rewrite !blit_out by lia. apply Hn1. lia.
      * intros i d Hi Hd. content_tac.
        destruct (Z.eq_dec i k) as [->|Hik].
        -- rewrite blit_in by lia. rewrite split_source_above by lia.
           rewrite Ho1 by lia. f_equal. lia.
        -- rewrite !blit_out by lia. apply Hn2; lia.
    + wp_seq_opt. apply wp_memcpy; ptrs; consts; try lia; auto.
      apply HQ. split; [|split; [|split; [|split; [|split]]]].
      * eapply extends_trans; [exact He|]. apply extends_set_page; cached_tac.
      * intros m H1 H2. content_tac. auto.
      * intros a Ha. content_tac. apply Ho1. lia.
      * intros i d Hi Hd. content_tac. apply Ho2; lia.
      * intros a Ha. content_tac. rewrite !blit_out by lia. apply Hn1. lia.
      * intros i d Hi Hd. content_tac.
        destruct (Z.eq_dec i k) as [->|Hik].
        -- rewrite blit_in by lia. rewrite split_source_below by lia.
           rewrite Ho1 by lia. f_equal. lia.
        -- rewrite !blit_out by lia. apply Hn2; lia.
  - (* destination: the old leaf *)
    assert (k mod 7 = k) as -> by (apply Z.mod_small; lia).
    destruct (Z.eqb_spec k idx) as [Hki|Hki];
      [|destruct (Z.gtb_spec k idx) as [Hgt|Hle]].
    + unfold serialize_row. wp_seq. apply wp_poke; ptrs; consts; try lia; auto.
      apply wp_poke; ptrs; consts; try lia; [cached_tac|]. content_tac.
      apply HQ. split; [|split; [|split; [|split; [|split]]]].
      * eapply extends_trans; [exact He|]. eapply extends_trans;
          apply extends_set_page; cached_tac.
      * intros m H1 H2. content_tac. auto.
      * intros a Ha. content_tac. rewrite !blit_out by lia. apply Ho1. lia.
      * intros i d Hi Hd. content_tac.
        destruct (Z.eq_dec i k) as [->|Hik].
        -- replace (14 + k * 297 + d) with (14 + k * 297 + 0 + d) by lia.
           rewrite (Z.add_0_r (14 + k * 297)).
           rewrite cell_image_blit by lia. rewrite Hki.
           symmetry. apply split_source_at.
        -- rewrite !blit_out by lia. apply Ho2; lia.
      * intros a Ha. content_tac. apply Hn1. lia.
      * intros i d Hi Hd. content_tac. apply Hn2; lia.
    + wp_seq_opt. apply wp_memcpy; ptrs; consts; try lia; auto.
      apply HQ. split; [|split; [|split; [|split; [|split]]]].
      * eapply extends_trans; [exact He|]. apply extends_set_page; cached_tac.
      * intros m H1 H2. content_tac. auto.
      * intros a Ha. content_tac. rewrite !blit_out by lia. apply Ho1. lia.
      * intros i d Hi Hd. content_tac.
        destruct (Z.eq_dec i k) as [->|Hik].
        -- rewrite blit_in by lia. rewrite split_source_above by lia.
           rewrite Ho1 by lia. f_equal. lia.
        -- rewrite !blit_out by lia. apply Ho2; lia.
      * intros a Ha. content_tac. apply Hn1. lia.
      * intros i d Hi Hd. content_tac. apply Hn2; lia.
    + wp_seq_opt. apply wp_memcpy; ptrs; consts; try lia; auto.
      apply HQ. split; [|split; [|split; [|split; [|split]]]].
      * eapply extends_trans; [exact He|]. apply extends_set_page; cached_tac.
      * intros m H1 H2. content_tac. auto.
      * intros a Ha. content_tac. rewrite !blit_out by lia. apply Ho1. lia.
      * intros i d Hi Hd. content_tac.
        destruct (Z.eq_dec i k) as [->|Hik].
        -- rewrite blit_in by lia. rewrite split_source_below by lia.
           rewrite Ho1 by lia. f_equal. lia.
        -- rewrite !blit_out by lia. apply Ho2; lia.
      * intros a Ha. content_tac. apply Hn1. lia.
      * intros i d Hi Hd. content_tac. apply Hn2; lia.
Qed.

Lemma split_source_ext c c' index key value i d :
  0 <= index -> 0 <= i -> 0 <= d ->
  (forall a, 14 <= a -> c a = c' a) ->
  split_source c index key value i d = split_source c' index key value i d.
Proof.
  intros H1 H2 H3 H. unfold split_source. consts.
  destruct (i =? index); [reflexivity|].
  destruct (Z.ltb_spec index i); apply H; lia.
Qed.

Lemma wp_leaf_node_split cursor key value t Q :
  pager_wf t ->
  0 <= page_num cursor < num_pages (pager t) ->
  num_pages (pager t) < TABLE_MAX_PAGES ->
  type_of (content t (page_num cursor)) = NODE_LEAF ->
  cell_count (content t (page_num cursor)) = LEAF_NODE_MAX_CELLS ->
  0 <= cell_num cursor <= LEAF_NODE_MAX_CELLS ->
  (forall t',
      pager_wf t' ->
      cached t' (page_num cursor) -> cached t' (num_pages (pager t)) ->
      leaf_split_done t t' (page_num cursor) (cell_num cursor) key value ->
      Q (mkPtr (page_num cursor) 0,
         leaf_max_key (content t (page_num cursor)),
         num_pages (pager t)) t') ->
  wp (leaf_node_split cursor key value) t Q.
Proof.
  intros Hwf Hp Hmax Hty Hcnt Hidx HQ.
  set (p := page_num cursor) in *. set (idx := cell_num cursor) in *.
  set (new := num_pages (pager t)) in *. set (old := content t p) in *.
  consts.
  assert (p <> new) as Hne by lia.
  unfold leaf_node_split. fold p.
  apply wp_bind, wp_get_page_old; auto.
  set (t1 := load_page t p).
  assert (pager_wf t1) as Hwf1 by (apply pager_wf_load_page; auto).
  assert (num_pages (pager t1) = new) as Hn1 by apply num_pages_load_page.
  apply wp_bind, wp_get_node_max_key_leaf; [unfold t1; cached_tac | |].
  { unfold t1. content_tac. fold old. split; [exact Hty|]. consts. lia. }
  unfold t1 at 1. content_tac. fold old.
  apply wp_bind, wp_get_unused_page_num. rewrite Hn1.
  rewrite <- Hn1. apply wp_bind, wp_get_page_new; auto;
    [rewrite Hn1; consts; lia|].
  rewrite Hn1.
  set (t2 := append_page t1).
  assert (pager_wf t2) as Hwf2
      by (apply pager_wf_append_page; auto; rewrite Hn1; consts; lia).
  assert (cached t2 p) as Hc2p by (unfold t2, t1; cached_tac).
  assert (cached t2 new) as Hc2n by (unfold t2; rewrite <- Hn1; cached_tac).
  assert (content t2 new = zero_page) as H2n
      by (unfold t2; rewrite <- Hn1; apply content_append_page_same).
  assert (forall m, m <> new -> content t2 m = content t m) as H2o.
  { intros m Hm. unfold t2.
    rewrite content_append_page_other by (rewrite Hn1; exact Hm).
    unfold t1. content_tac. reflexivity. }
  assert (num_pages (pager t2) = new + 1) as Hn2
      by (unfold t2; rewrite num_pages_append_page, Hn1; reflexivity).
  assert (root_page_num t2 = root_page_num t) as Hr2
      by (unfold t2, t1; simpl; apply root_page_num_load_page).
  clearbody t2. clear t1 Hwf1 Hn1.
  unfold initialize_leaf_node, set_node_type, set_node_root.
  wp_seq. wp_store_byte. wp_store_byte. wp_store. wp_store.
  rewrite H2n.
  wp_load. rewrite H2o by auto. fold old.
  wp_store.
  wp_load. rewrite H2o by auto. fold old.
  wp_store. wp_store. rewrite H2o by auto. fold old.
  set (cn0 := blit (blit _ 2 4 _) 10 4 _).
  set (co0 := blit old 10 4 (le32 new)).
  set (t0 := set_page _ p co0).
  assert (extends t2 t0) as He0.
  { unfold t0. repeat (eapply extends_trans;
      [|apply extends_set_page; cached_tac]). apply extends_refl. }
  assert (content t0 p = co0) as H0p by (unfold t0; content_tac; reflexivity).
  assert (content t0 new = cn0) as H0n by (unfold t0; content_tac; reflexivity).
  assert (forall m, m <> p -> m <> new -> content t0 m = content t m) as H0o.
  { intros m H1 H2. unfold t0. content_tac. auto. }
  assert (cached t0 p) as Hc0p by (apply (extends_cached _ _ _ He0 Hc2p)).
  assert (cached t0 new) as Hc0n by (apply (extends_cached _ _ _ He0 Hc2n)).
  clearbody t0.
  wp_seq. change (Z.to_nat (13 + 1)) with 14%nat.
  apply wp_for_down with
    (I := fun k t' => split_progress t0 t' p new idx key value (Z.of_nat k)).
  - split; [apply extends_refl|]. split; [auto|].
    split; [auto|]. split; [intros; lia|]. split; [auto|]. intros; lia.
  - intros k t' Hk HI. replace (-1 + Z.of_nat (S k)) with (Z.of_nat k) by lia.
    apply wp_split_step with (p := p) (new := new) (t0 := t0); auto; try lia.
    replace (Z.of_nat k + 1) with (Z.of_nat (S k)) by lia. exact HI.
  - intros t5 (He5 & Hf5 & Ho1 & Ho2 & Hw1 & Hw2). cbn [Z.of_nat] in *.
    assert (cached t5 p) as Hc5p by (apply (extends_cached _ _ _ He5 Hc0p)).
    assert (cached t5 new) as Hc5n by (apply (extends_cached _ _ _ He5 Hc0n)).
    wp_store. wp_store. apply wp_ret.
    assert (extends t2 t5) as He25 by (apply (extends_trans t2 t0 t5); assumption).
    apply HQ.
    + repeat (apply pager_wf_set_page; [|cached_tac]).
      apply (extends_wf t2); auto.
    + cached_tac.
    + cached_tac.
    + unfold leaf_split_done. fold new. fold old. consts. pages_tac.
      content_tac.
      rewrite (extends_num_pages _ _ He25), (extends_root_page_num _ _ He25).
      split; [exact Hn2|]. split; [exact Hr2|].
      split. { intros m H1 H2. content_tac. rewrite Hf5 by auto. auto. }
      split. { intros a Ha. rewrite blit_out by lia. rewrite Ho1 by lia.
               rewrite H0p. unfold co0. apply blit_out. lia. }
      split. { unfold cell_count. consts. blits. reflexivity. }
      split. { unfold next_leaf_ref. consts. blits.
               rewrite (get32_ext _ (content t0 p))
                 by (intros a Ha; apply Ho1; lia).
               rewrite H0p. unfold co0. blits. apply u32_small.
               pose proof (pager_wf_num_pages t Hwf). fold new in H. lia. }
      split. { intros i d Hi Hd. rewrite blit_out by lia.
               rewrite Ho2 by lia. rewrite H0p.
               apply split_source_ext; try lia.
               intros a Ha. unfold co0. apply blit_out. lia. }
      assert (forall a, a < 14 -> content t5 new a = cn0 a) as Hhead
          by (intros a Ha; rewrite Hw1 by lia; rewrite H0n; reflexivity).
      split. { unfold type_of, byte_at. consts. rewrite blit_out by lia.
               rewrite Hhead by lia. unfold cn0. rewrite !blit_out by lia.
               rewrite blit_in by lia. reflexivity. }
      split. { unfold root_flag, byte_at. consts. rewrite blit_out by lia.
               rewrite Hhead by lia. unfold cn0. rewrite !blit_out by lia.
               rewrite blit_in by lia. reflexivity. }
      split. { unfold parent_ref. consts. blits.
               rewrite (get32_ext _ cn0) by (intros a Ha; apply Hhead; lia).
               unfold cn0. blits. apply u32_small. apply get32_range. }
      split. { unfold cell_count. consts. blits. reflexivity. }
      split. { unfold next_leaf_ref. consts. blits.
               rewrite (get32_ext _ cn0) by (intros a Ha; apply Hhead; lia).
               unfold cn0. blits. apply u32_small. apply get32_range. }
      intros i d Hi Hd. rewrite blit_out by lia.
      replace (14 + i * 297 + d) with (14 + (7 + i - 7) * 297 + d) by lia.
      rewrite Hw2 by lia. rewrite H0p.
      apply split_source_ext; try lia.
      intros a Ha. unfold co0. apply blit_out. lia.
Qed.


Lemma length_leaf_cells c n : length (leaf_cells c n) = n.
Proof. unfold leaf_cells. rewrite length_map, length_seq. reflexivity. Qed.

Lemma nth_leaf_cells c n i :
  (i < n)%nat -> nth i (leaf_cells c n) [] = leaf_cell c (Z.of_nat i).
Proof.
  intros H. unfold leaf_cells.
  rewrite nth_indep with (d' := leaf_cell c (Z.of_nat O))
    by (rewrite length_map, length_seq; exact H).
  rewrite (map_nth (fun i => leaf_cell c (Z.of_nat i)) (seq 0 n) O i).
  rewrite seq_nth by exact H. reflexivity.
Qed.



Lemma leaf_cell_of_source c' c index key value j i :
  0 <= i <= 13 -> 0 <= index <= 13 ->
  (forall d, 0 <= d < 297 ->
             c' (14 + j * 297 + d) = split_source c index key value i d) ->
  leaf_cell c' j
  = if i =? index then new_cell key value
    else if index <? i then leaf_cell c (i - 1) else leaf_cell c i.
Proof.
  intros Hi Hidx H. unfold leaf_cell, new_cell. consts.
  destruct (Z.eqb_spec i index) as [->|Hne];
    [|destruct (Z.ltb_spec index i)];
    apply bytes_at_rel; intros k Hk; rewrite H by lia.
  - rewrite split_source_at. reflexivity.
  - apply split_source_above. lia.
  - apply split_source_below. lia.
Qed.



(** ** The root flag is an invariant *)

Lemma wlp_ret {A} (a : A) t Q : Q a t -> wlp (ret a) t Q.
Proof. intros H. exact H. Qed.

Lemma wlp_bind {A B} (m : M A) (k : A -> M B) t Q :
  wlp m t (fun a t' => wlp (k a) t' Q) -> wlp (bind m k) t Q.
Proof. unfold wlp, bind. destruct (m t); auto. Qed.

Lemma wlp_mono {A} (m : M A) t (Q Q' : A -> Table -> Prop) :
  wlp m t Q -> (forall a t', Q a t' -> Q' a t') -> wlp m t Q'.
Proof. unfold wlp. destruct (m t); auto. Qed.

Lemma wlp_elim {A} (m : M A) t Q a t' :
  wlp m t Q -> m t = Ok a t' -> Q a t'.
Proof. unfold wlp. intros H E. rewrite E in H. exact H. Qed.

Lemma in_page_inv off len :
  in_page off len = true -> 0 <= off /\ off + len <= PAGE_SIZE.
Proof.
  unfold in_page. intros H. apply andb_prop in H as [H1 H2].
  apply Z.leb_le in H1, H2. auto.
Qed.

Lemma wlp_deref p len t Q :
  (cached t (ptr_page p) -> 0 <= ptr_off p -> ptr_off p + len <= PAGE_SIZE ->
   Q (content t (ptr_page p)) t) ->
  wlp (deref p len) t Q.
Proof.
  intros HQ. unfold wlp, deref.
  destruct (cache_lookup t (ptr_page p)) eqn:E; [|exact I].
  destruct (in_page (ptr_off p) len) eqn:B; [|exact I].
  apply in_page_inv in B as [B1 B2].
  assert (cached t (ptr_page p)) as Hc
      by (unfold cached; unfold cache_lookup in E; congruence).
  rewrite (cached_lookup _ _ Hc) in E. injection E as <-. auto.
Qed.

Lemma wlp_poke p len src t (Q : unit -> Table -> Prop) :
  (cached t (ptr_page p) -> 0 <= ptr_off p -> ptr_off p + len <= PAGE_SIZE ->
   Q tt (set_page t (ptr_page p)
           (blit (content t (ptr_page p)) (ptr_off p) len src))) ->
  wlp (poke p len src) t Q.
Proof.
  intros HQ. unfold wlp, poke.
  destruct (cache_lookup t (ptr_page p)) eqn:E; [|exact I].
  destruct (in_page (ptr_off p) len) eqn:B; [|exact I].
  apply in_page_inv in B as [B1 B2].
  assert (cached t (ptr_page p)) as Hc
      by (unfold cached; unfold cache_lookup in E; congruence).
  rewrite (cached_lookup _ _ Hc) in E. injection E as <-. auto.
Qed.

Lemma wlp_load32 p t Q :
  (cached t (ptr_page p) -> 0 <= ptr_off p -> ptr_off p + 4 <= PAGE_SIZE ->
   Q (get32 (content t (ptr_page p)) (ptr_off p)) t) ->
  wlp (load32 p) t Q.
Proof.
  intros H. unfold load32. apply wlp_bind, wlp_deref. intros H1 H2 H3.
  apply wlp_ret. auto.
Qed.

(** A page that is not in the cache and beyond the page count is zero. *)
Lemma content_beyond t n :
  pager_wf t -> num_pages (pager t) <= n -> content t n = zero_page.
Proof.
  intros (H1 & H2 & H3) Hn. unfold content.
  destruct (pages (pager t) n) eqn:E.
  - assert (cached t n) as Hc by (unfold cached; congruence).
    apply H3 in Hc. lia.
  - unfold file_page. apply nth_overflow. lia.
Qed.

(** [get_page] changes no byte of the store. *)
Lemma wlp_get_page n t Q :
  pager_wf t -> 0 <= n ->
  (forall t',
      pager_wf t' -> root_page_num t' = root_page_num t ->
      num_pages (pager t) <= num_pages (pager t') ->
      n < num_pages (pager t') ->
      (forall m, content t' m = content t m) ->
      Q (mkPtr n 0) t') ->
  wlp (get_page n) t Q.
Proof.
  intros Hwf Hn HQ. unfold wlp, get_page.
  destruct (Z.leb_spec TABLE_MAX_PAGES n); [exact I|].
  destruct (pages (pager t) n) eqn:E.
  - apply HQ; auto; try lia.
    destruct Hwf as (_ & _ & H3). apply H3. unfold cached. congruence.
  - destruct (Z.ltb_spec n (num_pages (pager t))).
    + apply HQ; auto; try (simpl; lia).
      * change (pager_wf (set_page t n (file_page (pager t) n))).
        assert (load_page t n = set_page t n (file_page (pager t) n)) as <-
            by (unfold load_page; rewrite E; reflexivity).
        apply pager_wf_load_page; auto.
      * intros m. rewrite content_set_page.
        destruct (Z.eqb_spec m n) as [->|]; [|reflexivity].
        unfold content. rewrite E. reflexivity.
    + assert (pager_wf
                {| pager :=
                     {| file := file (pager t); num_pages := n + 1;
                        pages := fun m => if m =? n then Some zero_page
                                          else pages (pager t) m |};
                   root_page_num := root_page_num t |}) as Hwf'.
      { destruct Hwf as (H1 & H2 & H3). split; [simpl; lia|].
        split; [simpl; lia|]. intros m Hm. simpl.
        unfold cached in Hm. simpl in Hm.
        destruct (Z.eqb_spec m n); [lia|]. apply H3 in Hm. lia. }
      apply HQ; auto; try (simpl; lia).
      intros m. unfold content at 1. simpl.
      destruct (Z.eqb_spec m n) as [->|]; [|reflexivity].
      symmetry. apply content_beyond; auto.
Qed.

Lemma flags_kept_refl t : pager_wf t -> flags_kept t t.
Proof.
  intros H. split; [exact H|]. split; [reflexivity|]. split; [lia|].
  split; reflexivity.
Qed.

Lemma flags_kept_trans t1 t2 t3 :
  flags_kept t1 t2 -> flags_kept t2 t3 -> flags_kept t1 t3.
Proof.
  intros (W1 & R1 & N1 & T1 & F1) (W2 & R2 & N2 & T2 & F2).
  split; [exact W2|]. split; [congruence|]. split; [lia|].
  split; [congruence|]. intros n. rewrite F2. apply F1.
Qed.

Lemma flags_kept_wf t t' : flags_kept t t' -> pager_wf t'.
Proof. intros (H & _). exact H. Qed.

(** A write that leaves the first two bytes of the page alone. *)
Lemma flags_kept_set_page t n off len src :
  pager_wf t -> cached t n -> 2 <= off ->
  flags_kept t (set_page t n (blit (content t n) off len src)).
Proof.
  intros Hwf Hc Hoff. split; [apply pager_wf_set_page; auto|].
  split; [reflexivity|]. split; [simpl; lia|].
  split.
  - rewrite content_set_page. destruct (Z.eqb_spec 0 n) as [<-|]; [|reflexivity].
    unfold type_of. consts. apply byte_at_blit_out. lia.
  - intros m. rewrite content_set_page. destruct (Z.eqb_spec m n) as [->|];
      [|reflexivity].
    unfold root_flag. consts. rewrite byte_at_blit_out by lia. reflexivity.
Qed.

Lemma keeps_ret {A} (a : A) (P : A -> Prop) : P a -> keeps (ret a) P.
Proof. intros H t Hwf. apply wlp_ret. split; [apply flags_kept_refl|]; auto. Qed.

Lemma keeps_bind {A B} (m : M A) (k : A -> M B) P P' :
  keeps m P -> (forall a, P a -> keeps (k a) P') -> keeps (bind m k) P'.
Proof.
  intros Hm Hk t Hwf. apply wlp_bind.
  eapply wlp_mono; [apply Hm, Hwf|]. cbv beta. intros a t' [Hf Pa].
  eapply wlp_mono; [apply (Hk a Pa), (flags_kept_wf _ _ Hf)|].
  cbv beta. intros b t'' [Hf' Pb]. split; [|exact Pb].
  eapply flags_kept_trans; eauto.
Qed.

Lemma keeps_weaken {A} (m : M A) (P P' : A -> Prop) :
  keeps m P -> (forall a, P a -> P' a) -> keeps m P'.
Proof.
  intros Hm HP t Hwf. eapply wlp_mono; [apply Hm, Hwf|].
  cbv beta. intros a t' [Hf Pa]. auto.
Qed.

Lemma keeps_fault {A} (P : A -> Prop) : keeps fault P.
Proof. intros t _. exact I. Qed.

Lemma keeps_diverge {A} (P : A -> Prop) : keeps diverge P.
Proof. intros t _. exact I. Qed.

Lemma keeps_exit_failure {A} e (P : A -> Prop) : keeps (exit_failure e) P.
Proof. intros t _. exact I. Qed.

Lemma keeps_load32 p : keeps (load32 p) uint32.
Proof.
  intros t Hwf. unfold load32. apply wlp_bind, wlp_deref. intros _ _ _.
  apply wlp_ret. split; [apply flags_kept_refl; auto | apply get32_range].
Qed.

Lemma keeps_load8 p : keeps (load8 p) (fun _ => True).
Proof.
  intros t Hwf. unfold load8. apply wlp_bind, wlp_deref. intros _ _ _.
  apply wlp_ret. split; [apply flags_kept_refl; auto | exact I].
Qed.

Lemma keeps_get_page n : 0 <= n -> keeps (get_page n) (fun r => r = mkPtr n 0).
Proof.
  intros Hn t Hwf. apply wlp_get_page; auto.
  intros t' Hwf' Hr Hnp _ Hc. split; [|reflexivity].
  split; [exact Hwf'|]. split; [exact Hr|]. split; [exact Hnp|].
  split; [|intros m]; rewrite Hc; reflexivity.
Qed.

Lemma keeps_poke p len src :
  (0 <= ptr_off p -> 2 <= ptr_off p) -> keeps (poke p len src) (fun _ => True).
Proof.
  intros Hoff t Hwf. apply wlp_poke. intros Hc H0 _.
  split; [|exact I]. apply flags_kept_set_page; auto.
Qed.

Lemma keeps_store32 p v :
  (0 <= ptr_off p -> 2 <= ptr_off p) -> keeps (store32 p v) (fun _ => True).
Proof. apply keeps_poke. Qed.

Lemma keeps_memcpy dst src n :
  (0 <= ptr_off dst -> 2 <= ptr_off dst) ->
  keeps (memcpy dst src n) (fun _ => True).
Proof.
  intros Hoff t Hwf. unfold memcpy. apply wlp_bind, wlp_deref. intros _ _ _.
  apply keeps_poke; auto.
Qed.

Lemma keeps_for_down n lo body :
  (forall i, keeps (body i) (fun _ => True)) ->
  keeps (for_down n lo body) (fun _ => True).
Proof.
  intros Hb. induction n as [|n IH]; cbn [for_down].
  - apply keeps_ret. exact I.
  - eapply keeps_bind; [apply Hb|]. intros _ _. exact IH.
Qed.

Lemma wlp_get_root_page_num t Q :
  Q (root_page_num t) t -> wlp get_root_page_num t Q.
Proof. auto. Qed.

Lemma wlp_get_unused_page_num t Q :
  Q (num_pages (pager t)) t -> wlp get_unused_page_num t Q.
Proof. auto. Qed.

Lemma keeps_get_root_page_num : keeps get_root_page_num (fun _ => True).
Proof. intros t Hwf. split; [apply flags_kept_refl; auto | exact I]. Qed.

Lemma keeps_get_unused_page_num : keeps get_unused_page_num uint32.
Proof.
  intros t Hwf. split; [apply flags_kept_refl; auto|].
  destruct Hwf as ((H1 & H2) & _). unfold uint32. consts. lia.
Qed.

Ltac keeps_offsets :=
  ptrs; consts; unfold uint32 in *; intros; lia.

Ltac keeps_step :=
  lazymatch goal with
  | |- keeps (bind (get_page _) _) _ =>
      eapply keeps_bind; [apply keeps_get_page; keeps_offsets | intros ? ->]
  | |- keeps (bind _ _) _ => eapply keeps_bind; [|intros ? ?]
  | |- keeps (ret _) _ => apply keeps_ret
  | |- keeps (load32 _) _ =>
      first [apply keeps_load32
            | eapply keeps_weaken; [apply keeps_load32 | intros; exact I]]
  | |- keeps (load8 _) _ => apply keeps_load8
  | |- keeps (get_node_type _) _ => apply keeps_load8
  | |- keeps (store32 _ _) _ => apply keeps_store32; keeps_offsets
  | |- keeps (memcpy _ _ _) _ => apply keeps_memcpy; keeps_offsets
  | |- keeps (serialize_row _ _) _ => apply keeps_poke; keeps_offsets
  | |- keeps (for_down _ _ _) _ => apply keeps_for_down; intros ?
  | |- keeps fault _ => apply keeps_fault
  | |- keeps diverge _ => apply keeps_diverge
  | |- keeps (exit_failure _) _ => apply keeps_exit_failure
  | |- keeps get_root_page_num _ => apply keeps_get_root_page_num
  | |- keeps (if ?b then _ else _) _ => destruct b
  end.

Lemma keeps_leaf_node_find_loop fuel n key :
  forall lo hi,
    keeps (leaf_node_find_loop fuel (mkPtr n 0) key lo hi) (fun _ => True).
Proof.
  induction fuel as [|fuel IH]; intros lo hi; cbn [leaf_node_find_loop];
    repeat keeps_step; auto.
Qed.

Lemma keeps_leaf_node_find mem p key :
  0 <= p -> keeps (leaf_node_find mem p key) (fun c => page_num c = p).
Proof.
  intros Hp. unfold leaf_node_find.
  eapply keeps_bind; [apply keeps_get_page, Hp|]. intros node ->.
  repeat keeps_step; [apply keeps_leaf_node_find_loop|].
  repeat keeps_step. reflexivity.
Qed.

Lemma keeps_internal_node_find_child_loop fuel n key :
  forall lo hi,
    keeps (internal_node_find_child_loop fuel (mkPtr n 0) key lo hi)
      (fun _ => True).
Proof.
  induction fuel as [|fuel IH]; intros lo hi;
    cbn [internal_node_find_child_loop]; repeat keeps_step; auto.
Qed.

Lemma keeps_internal_node_find_child n key :
  keeps (internal_node_find_child (mkPtr n 0) key) (fun _ => True).
Proof.
  unfold internal_node_find_child. repeat keeps_step.
  apply keeps_internal_node_find_child_loop.
Qed.

Lemma keeps_internal_node_child n i :
  keeps (internal_node_child (mkPtr n 0) i)
    (fun r => 0 <= ptr_off r -> 2 <= ptr_off r).
Proof.
  unfold internal_node_child. repeat keeps_step; keeps_offsets.
Qed.

Lemma keeps_internal_node_find fuel mem :
  forall p key,
    0 <= p ->
    keeps (internal_node_find fuel mem p key) (fun c => 0 <= page_num c).
Proof.
  induction fuel as [|fuel IH]; intros p key Hp; cbn [internal_node_find];
    [apply keeps_diverge|].
  eapply keeps_bind; [apply keeps_get_page, Hp|]. intros node ->.
  eapply keeps_bind; [apply keeps_internal_node_find_child|]. intros index _.
  eapply keeps_bind; [apply keeps_internal_node_child|]. intros r _.
  eapply keeps_bind; [apply keeps_load32|]. intros child_num Hc.
  eapply keeps_bind; [apply keeps_get_page; apply Hc|]. intros child ->.
  repeat keeps_step.
  - eapply keeps_weaken; [apply keeps_leaf_node_find, Hc|].
    intros c ->. apply Hc.
  - apply IH, Hc.
Qed.

Lemma keeps_get_node_max_key_rec fuel :
  forall n, keeps (get_node_max_key_rec fuel (mkPtr n 0)) (fun _ => True).
Proof.
  induction fuel as [|fuel IH]; intros n; cbn [get_node_max_key_rec];
    [apply keeps_diverge|].
  repeat keeps_step. apply IH.
Qed.

Lemma keeps_get_node_max_key n :
  keeps (get_node_max_key (mkPtr n 0)) (fun _ => True).
Proof. apply keeps_get_node_max_key_rec. Qed.

Lemma keeps_update_internal_node_key n old_key new_key :
  keeps (update_internal_node_key (mkPtr n 0) old_key new_key) (fun _ => True).
Proof.
  unfold update_internal_node_key.
  eapply keeps_bind; [apply keeps_internal_node_find_child|]. intros i _.
  keeps_step.
Qed.

Lemma keeps_internal_node_insert MAX parent child :
  0 <= parent -> 0 <= child ->
  keeps (internal_node_insert MAX parent child) (fun _ => True).
Proof.
  intros Hp Hc. unfold internal_node_insert.
  eapply keeps_bind; [apply keeps_get_page, Hp|]. intros pn ->.
  eapply keeps_bind; [apply keeps_get_page, Hc|]. intros cn ->.
  eapply keeps_bind; [apply keeps_get_node_max_key|]. intros cmax _.
  eapply keeps_bind; [apply keeps_internal_node_find_child|]. intros index _.
  eapply keeps_bind; [apply keeps_load32|]. intros N HN.
  eapply keeps_bind; [apply keeps_store32; keeps_offsets|]. intros _ _.
  destruct (N >=? MAX); [apply keeps_exit_failure|].
  eapply keeps_bind; [apply keeps_load32|]. intros rc Hrc.
  eapply keeps_bind; [apply keeps_get_page, Hrc|]. intros rn ->.
  eapply keeps_bind; [apply keeps_get_node_max_key|]. intros rmax _.
  destruct (cmax >? rmax).
  - eapply keeps_bind; [apply keeps_internal_node_child|]. intros r Hr.
    eapply keeps_bind; [apply keeps_store32, Hr|]. intros _ _.
    eapply keeps_bind; [apply keeps_get_node_max_key|]. intros rmax' _.
    repeat keeps_step.
  - eapply keeps_bind; [repeat keeps_step|]. intros _ _.
    eapply keeps_bind; [apply keeps_internal_node_child|]. intros r Hr.
    eapply keeps_bind; [apply keeps_store32, Hr|]. intros _ _.
    keeps_step.
Qed.

Lemma keeps_split_step cursor key value p new i :
  keeps (split_step cursor key value (mkPtr p 0) (mkPtr new 0) i)
    (fun _ => True).
Proof.
  unfold split_step.
  destruct (i >=? LEAF_NODE_LEFT_SPLIT_COUNT); repeat keeps_step.
Qed.

Lemma flags_kept_same_content t t' :
  pager_wf t' -> root_page_num t' = root_page_num t ->
  num_pages (pager t) <= num_pages (pager t') ->
  (forall m, content t' m = content t m) ->
  flags_kept t t'.
Proof.
  intros Hwf Hr Hn Hc. split; [exact Hwf|]. split; [exact Hr|].
  split; [exact Hn|]. split; [|intros m]; rewrite Hc; reflexivity.
Qed.

(** A write to a page other than page 0 that leaves its root flag as it
    was. *)
Lemma flags_kept_set_page_flag t n c' :
  pager_wf t -> cached t n -> n <> 0 ->
  root_flag c' = root_flag (content t n) ->
  flags_kept t (set_page t n c').
Proof.
  intros Hwf Hc Hn Hflag. split; [apply pager_wf_set_page; auto|].
  split; [reflexivity|]. split; [simpl; lia|]. split.
  - rewrite content_set_page_other by auto. reflexivity.
  - intros m. rewrite content_set_page.
    destruct (Z.eqb_spec m n) as [->|]; [exact Hflag | reflexivity].
Qed.

Lemma root_flag_blit_flag c v :
  root_flag (blit c 1 1 (le32 v)) = negb (v mod 256 =? 0).
Proof. unfold root_flag. consts. rewrite byte_at_blit_le32. reflexivity. Qed.

Lemma root_flag_blit_other c off len src :
  off + len <= 1 \/ 2 <= off ->
  root_flag (blit c off len src) = root_flag c.
Proof.
  intros H. unfold root_flag. consts. rewrite byte_at_blit_out by lia.
  reflexivity.
Qed.

Lemma type_of_blit_type c v : type_of (blit c 0 1 (le32 v)) = v mod 256.
Proof. unfold type_of. consts. apply byte_at_blit_le32. Qed.

Lemma type_of_blit_other c off len src :
  1 <= off -> type_of (blit c off len src) = type_of c.
Proof. intros H. unfold type_of. consts. apply byte_at_blit_out. lia. Qed.

Lemma wlp_initialize_leaf_node n t :
  pager_wf t -> n <> 0 -> root_flag (content t n) = false ->
  wlp (initialize_leaf_node (mkPtr n 0)) t (fun _ t' => flags_kept t t').
Proof.
  intros Hwf Hn Hflag.
  unfold initialize_leaf_node, set_node_type, set_node_root, store8, store32.
  apply wlp_bind, wlp_poke. ptrs. consts. intros Hc1 _ _.
  set (t1 := set_page t n _).
  assert (flags_kept t t1) as Hf1.
  { apply flags_kept_set_page_flag; auto. }
  apply wlp_bind, wlp_poke. ptrs. consts. intros Hc2 _ _.
  set (t2 := set_page t1 n _).
  assert (flags_kept t1 t2) as Hf2.
  { apply flags_kept_set_page_flag; auto; [apply (flags_kept_wf _ _ Hf1)|].
    rewrite root_flag_blit_flag. unfold t1. content_tac.
    rewrite root_flag_blit_other by lia. rewrite Hflag. reflexivity. }
  assert (keeps (store32 (leaf_node_num_cells (mkPtr n 0)) 0;;
                 store32 (leaf_node_next_leaf (mkPtr n 0)) 0)
            (fun _ => True)) as Hk by (repeat keeps_step).
  eapply wlp_mono; [apply Hk, (flags_kept_wf _ _ Hf2)|].
  cbv beta. intros _ t3 [Hf3 _].
  eapply flags_kept_trans; [exact Hf1|].
  eapply flags_kept_trans; [exact Hf2 | exact Hf3].
Qed.

Lemma keeps_leaf_node_split cursor key value :
  0 <= page_num cursor ->
  keeps (leaf_node_split cursor key value)
    (fun r => fst (fst r) = mkPtr (page_num cursor) 0 /\ 0 <= snd r).
Proof.
  intros Hp t Hwf. unfold leaf_node_split.
  apply wlp_bind, wlp_get_page; auto. intros t1 Hwf1 Hr1 Hn1 Hlt1 Hc1.
  assert (flags_kept t t1) as Hf1 by (apply flags_kept_same_content; auto).
  apply wlp_bind. eapply wlp_mono; [apply keeps_get_node_max_key, Hwf1|].
  cbv beta. intros old_max t2 [Hf2 _].
  pose proof (flags_kept_wf _ _ Hf2) as Hwf2.
  apply wlp_bind, wlp_get_unused_page_num.
  set (new := num_pages (pager t2)).
  assert (1 <= new) as Hnew by (destruct Hf2 as (_ & _ & H & _); unfold new; lia).
  apply wlp_bind, wlp_get_page; auto; [lia|].
  intros t3 Hwf3 Hr3 Hn3 Hlt3 Hc3.
  assert (flags_kept t2 t3) as Hf3 by (apply flags_kept_same_content; auto).
  apply wlp_bind.
  eapply wlp_mono;
    [apply wlp_initialize_leaf_node; auto; [lia|]|].
  { rewrite Hc3, (content_beyond t2) by (auto; unfold new; lia).
    reflexivity. }
  cbv beta. intros _ t4 Hf4.
  match goal with
  | |- wlp ?m _ _ =>
      assert (keeps m (fun r => fst (fst r) = mkPtr (page_num cursor) 0 /\
                                0 <= snd r)) as Hk
  end.
  { repeat keeps_step; try apply keeps_split_step.
    cbn [fst snd]. split; [reflexivity | lia]. }
  eapply wlp_mono; [apply Hk, (flags_kept_wf _ _ Hf4)|].
  cbv beta. intros r t5 [Hf5 HP]. split; [|exact HP].
  eapply flags_kept_trans; [exact Hf1|].
  eapply flags_kept_trans; [exact Hf2|].
  eapply flags_kept_trans; [exact Hf3|].
  eapply flags_kept_trans; [exact Hf4 | exact Hf5].
Qed.

Lemma root_inv_flags_kept t t' : root_inv t -> flags_kept t t' -> root_step t t'.
Proof.
  intros (W & R & N & F & T) (W' & R' & N' & T' & F').
  split; [|congruence].
  split; [exact W'|]. split; [congruence|]. split; [lia|].
  split; [intros n Hn; rewrite F'; apply F, Hn | rewrite T'; exact T].
Qed.

Lemma root_step_trans t1 t2 t3 :
  root_step t1 t2 -> root_step t2 t3 -> root_step t1 t3.
Proof. intros [I1 T1] [I2 T2]. split; auto. Qed.

Lemma wlp_create_new_root r t :
  root_inv t -> 0 <= r ->
  wlp (create_new_root r) t
    (fun _ t' => root_inv t' /\ type_of (content t' 0) = NODE_INTERNAL).
Proof.
  intros (Hwf & Hroot & Hnp & Hflags & Hty) Hr. unfold create_new_root.
  apply wlp_bind, wlp_get_root_page_num. rewrite Hroot.
  apply wlp_bind, wlp_get_page; auto; [lia|]. intros t1 Hwf1 Hr1 Hn1 _ Hc1.
  apply wlp_bind, wlp_get_page; auto. intros t2 Hwf2 Hr2 Hn2 _ Hc2.
  apply wlp_bind, wlp_get_unused_page_num.
  set (left := num_pages (pager t2)).
  assert (1 <= left) as Hleft by (unfold left; lia).
  apply wlp_bind, wlp_get_page; auto; [lia|]. intros t3 Hwf3 Hr3 Hn3 _ Hc3.
  assert (forall m, content t3 m = content t m) as Hc
      by (intros m; rewrite Hc3, Hc2, Hc1; reflexivity).
  unfold memcpy, set_node_root, initialize_internal_node, set_node_type,
    set_node_root, store8.
  apply wlp_bind, wlp_bind, wlp_deref. intros _ _ _.
  apply wlp_poke. ptrs. consts. intros Hcl _ _.
  set (t4 := set_page t3 left _).
  apply wlp_bind, wlp_poke. ptrs. consts. intros _ _ _.
  set (t5 := set_page t4 left _).
  apply wlp_bind, wlp_bind, wlp_poke. ptrs. consts. intros Hc0 _ _.
  set (t6 := set_page t5 0 _).
  apply wlp_bind, wlp_poke. ptrs. consts. intros _ _ _.
  set (t7 := set_page t6 0 _).
  apply wlp_poke. ptrs. consts. intros _ _ _.
  set (t8 := set_page t7 0 _).
  apply wlp_bind, wlp_poke. ptrs. consts. intros _ _ _.
  set (t9 := set_page t8 0 _).
  assert (left <> 0) as Hl0 by lia.
  assert (pager_wf t9) as Hwf9.
  { unfold t9, t8, t7, t6, t5, t4.
    repeat (apply pager_wf_set_page; [|cached_tac]). exact Hwf3. }
  assert (root_flag (content t9 0) = true) as Hf0.
  { unfold t9. content_tac. rewrite root_flag_blit_flag. reflexivity. }
  assert (type_of (content t9 0) = NODE_INTERNAL) as Ht0.
  { unfold t9, t8, t7, t6. content_tac.
    rewrite !type_of_blit_other by lia. rewrite type_of_blit_type.
    reflexivity. }
  assert (root_flag (content t9 left) = false) as Hfl.
  { unfold t9, t8, t7, t6, t5. content_tac. rewrite root_flag_blit_flag.
    reflexivity. }
  assert (forall m, m <> 0 -> m <> left -> content t9 m = content t m) as Hfo.
  { intros m H1 H2. unfold t9, t8, t7, t6, t5, t4. content_tac. apply Hc. }
  assert (root_page_num t9 = 0) as Hr9 by (simpl; congruence).
  assert (0 < num_pages (pager t9)) as Hn9 by (simpl; lia).
  clearbody t9.
  match goal with
  | |- wlp ?m _ _ => assert (keeps m (fun _ => True)) as Hk
  end.
  { eapply keeps_bind; [keeps_step|]. intros _ _.
    eapply keeps_bind; [apply keeps_internal_node_child|]. intros c0 Hc0'.
    eapply keeps_bind; [apply keeps_store32, Hc0'|]. intros _ _.
    eapply keeps_bind; [apply keeps_get_node_max_key|]. intros mx _.
    repeat keeps_step. }
  eapply wlp_mono; [apply Hk, Hwf9|].
  cbv beta. intros _ t' [(W' & R' & N' & T' & F') _].
  split; [|rewrite T'; exact Ht0].
  split; [exact W'|]. split; [congruence|]. split; [lia|].
  split; [|right; rewrite T'; exact Ht0].
  intros n Hn. rewrite F'. destruct (Z.eq_dec n 0) as [->|Hn0].
  - rewrite Hf0. tauto.
  - destruct (Z.eq_dec n left) as [->|Hnl].
    + rewrite Hfl. split; [discriminate | lia].
    + rewrite Hfo by auto. apply Hflags, Hn.
Qed.

Lemma wlp_leaf_node_split_finish MAX p old_max new t :
  root_inv t -> 0 <= new ->
  wlp (leaf_node_split_finish MAX (mkPtr p 0) old_max new) t
    (fun _ t' => root_step t t').
Proof.
  intros Hinv Hnew. unfold leaf_node_split_finish, is_node_root.
  apply wlp_bind, wlp_bind. unfold load8. apply wlp_bind, wlp_deref.
  intros _ _ _. apply wlp_ret, wlp_ret.
  destruct (negb _).
  - eapply wlp_mono; [apply wlp_create_new_root; auto|].
    cbv beta. intros _ t' [Hi Ht]. split; auto.
  - match goal with
    | |- wlp ?m _ _ => assert (keeps m (fun _ => True)) as Hk
    end.
    { eapply keeps_bind; [apply keeps_load32|]. intros pp Hpp.
      eapply keeps_bind; [apply keeps_get_node_max_key|]. intros mx _.
      eapply keeps_bind; [apply keeps_get_page, Hpp|]. intros pn ->.
      eapply keeps_bind; [apply keeps_update_internal_node_key|]. intros _ _.
      apply keeps_internal_node_insert; [apply Hpp | exact Hnew]. }
    eapply wlp_mono; [apply Hk, Hinv|].
    cbv beta. intros _ t' [Hf _]. apply root_inv_flags_kept; auto.
Qed.

Lemma wlp_leaf_node_split_and_insert MAX cursor key value t :
  root_inv t -> 0 <= page_num cursor ->
  wlp (leaf_node_split_and_insert MAX cursor key value) t
    (fun _ t' => root_step t t').
Proof.
  intros Hinv Hp. unfold leaf_node_split_and_insert.
  apply wlp_bind.
  eapply wlp_mono; [apply keeps_leaf_node_split; [exact Hp | apply Hinv]|].
  cbv beta. intros [[old_node old_max] new] t1 [Hf [Ho Hn]].
  cbn [fst snd] in Ho, Hn. subst old_node.
  pose proof (root_inv_flags_kept _ _ Hinv Hf) as Hs1.
  eapply wlp_mono; [apply wlp_leaf_node_split_finish; [apply Hs1 | exact Hn]|].
  cbv beta. intros _ t' Hs2. eapply root_step_trans; eauto.
Qed.

Lemma wlp_leaf_node_insert MAX cursor key value t :
  root_inv t -> 0 <= page_num cursor ->
  wlp (leaf_node_insert MAX cursor key value) t
    (fun _ t' => root_step t t').
Proof.
  intros Hinv Hp. unfold leaf_node_insert.
  apply wlp_bind, wlp_get_page; auto; [apply Hinv|].
  intros t1 Hwf1 Hr1 Hn1 _ Hc1.
  assert (flags_kept t t1) as Hf1 by (apply flags_kept_same_content; auto).
  pose proof (root_inv_flags_kept _ _ Hinv Hf1) as Hs1.
  apply wlp_bind, wlp_load32. intros _ _ _.
  destruct (_ >=? _).
  - eapply wlp_mono;
      [apply wlp_leaf_node_split_and_insert; [apply Hs1 | exact Hp]|].
    cbv beta. intros _ t' Hs2. eapply root_step_trans; eauto.
  - match goal with
    | |- wlp ?m _ _ => assert (keeps m (fun _ => True)) as Hk
    end.
    { repeat keeps_step; exact I. }
    eapply wlp_mono; [apply Hk, Hwf1|].
    cbv beta. intros _ t' [Hf _]. eapply root_step_trans; [exact Hs1|].
    apply root_inv_flags_kept; [apply Hs1 | exact Hf].
Qed.

Lemma wlp_table_find mem key t :
  root_inv t ->
  wlp (table_find mem key) t
    (fun c t' => flags_kept t t' /\ 0 <= page_num c).
Proof.
  intros (Hwf & Hroot & _). unfold table_find.
  apply wlp_bind, wlp_get_root_page_num. rewrite Hroot.
  assert (keeps (root_node <- get_page 0;;
                 type <- get_node_type root_node;;
                 (if type =? NODE_LEAF
                  then leaf_node_find mem 0 key
                  else internal_node_find DEPTH_FUEL mem 0 key))
            (fun c => 0 <= page_num c)) as Hk.
  { repeat keeps_step.
    - eapply keeps_weaken; [apply keeps_leaf_node_find; lia|].
      intros c ->. lia.
    - apply keeps_internal_node_find. lia. }
  apply Hk, Hwf.
Qed.

Lemma wlp_table_start mem t :
  root_inv t -> wlp (table_start mem) t (fun _ t' => flags_kept t t').
Proof.
  intros Hinv. unfold table_start. apply wlp_bind.
  eapply wlp_mono; [apply wlp_table_find, Hinv|].
  cbv beta. intros c t1 [Hf1 Hc].
  assert (keeps (node <- get_page (page_num c);;
                 num_cells <- load32 (leaf_node_num_cells node);;
                 ret (set_end_of_table c (num_cells =? 0)))
            (fun _ => True)) as Hk by (repeat keeps_step; exact I).
  eapply wlp_mono; [apply Hk, (flags_kept_wf _ _ Hf1)|].
  cbv beta. intros _ t' [Hf _]. eapply flags_kept_trans; eauto.
Qed.

Lemma keeps_cursor_value cursor :
  0 <= page_num cursor -> keeps (cursor_value cursor) (fun _ => True).
Proof. intros H. unfold cursor_value. repeat keeps_step. exact I. Qed.

Lemma keeps_cursor_advance cursor :
  0 <= page_num cursor -> keeps (cursor_advance cursor) (fun _ => True).
Proof. intros H. unfold cursor_advance. repeat keeps_step; exact I. Qed.

Lemma nth_nil_page n : nth n (@nil page) zero_page = zero_page.
Proof. destruct n; reflexivity. Qed.

Lemma db_open_root_inv f t :
  file_ok f -> db_open f = Ok tt t -> root_inv t.
Proof.
  intros [Hlen Hfile] Hopen. unfold db_open in Hopen.
  destruct f as [|c f].
  - cbn in Hopen. injection Hopen as <-.
    split.
    { split; [simpl; consts; lia|]. split; [simpl; lia|].
      intros m Hm. unfold cached in Hm. simpl in Hm.
      destruct (Z.eqb_spec m 0); [simpl; lia | contradiction]. }
    split; [reflexivity|]. split; [simpl; lia|].
    split.
    + intros n Hn. unfold content. simpl.
      destruct (Z.eqb_spec n 0) as [->|Hn0].
      * split; [reflexivity|]. intros _. vm_compute. reflexivity.
      * unfold file_page. cbn [file]. rewrite nth_nil_page.
        split; [|contradiction]. vm_compute. discriminate.
    + left. vm_compute. reflexivity.
  - destruct (Z.eqb_spec (num_pages (pager_open (c :: f))) 0) as [E|_].
    { simpl in E. lia. }
    injection Hopen as <-.
    destruct (Hfile ltac:(discriminate)) as [Hflags Hty].
    split.
    { unfold pager_wf, pager_open. cbn [pager num_pages file].
      split; [lia|]. split; [lia|].
      intros m Hm. unfold cached in Hm. cbn [pager pages] in Hm.
      contradiction. }
    split; [reflexivity|].
    split; [unfold pager_open; cbn [pager num_pages length]; lia|].
    split.
    + intros n Hn. unfold content. simpl pages. cbv iota. unfold file_page.
      simpl file. rewrite Hflags. lia.
    + exact Hty.
Qed.

Lemma run_operation_root_step MAX o t t' :
  root_inv t -> operation_ok o -> run_operation MAX o t = Ok tt t' ->
  root_step t t'.
Proof.
  intros Hinv Hok Hrun.
  assert (wlp (run_operation MAX o) t (fun _ t' => root_step t t')) as H.
  { destruct o as [mem key|mem|cursor|cursor|cursor key value];
      cbn [run_operation operation_ok] in *.
    - apply wlp_bind. eapply wlp_mono; [apply wlp_table_find, Hinv|].
      cbv beta. intros c t1 [Hf _]. apply wlp_ret.
      apply root_inv_flags_kept; auto.
    - apply wlp_bind. eapply wlp_mono; [apply wlp_table_start, Hinv|].
      cbv beta. intros c t1 Hf. apply wlp_ret.
      apply root_inv_flags_kept; auto.
    - apply wlp_bind.
      eapply wlp_mono; [apply keeps_cursor_value; [apply Hok | apply Hinv]|].
      cbv beta. intros c t1 [Hf _]. apply wlp_ret.
      apply root_inv_flags_kept; auto.
    - apply wlp_bind.
      eapply wlp_mono; [apply keeps_cursor_advance; [apply Hok | apply Hinv]|].
      cbv beta. intros c t1 [Hf _]. apply wlp_ret.
      apply root_inv_flags_kept; auto.
    - apply wlp_leaf_node_insert; [exact Hinv | apply Hok]. }
  apply (wlp_elim _ _ _ _ _ H Hrun).
Qed.

Lemma reachable_root_inv MAX t : reachable MAX t -> root_inv t.
Proof.
  induction 1 as [f t Hf Hopen | t o t' Hreach IH Hok Hrun].
  - eapply db_open_root_inv; eauto.
  - apply (run_operation_root_step MAX o t t' IH Hok Hrun).
Qed.

(** C9.  In every state reached from [db_open] by calls of [table_find],
    [table_start], [cursor_value], [cursor_advance] and [leaf_node_insert]
    (any keys, rows and cursors), the root page number is 0, page 0 is the
    one page whose root flag is set and holds a leaf or an internal node,
    and no further operation turns a root that is an internal node into
    anything else: the type of the root changes only from leaf to
    internal. *)
Theorem root_is_always_page_0 MAX t :
  reachable MAX t ->
  root_page_num t = 0 /\
  (forall n, 0 <= n -> (root_flag (content t n) = true <-> n = 0)) /\
  (type_of (content t 0) = NODE_LEAF \/
   type_of (content t 0) = NODE_INTERNAL) /\
  (forall o t',
      operation_ok o -> run_operation MAX o t = Ok tt t' ->
      type_of (content t 0) = NODE_INTERNAL ->
      type_of (content t' 0) = NODE_INTERNAL).
Proof.
  intros Hreach. pose proof (reachable_root_inv MAX t Hreach) as Hinv.
  pose proof Hinv as (Hwf & Hroot & Hnp & Hflags & Hty).
  split; [exact Hroot|]. split; [exact Hflags|]. split; [exact Hty|].
  intros o t' Hok Hrun.
  apply (run_operation_root_step MAX o t t'); auto.
Qed.


(** ** Inserting into a leaf with room *)

Lemma length_insert_at idx key ks :
  length (insert_at idx key ks) = S (length ks).
Proof.
  unfold insert_at. rewrite length_app. cbn [length].
  rewrite length_firstn, length_skipn. lia.
Qed.

Lemma nth_insert_at idx key ks i :
  (idx <= length ks)%nat ->
  nth i (insert_at idx key ks) 0
  = if (i =? idx)%nat then key
    else if (idx <? i)%nat then nth (i - 1) ks 0 else nth i ks 0.
Proof.
  intros Hidx. unfold insert_at.
  assert (length (firstn idx ks) = idx) as Hlen
      by (rewrite length_firstn; lia).
  destruct (Nat.eqb_spec i idx) as [->|Hne].
  - rewrite app_nth2 by lia. rewrite Hlen, Nat.sub_diag. reflexivity.
  - destruct (Nat.ltb_spec idx i).
    + rewrite app_nth2 by lia. rewrite Hlen.
      replace (i - idx)%nat with (S (i - idx - 1)) by lia.
      cbn [nth]. rewrite nth_skipn. f_equal. lia.
    + rewrite app_nth1 by lia. rewrite nth_firstn.
      destruct (Nat.ltb_spec i idx); [reflexivity | lia].
Qed.

Lemma get32_cell_image c off key value :
  (forall d, 0 <= d < 4 -> c (off + d) = cell_image key value d) ->
  get32 c off = u32 key.
Proof.
  intros H. rewrite <- (get32_blit_le32 zero_page 0 key).
  apply get32_rel. intros k Hk. rewrite H by lia.
  unfold cell_image. consts. destruct (Z.ltb_spec k 4); [|lia].
  rewrite blit_in by lia. f_equal. lia.
Qed.

Lemma leaf_node_insert_row_image c base key value d :
  0 <= d < 297 ->
  blit (blit c base 4 (le32 key)) (base + 4) 293 (of_list (row_bytes value))
    (base + d)
  = cell_image key value d.
Proof.
  intros Hd. unfold cell_image. consts.
  destruct (Z.ltb_spec d 4).
  - rewrite blit_out, blit_in by lia. f_equal. lia.
  - rewrite blit_in by lia. f_equal. lia.
Qed.

(** [leaf_node_insert] on a leaf that is not full: the cells from the
    cursor's cell number on move up by one cell, the new cell takes their
    place and the count grows by one.  The cells afterwards are those
    [split_source] describes as the merge of the old cells with the new
    one. *)
Lemma wp_leaf_node_insert_cells MAX cursor key value t Q :
  pager_wf t ->
  0 <= page_num cursor < num_pages (pager t) ->
  cell_count (content t (page_num cursor)) < LEAF_NODE_MAX_CELLS ->
  0 <= cell_num cursor <= cell_count (content t (page_num cursor)) ->
  (forall t',
      extends t t' ->
      (forall m, m <> page_num cursor -> content t' m = content t m) ->
      (forall a, a < 6 \/ 10 <= a < 14 ->
                 content t' (page_num cursor) a
                 = content t (page_num cursor) a) ->
      cell_count (content t' (page_num cursor))
      = cell_count (content t (page_num cursor)) + 1 ->
      (forall i d, 0 <= i <= cell_count (content t (page_num cursor)) ->
                   0 <= d < 297 ->
                   content t' (page_num cursor) (14 + i * 297 + d)
                   = split_source (content t (page_num cursor))
                       (cell_num cursor) key value i d) ->
      Q tt t') ->
  wp (leaf_node_insert MAX cursor key value) t Q.
Proof.
  intros Hwf Hp Hroom Hidx HQ.
  set (p := page_num cursor) in *. set (idx := cell_num cursor) in *.
  set (c := content t p) in *.
  pose proof (get32_range c 6) as Hn.
  change (get32 c 6) with (cell_count c) in Hn.
  set (n := cell_count c) in *. consts.
  unfold leaf_node_insert. fold p. fold idx.
  apply wp_bind, wp_get_page_old; auto.
  set (t1 := load_page t p).
  assert (cached t1 p) as Hc1 by (unfold t1; cached_tac).
  assert (extends t t1) as He1 by (apply extends_load_page; auto).
  assert (forall m, content t1 m = content t m) as Hct1
      by (intros m; apply content_load_page).
  wp_load. rewrite Hct1. fold c.
  change (get32 c 6) with n.
  destruct (Z.geb_spec n 13) as [?|_]; [lia|].
  assert (wp
            (if idx <? n
             then for_down (Z.to_nat (n - idx)) idx
                    (fun i => memcpy (mkPtr p (14 + i * 297))
                                (mkPtr p (14 + u32 (i - 1) * 297)) 297)
             else ret tt) t1
            (fun _ t2 =>
               extends t1 t2 /\
               (forall m, m <> p -> content t2 m = content t1 m) /\
               (forall a, content t2 p a
                          = shifted c (14 + idx * 297) (14 + n * 297) 297 a)))
    as Hshift.
  { destruct (Z.ltb_spec idx n).
    - apply wp_shift_cells; auto; try lia;
        rewrite ?Z2Nat.id by lia; consts; try lia.
      replace (idx + (n - idx)) with n by lia.
      intros t2 He2 Hf2 Hs2. split; [exact He2|]. split; [exact Hf2|].
      intros a. rewrite Hs2, Hct1. reflexivity.
    - apply wp_ret. split; [apply extends_refl|]. split; [auto|].
      intros a. rewrite Hct1. fold c.
      rewrite shifted_out by lia. reflexivity. }
  wp_seq. eapply wp_mono; [exact Hshift|]. clear Hshift.
  cbv beta. intros _ t2 (He2 & Hf2 & Hs2).
  assert (cached t2 p) as Hc2 by (apply (extends_cached _ _ _ He2 Hc1)).
  assert (forall off, get32 (content t2 p) off
                      = get32 (shifted c (14 + idx * 297) (14 + n * 297) 297)
                          off) as Hg2
      by (intros off; apply get32_ext; intros a _; apply Hs2).
  wp_load. rewrite Hg2. rewrite get32_shifted_out by lia.
  change (get32 c 6) with n.
  wp_store. wp_store. unfold serialize_row.
  apply wp_poke; ptrs; consts; try lia; [cached_tac|]. content_tac.
  rewrite (u32_small (n + 1)) by lia.
  apply HQ.
  - eapply extends_trans; [exact He1|]. extends_tac.
  - intros m Hm. content_tac. rewrite Hf2 by exact Hm. apply Hct1.
  - intros a Ha. content_tac. rewrite !blit_out by lia.
    rewrite Hs2, shifted_out by lia. reflexivity.
  - content_tac. unfold cell_count. consts. blits.
    apply u32_small. lia.
  - intros i d Hi Hd. content_tac.
    destruct (Z.eq_dec i idx) as [->|Hne].
    + rewrite split_source_at.
      replace (14 + idx * 297 + 4) with (14 + idx * 297 + 4) by lia.
      change (14 + idx * 297 + 4) with ((14 + idx * 297) + 4).
      apply leaf_node_insert_row_image. exact Hd.
    + rewrite !blit_out by lia. rewrite Hs2.
      destruct (Z.lt_ge_cases idx i).
      * rewrite split_source_above by lia. rewrite shifted_in by lia.
        f_equal. lia.
      * rewrite split_source_below by lia. rewrite shifted_out by lia.
        reflexivity.
Qed.

(** The key of virtual cell [i] of the merge. *)
Lemma get32_merge_source (c' : page) off old r key value i ks :
  (forall d, 0 <= d < 4 -> c' (off + d) = split_source old r key value i d) ->
  (forall k, (k < length ks)%nat -> leaf_key old (Z.of_nat k) = nth k ks 0) ->
  0 <= r <= Z.of_nat (length ks) -> 0 <= i <= Z.of_nat (length ks) ->
  uint32 key ->
  get32 c' off = nth (Z.to_nat i) (insert_at (Z.to_nat r) key ks) 0.
Proof.
  intros H Hkeys Hr Hi Hkey.
  rewrite nth_insert_at by lia. unfold split_source in H. consts.
  destruct (Z.eqb_spec i r) as [->|Hne].
  - rewrite Nat.eqb_refl. rewrite (get32_cell_image _ _ key value) by exact H.
    apply u32_small, Hkey.
  - destruct (Nat.eqb_spec (Z.to_nat i) (Z.to_nat r)); [lia|].
    destruct (Z.ltb_spec r i).
    + destruct (Nat.ltb_spec (Z.to_nat r) (Z.to_nat i)); [|lia].
      rewrite <- Hkeys by lia. unfold leaf_key. consts.
      apply get32_rel. intros k Hk. rewrite H by lia.
      f_equal. lia.
    + destruct (Nat.ltb_spec (Z.to_nat r) (Z.to_nat i)); [lia|].
      rewrite <- Hkeys by lia. unfold leaf_key. consts.
      apply get32_rel. intros k Hk. rewrite H by lia.
      f_equal. lia.
Qed.

Lemma wp_leaf_node_insert_room MAX cursor key value ks t Q :
  pager_wf t ->
  0 <= page_num cursor < num_pages (pager t) ->
  leaf_keys_are (content t (page_num cursor)) ks ->
  (length ks < 13)%nat ->
  0 <= cell_num cursor <= Z.of_nat (length ks) ->
  uint32 key ->
  (forall t',
      extends t t' ->
      (forall m, m <> page_num cursor -> content t' m = content t m) ->
      (forall a, a < 6 \/ 10 <= a < 14 ->
                 content t' (page_num cursor) a
                 = content t (page_num cursor) a) ->
      leaf_keys_are (content t' (page_num cursor))
        (insert_at (Z.to_nat (cell_num cursor)) key ks) ->
      (forall i d, 0 <= i <= Z.of_nat (length ks) -> 0 <= d < 297 ->
                   content t' (page_num cursor) (14 + i * 297 + d)
                   = split_source (content t (page_num cursor))
                       (cell_num cursor) key value i d) ->
      Q tt t') ->
  wp (leaf_node_insert MAX cursor key value) t Q.
Proof.
  intros Hwf Hp (Hty & Hcnt & Hlen & Hkeys) Hroom Hidx Hkey HQ.
  apply wp_leaf_node_insert_cells; auto; rewrite ?Hcnt; consts; try lia.
  intros t' He Hother Hhead Hcnt' Hcells. apply HQ; auto.
  split; [|split; [|split]].
  - unfold type_of, byte_at in *. consts. rewrite Hhead by lia. exact Hty.
  - rewrite Hcnt', length_insert_at. lia.
  - rewrite length_insert_at. lia.
  - intros i Hi. rewrite length_insert_at in Hi. unfold leaf_key. consts.
    rewrite (get32_merge_source _ _ (content t (page_num cursor))
               (cell_num cursor) key value (Z.of_nat i) ks); auto; try lia.
    + rewrite Nat2Z.id. reflexivity.
    + intros d Hd. rewrite <- Hcells by lia. f_equal; lia.
Qed.


(** ** Calls that may exhaust the capacity *)

Lemma wpx_bind {A B} (m : M A) (k : A -> M B) t Q :
  wpx m t (fun a t' => wpx (k a) t' Q) -> wpx (bind m k) t Q.
Proof. unfold wpx. intros H. apply wpe_bind. exact H. Qed.

Lemma wp_wpx {A} (m : M A) t Q : wp m t Q -> wpx m t Q.
Proof. apply wp_wpe. Qed.

Lemma wpx_mono {A} (m : M A) t (Q Q' : A -> Table -> Prop) :
  wpx m t Q -> (forall a t', Q a t' -> Q' a t') -> wpx m t Q'.
Proof. intros H HQ. eapply wpe_mono; eauto. Qed.

Lemma wpx_elim {A} (m : M A) t Q a t' :
  wpx m t Q -> m t = Ok a t' -> Q a t'.
Proof. unfold wpx, wpe. intros H E. rewrite E in H. exact H. Qed.

(** A call that exhausts the capacity exits with one of the two fatal
    conditions; [E] holds for the condition that is reached. *)
Lemma wpe_get_page_full n t Q (E : fatal -> Table -> Prop) :
  TABLE_MAX_PAGES <= n -> E PageNumberOutOfBounds t ->
  wpe (get_page n) t Q E.
Proof.
  intros H HE. unfold wpe, get_page.
  destruct (Z.leb_spec TABLE_MAX_PAGES n); [exact HE | lia].
Qed.

Lemma wpe_leaf_node_split cursor key value t Q (E : fatal -> Table -> Prop) :
  pager_wf t ->
  0 <= page_num cursor < num_pages (pager t) ->
  type_of (content t (page_num cursor)) = NODE_LEAF ->
  cell_count (content t (page_num cursor)) = LEAF_NODE_MAX_CELLS ->
  0 <= cell_num cursor <= LEAF_NODE_MAX_CELLS ->
  (TABLE_MAX_PAGES <= num_pages (pager t) ->
   forall t', E PageNumberOutOfBounds t') ->
  (forall t',
      num_pages (pager t) < TABLE_MAX_PAGES ->
      pager_wf t' ->
      cached t' (page_num cursor) -> cached t' (num_pages (pager t)) ->
      leaf_split_done t t' (page_num cursor) (cell_num cursor) key value ->
      Q (mkPtr (page_num cursor) 0,
         leaf_max_key (content t (page_num cursor)),
         num_pages (pager t)) t') ->
  wpe (leaf_node_split cursor key value) t Q E.
Proof.
  intros Hwf Hp Hty Hcnt Hidx HE HQ.
  destruct (Z.lt_ge_cases (num_pages (pager t)) TABLE_MAX_PAGES) as [Hlt|Hge].
  - apply wp_wpe, wp_leaf_node_split; auto.
  - unfold leaf_node_split.
    apply wpe_bind, wp_wpe, wp_get_page_old; auto.
    apply wpe_bind, wp_wpe, wp_get_node_max_key_leaf; [cached_tac| |].
    { content_tac. split; [exact Hty|]. consts. lia. }
    apply wpe_bind, wp_wpe, wp_get_unused_page_num.
    apply wpe_bind, wpe_get_page_full; [pages_tac; exact Hge | auto].
Qed.

Lemma wpe_create_new_root r t Q (E : fatal -> Table -> Prop) :
  pager_wf t ->
  root_page_num t = 0 ->
  0 < r < num_pages (pager t) ->
  nonempty_leaf (content t 0) ->
  (TABLE_MAX_PAGES <= num_pages (pager t) ->
   forall t', E PageNumberOutOfBounds t') ->
  (forall t',
      num_pages (pager t) < TABLE_MAX_PAGES ->
      pager_wf t' -> root_promoted t t' r -> Q tt t') ->
  wpe (create_new_root r) t Q E.
Proof.
  intros Hwf Hroot Hr Hleaf HE HQ.
  destruct (Z.lt_ge_cases (num_pages (pager t)) TABLE_MAX_PAGES) as [Hlt|Hge].
  - apply wp_wpe, wp_create_new_root; auto.
  - unfold create_new_root.
    apply wpe_bind, wp_wpe, wp_get_root_page_num. rewrite Hroot.
    apply wpe_bind, wp_wpe, wp_get_page_old; auto; [lia|].
    apply wpe_bind, wp_wpe, wp_get_page_old;
      [apply pager_wf_load_page; auto; lia | pages_tac; lia |].
    apply wpe_bind, wp_wpe, wp_get_unused_page_num.
    apply wpe_bind, wpe_get_page_full; [pages_tac; exact Hge | auto].
Qed.

Lemma wpe_internal_node_insert MAX parent child index t Q
    (E : fatal -> Table -> Prop) :
  pager_wf t ->
  0 <= parent < num_pages (pager t) ->
  0 <= child < num_pages (pager t) ->
  type_of (content t parent) = NODE_INTERNAL ->
  internal_cells_fit (key_count (content t parent) + 1) ->
  separators_ascending (content t parent) ->
  nonempty_leaf (content t child) ->
  0 <= right_child_ref (content t parent) < num_pages (pager t) ->
  nonempty_leaf (content t (right_child_ref (content t parent))) ->
  first_separator_geq (content t parent)
    (leaf_max_key (content t child)) index ->
  (MAX <= key_count (content t parent) ->
   forall t', E NeedToSplitInternalNode t') ->
  (forall t',
      key_count (content t parent) < MAX ->
      extends t t' ->
      (forall m, m <> parent -> content t' m = content t m) ->
      child_inserted (content t parent) (content t' parent) index child
        (leaf_max_key (content t child))
        (right_child_ref (content t parent))
        (leaf_max_key (content t (right_child_ref (content t parent)))) ->
      Q tt t') ->
  wpe (internal_node_insert MAX parent child) t Q E.
Proof.
  intros Hwf Hp Hch Hty Hfit Hasc Hleaf Hrc Hrleaf Hidx HE HQ.
  destruct (Z.lt_ge_cases (key_count (content t parent)) MAX) as [Hlt|Hge].
  - apply wp_wpe. eapply wp_internal_node_insert; eauto.
  - eapply wpe_mono;
      [apply (wpe_internal_node_insert_full MAX parent child t); auto
      | contradiction
      | cbv beta; intros e t' (-> & _); auto].
    unfold internal_cells_fit in *. consts. lia.
Qed.


(** ** Sorted key lists *)

Lemma sorted_app (l1 l2 : list Z) :
  StronglySorted Z.lt (l1 ++ l2) <->
  StronglySorted Z.lt l1 /\ StronglySorted Z.lt l2 /\
  (forall a b, In a l1 -> In b l2 -> a < b).
Proof.
  induction l1 as [|x l1 IH]; cbn [app].
  - split.
    + intros H. repeat split; auto. constructor. intros a b [].
    + intros (_ & H & _). exact H.
  - split.
    + intros H. inversion H as [|y l Hs Hf]; subst.
      apply IH in Hs as (S1 & S2 & Hlt).
      rewrite Forall_app in Hf. destruct Hf as [F1 F2].
      split; [constructor; auto|]. split; [auto|].
      intros a b [<-|Ha] Hb; [|auto].
      rewrite Forall_forall in F2. auto.
    + intros (S1 & S2 & Hlt). inversion S1 as [|y l Hs Hf]; subst.
      constructor.
      * apply IH. repeat split; auto. intros a b Ha Hb. apply Hlt; [right|]; auto.
      * rewrite Forall_app. split; [auto|].
        rewrite Forall_forall. intros b Hb. apply Hlt; [left|]; auto.
Qed.

Lemma sorted_cons (x : Z) (l : list Z) :
  StronglySorted Z.lt (x :: l) <->
  StronglySorted Z.lt l /\ (forall b, In b l -> x < b).
Proof.
  split.
  - intros H. inversion H as [|y l' Hs Hf]; subst. split; [auto|].
    rewrite Forall_forall in Hf. exact Hf.
  - intros [Hs Hlt]. constructor; [auto|]. rewrite Forall_forall. exact Hlt.
Qed.

Lemma sorted_nth (l : list Z) i j :
  StronglySorted Z.lt l -> (i < j)%nat -> (j < length l)%nat ->
  nth i l 0 < nth j l 0.
Proof.
  intros Hs. revert i j. induction Hs as [|x l Hs IH Hf]; intros i j Hij Hj.
  - cbn in Hj. lia.
  - cbn [length] in Hj. destruct j as [|j]; [lia|]. destruct i as [|i].
    + cbn [nth]. rewrite Forall_forall in Hf. apply Hf, nth_In. lia.
    + cbn [nth]. apply IH; lia.
Qed.

Lemma sorted_insert (A B : list Z) key :
  StronglySorted Z.lt (A ++ B) ->
  (forall a, In a A -> a < key) -> (forall b, In b B -> key < b) ->
  StronglySorted Z.lt (A ++ key :: B).
Proof.
  intros Hs HA HB. apply sorted_app in Hs as (SA & SB & Hlt).
  apply sorted_app. split; [exact SA|]. split.
  - apply sorted_cons. auto.
  - intros a b Ha [<-|Hb]; auto.
Qed.

Lemma sorted_NoDup (l : list Z) : StronglySorted Z.lt l -> NoDup l.
Proof.
  induction 1 as [|x l Hs IH Hf]; constructor; auto.
  intros Hin. rewrite Forall_forall in Hf. apply Hf in Hin. lia.
Qed.

Lemma in_firstn_nth (l : list Z) n a :
  In a (firstn n l) -> exists i, (i < n)%nat /\ (i < length l)%nat /\ nth i l 0 = a.
Proof.
  intros H. apply In_nth with (d := 0) in H as (i & Hi & <-).
  rewrite length_firstn in Hi. exists i. repeat split; try lia.
  rewrite nth_firstn. destruct (Nat.ltb_spec i n); [reflexivity | lia].
Qed.

Lemma in_skipn_nth (l : list Z) n a :
  In a (skipn n l) -> exists i, (n <= i)%nat /\ (i < length l)%nat /\ nth i l 0 = a.
Proof.
  intros H. apply In_nth with (d := 0) in H as (i & Hi & <-).
  rewrite length_skipn in Hi. exists (n + i)%nat. repeat split; try lia.
  rewrite nth_skipn. reflexivity.
Qed.

Lemma last_nth (l : list Z) : last l 0 = nth (length l - 1) l 0.
Proof.
  induction l as [|x l IH]; [reflexivity|].
  destruct l as [|y l]; [reflexivity|].
  change (last (x :: y :: l) 0) with (last (y :: l) 0). rewrite IH.
  cbn [length]. replace (S (S (length l)) - 1)%nat with (S (length l)) by lia.
  cbn [nth]. replace (S (length l) - 1)%nat with (length l) by lia.
  reflexivity.
Qed.

Lemma last_In (l : list Z) : l <> [] -> In (last l 0) l.
Proof.
  intros H. rewrite last_nth. apply nth_In. destruct l; [contradiction|].
  cbn [length]. lia.
Qed.

Lemma sorted_le_last (l : list Z) a :
  StronglySorted Z.lt l -> In a l -> a <= last l 0.
Proof.
  intros Hs Ha. apply In_nth with (d := 0) in Ha as (i & Hi & <-).
  rewrite last_nth.
  destruct (Nat.eq_dec i (length l - 1)) as [->|Hne]; [lia|].
  apply Z.lt_le_incl, sorted_nth; auto; lia.
Qed.

(** ** Lists of leaves *)

Lemma all_keys_app l1 l2 : all_keys (l1 ++ l2) = all_keys l1 ++ all_keys l2.
Proof. unfold all_keys. rewrite map_app, concat_app. reflexivity. Qed.

Lemma all_keys_cons p ks l : all_keys ((p, ks) :: l) = ks ++ all_keys l.
Proof. reflexivity. Qed.

Lemma leaves_decompose (ls : list (Z * list Z)) j :
  (j < length ls)%nat ->
  ls = firstn j ls ++ nth j ls (0, []) :: skipn (S j) ls.
Proof.
  revert j. induction ls as [|x ls IH]; intros j Hj; [cbn in Hj; lia|].
  destruct j as [|j]; [reflexivity|].
  cbn [firstn nth skipn app]. f_equal. apply IH. cbn in Hj. lia.
Qed.

Lemma in_all_keys (ls : list (Z * list Z)) j b :
  (j < length ls)%nat -> In b (snd (nth j ls (0, []))) -> In b (all_keys ls).
Proof.
  intros Hj Hb. unfold all_keys. apply in_concat.
  exists (snd (nth j ls (0, []))). split; [|exact Hb].
  apply in_map, nth_In, Hj.
Qed.

Lemma sorted_leaves_lt (ls : list (Z * list Z)) :
  StronglySorted Z.lt (all_keys ls) ->
  forall i j a b,
    (i < j)%nat -> (j < length ls)%nat ->
    In a (snd (nth i ls (0, []))) -> In b (snd (nth j ls (0, []))) -> a < b.
Proof.
  induction ls as [|[p ks] ls IH]; intros Hs i j a b Hij Hj Ha Hb;
    [cbn in Hj; lia|].
  rewrite all_keys_cons in Hs. apply sorted_app in Hs as (S1 & S2 & Hlt).
  cbn [length] in Hj. destruct j as [|j]; [lia|]. cbn [nth] in Hb.
  destruct i as [|i].
  - cbn [nth snd] in Ha. apply Hlt; [exact Ha|].
    apply (in_all_keys ls j); [lia | exact Hb].
  - cbn [nth] in Ha. apply (IH S2 i j); auto; lia.
Qed.

Lemma sorted_leaf (ls : list (Z * list Z)) j :
  StronglySorted Z.lt (all_keys ls) -> (j < length ls)%nat ->
  StronglySorted Z.lt (snd (nth j ls (0, []))).
Proof.
  intros Hs Hj. rewrite (leaves_decompose ls j Hj) in Hs.
  rewrite all_keys_app in Hs. apply sorted_app in Hs as (_ & Hs & _).
  destruct (nth j ls (0, [])) as [p ks]. rewrite all_keys_cons in Hs.
  apply sorted_app in Hs as (Hs & _). exact Hs.
Qed.

Lemma in_all_keys_inv (ls : list (Z * list Z)) b :
  In b (all_keys ls) ->
  exists j, (j < length ls)%nat /\ In b (snd (nth j ls (0, []))).
Proof.
  unfold all_keys. intros H. apply in_concat in H as (ks & Hks & Hb).
  apply in_map_iff in Hks as (x & <- & Hx).
  apply In_nth with (d := (0, [])) in Hx as (j & Hj & <-). eauto.
Qed.

Lemma length_replace_leaf j x ls :
  (j < length ls)%nat -> length (replace_leaf j x ls) = length ls.
Proof.
  intros H. unfold replace_leaf. rewrite length_app. cbn [length].
  rewrite length_firstn, length_skipn. lia.
Qed.

Lemma length_split_leaf j x y ls :
  (j < length ls)%nat -> length (split_leaf j x y ls) = S (length ls).
Proof.
  intros H. unfold split_leaf. rewrite length_app. cbn [length].
  rewrite length_firstn, length_skipn. lia.
Qed.

Lemma nth_replace_leaf j x ls i :
  (j < length ls)%nat ->
  nth i (replace_leaf j x ls) (0, [])
  = if (i =? j)%nat then x else nth i ls (0, []).
Proof.
  intros Hj. unfold replace_leaf.
  assert (length (firstn j ls) = j) as Hlen by (rewrite length_firstn; lia).
  destruct (Nat.eqb_spec i j) as [->|Hne].
  - rewrite app_nth2 by lia. rewrite Hlen, Nat.sub_diag. reflexivity.
  - destruct (Nat.lt_ge_cases i j).
    + rewrite app_nth1 by lia. rewrite nth_firstn.
      destruct (Nat.ltb_spec i j); [reflexivity | lia].
    + rewrite app_nth2 by lia. rewrite Hlen.
      replace (i - j)%nat with (S (i - j - 1)) by lia. cbn [nth].
      rewrite nth_skipn. f_equal. lia.
Qed.

Lemma nth_split_leaf j x y ls i :
  (j < length ls)%nat ->
  nth i (split_leaf j x y ls) (0, [])
  = if (i <? j)%nat then nth i ls (0, [])
    else if (i =? j)%nat then x
    else if (i =? S j)%nat then y
    else nth (i - 1) ls (0, []).
Proof.
  intros Hj. unfold split_leaf.
  assert (length (firstn j ls) = j) as Hlen by (rewrite length_firstn; lia).
  destruct (Nat.ltb_spec i j).
  - rewrite app_nth1 by lia. rewrite nth_firstn.
    destruct (Nat.ltb_spec i j); [reflexivity | lia].
  - rewrite app_nth2 by lia. rewrite Hlen.
    destruct (Nat.eqb_spec i j) as [->|Hne];
      [rewrite Nat.sub_diag; reflexivity|].
    destruct (Nat.eqb_spec i (S j)) as [->|Hne'].
    + replace (S j - j)%nat with 1%nat by lia. reflexivity.
    + replace (i - j)%nat with (S (S (i - j - 2))) by lia. cbn [nth].
      rewrite nth_skipn. f_equal. lia.
Qed.

Lemma all_keys_replace_leaf j p ks ls :
  all_keys (replace_leaf j (p, ks) ls)
  = all_keys (firstn j ls) ++ ks ++ all_keys (skipn (S j) ls).
Proof.
  unfold replace_leaf. rewrite all_keys_app, all_keys_cons. reflexivity.
Qed.

Lemma all_keys_split_leaf j p ks q ks' ls :
  all_keys (split_leaf j (p, ks) (q, ks') ls)
  = all_keys (firstn j ls) ++ (ks ++ ks') ++ all_keys (skipn (S j) ls).
Proof.
  unfold split_leaf. rewrite all_keys_app, !all_keys_cons.
  rewrite <- (app_assoc ks ks'). reflexivity.
Qed.

Lemma all_keys_decompose ls j :
  (j < length ls)%nat ->
  all_keys ls
  = all_keys (firstn j ls) ++ snd (nth j ls (0, []))
    ++ all_keys (skipn (S j) ls).
Proof.
  intros Hj. rewrite (leaves_decompose ls j Hj) at 1.
  rewrite all_keys_app. destruct (nth j ls (0, [])). reflexivity.
Qed.

(** ** The tree representation *)

Lemma last_nth_gen {A} (l : list A) d : last l d = nth (length l - 1) l d.
Proof.
  induction l as [|x l IH]; [reflexivity|].
  destruct l as [|y l]; [reflexivity|].
  change (last (x :: y :: l) d) with (last (y :: l) d). rewrite IH.
  cbn [length]. replace (S (S (length l)) - 1)%nat with (S (length l)) by lia.
  cbn [nth]. replace (S (length l) - 1)%nat with (length l) by lia.
  reflexivity.
Qed.

Lemma linked_leaf_ok t ls stop :
  linked t ls stop <-> forall j, (j < length ls)%nat -> leaf_ok t ls stop j.
Proof.
  induction ls as [|[p ks] ls IH]; cbn [linked].
  - split; [intros _ j Hj; cbn in Hj; lia | auto].
  - split.
    + intros (Hp & Hks & Hl & Hrest) j Hj. destruct j as [|j].
      * unfold leaf_ok. cbn [nth fst snd length].
        split; [exact Hp|]. split; [exact Hks|].
        destruct ls as [|[q ks'] ls]; exact Hl.
      * cbn [length] in Hj.
        pose proof (proj1 IH Hrest j ltac:(lia)) as (H1 & H2 & H3).
        unfold leaf_ok. cbn [nth length].
        split; [exact H1|]. split; [exact H2|].
        change (S (S j) <? S (length ls))%nat with (S j <? length ls)%nat.
        exact H3.
    + intros H. pose proof (H O ltac:(cbn; lia)) as (H1 & H2 & H3).
      cbn [nth fst snd length] in H1, H2, H3.
      split; [exact H1|]. split; [exact H2|]. split.
      * destruct ls as [|[q ks'] ls]; exact H3.
      * apply IH. intros j Hj.
        pose proof (H (S j) ltac:(cbn; lia)) as (G1 & G2 & G3).
        cbn [nth length] in G1, G2, G3.
        change (S (S j) <? S (length ls))%nat with (S j <? length ls)%nat in G3.
        split; [exact G1|]. split; [exact G2 | exact G3].
Qed.

Lemma leaf_at_frame t t' p ks next r :
  leaf_at t p ks next r -> content t' p = content t p ->
  leaf_at t' p ks next r.
Proof. unfold leaf_at. intros H E. rewrite E. exact H. Qed.

Lemma leaf_ok_frame t t' ls stop j :
  leaf_ok t ls stop j ->
  num_pages (pager t) <= num_pages (pager t') ->
  content t' (fst (nth j ls (0, []))) = content t (fst (nth j ls (0, []))) ->
  leaf_ok t' ls stop j.
Proof.
  intros (H1 & H2 & H3) Hn E. split; [lia|]. split; [exact H2|].
  eapply leaf_at_frame; eauto.
Qed.

Lemma tree_rep_frame t t' ls :
  tree_rep t ls -> extends t t' -> (forall m, content t' m = content t m) ->
  tree_rep t' ls.
Proof.
  intros (Hwf & Hroot & Hnp & Hs & Hshape) He Hc.
  split; [apply (extends_wf t); auto|].
  split; [rewrite (extends_root_page_num _ _ He); exact Hroot|].
  split; [rewrite (extends_num_pages _ _ He); exact Hnp|].
  split; [exact Hs|].
  destruct Hshape as [(ks & -> & Hl) | (Hty & Hlen & Hcells & Hlk & Hnd)].
  - left. exists ks. split; [reflexivity|]. eapply leaf_at_frame; eauto.
  - right. rewrite Hc. split; [exact Hty|]. split; [exact Hlen|].
    split; [exact Hcells|]. split; [|exact Hnd].
    apply linked_leaf_ok. intros j Hj.
    eapply leaf_ok_frame; [apply linked_leaf_ok; eauto | | apply Hc].
    rewrite (extends_num_pages _ _ He). lia.
Qed.

Lemma leaf_keys_ascending c ks :
  leaf_keys_are c ks -> StronglySorted Z.lt ks -> strictly_ascending c.
Proof.
  intros (_ & Hcnt & _ & Hkeys) Hs i j Hij Hj. rewrite Hcnt in Hj.
  rewrite <- (Z2Nat.id i), <- (Z2Nat.id j) by lia.
  rewrite !Hkeys by lia. apply sorted_nth; auto; lia.
Qed.

Lemma leaf_keys_count c ks :
  leaf_keys_are c ks -> cell_count c <= LEAF_NODE_MAX_CELLS.
Proof. intros (_ & Hcnt & Hlen & _). rewrite Hcnt. consts. lia. Qed.

Lemma leaf_at_nonempty t p ks next r :
  leaf_at t p ks next r -> ks <> [] -> nonempty_leaf (content t p).
Proof.
  intros ((Hty & Hcnt & Hlen & _) & _) Hne. split; [exact Hty|].
  rewrite Hcnt. consts. destruct ks; [contradiction|]. cbn [length] in *. lia.
Qed.

Lemma leaf_keys_max c ks :
  leaf_keys_are c ks -> ks <> [] -> leaf_max_key c = last ks 0.
Proof.
  intros (_ & Hcnt & _ & Hkeys) Hne. unfold leaf_max_key. rewrite Hcnt.
  rewrite last_nth. assert (0 < length ks)%nat
      by (destruct ks; [contradiction | cbn; lia]).
  replace (Z.of_nat (length ks) - 1) with (Z.of_nat (length ks - 1)) by lia.
  apply Hkeys. lia.
Qed.

(** The separators of the root are the maxima of the leaves, in order. *)
Lemma root_separators_ascending t ls :
  root_cells (content t 0) ls -> linked t ls 0 ->
  StronglySorted Z.lt (all_keys ls) ->
  separators_ascending (content t 0).
Proof.
  intros (Hcnt & Hcells & _) Hlk Hs i j Hij Hj. rewrite Hcnt in Hj.
  destruct (Z.eq_dec i j) as [->|Hne]; [lia|].
  rewrite <- (Z2Nat.id i), <- (Z2Nat.id j) by lia.
  rewrite (proj2 (Hcells (Z.to_nat i) ltac:(lia))).
  rewrite (proj2 (Hcells (Z.to_nat j) ltac:(lia))).
  apply Z.lt_le_incl.
  apply (sorted_leaves_lt ls Hs (Z.to_nat i) (Z.to_nat j)); try lia;
    apply last_In;
    eapply (proj1 (linked_leaf_ok t ls 0) Hlk); lia.
Qed.

Lemma num_leaves_bound t ls :
  pager_wf t -> 0 < num_pages (pager t) ->
  linked t ls 0 -> NoDup (map fst ls) ->
  Z.of_nat (length ls) < num_pages (pager t).
Proof.
  intros Hwf Hnp Hlk Hnd.
  assert (incl (map fst ls)
            (map Z.of_nat (seq 1 (Z.to_nat (num_pages (pager t)) - 1)))) as Hincl.
  { intros p Hp. apply in_map_iff in Hp as ([q ks] & <- & Hin).
    apply In_nth with (d := (0, [])) in Hin as (j & Hj & E).
    pose proof (proj1 (linked_leaf_ok t ls 0) Hlk j Hj) as (H1 & _).
    rewrite E in H1. cbn [fst] in *.
    apply in_map_iff. exists (Z.to_nat q). split; [lia|].
    apply in_seq. lia. }
  apply NoDup_incl_length in Hincl; [|exact Hnd].
  rewrite !length_map, length_seq in Hincl.
  pose proof (pager_wf_num_pages t Hwf). lia.
Qed.

Lemma wp_child_page {B} p i t (k : Z -> M B) Q :
  cached t p -> keys_in_page (content t p) ->
  0 <= i <= key_count (content t p) ->
  wp (k (if i =? key_count (content t p)
         then right_child_ref (content t p)
         else child_ref (content t p) i)) t Q ->
  wp (bind (internal_node_child (mkPtr p 0) i)
           (fun r => bind (load32 r) k)) t Q.
Proof.
  intros Hc Hk Hi HQ. unfold keys_in_page in Hk. consts.
  unfold internal_node_child.
  apply wp_bind, wp_bind, wp_load32; ptrs; consts; try lia; auto.
  change (get32 (content t p) 6) with (key_count (content t p)).
  destruct (Z.eqb_spec i (key_count (content t p))) as [E|E].
  - apply wp_ret. apply wp_bind, wp_load32; ptrs; consts; try lia; auto.
  - apply wp_ret. apply wp_bind, wp_load32; ptrs; consts; try lia; auto.
Qed.

(** ** [table_find] on the tree *)

Lemma wp_table_find_tree mem key t ls Q :
  tree_rep t ls ->
  (forall c t' j,
      extends t t' -> (forall m, content t' m = content t m) ->
      found_at t ls key c j -> end_of_table c = end_of_table mem ->
      Q c t') ->
  wp (table_find mem key) t Q.
Proof.
  intros (Hwf & Hroot & Hnp & Hs & Hshape) HQ. unfold table_find.
  apply wp_bind, wp_get_root_page_num. rewrite Hroot.
  apply wp_bind, wp_get_page_old; auto; [lia|].
  set (t1 := load_page t 0).
  assert (extends t t1) as He1 by (apply extends_load_page; lia).
  assert (pager_wf t1) as Hwf1 by (apply (extends_wf t); auto).
  assert (forall m, content t1 m = content t m) as Hc1
      by (intros m; apply content_load_page).
  assert (num_pages (pager t1) = num_pages (pager t)) as Hn1
      by apply num_pages_load_page.
  apply wp_bind, wp_get_node_type; [unfold t1; cached_tac|]. rewrite Hc1.
  destruct Hshape as [(ks & -> & Hl) | (Hty & Hlen & Hcells & Hlk & Hnd)].
  - (* the root is a leaf *)
    destruct Hl as (Hkeys & _). pose proof Hkeys as (Hty & _).
    rewrite Hty. destruct (Z.eqb_spec NODE_LEAF NODE_LEAF); [|contradiction].
    rewrite all_keys_cons, app_nil_r in Hs.
    apply wp_leaf_node_find; auto; rewrite ?Hc1, ?Hn1; try lia.
    + eapply leaf_keys_count; eauto.
    + eapply leaf_keys_ascending; eauto.
    + intros r Hr. apply (HQ _ _ O).
      * eapply extends_trans; [exact He1|]. apply extends_load_page. lia.
      * intros m. rewrite content_load_page. apply Hc1.
      * split; [cbn; lia|]. split; [reflexivity|]. split; [exact Hr|].
        split; [intros i Hi; lia | cbn; lia].
      * reflexivity.
  - (* the root is an internal node *)
    rewrite Hty. destruct (Z.eqb_spec NODE_INTERNAL NODE_LEAF) as [E|_];
      [discriminate E|].
    change DEPTH_FUEL with (S 99). cbn [internal_node_find].
    apply wp_bind, wp_get_page_old; auto; [lia|].
    set (t2 := load_page t1 0).
    assert (extends t t2) as He2.
    { eapply extends_trans; [exact He1|]. apply extends_load_page. lia. }
    assert (pager_wf t2) as Hwf2 by (apply (extends_wf t); auto).
    assert (forall m, content t2 m = content t m) as Hc2
        by (intros m; unfold t2; rewrite content_load_page; apply Hc1).
    assert (num_pages (pager t2) = num_pages (pager t)) as Hn2
        by (unfold t2; rewrite num_pages_load_page; exact Hn1).
    assert (cached t2 0) as Hca2 by (unfold t2; cached_tac).
    pose proof (num_leaves_bound t ls Hwf Hnp Hlk Hnd) as Hbound.
    pose proof (pager_wf_num_pages t Hwf) as Hpages.
    pose proof Hcells as (Hcnt & Hcell & Hright).
    apply wp_bind, wp_internal_node_find_child; auto.
    { unfold keys_in_page. rewrite Hc2, Hcnt. consts. lia. }
    { rewrite Hc2. eapply root_separators_ascending; eauto. }
    intros jz Hj. rewrite Hc2 in Hj. destruct Hj as (Hjr & Hjl & Hjg).
    rewrite Hcnt in Hjr, Hjg.
    set (j := Z.to_nat jz).
    assert (jz = Z.of_nat j) as Ej by (unfold j; lia).
    apply wp_child_page; auto.
    { unfold keys_in_page. rewrite Hc2, Hcnt. consts. lia. }
    { rewrite Hc2, Hcnt. lia. }
    rewrite Hc2, Hcnt.
    assert ((if jz =? Z.of_nat (length ls) - 1
             then right_child_ref (content t 0)
             else child_ref (content t 0) jz) = fst (nth j ls (0, [])))
      as ->.
    { destruct (Z.eqb_spec jz (Z.of_nat (length ls) - 1)) as [E|E].
      - rewrite Hright, last_nth_gen.
        replace (length ls - 1)%nat with j by lia. reflexivity.
      - rewrite Ej. apply Hcell. lia. }
    pose proof (proj1 (linked_leaf_ok t ls 0) Hlk j ltac:(lia))
      as (Hq & Hne & Hleaf).
    set (q := fst (nth j ls (0, []))) in *.
    set (ks := snd (nth j ls (0, []))) in *.
    apply wp_bind, wp_get_page_old; auto; [lia|].
    set (t3 := load_page t2 q).
    assert (extends t t3) as He3.
    { eapply extends_trans; [exact He2|]. apply extends_load_page. lia. }
    assert (pager_wf t3) as Hwf3 by (apply (extends_wf t); auto).
    assert (forall m, content t3 m = content t m) as Hc3
        by (intros m; unfold t3; rewrite content_load_page; apply Hc2).
    apply wp_bind, wp_get_node_type; [unfold t3; cached_tac|]. rewrite Hc3.
    destruct Hleaf as (Hkeys & _). pose proof Hkeys as (Htyq & _).
    rewrite Htyq. destruct (Z.eqb_spec NODE_LEAF NODE_LEAF); [|contradiction].
    assert (StronglySorted Z.lt ks) as Hsk by (apply sorted_leaf; auto; lia).
    apply wp_leaf_node_find; auto; rewrite ?Hc3;
      try (rewrite (extends_num_pages _ _ He3); lia).
    + eapply leaf_keys_count; eauto.
    + eapply leaf_keys_ascending; eauto.
    + intros r Hr. apply (HQ _ _ j).
      * eapply extends_trans; [exact He3|]. apply extends_load_page.
        rewrite (extends_num_pages _ _ He3). lia.
      * intros m. rewrite content_load_page. apply Hc3.
      * split; [lia|]. split; [reflexivity|]. split; [exact Hr|]. split.
        -- intros i Hi. rewrite <- (proj2 (Hcell i ltac:(lia))).
           apply Hjl. lia.
        -- intros Hlast. rewrite <- (proj2 (Hcell j ltac:(lia))).
           rewrite <- Ej. apply Hjg. lia.
      * reflexivity.
Qed.
(** ** Where a new key goes *)

(** The cell number [leaf_node_find] returns for an absent key splits the
    keys of the leaf into the smaller and the greater ones. *)
Lemma find_post_absent c ks key r :
  leaf_keys_are c ks -> ~ In key ks -> find_post c key r ->
  0 <= r <= Z.of_nat (length ks) /\
  (forall a, In a (firstn (Z.to_nat r) ks) -> a < key) /\
  (forall b, In b (skipn (Z.to_nat r) ks) -> key < b).
Proof.
  intros (_ & Hcnt & _ & Hkeys) Hni (Hr & Hpost). rewrite Hcnt in Hr, Hpost.
  split; [exact Hr|].
  destruct Hpost as [(Hlt & E) | (Hbefore & Hafter)].
  - exfalso. apply Hni. rewrite <- E, <- (Z2Nat.id r) by lia.
    rewrite Hkeys by lia. apply nth_In. lia.
  - split.
    + intros a Ha. apply in_firstn_nth in Ha as (i & Hi & Hl & <-).
      rewrite <- Hkeys by lia. apply Hbefore. lia.
    + intros b Hb. apply in_skipn_nth in Hb as (i & Hi & Hl & <-).
      rewrite <- Hkeys by lia. apply Hafter. lia.
Qed.

Lemma in_all_keys_firstn (ls : list (Z * list Z)) j a :
  In a (all_keys (firstn j ls)) ->
  exists i, (i < j)%nat /\ (i < length ls)%nat /\
            In a (snd (nth i ls (0, []))).
Proof.
  intros H. apply in_all_keys_inv in H as (i & Hi & Ha).
  rewrite length_firstn in Hi. rewrite nth_firstn in Ha.
  destruct (Nat.ltb_spec i j); [|lia]. exists i. repeat split; auto; lia.
Qed.

Lemma in_all_keys_skipn (ls : list (Z * list Z)) j a :
  In a (all_keys (skipn j ls)) ->
  exists i, (j <= i)%nat /\ (i < length ls)%nat /\
            In a (snd (nth i ls (0, []))).
Proof.
  intros H. apply in_all_keys_inv in H as (i & Hi & Ha).
  rewrite length_skipn in Hi. rewrite nth_skipn in Ha.
  exists (j + i)%nat. repeat split; auto; lia.
Qed.

Lemma keys_before_after ls j r :
  (j < length ls)%nat -> all_keys ls = keys_before ls j r ++ keys_after ls j r.
Proof.
  intros Hj. unfold keys_before, keys_after.
  rewrite (all_keys_decompose ls j Hj) at 1.
  rewrite <- (firstn_skipn r (snd (nth j ls (0, [])))) at 1.
  rewrite <- !app_assoc. reflexivity.
Qed.

Lemma keys_replace_leaf ls j r p key :
  all_keys
    (replace_leaf j (p, insert_at r key (snd (nth j ls (0, [])))) ls)
  = keys_before ls j r ++ key :: keys_after ls j r.
Proof.
  rewrite all_keys_replace_leaf. unfold keys_before, keys_after, insert_at.
  rewrite <- !app_assoc. reflexivity.
Qed.

Lemma keys_split_leaf ls j r p q key n :
  all_keys
    (split_leaf j
       (p, firstn n (insert_at r key (snd (nth j ls (0, [])))))
       (q, skipn n (insert_at r key (snd (nth j ls (0, [])))))
       ls)
  = keys_before ls j r ++ key :: keys_after ls j r.
Proof.
  rewrite all_keys_split_leaf, firstn_skipn.
  unfold keys_before, keys_after, insert_at.
  rewrite <- !app_assoc. reflexivity.
Qed.

Lemma keys_before_lt ls j r key :
  StronglySorted Z.lt (all_keys ls) -> (j < length ls)%nat ->
  (forall i, (i < j)%nat -> last (snd (nth i ls (0, []))) 0 < key) ->
  (forall a, In a (firstn r (snd (nth j ls (0, [])))) -> a < key) ->
  forall a, In a (keys_before ls j r) -> a < key.
Proof.
  intros Hs Hj Hlt Hleaf a Ha. unfold keys_before in Ha.
  apply in_app_or in Ha as [Ha|Ha]; [|auto].
  apply in_all_keys_firstn in Ha as (i & Hi & Hl & Ha).
  apply Z.le_lt_trans with (last (snd (nth i ls (0, []))) 0); [|auto].
  apply sorted_le_last; [apply sorted_leaf; auto | exact Ha].
Qed.

Lemma keys_after_gt ls j r key :
  StronglySorted Z.lt (all_keys ls) -> (j < length ls)%nat ->
  ((S j < length ls)%nat -> snd (nth j ls (0, [])) <> []) ->
  ((S j < length ls)%nat -> key <= last (snd (nth j ls (0, []))) 0) ->
  (forall b, In b (skipn r (snd (nth j ls (0, [])))) -> key < b) ->
  forall b, In b (keys_after ls j r) -> key < b.
Proof.
  intros Hs Hj Hne Hle Hleaf b Hb. unfold keys_after in Hb.
  apply in_app_or in Hb as [Hb|Hb]; [auto|].
  apply in_all_keys_skipn in Hb as (i & Hi & Hl & Hb).
  apply Z.le_lt_trans with (last (snd (nth j ls (0, []))) 0);
    [apply Hle; lia|].
  apply (sorted_leaves_lt ls Hs j i); auto; try lia.
  apply last_In, Hne. lia.
Qed.

Lemma sorted_new_key ls j r key :
  StronglySorted Z.lt (all_keys ls) -> (j < length ls)%nat ->
  (forall a, In a (keys_before ls j r) -> a < key) ->
  (forall b, In b (keys_after ls j r) -> key < b) ->
  StronglySorted Z.lt (keys_before ls j r ++ key :: keys_after ls j r).
Proof.
  intros Hs Hj Hb Ha. apply sorted_insert; auto.
  rewrite <- keys_before_after by exact Hj. exact Hs.
Qed.

(** A key below the maximum of its leaf is not put after the last cell. *)
Lemma insert_not_last (ks : list Z) r key :
  ks <> [] -> (r <= length ks)%nat ->
  key <= last ks 0 -> ~ In key ks ->
  (forall a, In a (firstn r ks) -> a < key) ->
  (r < length ks)%nat /\ last (insert_at r key ks) 0 = last ks 0.
Proof.
  intros Hne Hr Hle Hni Hlt.
  assert (r < length ks)%nat as Hr'.
  { destruct (Nat.eq_dec r (length ks)) as [->|]; [|lia].
    rewrite firstn_all in Hlt. pose proof (Hlt _ (last_In ks Hne)). lia. }
  split; [exact Hr'|].
  rewrite !last_nth, length_insert_at, nth_insert_at by lia.
  replace (S (length ks) - 1)%nat with (length ks) by lia.
  destruct (Nat.eqb_spec (length ks) r); [lia|].
  destruct (Nat.ltb_spec r (length ks)); [reflexivity | lia].
Qed.

Lemma firstn_insert_nonempty r key ks n :
  (0 < n)%nat -> firstn n (insert_at r key ks) <> [].
Proof.
  intros Hn H. apply (f_equal (@length Z)) in H.
  rewrite length_firstn, length_insert_at in H. cbn [length] in H. lia.
Qed.

Lemma skipn_insert_nonempty r key ks n :
  (n <= length ks)%nat -> skipn n (insert_at r key ks) <> [].
Proof.
  intros Hn H. apply (f_equal (@length Z)) in H.
  rewrite length_skipn, length_insert_at in H. cbn [length] in H. lia.
Qed.

Lemma last_skipn (l : list Z) n :
  (n < length l)%nat -> last (skipn n l) 0 = last l 0.
Proof.
  intros Hn. rewrite !last_nth, nth_skipn, length_skipn. f_equal. lia.
Qed.

Lemma last_firstn (l : list Z) n :
  (0 < n <= length l)%nat -> last (firstn n l) 0 = nth (n - 1) l 0.
Proof.
  intros Hn. rewrite last_nth, length_firstn, nth_firstn.
  replace (Nat.min n (length l)) with n by lia.
  destruct (Nat.ltb_spec (n - 1) n); [reflexivity | lia].
Qed.

(** The leaf list after a split names the old pages and the new one. *)
Lemma map_fst_replace_leaf j p ks ks' ls :
  (j < length ls)%nat -> nth j ls (0, []) = (p, ks) ->
  map fst (replace_leaf j (p, ks') ls) = map fst ls.
Proof.
  intros Hj E. rewrite (leaves_decompose ls j Hj) at 2.
  unfold replace_leaf. rewrite !map_app. cbn [map]. rewrite E. reflexivity.
Qed.

Lemma NoDup_split_leaf j p ks ks1 ks2 q ls :
  (j < length ls)%nat -> nth j ls (0, []) = (p, ks) ->
  NoDup (map fst ls) -> ~ In q (map fst ls) ->
  NoDup (map fst (split_leaf j (p, ks1) (q, ks2) ls)).
Proof.
  intros Hj E Hnd Hq.
  apply (Permutation_NoDup (l := q :: map fst ls));
    [|constructor; assumption].
  rewrite (leaves_decompose ls j Hj) at 1. unfold split_leaf.
  rewrite !map_app. cbn [map]. rewrite E. cbn [fst].
  rewrite Permutation_middle.
  apply Permutation_app_head. apply perm_swap.
Qed.

(** ** The tree after an insert into a leaf with room *)

Lemma header_views (c c' : page) :
  (forall a, a < 6 \/ 10 <= a < 14 -> c' a = c a) ->
  type_of c' = type_of c /\ root_flag c' = root_flag c /\
  parent_ref c' = parent_ref c /\ next_leaf_ref c' = next_leaf_ref c.
Proof.
  intros H. views. consts. unfold byte_at.
  rewrite !(get32_ext c' c) by (intros; apply H; lia).
  rewrite !H by lia. auto.
Qed.

Lemma tree_rep_insert_room t t' ls j p ks r key :
  tree_rep t ls -> (j < length ls)%nat -> nth j ls (0, []) = (p, ks) ->
  extends t t' ->
  (forall m, m <> p -> content t' m = content t m) ->
  (forall a, a < 6 \/ 10 <= a < 14 -> content t' p a = content t p a) ->
  leaf_keys_are (content t' p) (insert_at r key ks) ->
  StronglySorted Z.lt (keys_before ls j r ++ key :: keys_after ls j r) ->
  ((S j < length ls)%nat -> last (insert_at r key ks) 0 = last ks 0) ->
  tree_rep t' (replace_leaf j (p, insert_at r key ks) ls).
Proof.
  intros (Hwf & Hroot & Hnp & Hs & Hshape) Hj E He Hother Hhead Hkeys Hs'
    Hlast.
  pose proof (header_views _ _ Hhead) as (Hty' & Hrf' & Hpr' & Hnl').
  assert (ks = snd (nth j ls (0, []))) as Eks by (rewrite E; reflexivity).
  split; [apply (extends_wf t); auto|].
  split; [rewrite (extends_root_page_num _ _ He); exact Hroot|].
  split; [rewrite (extends_num_pages _ _ He); exact Hnp|].
  split; [rewrite Eks, keys_replace_leaf; exact Hs'|].
  destruct Hshape as [(ks0 & -> & Hl) | (Hty & Hlen & Hcells & Hlk & Hnd)].
  - left. cbn [length] in Hj. assert (j = O) as -> by lia.
    cbn [nth] in E. injection E as <- <-.
    exists (insert_at r key ks0). split; [reflexivity|].
    destruct Hl as (_ & Hrf & Hpr & Hnl).
    split; [exact Hkeys|]. split; [rewrite Hrf'; exact Hrf|].
    split; [discriminate|]. rewrite Hnl'. exact Hnl.
  - right.
    pose proof (proj1 (linked_leaf_ok t ls 0) Hlk) as Hok.
    pose proof (Hok j Hj) as (Hp & Hne & Hleaf).
    rewrite E in Hp, Hne, Hleaf. cbn [fst snd] in Hp, Hne, Hleaf.
    rewrite Hother by lia.
    split; [exact Hty|].
    split; [rewrite length_replace_leaf by exact Hj; exact Hlen|].
    split; [|split].
    + destruct Hcells as (Hcnt & Hcell & Hright).
      split; [rewrite length_replace_leaf by exact Hj; exact Hcnt|]. split.
      * intros i Hi. rewrite length_replace_leaf in Hi by exact Hj.
        rewrite nth_replace_leaf by exact Hj.
        destruct (Nat.eqb_spec i j) as [->|Hne'].
        -- cbn [fst snd]. rewrite Hlast by exact Hi.
           pose proof (Hcell j Hi) as Hc. rewrite E in Hc. exact Hc.
        -- apply Hcell. exact Hi.
      * rewrite Hright, !last_nth_gen, length_replace_leaf by exact Hj.
        rewrite nth_replace_leaf by exact Hj.
        destruct (Nat.eqb_spec (length ls - 1) j) as [->|Hne'];
          [rewrite E; reflexivity | reflexivity].
    + apply linked_leaf_ok. intros i Hi.
      rewrite length_replace_leaf in Hi by exact Hj.
      pose proof (Hok i Hi) as (Hp1 & Hne1 & Hleaf1).
      unfold leaf_ok. rewrite length_replace_leaf by exact Hj.
      rewrite !nth_replace_leaf by exact Hj.
      rewrite (extends_num_pages _ _ He).
      assert ((if (S i <? length ls)%nat
               then fst (if (S i =? j)%nat then (p, insert_at r key ks)
                         else nth (S i) ls (0, []))
               else 0)
              = if (S i <? length ls)%nat then fst (nth (S i) ls (0, []))
                else 0) as ->.
      { destruct (S i <? length ls)%nat; [|reflexivity].
        destruct (Nat.eqb_spec (S i) j) as [->|_];
          [rewrite E; reflexivity | reflexivity]. }
      destruct (Nat.eqb_spec i j) as [->|Hne'].
      * cbn [fst snd]. split; [exact Hp|].
        split; [unfold insert_at; intros H; apply app_eq_nil in H as [_ H];
                discriminate H|].
        rewrite E in Hleaf1. cbn [fst snd] in Hleaf1.
        destruct Hleaf1 as (_ & Hrf & Hpr & Hnl).
        split; [exact Hkeys|]. split; [rewrite Hrf'; exact Hrf|].
        split; [intros _; rewrite Hpr'; auto | rewrite Hnl'; exact Hnl].
      * split; [exact Hp1|]. split; [exact Hne1|].
        eapply leaf_at_frame; [exact Hleaf1|]. apply Hother.
        intros Heq. apply Hne'.
        apply (proj1 (NoDup_nth (map fst ls) 0) Hnd);
          rewrite ?length_map; try lia.
        rewrite !(map_nth fst ls (0, [])). cbn [fst].
        rewrite E. cbn [fst]. exact Heq.
    + rewrite (map_fst_replace_leaf j p ks) by assumption. exact Hnd.
Qed.

(** ** The keys of the two leaves of a split *)

Lemma get32_split_source (c' : page) off old r key value i ks :
  (forall d, 0 <= d < 4 -> c' (off + d) = split_source old r key value i d) ->
  leaf_keys_are old ks -> length ks = 13%nat ->
  0 <= r <= 13 -> 0 <= i <= 13 -> uint32 key ->
  get32 c' off = nth (Z.to_nat i) (insert_at (Z.to_nat r) key ks) 0.
Proof.
  intros H (_ & _ & _ & Hkeys) Hlen Hr Hi Hkey.
  apply (get32_merge_source c' off old r key value i ks); auto; lia.
Qed.

Lemma leaf_split_keys t t' p r key value ks :
  leaf_split_done t t' p r key value ->
  leaf_keys_are (content t p) ks -> length ks = 13%nat ->
  0 <= r <= 13 -> uint32 key ->
  leaf_keys_are (content t' p) (firstn 7 (insert_at (Z.to_nat r) key ks)) /\
  leaf_keys_are (content t' (num_pages (pager t)))
    (skipn 7 (insert_at (Z.to_nat r) key ks)).
Proof.
  intros (_ & _ & _ & Hhead & Hcnt & _ & Hleft & Hty & _ & _ & Hcnt' & _
          & Hright) Hold Hlen Hr Hkey.
  pose proof Hold as (Hty0 & _). consts.
  assert (length (insert_at (Z.to_nat r) key ks) = 14%nat) as Hl
      by (rewrite length_insert_at; lia).
  split.
  - split; [|split; [|split]].
    + unfold type_of, byte_at in *. consts. rewrite Hhead by lia. exact Hty0.
    + rewrite Hcnt, length_firstn, Hl. reflexivity.
    + rewrite length_firstn. lia.
    + intros i Hi. rewrite length_firstn, Hl in Hi.
      rewrite nth_firstn. destruct (Nat.ltb_spec i 7); [|lia].
      unfold leaf_key. consts.
      rewrite (get32_split_source _ _ (content t p) r key value
                 (Z.of_nat i) ks); auto; try lia.
      * rewrite Nat2Z.id. reflexivity.
      * intros d Hd. rewrite <- Hleft by lia. f_equal; lia.
  - split; [|split; [|split]].
    + exact Hty.
    + rewrite Hcnt', length_skipn, Hl. reflexivity.
    + rewrite length_skipn. lia.
    + intros i Hi. rewrite length_skipn, Hl in Hi.
      rewrite nth_skipn. unfold leaf_key. consts.
      rewrite (get32_split_source _ _ (content t p) r key value
                 (7 + Z.of_nat i) ks); auto; try lia.
      * f_equal. lia.
      * intros d Hd. rewrite <- Hright by lia. f_equal; lia.
Qed.

(** ** The tree after the root leaf was split *)

Lemma leaf_keys_are_ext (c c' : page) ks :
  (forall a, 0 <= a < 4096 -> a < 1 \/ 6 <= a -> c' a = c a) ->
  leaf_keys_are c ks -> leaf_keys_are c' ks.
Proof.
  intros H (Hty & Hcnt & Hlen & Hkeys).
  split; [|split; [|split]].
  - unfold type_of, byte_at in *. consts. rewrite H by lia. exact Hty.
  - unfold cell_count in *. consts.
    rewrite (get32_ext c' c) by (intros; apply H; lia). exact Hcnt.
  - exact Hlen.
  - intros i Hi. rewrite <- Hkeys by exact Hi. unfold leaf_key. consts.
    apply get32_ext. intros a Ha. apply H; lia.
Qed.

Lemma next_leaf_ref_ext (c c' : page) :
  (forall a, 10 <= a < 14 -> c' a = c a) -> next_leaf_ref c' = next_leaf_ref c.
Proof.
  intros H. unfold next_leaf_ref. consts. apply get32_ext.
  intros a Ha. apply H. lia.
Qed.

Lemma root_flag_ext (c c' : page) : c' 1 = c 1 -> root_flag c' = root_flag c.
Proof.
  intros H. unfold root_flag, byte_at. consts. rewrite H. reflexivity.
Qed.

Lemma tree_rep_root_split t1 t2 t3 ks r key value :
  pager_wf t3 -> root_page_num t1 = 0 -> 0 < num_pages (pager t1) ->
  leaf_at t1 0 ks 0 true -> length ks = 13%nat ->
  0 <= r <= 13 -> uint32 key ->
  StronglySorted Z.lt (insert_at (Z.to_nat r) key ks) ->
  leaf_split_done t1 t2 0 r key value ->
  root_promoted t2 t3 (num_pages (pager t1)) ->
  tree_rep t3
    [(num_pages (pager t1) + 1, firstn 7 (insert_at (Z.to_nat r) key ks));
     (num_pages (pager t1), skipn 7 (insert_at (Z.to_nat r) key ks))].
Proof.
  intros Hwf Hroot Hnp (Hold & _ & _ & Hnext) Hlen Hr Hkey Hs Hsplit Hprom.
  pose proof (leaf_split_keys _ _ _ _ _ _ _ Hsplit Hold Hlen Hr Hkey)
    as (Hleft & Hright).
  set (ks' := insert_at (Z.to_nat r) key ks) in *.
  set (np := num_pages (pager t1)) in *.
  destruct Hsplit as (Hn2 & Hroot2 & _ & _ & _ & Hnl2 & _ & _ & Hrf2 & _ & _
                      & Hnl2' & _).
  fold np in Hn2, Hnl2, Hrf2, Hnl2'.
  destruct Hprom as (Hn3 & Hroot3 & Hcopy & Hrf3 & Hpr3 & Hty3 & _ & Hcnt3
                     & Hc0 & Hk0 & Hrc & Hprr & Hr3 & _).
  cbv zeta in *. rewrite Hn2 in *. consts.
  assert (firstn 7 ks' <> []) as Hne1
      by (apply firstn_insert_nonempty; lia).
  assert (skipn 7 ks' <> []) as Hne2
      by (apply skipn_insert_nonempty; lia).
  split; [exact Hwf|].
  split; [rewrite Hroot3, Hroot2; exact Hroot|].
  split; [lia|].
  split.
  { unfold all_keys. cbn [map snd concat]. rewrite app_nil_r, firstn_skipn.
    exact Hs. }
  right. split; [exact Hty3|]. split; [cbn [length]; lia|].
  split; [|split].
  - split; [cbn [length]; lia|]. split.
    + intros i Hi. cbn [length] in Hi. assert (i = O) as -> by lia.
      cbn [nth fst snd]. change (Z.of_nat 0) with 0.
      split; [exact Hc0|]. rewrite Hk0. apply leaf_keys_max; assumption.
    + exact Hrc.
  - cbn [linked]. rewrite Hn3.
    split; [lia|]. split; [exact Hne1|]. split.
    { split; [|split; [|split]].
      - eapply leaf_keys_are_ext; [|exact Hleft].
        intros a Ha Ha'. apply Hcopy; lia.
      - exact Hrf3.
      - intros _. exact Hpr3.
      - transitivity (next_leaf_ref (content t2 0)); [|exact Hnl2].
        apply next_leaf_ref_ext. intros a Ha. apply Hcopy; lia. }
    split; [lia|]. split; [exact Hne2|]. split; [|exact I].
    split; [|split; [|split]].
    + eapply leaf_keys_are_ext; [|exact Hright].
      intros a Ha Ha'. apply Hr3; lia.
    + transitivity (root_flag (content t2 np)); [|exact Hrf2].
      apply root_flag_ext. apply Hr3. lia.
    + intros _. exact Hprr.
    + transitivity (next_leaf_ref (content t2 np));
        [|rewrite Hnl2'; exact Hnext].
      apply next_leaf_ref_ext. intros a Ha. apply Hr3. lia.
  - cbn [map fst]. constructor; [|constructor; [|constructor]].
    + intros [H|[]]. lia.
    + intros [].
Qed.

(** ** The tree after a leaf below the root was split *)

Lemma leaf_split_leaves t t' p r key value ks next :
  leaf_split_done t t' p r key value ->
  leaf_at t p ks next false -> length ks = 13%nat ->
  0 <= r <= 13 -> uint32 key ->
  leaf_at t' p (firstn 7 (insert_at (Z.to_nat r) key ks))
    (num_pages (pager t)) false /\
  leaf_at t' (num_pages (pager t))
    (skipn 7 (insert_at (Z.to_nat r) key ks)) next false.
Proof.
  intros Hsplit (Hold & Hrf & Hpr & Hnext) Hlen Hr Hkey.
  pose proof (leaf_split_keys _ _ _ _ _ _ _ Hsplit Hold Hlen Hr Hkey)
    as (Hleft & Hright).
  destruct Hsplit as (_ & _ & _ & Hhead & _ & Hnl & _ & _ & Hrf' & Hpr' & _
                      & Hnl' & _).
  cbv zeta in *. consts. split.
  - split; [exact Hleft|]. split; [|split; [|exact Hnl]].
    + rewrite <- Hrf. apply root_flag_ext. apply Hhead. lia.
    + intros _. rewrite <- (Hpr eq_refl). unfold parent_ref. consts.
      apply get32_ext. intros a Ha. apply Hhead. lia.
  - split; [exact Hright|]. split; [exact Hrf'|]. split.
    + intros _. rewrite Hpr'. auto.
    + rewrite Hnl'. exact Hnext.
Qed.

Lemma split_leaf_replace_leaf j x y x' (ls : list (Z * list Z)) :
  (j < length ls)%nat ->
  split_leaf j x y (replace_leaf j x' ls) = split_leaf j x y ls.
Proof.
  intros Hj. unfold split_leaf, replace_leaf.
  assert (length (firstn j ls) = j) as Hl by (rewrite length_firstn; lia).
  rewrite firstn_app, Hl, Nat.sub_diag, firstn_O, app_nil_r.
  rewrite firstn_firstn, Nat.min_id.
  rewrite skipn_app, Hl.
  rewrite (skipn_all2 (firstn j ls)) by lia.
  replace (S j - j)%nat with 1%nat by lia. reflexivity.
Qed.

(** [update_internal_node_key]: the separator of leaf [j] becomes the
    maximum of its new keys; for the last leaf, which has no separator, the
    store lands in the unused cell after the separators. *)
Lemma root_cells_update (c : page) ls j p ks ks1 v :
  root_cells c ls -> (j < length ls)%nat -> nth j ls (0, []) = (p, ks) ->
  uint32 v -> v = last ks1 0 ->
  root_cells (blit c (14 + Z.of_nat j * 8 + 4) 4 (le32 v))
    (replace_leaf j (p, ks1) ls).
Proof.
  intros (Hcnt & Hcell & Hright) Hj E Hv Ev.
  split; [|split].
  - rewrite length_replace_leaf by exact Hj. unfold key_count in *. consts.
    rewrite get32_blit_out by lia. exact Hcnt.
  - intros i Hi. rewrite length_replace_leaf in Hi by exact Hj.
    rewrite nth_replace_leaf by exact Hj.
    pose proof (Hcell i Hi) as (Hc & Hk). unfold child_ref, sep_key in *.
    consts. rewrite (get32_blit_out _ _ _ _ (14 + Z.of_nat i * 8)) by lia.
    destruct (Nat.eqb_spec i j) as [->|Hne].
    + rewrite E in Hc. cbn [fst snd]. split; [exact Hc|].
      rewrite get32_blit_le32. rewrite u32_small by exact Hv. exact Ev.
    + split; [exact Hc|]. rewrite get32_blit_out by lia. exact Hk.
  - unfold right_child_ref in *. consts. rewrite get32_blit_out by lia.
    rewrite Hright, !last_nth_gen, length_replace_leaf by exact Hj.
    rewrite nth_replace_leaf by exact Hj.
    destruct (Nat.eqb_spec (length ls - 1) j) as [->|_];
      [rewrite E; reflexivity | reflexivity].
Qed.

(** [internal_node_insert] of the new leaf [q], the right half of leaf
    [j]. *)
Lemma root_cells_split (c c' : page) ls j p ks1 q ks2 index :
  root_cells c ls -> (2 <= length ls)%nat -> (j < length ls)%nat ->
  nth j ls (0, []) = (p, ks1) ->
  child_inserted c c' index q (last ks2 0)
    (fst (last ls (0, []))) (last (snd (last ls (0, []))) 0) ->
  (S j = length ls -> last ks1 0 < last ks2 0) ->
  ((S j < length ls)%nat ->
   index = Z.of_nat (S j) /\ last ks2 0 <= last (snd (last ls (0, []))) 0) ->
  root_cells c' (split_leaf j (p, ks1) (q, ks2) ls).
Proof.
  intros (Hcnt & Hcell & Hright) Hlen Hj E (Hcnt' & _ & Hnew & Hmid)
    Hlast Hinner.
  split; [rewrite length_split_leaf by exact Hj; lia|].
  destruct (Nat.eq_dec (S j) (length ls)) as [Ej|Ej].
  - (* the last leaf was split *)
    assert (last ls (0, []) = (p, ks1)) as El.
    { rewrite last_nth_gen. replace (length ls - 1)%nat with j by lia.
      exact E. }
    rewrite El in Hnew. cbn [fst snd] in Hnew.
    destruct (Hnew (Hlast Ej)) as (Hr' & Hc' & Hk' & Hrest).
    split.
    + intros i Hi. rewrite length_split_leaf in Hi by exact Hj.
      rewrite nth_split_leaf by exact Hj.
      destruct (Nat.ltb_spec i j).
      * destruct (Hrest (Z.of_nat i) ltac:(lia)) as (-> & ->).
        apply Hcell. lia.
      * destruct (Nat.eqb_spec i j) as [->|]; [|lia].
        cbn [fst snd]. rewrite <- Hc', <- Hk', Hcnt.
        replace (Z.of_nat (length ls) - 1) with (Z.of_nat j) by lia. auto.
    + rewrite Hr', last_nth_gen, length_split_leaf by exact Hj.
      rewrite nth_split_leaf by exact Hj.
      destruct (Nat.ltb_spec (S (length ls) - 1) j); [lia|].
      destruct (Nat.eqb_spec (S (length ls) - 1) j); [lia|].
      destruct (Nat.eqb_spec (S (length ls) - 1) (S j)); [reflexivity | lia].
  - (* a leaf before the last one was split *)
    destruct (Hinner ltac:(lia)) as (-> & Hle).
    destruct (Hmid Hle) as (Hr' & Hc' & Hk' & Hbefore & Hafter).
    split.
    + intros i Hi. rewrite length_split_leaf in Hi by exact Hj.
      rewrite nth_split_leaf by exact Hj.
      destruct (Nat.ltb_spec i j).
      * destruct (Hbefore (Z.of_nat i) ltac:(lia)) as (-> & ->).
        apply Hcell. lia.
      * destruct (Nat.eqb_spec i j) as [->|].
        -- destruct (Hbefore (Z.of_nat j) ltac:(lia)) as (-> & ->).
           pose proof (Hcell j ltac:(lia)) as Hc. rewrite E in Hc. exact Hc.
        -- destruct (Nat.eqb_spec i (S j)) as [->|]; [cbn [fst snd]; auto|].
           destruct (Hafter (Z.of_nat i) ltac:(lia)) as (-> & ->).
           replace (Z.of_nat i - 1) with (Z.of_nat (i - 1)) by lia.
           apply Hcell. lia.
    + rewrite Hr', !last_nth_gen, length_split_leaf by exact Hj.
      rewrite nth_split_leaf by exact Hj.
      destruct (Nat.ltb_spec (S (length ls) - 1) j); [lia|].
      destruct (Nat.eqb_spec (S (length ls) - 1) j); [lia|].
      destruct (Nat.eqb_spec (S (length ls) - 1) (S j)); [lia|].
      f_equal. f_equal. lia.
Qed.

Lemma linked_split t t' ls j p ks ks1 ks2 :
  linked t ls 0 -> NoDup (map fst ls) -> (j < length ls)%nat ->
  nth j ls (0, []) = (p, ks) ->
  num_pages (pager t') = num_pages (pager t) + 1 ->
  (forall m, m <> 0 -> m <> p -> m <> num_pages (pager t) ->
             content t' m = content t m) ->
  ks1 <> [] -> ks2 <> [] ->
  leaf_at t' p ks1 (num_pages (pager t)) false ->
  leaf_at t' (num_pages (pager t)) ks2
    (if (S j <? length ls)%nat then fst (nth (S j) ls (0, [])) else 0)
    false ->
  linked t' (split_leaf j (p, ks1) (num_pages (pager t), ks2) ls) 0.
Proof.
  intros Hlk Hnd Hj E Hn Hframe Hne1 Hne2 Hl1 Hl2.
  pose proof (proj1 (linked_leaf_ok t ls 0) Hlk) as Hok.
  set (np := num_pages (pager t)) in *.
  assert (forall i, (i < length ls)%nat -> i <> j ->
                    fst (nth i ls (0, [])) <> p) as Hdiff.
  { intros i Hi Hne Heq. apply Hne.
    apply (proj1 (NoDup_nth (map fst ls) 0) Hnd);
      rewrite ?length_map; try lia.
    rewrite !(map_nth fst ls (0, [])). cbn [fst].
    rewrite E. cbn [fst]. exact Heq. }
  pose proof (Hok j Hj) as (Hp & _). rewrite E in Hp. cbn [fst] in Hp.
  apply linked_leaf_ok. intros i Hi.
  rewrite length_split_leaf in Hi by exact Hj.
  unfold leaf_ok. rewrite length_split_leaf by exact Hj.
  rewrite !nth_split_leaf by exact Hj. rewrite Hn.
  destruct (Nat.ltb_spec i j) as [Hij|Hij].
  - (* a leaf before the split one *)
    pose proof (Hok i ltac:(lia)) as (Hp1 & Hne & Hleaf).
    split; [lia|]. split; [exact Hne|].
    destruct (Nat.ltb_spec (S i) (S (length ls))); [|lia].
    destruct (Nat.ltb_spec (S i) (length ls)); [|lia].
    assert (fst (if (S i <? j)%nat then nth (S i) ls (0, [])
                 else if (S i =? j)%nat then (p, ks1)
                 else if (S i =? S j)%nat then (np, ks2)
                 else nth (S i - 1) ls (0, []))
            = fst (nth (S i) ls (0, []))) as ->.
    { destruct (Nat.ltb_spec (S i) j); [reflexivity|].
      destruct (Nat.eqb_spec (S i) j) as [<-|]; [|lia].
      rewrite E. reflexivity. }
    eapply leaf_at_frame; [exact Hleaf|].
    apply Hframe; try lia. apply Hdiff; lia.
  - destruct (Nat.eqb_spec i j) as [->|Hne].
    + (* the left half *)
      cbn [fst snd]. split; [lia|]. split; [exact Hne1|].
      destruct (Nat.ltb_spec (S j) (S (length ls))); [|lia].
      destruct (Nat.ltb_spec (S j) j); [lia|].
      destruct (Nat.eqb_spec (S j) j); [lia|].
      rewrite Nat.eqb_refl. exact Hl1.
    + destruct (Nat.eqb_spec i (S j)) as [->|Hne'].
      * (* the right half *)
        cbn [fst snd]. split; [lia|]. split; [exact Hne2|].
        change (S (S j) <? S (length ls))%nat with (S j <? length ls)%nat.
        destruct (Nat.ltb_spec (S j) (length ls)); [|exact Hl2].
        destruct (Nat.ltb_spec (S (S j)) j); [lia|].
        destruct (Nat.eqb_spec (S (S j)) j); [lia|].
        destruct (Nat.eqb_spec (S (S j)) (S j)); [lia|].
        replace (S (S j) - 1)%nat with (S j) by lia. exact Hl2.
      * (* a leaf after the split one *)
        pose proof (Hok (i - 1)%nat ltac:(lia)) as (Hp1 & Hne1' & Hleaf).
        split; [lia|]. split; [exact Hne1'|].
        change (S i <? S (length ls))%nat with (i <? length ls)%nat.
        replace (S (i - 1)) with i in Hleaf by lia.
        destruct (Nat.ltb_spec (S i) j); [lia|].
        destruct (Nat.eqb_spec (S i) j); [lia|].
        destruct (Nat.eqb_spec (S i) (S j)); [lia|].
        replace (S i - 1)%nat with i by lia.
        eapply leaf_at_frame; [exact Hleaf|].
        apply Hframe; try lia. apply Hdiff; lia.
Qed.

(** ** Leaves of the tree *)

Lemma tree_leaf t ls j :
  tree_rep t ls -> (j < length ls)%nat ->
  0 <= fst (nth j ls (0, [])) < num_pages (pager t) /\
  exists next,
    leaf_at t (fst (nth j ls (0, []))) (snd (nth j ls (0, []))) next
      (Nat.eqb (length ls) 1).
Proof.
  intros (Hwf & Hroot & Hnp & Hs & Hshape) Hj.
  destruct Hshape as [(ks & -> & Hl) | (Hty & Hlen & Hcells & Hlk & Hnd)].
  - cbn [length] in Hj. assert (j = O) as -> by lia. cbn [nth fst snd].
    split; [lia|]. exists 0. exact Hl.
  - pose proof (proj1 (linked_leaf_ok t ls 0) Hlk j Hj) as (Hp & _ & Hl).
    split; [lia|]. destruct (Nat.eqb_spec (length ls) 1); [lia|]. eauto.
Qed.

Lemma tree_leaf_nonempty t ls j :
  tree_rep t ls -> (S j < length ls)%nat -> snd (nth j ls (0, [])) <> [].
Proof.
  intros (Hwf & Hroot & Hnp & Hs & Hshape) Hj.
  destruct Hshape as [(ks & -> & Hl) | (Hty & Hlen & Hcells & Hlk & Hnd)].
  - cbn [length] in Hj. lia.
  - apply (proj1 (linked_leaf_ok t ls 0) Hlk j). lia.
Qed.

(** The separator that [update_internal_node_key] finds for the old
    maximum of leaf [j] is the one of leaf [j]. *)
Lemma find_child_unique (c : page) ls j idx :
  root_cells c ls -> StronglySorted Z.lt (all_keys ls) ->
  (forall i, (i < length ls)%nat -> snd (nth i ls (0, [])) <> []) ->
  (j < length ls)%nat ->
  first_separator_geq c (last (snd (nth j ls (0, []))) 0) idx ->
  idx = Z.of_nat j.
Proof.
  intros (Hcnt & Hcell & _) Hs Hne Hj (Hr & Hlt & Hge). rewrite Hcnt in *.
  assert (forall a b, (a < b)%nat -> (b < length ls)%nat ->
                      last (snd (nth a ls (0, []))) 0
                      < last (snd (nth b ls (0, []))) 0) as Hord.
  { intros a b Hab Hb. apply (sorted_leaves_lt ls Hs a b); auto;
      apply last_In, Hne; lia. }
  destruct (Z.lt_trichotomy idx (Z.of_nat j)) as [H|[H|H]]; [|exact H|].
  - exfalso. pose proof (Hge idx ltac:(lia)) as G.
    rewrite <- (Z2Nat.id idx) in G by lia.
    rewrite (proj2 (Hcell (Z.to_nat idx) ltac:(lia))) in G.
    pose proof (Hord (Z.to_nat idx) j ltac:(lia) Hj). lia.
  - exfalso. pose proof (Hlt (Z.of_nat j) ltac:(lia)) as G.
    rewrite (proj2 (Hcell j ltac:(lia))) in G. lia.
Qed.

Lemma wp_is_node_root p t Q :
  cached t p -> Q (root_flag (content t p)) t ->
  wp (is_node_root (mkPtr p 0)) t Q.
Proof.
  intros Hc HQ. unfold is_node_root.
  apply wp_bind, wp_load8; ptrs; consts; try lia; auto.
Qed.

Lemma wp_update_internal_node_key p old_key new_key t j Q :
  cached t p -> keys_in_page (content t p) ->
  separators_ascending (content t p) ->
  internal_cells_fit (key_count (content t p) + 1) ->
  (forall idx, first_separator_geq (content t p) old_key idx -> idx = j) ->
  (0 <= j <= key_count (content t p) ->
   Q tt (set_page t p (blit (content t p) (14 + j * 8 + 4) 4 (le32 new_key)))) ->
  wp (update_internal_node_key (mkPtr p 0) old_key new_key) t Q.
Proof.
  intros Hc Hk Hasc Hfit Huniq HQ. unfold update_internal_node_key.
  apply wp_bind, wp_internal_node_find_child; auto.
  intros idx Hidx. pose proof (Huniq idx Hidx) as ->.
  destruct Hidx as (Hr & _). unfold internal_cells_fit in Hfit. consts.
  apply wp_store32; ptrs; consts; try lia; auto.
Qed.

(** The maxima of the leaves ascend with the leaves. *)
Lemma leaf_max_lt (ls : list (Z * list Z)) a b :
  StronglySorted Z.lt (all_keys ls) ->
  (forall i, (i < length ls)%nat -> snd (nth i ls (0, [])) <> []) ->
  (a < b)%nat -> (b < length ls)%nat ->
  last (snd (nth a ls (0, []))) 0 < last (snd (nth b ls (0, []))) 0.
Proof.
  intros Hs Hne Hab Hb. apply (sorted_leaves_lt ls Hs a b); auto;
    apply last_In, Hne; lia.
Qed.

Lemma separators_ascending_cells (c : page) ls :
  root_cells c ls -> StronglySorted Z.lt (all_keys ls) ->
  (forall i, (i < length ls)%nat -> snd (nth i ls (0, [])) <> []) ->
  separators_ascending c.
Proof.
  intros (Hcnt & Hcells & _) Hs Hne i j Hij Hj. rewrite Hcnt in Hj.
  destruct (Z.eq_dec i j) as [->|Hd]; [lia|].
  rewrite <- (Z2Nat.id i), <- (Z2Nat.id j) by lia.
  rewrite (proj2 (Hcells (Z.to_nat i) ltac:(lia))).
  rewrite (proj2 (Hcells (Z.to_nat j) ltac:(lia))).
  apply Z.lt_le_incl, leaf_max_lt; auto; lia.
Qed.

Lemma sorted_drop_middle (A B1 B2 C : list Z) :
  StronglySorted Z.lt (A ++ (B1 ++ B2) ++ C) ->
  StronglySorted Z.lt (A ++ B1 ++ C).
Proof.
  intros H. apply sorted_app in H as (HA & H & HAB).
  apply sorted_app in H as (HB & HC & HBC).
  apply sorted_app in HB as (HB1 & HB2 & HB12).
  apply sorted_app. split; [exact HA|]. split.
  - apply sorted_app. split; [exact HB1|]. split; [exact HC|].
    intros a b Ha Hb. apply HBC; [apply in_or_app; left|]; assumption.
  - intros a b Ha Hb. apply HAB; [exact Ha|].
    apply in_app_or in Hb as [Hb|Hb]; apply in_or_app;
      [left; apply in_or_app; left | right]; assumption.
Qed.

Lemma leaf_keys_nonempty (c : page) ks :
  leaf_keys_are c ks -> ks <> [] -> nonempty_leaf c.
Proof.
  intros (Hty & Hcnt & Hlen & _) Hne. split; [exact Hty|].
  rewrite Hcnt. consts. destruct ks; [contradiction|]. cbn [length] in *. lia.
Qed.

(** ** The rows in the leaves *)

Lemma with_row_same f key value : with_row f key value key = value.
Proof. unfold with_row. rewrite Z.eqb_refl. reflexivity. Qed.

Lemma with_row_other f key value k :
  k <> key -> with_row f key value k = f k.
Proof.
  intros H. unfold with_row. destruct (Z.eqb_spec k key); [contradiction|].
  reflexivity.
Qed.

(** The cells [off ..] of the merge of a leaf with a new cell. *)
Lemma leaf_holds_merge (old c' : page) ks ks1 f r key value off :
  leaf_holds old ks f -> ~ In key ks -> 0 <= r <= Z.of_nat (length ks) ->
  (off + length ks1 <= S (length ks))%nat ->
  (forall i, (i < length ks1)%nat ->
             nth i ks1 0 = nth (off + i) (insert_at (Z.to_nat r) key ks) 0) ->
  (forall i d, 0 <= i < Z.of_nat (length ks1) -> 0 <= d < 297 ->
               c' (14 + i * 297 + d)
               = split_source old r key value (Z.of_nat off + i) d) ->
  leaf_holds c' ks1 (with_row f key value).
Proof.
  intros Hold Hni Hr Hlen Hnth Hcells i d Hi Hd. consts.
  rewrite Hcells by lia. rewrite Hnth by exact Hi.
  rewrite nth_insert_at by lia.
  destruct (Nat.eqb_spec (off + i) (Z.to_nat r)) as [He|Hne].
  - replace (Z.of_nat off + Z.of_nat i) with r by lia.
    rewrite split_source_at, with_row_same. reflexivity.
  - destruct (Nat.ltb_spec (Z.to_nat r) (off + i)) as [Hlt|Hge].
    + rewrite split_source_above by lia.
      rewrite with_row_other
        by (intros E; apply Hni; rewrite <- E; apply nth_In; lia).
      replace (Z.of_nat off + Z.of_nat i - 1)
        with (Z.of_nat (off + i - 1)) by lia.
      apply (Hold (off + i - 1)%nat d); consts; lia.
    + rewrite split_source_below by lia.
      rewrite with_row_other
        by (intros E; apply Hni; rewrite <- E; apply nth_In; lia).
      replace (Z.of_nat off + Z.of_nat i) with (Z.of_nat (off + i)) by lia.
      apply (Hold (off + i)%nat d); consts; lia.
Qed.

Lemma leaf_holds_other (c : page) ks f key value :
  leaf_holds c ks f -> ~ In key ks -> leaf_holds c ks (with_row f key value).
Proof.
  intros H Hni i d Hi Hd. rewrite with_row_other; [apply H; assumption|].
  intros E. apply Hni. rewrite <- E. apply nth_In, Hi.
Qed.

Lemma leaf_holds_ext (c c' : page) ks f :
  (forall a, 14 <= a < 4096 -> c' a = c a) -> (length ks <= 13)%nat ->
  leaf_holds c ks f -> leaf_holds c' ks f.
Proof.
  intros Hext Hlen H i d Hi Hd. consts. rewrite Hext by lia.
  apply (H i d); consts; lia.
Qed.

Lemma tree_leaf_pages_differ t ls i j :
  tree_rep t ls -> (i < length ls)%nat -> (j < length ls)%nat -> i <> j ->
  fst (nth i ls (0, [])) <> fst (nth j ls (0, [])).
Proof.
  intros (_ & _ & _ & _ & Hshape) Hi Hj Hne Heq.
  destruct Hshape as [(ks & -> & _) | (_ & _ & _ & _ & Hnd)].
  - cbn [length] in Hi, Hj. lia.
  - apply Hne. apply (proj1 (NoDup_nth (map fst ls) 0) Hnd);
      rewrite ?length_map; try lia.
    rewrite !(map_nth fst ls (0, [])). exact Heq.
Qed.

Lemma tree_leaf_page_below t ls j :
  tree_rep t ls -> (2 <= length ls)%nat -> (j < length ls)%nat ->
  0 < fst (nth j ls (0, [])) < num_pages (pager t).
Proof.
  intros (_ & _ & _ & _ & Hshape) Hlen Hj.
  destruct Hshape as [(ks & -> & _) | (_ & _ & _ & Hlk & _)].
  - cbn [length] in Hlen. lia.
  - apply (proj1 (linked_leaf_ok t ls 0) Hlk j Hj).
Qed.

Lemma tree_holds_frame t t' ls f :
  tree_holds t ls f -> (forall m, content t' m = content t m) ->
  tree_holds t' ls f.
Proof. intros H Hc j Hj. rewrite Hc. apply H, Hj. Qed.

Lemma not_in_leaf (ls : list (Z * list Z)) j key :
  ~ In key (all_keys ls) -> (j < length ls)%nat ->
  ~ In key (snd (nth j ls (0, []))).
Proof. intros Hni Hj H. apply Hni. apply (in_all_keys ls j); assumption. Qed.

Lemma tree_holds_room t t' ls j p ks r key value f :
  tree_rep t ls -> (j < length ls)%nat -> nth j ls (0, []) = (p, ks) ->
  ~ In key (all_keys ls) -> 0 <= r <= Z.of_nat (length ks) ->
  (forall m, m <> p -> content t' m = content t m) ->
  (forall i d, 0 <= i <= Z.of_nat (length ks) -> 0 <= d < 297 ->
               content t' p (14 + i * 297 + d)
               = split_source (content t p) r key value i d) ->
  tree_holds t ls f ->
  tree_holds t' (replace_leaf j (p, insert_at (Z.to_nat r) key ks) ls)
    (with_row f key value).
Proof.
  intros Htree Hj E Hni Hr Hother Hcells Hf i Hi.
  rewrite length_replace_leaf in Hi by exact Hj.
  rewrite nth_replace_leaf by exact Hj.
  pose proof (Hf j Hj) as Hfj. rewrite E in Hfj. cbn [fst snd] in Hfj.
  pose proof (not_in_leaf ls j key Hni Hj) as Hnj. rewrite E in Hnj.
  destruct (Nat.eqb_spec i j) as [->|Hne]; cbn [fst snd].
  - apply (leaf_holds_merge (content t p) _ ks _ f r key value O); auto.
    + rewrite length_insert_at. lia.
    + intros i d Hi' Hd. rewrite length_insert_at in Hi'.
      rewrite Hcells by lia. f_equal.
  - pose proof (tree_leaf_pages_differ t ls i j Htree Hi Hj Hne) as Hd.
    rewrite E in Hd. cbn [fst] in Hd. rewrite Hother by exact Hd.
    apply leaf_holds_other; [apply Hf, Hi | apply not_in_leaf; assumption].
Qed.

Lemma leaf_holds_left (old c' : page) ks f r key value :
  leaf_holds old ks f -> ~ In key ks -> length ks = 13%nat -> 0 <= r <= 13 ->
  (forall i d, 0 <= i < 7 -> 0 <= d < 297 ->
               c' (14 + i * 297 + d) = split_source old r key value i d) ->
  leaf_holds c' (firstn 7 (insert_at (Z.to_nat r) key ks))
    (with_row f key value).
Proof.
  intros Hold Hni Hlen Hr Hcells.
  assert (length (firstn 7 (insert_at (Z.to_nat r) key ks)) = 7%nat) as Hl
      by (rewrite length_firstn, length_insert_at; lia).
  apply (leaf_holds_merge old _ ks _ f r key value O); auto; try lia.
  - intros i Hi. rewrite nth_firstn.
    destruct (Nat.ltb_spec i 7); [reflexivity | lia].
  - intros i d Hi Hd. rewrite Hcells by lia. f_equal.
Qed.

Lemma leaf_holds_right (old c' : page) ks f r key value :
  leaf_holds old ks f -> ~ In key ks -> length ks = 13%nat -> 0 <= r <= 13 ->
  (forall i d, 0 <= i < 7 -> 0 <= d < 297 ->
               c' (14 + i * 297 + d) = split_source old r key value (7 + i) d) ->
  leaf_holds c' (skipn 7 (insert_at (Z.to_nat r) key ks))
    (with_row f key value).
Proof.
  intros Hold Hni Hlen Hr Hcells.
  assert (length (skipn 7 (insert_at (Z.to_nat r) key ks)) = 7%nat) as Hl
      by (rewrite length_skipn, length_insert_at; lia).
  apply (leaf_holds_merge old _ ks _ f r key value 7); auto; try lia.
  - intros i Hi. apply nth_skipn.
  - intros i d Hi Hd. rewrite Hcells by lia. reflexivity.
Qed.

Lemma tree_holds_child_split t t' ls j p ks r key value f :
  tree_rep t ls -> (2 <= length ls)%nat -> (j < length ls)%nat ->
  nth j ls (0, []) = (p, ks) -> length ks = 13%nat -> 0 <= r <= 13 ->
  ~ In key (all_keys ls) ->
  (forall m, m <> 0 -> m <> p -> m <> num_pages (pager t) ->
             content t' m = content t m) ->
  (forall i d, 0 <= i < 7 -> 0 <= d < 297 ->
               content t' p (14 + i * 297 + d)
               = split_source (content t p) r key value i d) ->
  (forall i d, 0 <= i < 7 -> 0 <= d < 297 ->
               content t' (num_pages (pager t)) (14 + i * 297 + d)
               = split_source (content t p) r key value (7 + i) d) ->
  tree_holds t ls f ->
  tree_holds t'
    (split_leaf j (p, firstn 7 (insert_at (Z.to_nat r) key ks))
       (num_pages (pager t), skipn 7 (insert_at (Z.to_nat r) key ks)) ls)
    (with_row f key value).
Proof.
  intros Htree Hlen2 Hj E Hlen Hr Hni Hframe Hleft Hright Hf i Hi.
  rewrite length_split_leaf in Hi by exact Hj.
  rewrite nth_split_leaf by exact Hj.
  pose proof (Hf j Hj) as Hfj. rewrite E in Hfj. cbn [fst snd] in Hfj.
  pose proof (not_in_leaf ls j key Hni Hj) as Hnj. rewrite E in Hnj.
  assert (forall k, (k < length ls)%nat -> k <> j ->
            leaf_holds (content t' (fst (nth k ls (0, []))))
              (snd (nth k ls (0, []))) (with_row f key value)) as Hrest.
  { intros k Hk Hne.
    pose proof (tree_leaf_pages_differ t ls k j Htree Hk Hj Hne) as Hd.
    rewrite E in Hd. cbn [fst] in Hd.
    pose proof (tree_leaf_page_below t ls k Htree Hlen2 Hk) as Hq.
    rewrite Hframe by lia.
    apply leaf_holds_other; [apply Hf, Hk | apply not_in_leaf; assumption]. }
  destruct (Nat.ltb_spec i j); [apply Hrest; lia|].
  destruct (Nat.eqb_spec i j) as [->|Hne]; cbn [fst snd].
  - apply (leaf_holds_left (content t p)); auto.
  - destruct (Nat.eqb_spec i (S j)) as [->|Hne']; cbn [fst snd].
    + apply (leaf_holds_right (content t p)); auto.
    + apply Hrest; lia.
Qed.

Lemma tree_holds_root_split t t' ks r key value f np :
  leaf_holds (content t 0) ks f -> ~ In key ks -> length ks = 13%nat ->
  0 <= r <= 13 ->
  (forall i d, 0 <= i < 7 -> 0 <= d < 297 ->
               content t' (np + 1) (14 + i * 297 + d)
               = split_source (content t 0) r key value i d) ->
  (forall i d, 0 <= i < 7 -> 0 <= d < 297 ->
               content t' np (14 + i * 297 + d)
               = split_source (content t 0) r key value (7 + i) d) ->
  tree_holds t'
    [(np + 1, firstn 7 (insert_at (Z.to_nat r) key ks));
     (np, skipn 7 (insert_at (Z.to_nat r) key ks))]
    (with_row f key value).
Proof.
  intros Hold Hni Hlen Hr Hleft Hright i Hi. cbn [length] in Hi.
  destruct i as [|[|i]]; [| |lia]; cbn [nth fst snd].
  - apply (leaf_holds_left (content t 0)); auto.
  - apply (leaf_holds_right (content t 0)); auto.
Qed.

(** ** The rest of a split on the tree *)

Lemma wpe_split_finish MAX t1 t2 ls j p ks r key value Q
    (Ex : fatal -> Table -> Prop) :
  tree_rep t1 ls -> (j < length ls)%nat -> nth j ls (0, []) = (p, ks) ->
  length ks = 13%nat -> 0 <= r <= 13 -> uint32 key ->
  ~ In key (all_keys ls) ->
  StronglySorted Z.lt
    (keys_before ls j (Z.to_nat r) ++ key :: keys_after ls j (Z.to_nat r)) ->
  ((S j < length ls)%nat ->
   last (insert_at (Z.to_nat r) key ks) 0 = last ks 0) ->
  pager_wf t2 -> cached t2 p -> cached t2 (num_pages (pager t1)) ->
  leaf_split_done t1 t2 p r key value ->
  (length ls = 1%nat -> TABLE_MAX_PAGES <= num_pages (pager t1) + 1 ->
   forall t', Ex PageNumberOutOfBounds t') ->
  ((2 <= length ls)%nat -> MAX <= Z.of_nat (length ls) - 1 ->
   forall t', Ex NeedToSplitInternalNode t') ->
  (forall t' ls',
      tree_rep t' ls' ->
      all_keys ls'
      = keys_before ls j (Z.to_nat r) ++ key :: keys_after ls j (Z.to_nat r) ->
      (length ls = 1%nat /\
       ls' = [(num_pages (pager t1) + 1,
               firstn 7 (insert_at (Z.to_nat r) key ks));
              (num_pages (pager t1),
               skipn 7 (insert_at (Z.to_nat r) key ks))] /\
       num_pages (pager t') = num_pages (pager t1) + 2) \/
      ((2 <= length ls)%nat /\
       ls' = split_leaf j (p, firstn 7 (insert_at (Z.to_nat r) key ks))
               (num_pages (pager t1),
                skipn 7 (insert_at (Z.to_nat r) key ks)) ls /\
       num_pages (pager t') = num_pages (pager t1) + 1) ->
      (forall f, tree_holds t1 ls f ->
                 tree_holds t' ls' (with_row f key value)) ->
      Q tt t') ->
  wpe (leaf_node_split_finish MAX (mkPtr p 0) (leaf_max_key (content t1 p))
         (num_pages (pager t1))) t2 Q Ex.
Proof.
  intros Htree Hj E Hlen Hr Hkey Hni Hs' Hlast Hwf2 Hcp2 Hcn2 Hsplit HEp HEk HQ.
  pose proof (tree_leaf t1 ls j Htree Hj) as (Hp & next & Hleaf).
  rewrite E in Hp, Hleaf. cbn [fst snd] in Hp, Hleaf.
  pose proof Hleaf as (Hkeys & Hrf & Hpr & Hnext).
  pose proof (leaf_split_keys _ _ _ _ _ _ _ Hsplit Hkeys Hlen Hr Hkey)
    as (Hleft & Hright).
  pose proof Htree as (Hwf & Hroot & Hnp & Hs & Hshape).
  pose proof Hsplit as (Hn2 & Hroot2 & Hframe2 & Hhead2 & _).
  cbv zeta in Hn2, Hroot2, Hframe2, Hhead2. consts.
  set (np := num_pages (pager t1)) in *.
  set (ks' := insert_at (Z.to_nat r) key ks) in *.
  assert (length ks' = 14%nat) as Hlen'
      by (unfold ks'; rewrite length_insert_at; lia).
  assert (firstn 7 ks' <> []) as Hne1
      by (apply firstn_insert_nonempty; lia).
  assert (skipn 7 ks' <> []) as Hne2
      by (apply skipn_insert_nonempty; lia).
  assert (nonempty_leaf (content t2 p)) as Hnl2.
  { destruct Hleft as (H1 & H2 & _). split; [exact H1|].
    rewrite H2, length_firstn, Hlen'. consts. lia. }
  assert (nonempty_leaf (content t2 np)) as Hnr2.
  { destruct Hright as (H1 & H2 & _). split; [exact H1|].
    rewrite H2, length_skipn, Hlen'. consts. lia. }
  assert (root_flag (content t2 p) = root_flag (content t1 p)) as Hrf2
      by (apply root_flag_ext, Hhead2; lia).
  pose proof (keys_split_leaf ls j (Z.to_nat r) p np key 7) as Hall'.
  rewrite E in Hall'. cbn [snd] in Hall'. fold ks' in Hall'.
  unfold leaf_node_split_finish.
  apply wpe_bind, wp_wpe, wp_is_node_root; auto.
  rewrite Hrf2, Hrf.
  destruct Hshape as [(ks0 & -> & Hl) | (Hty & Hlen2 & Hcells & Hlk & Hnd)].
  - (* the root was split *)
    cbn [length] in Hj. assert (j = O) as -> by lia.
    cbn [nth] in E. injection E as <- <-.
    cbn [length Nat.eqb].
    apply wpe_create_new_root; auto; [lia | lia | |].
    { intros Hfull. consts. apply HEp; [reflexivity | lia]. }
    intros t3 Hfree Hwf3 Hprom.
    apply (HQ t3 [(np + 1, firstn 7 ks'); (np, skipn 7 ks')]);
      [|exact Hall'
       |left; split; [reflexivity|]; split; [reflexivity|];
        rewrite (proj1 Hprom), Hn2; lia
       |].
    2: { intros f Hf. pose proof (Hf O ltac:(cbn; lia)) as Hf0.
         cbn [nth fst snd] in Hf0.
         destruct Hsplit as (_ & _ & _ & _ & _ & _ & Hleft7 & _ & _ & _ & _
                             & _ & Hright7).
         destruct Hprom as (_ & _ & Hcopy & _ & _ & _ & _ & _ & _ & _ & _
                            & _ & Hr3 & _).
         cbv zeta in Hcopy, Hr3, Hleft7, Hright7. rewrite Hn2 in Hcopy.
         consts.
         apply (tree_holds_root_split t1 t3 ks0 r key value f np); auto.
         - intros H. apply Hni. unfold all_keys. cbn [map snd concat].
           rewrite app_nil_r. exact H.
         - intros i d Hi Hd. rewrite Hcopy by lia. apply Hleft7; lia.
         - intros i d Hi Hd. rewrite Hr3 by lia. apply Hright7; lia. }
    apply (tree_rep_root_split t1 t2 t3 ks0 r key value); auto.
    unfold keys_before, keys_after in Hs'. cbn [firstn skipn nth snd] in Hs'.
    unfold all_keys in Hs'. cbn [map concat app] in Hs'.
    rewrite app_nil_r in Hs'. exact Hs'.
  - (* a leaf below the root was split *)
    destruct (Nat.eqb_spec (length ls) 1) as [?|_]; [lia|].
    pose proof (proj1 (linked_leaf_ok t1 ls 0) Hlk) as Hok.
    pose proof (Hok j Hj) as (Hp0 & _ & Hleafj).
    rewrite E in Hp0, Hleafj. cbn [fst snd] in Hp0, Hleafj.
    pose proof (leaf_split_leaves _ _ _ _ _ _ _ _ Hsplit Hleafj Hlen Hr Hkey)
      as (Hl1 & Hl2).
    fold np in Hl1, Hl2. fold ks' in Hl1, Hl2.
    assert (ks <> []) as Hne0 by (intros ->; discriminate Hlen).
    pose proof (num_leaves_bound t1 ls Hwf Hnp Hlk Hnd) as Hbound.
    fold np in Hbound.
    pose proof (pager_wf_num_pages t2 Hwf2) as Hpages. rewrite Hn2 in Hpages.
    pose proof Hcells as (Hcnt & Hcell & Hright0).
    (* the parent reference and the new maximum of the old leaf *)
    apply wpe_bind, wp_wpe, wp_load32; ptrs; consts; try lia; auto.
    change (get32 (content t2 p) 2) with (parent_ref (content t2 p)).
    rewrite (proj1 (proj2 (proj2 Hl1)) eq_refl).
    apply wpe_bind, wp_wpe, wp_get_node_max_key_leaf; auto.
    rewrite (leaf_keys_max _ _ Hleft Hne1).
    apply wpe_bind, wp_wpe, wp_get_page_old; auto; [lia|].
    set (t3 := load_page t2 0).
    assert (extends t2 t3) as He3 by (apply extends_load_page; lia).
    assert (pager_wf t3) as Hwf3 by (apply (extends_wf t2); auto).
    assert (content t3 0 = content t1 0) as Hc30.
    { unfold t3. rewrite content_load_page. apply Hframe2; lia. }
    assert (cached t3 0) as Hca3 by (unfold t3; cached_tac).
    assert (forall i, (i < length ls)%nat -> snd (nth i ls (0, [])) <> [])
      as Hnes by (intros i Hi; apply (Hok i Hi)).
    (* the separator of the old leaf *)
    apply wpe_bind, wp_wpe,
      (wp_update_internal_node_key 0 _ _ t3 (Z.of_nat j)); auto;
      rewrite ?Hc30.
    { unfold keys_in_page. rewrite Hcnt. consts. lia. }
    { eapply separators_ascending_cells; eauto. }
    { unfold internal_cells_fit. rewrite Hcnt. consts. lia. }
    { intros idx Hidx. apply (find_child_unique _ ls j idx Hcells); auto.
      rewrite E. cbn [snd]. rewrite <- (leaf_keys_max _ _ Hkeys Hne0).
      exact Hidx. }
    intros _.
    set (new_max := last (firstn 7 ks') 0).
    set (c4 := blit (content t1 0) (14 + Z.of_nat j * 8 + 4) 4 (le32 new_max)).
    set (t4 := set_page t3 0 c4).
    set (lsm := replace_leaf j (p, firstn 7 ks') ls).
    assert (uint32 new_max) as Hnm.
    { unfold new_max. rewrite <- (leaf_keys_max _ _ Hleft Hne1).
      apply get32_range. }
    assert (root_cells c4 lsm) as Hcells4
        by (apply (root_cells_update _ ls j p ks); auto).
    assert (length lsm = length ls) as Hlenm
        by (apply length_replace_leaf; exact Hj).
    assert (extends t2 t4) as He4.
    { eapply extends_trans; [exact He3|]. apply extends_set_page. exact Hca3. }
    assert (pager_wf t4) as Hwf4 by (apply (extends_wf t2); auto).
    assert (num_pages (pager t4) = np + 1) as Hn4
        by (rewrite (extends_num_pages _ _ He4); exact Hn2).
    assert (content t4 0 = c4) as Hc40 by apply content_set_page_same.
    assert (forall m, m <> 0 -> content t4 m = content t2 m) as Hc4.
    { intros m Hm. unfold t4, t3.
      rewrite content_set_page_other by exact Hm. apply content_load_page. }
    set (ls' := split_leaf j (p, firstn 7 ks') (np, skipn 7 ks') ls) in *.
    assert (StronglySorted Z.lt (all_keys ls')) as Hsn
        by (rewrite Hall'; exact Hs').
    assert (StronglySorted Z.lt (all_keys lsm)) as Hsm.
    { unfold lsm. rewrite all_keys_replace_leaf.
      apply (sorted_drop_middle _ _ (skipn 7 ks')).
      unfold ls' in Hsn. rewrite all_keys_split_leaf in Hsn. exact Hsn. }
    assert (forall i, (i < length lsm)%nat -> snd (nth i lsm (0, [])) <> [])
      as Hnem.
    { intros i Hi. unfold lsm. rewrite nth_replace_leaf by exact Hj.
      destruct (Nat.eqb_spec i j); [exact Hne1 | apply Hnes; lia]. }
    assert (forall i, (i < length ls)%nat -> i <> j ->
                      fst (nth i ls (0, [])) <> p) as Hdiff.
    { intros i Hi Hne Heq. apply Hne.
      apply (proj1 (NoDup_nth (map fst ls) 0) Hnd);
        rewrite ?length_map; try lia.
      rewrite !(map_nth fst ls (0, [])). cbn [fst].
      rewrite E. cbn [fst]. exact Heq. }
    assert (forall i, (i < length lsm)%nat ->
              0 < fst (nth i lsm (0, [])) < np /\
              leaf_keys_are (content t4 (fst (nth i lsm (0, []))))
                (snd (nth i lsm (0, [])))) as Hleafm.
    { intros i Hi. unfold lsm. rewrite nth_replace_leaf by exact Hj.
      destruct (Nat.eqb_spec i j) as [->|Hd].
      - cbn [fst snd]. split; [exact Hp0|]. rewrite Hc4 by lia. exact Hleft.
      - pose proof (Hok i ltac:(lia)) as (Hpi & _ & (Hki & _)).
        fold np in Hpi. split; [exact Hpi|].
        rewrite Hc4, Hframe2 by (try apply Hdiff; lia). exact Hki. }
    set (rc := fst (last lsm (0, []))).
    set (rks := snd (last lsm (0, []))).
    assert (0 < rc < np /\ leaf_keys_are (content t4 rc) rks /\ rks <> [])
      as (Hrc & Hrck & Hrcne).
    { unfold rc, rks. rewrite last_nth_gen.
      split; [apply Hleafm; lia|]. split; [apply Hleafm; lia|].
      apply Hnem. lia. }
    assert (right_child_ref c4 = rc) as Hrcr by apply Hcells4.
    assert (leaf_max_key (content t4 rc) = last rks 0) as Hrcm
        by (apply leaf_keys_max; assumption).
    assert (leaf_max_key (content t4 np) = last (skipn 7 ks') 0) as Hnpm
        by (rewrite Hc4 by lia; apply leaf_keys_max; assumption).
    assert (length ls' = S (length ls)) as Hlenn
        by (apply length_split_leaf; exact Hj).
    assert (forall i, (i <= j)%nat -> nth i lsm (0, []) = nth i ls' (0, []))
      as Hlo.
    { intros i Hi. unfold lsm, ls'.
      rewrite nth_replace_leaf, nth_split_leaf by exact Hj.
      destruct (Nat.ltb_spec i j).
      - destruct (Nat.eqb_spec i j); [lia | reflexivity].
      - destruct (Nat.eqb_spec i j); [reflexivity | lia]. }
    assert (forall i, (j < i)%nat ->
                      nth i lsm (0, []) = nth (S i) ls' (0, [])) as Hhi.
    { intros i Hi. unfold lsm, ls'.
      rewrite nth_replace_leaf, nth_split_leaf by exact Hj.
      destruct (Nat.ltb_spec (S i) j); [lia|].
      destruct (Nat.eqb_spec i j); [lia|].
      destruct (Nat.eqb_spec (S i) j); [lia|].
      destruct (Nat.eqb_spec (S i) (S j)); [lia|].
      f_equal. lia. }
    assert (nth (S j) ls' (0, []) = (np, skipn 7 ks')) as Hnew.
    { unfold ls'. rewrite nth_split_leaf by exact Hj.
      destruct (Nat.ltb_spec (S j) j); [lia|].
      destruct (Nat.eqb_spec (S j) j); [lia|].
      rewrite Nat.eqb_refl. reflexivity. }
    assert (nth j lsm (0, []) = (p, firstn 7 ks')) as Hmid.
    { unfold lsm. rewrite nth_replace_leaf by exact Hj.
      rewrite Nat.eqb_refl. reflexivity. }
    assert (forall i, (i < length ls')%nat -> snd (nth i ls' (0, [])) <> [])
      as Hnen.
    { intros i Hi. destruct (Nat.le_gt_cases i j) as [Hij|Hij].
      - rewrite <- Hlo by exact Hij. apply Hnem. lia.
      - destruct (Nat.eq_dec i (S j)) as [->|Hd];
          [rewrite Hnew; exact Hne2|].
        replace i with (S (i - 1)) by lia. rewrite <- Hhi by lia.
        apply Hnem. lia. }
    assert (forall i, (i <= j)%nat ->
                      last (snd (nth i lsm (0, []))) 0
                      < last (skipn 7 ks') 0) as Hbelow.
    { intros i Hi. rewrite Hlo by exact Hi.
      change (skipn 7 ks') with (snd (np, skipn 7 ks')). rewrite <- Hnew.
      apply leaf_max_lt; auto; lia. }
    assert (forall i, (j < i)%nat -> (i < length ls)%nat ->
                      last (skipn 7 ks') 0
                      < last (snd (nth i lsm (0, []))) 0) as Habove.
    { intros i Hi Hi'. rewrite Hhi by exact Hi.
      change (skipn 7 ks') with (snd (np, skipn 7 ks')). rewrite <- Hnew.
      apply leaf_max_lt; auto; lia. }
    pose proof Hcells4 as (Hcnt4 & Hcell4 & _). rewrite Hlenm in Hcnt4.
    (* the new leaf goes into the root *)
    apply (wpe_internal_node_insert MAX 0 np
             (Z.min (Z.of_nat (S j)) (Z.of_nat (length ls) - 1)));
      rewrite ?Hc40, ?Hnpm, ?Hn4, ?Hrcr, ?Hrcm; auto; try lia.
    { unfold type_of, byte_at, c4. consts. rewrite blit_out by lia.
      exact Hty. }
    { unfold internal_cells_fit. rewrite Hcnt4. consts. lia. }
    { eapply separators_ascending_cells; eauto. }
    { rewrite Hc4 by lia. exact Hnr2. }
    { eapply leaf_keys_nonempty; eauto. }
    { split; [rewrite Hcnt4; lia|]. split.
      - intros i Hi. rewrite <- (Z2Nat.id i) by lia.
        rewrite (proj2 (Hcell4 (Z.to_nat i) ltac:(lia))).
        apply Hbelow. lia.
      - intros i Hi. rewrite Hcnt4 in Hi. rewrite <- (Z2Nat.id i) by lia.
        rewrite (proj2 (Hcell4 (Z.to_nat i) ltac:(lia))).
        apply Z.lt_le_incl, Habove; lia. }
    { rewrite Hcnt4. intros Hfull. apply HEk; [exact Hlen2 | exact Hfull]. }
    intros t5 Hlt He5 Hother5 Hins.
    assert (forall m, m <> 0 -> m <> p -> m <> np ->
                      content t5 m = content t1 m) as Hframe5.
    { intros m H0 H1 H2. rewrite Hother5, Hc4, Hframe2 by assumption.
      reflexivity. }
    apply (HQ t5 ls');
      [|exact Hall'
       |right; split; [exact Hlen2|]; split; [reflexivity|];
        rewrite (extends_num_pages _ _ He5); exact Hn4
       |].
    2: { intros f Hf.
         destruct Hsplit as (_ & _ & _ & _ & _ & _ & Hleft7 & _ & _ & _ & _
                             & _ & Hright7).
         cbv zeta in Hleft7, Hright7. fold np in Hright7. consts.
         apply (tree_holds_child_split t1 t5 ls j p ks r key value f); auto.
         - intros i d Hi Hd. rewrite Hother5, Hc4 by lia. apply Hleft7; lia.
         - intros i d Hi Hd. fold np. rewrite Hother5, Hc4 by lia.
           apply Hright7; lia. }
    split; [apply (extends_wf t4); auto|].
    split; [rewrite (extends_root_page_num _ _ He5),
              (extends_root_page_num _ _ He4), Hroot2; exact Hroot|].
    split; [rewrite (extends_num_pages _ _ He5), Hn4; lia|].
    split; [exact Hsn|].
    right. split; [|split; [lia|split; [|split]]].
    + destruct Hins as (_ & Hhead5 & _). unfold type_of, byte_at. consts.
      rewrite Hhead5 by lia. unfold c4. rewrite blit_out by lia. exact Hty.
    + unfold ls'. rewrite <- (split_leaf_replace_leaf j _ _ (p, firstn 7 ks'))
        by exact Hj.
      fold lsm.
      apply (root_cells_split c4 _ lsm j p (firstn 7 ks') np (skipn 7 ks')
               (Z.min (Z.of_nat (S j)) (Z.of_nat (length ls) - 1)));
        auto; try lia.
      * intros Hjl. pose proof (Hbelow j ltac:(lia)) as G.
        rewrite Hmid in G. exact G.
      * intros Hjl. split; [lia|]. fold rks.
        unfold rks. rewrite (last_nth_gen lsm).
        apply Z.lt_le_incl, Habove; lia.
    + apply (linked_split t1 t5 ls j p ks); auto.
      * rewrite (extends_num_pages _ _ He5), Hn4. reflexivity.
      * eapply leaf_at_frame; [exact Hl1|].
        rewrite Hother5, Hc4 by lia. reflexivity.
      * eapply leaf_at_frame; [exact Hl2|].
        rewrite Hother5, Hc4 by lia. reflexivity.
    + apply (NoDup_split_leaf j p ks); auto.
      intros Hin. apply in_map_iff in Hin as ([q qs] & Hq & Hin).
      apply In_nth with (d := (0, [])) in Hin as (i & Hi & Ei).
      pose proof (Hok i Hi) as (Hqi & _). rewrite Ei in Hqi.
      cbn [fst] in Hqi, Hq. fold np in Hqi. lia.
Qed.

(** ** [leaf_node_insert] and [insert_row] on the tree *)

Lemma leaf_split_done_frame t0 t t' p r key value :
  num_pages (pager t) = num_pages (pager t0) ->
  root_page_num t = root_page_num t0 ->
  (forall m, content t m = content t0 m) ->
  leaf_split_done t t' p r key value -> leaf_split_done t0 t' p r key value.
Proof.
  unfold leaf_split_done. intros -> -> Hc. rewrite !Hc.
  intros (H1 & H2 & H3 & H). split; [exact H1|]. split; [exact H2|].
  split; [|exact H]. intros m Hm Hm'. rewrite <- Hc. apply H3; assumption.
Qed.

(** [leaf_node_insert] of a new key at the cursor that [table_find] gave
    for it: the call returns with the key and its row in the tree and all
    other rows kept, or exits because the capacity is reached. *)
Lemma wpe_leaf_node_insert_tree MAX cursor key value t ls j Q
    (Ex : fatal -> Table -> Prop) :
  tree_rep t ls -> uint32 key -> ~ In key (all_keys ls) ->
  found_at t ls key cursor j ->
  (forall e t', capacity_reached MAX t ls e -> Ex e t') ->
  (forall t' ls' A B,
      tree_rep t' ls' -> all_keys ls = A ++ B ->
      all_keys ls' = A ++ key :: B ->
      grown t t' ls ls' key ->
      (forall f, tree_holds t ls f ->
                 tree_holds t' ls' (with_row f key value)) ->
      Q tt t') ->
  wpe (leaf_node_insert MAX cursor key value) t Q Ex.
Proof.
  intros Htree Hkey Hni (Hj & Hpage & Hpost & Hlt & Hle) HE HQ.
  destruct cursor as [p r eot]. cbn [page_num cell_num] in *.
  destruct (nth j ls (0, [])) as [p' ks] eqn:E. cbn [fst snd] in *. subst p'.
  pose proof (tree_leaf t ls j Htree Hj) as (Hp & next & Hleaf).
  rewrite E in Hp, Hleaf. cbn [fst snd] in Hp, Hleaf.
  pose proof Hleaf as (Hkeys & Hrf & Hpr & Hnext).
  assert (~ In key ks) as Hni'.
  { intros H. apply Hni. apply (in_all_keys ls j); [exact Hj|].
    rewrite E. exact H. }
  pose proof (find_post_absent _ _ _ _ Hkeys Hni' Hpost)
    as (Hr & Hbefore & Hafter).
  pose proof Htree as (Hwf & Hroot & Hnp & Hs & Hshape).
  assert ((S j < length ls)%nat -> ks <> []) as Hne.
  { intros H. pose proof (tree_leaf_nonempty t ls j Htree H) as G.
    rewrite E in G. exact G. }
  assert (forall a, In a (keys_before ls j (Z.to_nat r)) -> a < key) as HA.
  { apply keys_before_lt; auto. rewrite E. exact Hbefore. }
  assert (forall b, In b (keys_after ls j (Z.to_nat r)) -> key < b) as HB.
  { apply keys_after_gt; auto; rewrite E; auto. }
  pose proof (sorted_new_key ls j (Z.to_nat r) key Hs Hj HA HB) as Hs'.
  pose proof (keys_before_after ls j (Z.to_nat r) Hj) as Hall.
  pose proof Hkeys as (Hty & Hcnt & Hlen & _).
  assert ((S j < length ls)%nat ->
          last (insert_at (Z.to_nat r) key ks) 0 = last ks 0) as Hlast.
  { intros H. apply insert_not_last; auto; lia. }
  destruct (Nat.lt_ge_cases (length ks) 13) as [Hroom|Hfull].
  - (* the leaf has room *)
    apply wp_wpe.
    apply (wp_leaf_node_insert_room MAX _ key value ks); auto;
      cbn [page_num cell_num]; auto.
    intros t' He Hother Hhead Hkeys' Hcells.
    apply (HQ t' (replace_leaf j (p, insert_at (Z.to_nat r) key ks) ls)
             (keys_before ls j (Z.to_nat r)) (keys_after ls j (Z.to_nat r)));
      [|exact Hall| | |].
    + eapply tree_rep_insert_room; eauto.
    + pose proof (keys_replace_leaf ls j (Z.to_nat r) p key) as G.
      rewrite E in G. exact G.
    + exists j, (Z.to_nat r). rewrite E. cbn [fst snd].
      split; [exact Hj|]. split; [lia|]. left.
      split; [rewrite length_insert_at; lia|]. split; [reflexivity|].
      apply (extends_num_pages _ _ He).
    + intros f Hf.
      apply (tree_holds_room t t' ls j p ks r key value f); auto.
  - (* the leaf is full *)
    assert (length ks = 13%nat) as Hlen13 by lia.
    unfold leaf_node_insert. cbn [page_num cell_num].
    apply wpe_bind, wp_wpe, wp_get_page_old; auto.
    set (t1 := load_page t p).
    assert (extends t t1) as He1 by (apply extends_load_page; auto).
    assert (forall m, content t1 m = content t m) as Hc1
        by (intros m; apply content_load_page).
    apply wpe_bind, wp_wpe, wp_load32; ptrs; consts; try lia;
      [unfold t1; cached_tac|].
    rewrite Hc1. change (get32 (content t p) 6)
      with (cell_count (content t p)).
    rewrite Hcnt, Hlen13. change (Z.of_nat 13 >=? 13) with true. cbv iota.
    unfold leaf_node_split_and_insert.
    apply wpe_bind,
      (wpe_leaf_node_split (mkCursor p r eot) key value t1);
      cbn [page_num cell_num]; rewrite ?Hc1; auto.
    { apply (extends_wf t); auto. }
    { rewrite (extends_num_pages _ _ He1). exact Hp. }
    { rewrite Hcnt, Hlen13. reflexivity. }
    { consts. lia. }
    { rewrite (extends_num_pages _ _ He1). intros Hcap t'.
      apply HE. cbn [capacity_reached].
      destruct (length ls =? 1)%nat; lia. }
    intros t2 Hfree Hwf2 Hcp2 Hcn2 Hsplit.
    rewrite (extends_num_pages _ _ He1) in *.
    apply leaf_split_done_frame with (t0 := t) in Hsplit;
      [|apply (extends_num_pages _ _ He1)
       |apply (extends_root_page_num _ _ He1) | exact Hc1].
    apply (wpe_split_finish MAX t t2 ls j p ks r key value); auto.
    + lia.
    + intros Hone Hcap t'. apply HE. cbn [capacity_reached].
      rewrite Hone. cbn [Nat.eqb]. exact Hcap.
    + intros Htwo Hcap t'. apply HE. cbn [capacity_reached]. auto.
    + intros t' ls' Ht' Hk' Hshape' Hrows.
      apply (HQ t' ls' (keys_before ls j (Z.to_nat r))
               (keys_after ls j (Z.to_nat r))); auto.
      exists j, (Z.to_nat r). rewrite E. cbn [fst snd].
      split; [exact Hj|]. split; [lia|]. right.
      assert (length (insert_at (Z.to_nat r) key ks) = 14%nat) as Hl14
          by (rewrite length_insert_at; lia).
      destruct Hshape' as [(H1 & H2 & H3) | (H1 & H2 & H3)];
        [left | right]; auto.
Qed.

Lemma wpe_insert_row MAX mem key value t ls Q
    (Ex : fatal -> Table -> Prop) :
  tree_rep t ls -> uint32 key -> ~ In key (all_keys ls) ->
  (forall e t', capacity_reached MAX t ls e -> Ex e t') ->
  (forall t' ls' A B,
      tree_rep t' ls' -> all_keys ls = A ++ B ->
      all_keys ls' = A ++ key :: B ->
      grown t t' ls ls' key ->
      (forall f, tree_holds t ls f ->
                 tree_holds t' ls' (with_row f key value)) ->
      Q tt t') ->
  wpe (insert_row MAX mem key value) t Q Ex.
Proof.
  intros Htree Hkey Hni HE HQ. unfold insert_row.
  apply wpe_bind, wp_wpe, (wp_table_find_tree mem key t ls); auto.
  intros c t1 j He1 Hc1 Hfound _.
  assert (num_pages (pager t1) = num_pages (pager t)) as Hn1
      by apply (extends_num_pages _ _ He1).
  apply (wpe_leaf_node_insert_tree MAX c key value t1 ls j); auto.
  - eapply tree_rep_frame; eauto.
  - destruct Hfound as (H1 & H2 & H3 & H4). split; [exact H1|].
    split; [exact H2|]. rewrite Hc1. split; [exact H3 | exact H4].
  - intros e t' Hcap. apply HE. destruct e; cbn [capacity_reached] in *;
      rewrite <- ?Hn1; exact Hcap.
  - intros t' ls' A B Ht' HA HB (j' & r' & Hj' & Hr' & Hg) Hrows.
    apply (HQ t' ls' A B); auto.
    + exists j', r'. split; [exact Hj'|]. split; [exact Hr'|].
      cbv zeta in *. rewrite <- Hn1. exact Hg.
    + intros f Hf. apply Hrows. apply (tree_holds_frame t); auto.
Qed.

Lemma wpx_insert_row MAX mem key value t ls Q :
  tree_rep t ls -> uint32 key -> ~ In key (all_keys ls) ->
  (forall t' ls' A B,
      tree_rep t' ls' -> all_keys ls = A ++ B ->
      all_keys ls' = A ++ key :: B -> Q tt t') ->
  wpx (insert_row MAX mem key value) t Q.
Proof.
  intros Htree Hkey Hni HQ. apply wpe_insert_row with (ls := ls); auto.
  intros t' ls' A B H1 H2 H3 _ _. apply (HQ t' ls' A B); assumption.
Qed.

Lemma insert_row_tree MAX mem key value t ls t' :
  tree_rep t ls -> uint32 key -> ~ In key (all_keys ls) ->
  insert_row MAX mem key value t = Ok tt t' ->
  exists ls' A B,
    tree_rep t' ls' /\ all_keys ls = A ++ B /\ all_keys ls' = A ++ key :: B.
Proof.
  intros Htree Hkey Hni Hrun.
  apply (wpx_elim _ _ _ _ _
           (wpx_insert_row MAX mem key value t ls
              (fun _ t' =>
                 exists ls' A B,
                   tree_rep t' ls' /\ all_keys ls = A ++ B /\
                   all_keys ls' = A ++ key :: B)
              Htree Hkey Hni
              (fun t' ls' A B H1 H2 H3 =>
                 ex_intro _ ls' (ex_intro _ A (ex_intro _ B
                   (conj H1 (conj H2 H3))))))
           Hrun).
Qed.
(** ** The traversal *)

Lemma tree_chain t ls : tree_rep t ls -> chain t ls.
Proof.
  intros (Hwf & Hroot & Hnp & Hs & Hshape) i Hi.
  destruct Hshape as [(ks & -> & Hl) | (Hty & Hlen & Hcells & Hlk & Hnd)].
  - cbn [length] in Hi. assert (i = O) as -> by lia. cbn [nth fst snd length].
    destruct Hl as (Hkeys & _ & _ & Hnext).
    split; [lia|]. split; [exact Hkeys|]. split; [exact Hnext|]. lia.
  - pose proof (proj1 (linked_leaf_ok t ls 0) Hlk) as Hok.
    pose proof (Hok i Hi) as (Hp & _ & (Hkeys & _ & _ & Hnext)).
    split; [lia|]. split; [exact Hkeys|]. split; [exact Hnext|].
    intros H. pose proof (Hok (S i) H) as (Hp' & Hne & _). split; [lia|auto].
Qed.

Lemma chain_frame t t' ls :
  chain t ls -> num_pages (pager t') = num_pages (pager t) ->
  (forall m, content t' m = content t m) -> chain t' ls.
Proof. intros H Hn Hc i Hi. rewrite Hn, !Hc. apply H, Hi. Qed.

Lemma skipn_nth_cons {A} (l : list A) r d :
  (r < length l)%nat -> skipn r l = nth r l d :: skipn (S r) l.
Proof.
  revert r. induction l as [|x l IH]; intros r Hr; [cbn in Hr; lia|].
  destruct r as [|r]; [reflexivity|]. cbn [skipn nth]. apply IH.
  cbn in Hr. lia.
Qed.

Lemma keys_from_step ls j r :
  (r < length (snd (nth j ls (0%Z, []))))%nat ->
  keys_from ls j r
  = nth r (snd (nth j ls (0, []))) 0
    :: (if (S r <? length (snd (nth j ls (0%Z, []))))%nat
        then keys_from ls j (S r)
        else if (S j <? length ls)%nat then keys_from ls (S j) 0 else []).
Proof.
  intros Hr. unfold keys_from. rewrite (skipn_nth_cons _ r 0 Hr).
  cbn [app]. f_equal.
  destruct (Nat.ltb_spec (S r) (length (snd (nth j ls (0, [])))));
    [reflexivity|].
  rewrite (skipn_all2 (snd (nth j ls (0, [])))) by lia. cbn [app].
  destruct (Nat.ltb_spec (S j) (length ls)) as [H1|H1].
  - rewrite (skipn_nth_cons ls (S j) (0, []) H1).
    destruct (nth (S j) ls (0, [])). reflexivity.
  - rewrite skipn_all2 by lia. reflexivity.
Qed.

Lemma scan_from_end fuel c :
  end_of_table c = true -> scan_from fuel c = ret [].
Proof. intros H. destruct fuel; cbn [scan_from]; rewrite H; reflexivity. Qed.

Lemma wp_scan_from fuel : forall t ls j r Q,
  pager_wf t -> chain t ls ->
  (j < length ls)%nat -> (r < length (snd (nth j ls (0%Z, []))))%nat ->
  (length (keys_from ls j r) <= fuel)%nat ->
  (forall t', extends t t' -> (forall m, content t' m = content t m) ->
              Q (keys_from ls j r) t') ->
  wp (scan_from fuel (mkCursor (fst (nth j ls (0, []))) (Z.of_nat r) false))
    t Q.
Proof.
  induction fuel as [|fuel IH]; intros t ls j r Q Hwf Hch Hj Hr Hfuel HQ.
  - rewrite keys_from_step in Hfuel by exact Hr. cbn [length] in Hfuel. lia.
  - pose proof (Hch j Hj) as (Hp & Hkeys & Hnext & Hsucc).
    set (p := fst (nth j ls (0, []))) in *.
    set (ks := snd (nth j ls (0, []))) in *.
    pose proof Hkeys as (Hty & Hcnt & Hlen & Hnth).
    rewrite keys_from_step in Hfuel, HQ by exact Hr. fold ks in Hfuel, HQ.
    cbn [length] in Hfuel.
    cbn [scan_from end_of_table]. unfold cursor_key. cbn [page_num cell_num].
    apply wp_bind, wp_bind, wp_get_page_old; auto.
    set (t1 := load_page t p).
    assert (extends t t1) as He1 by (apply extends_load_page; auto).
    assert (forall m, content t1 m = content t m) as Hc1
        by (intros m; apply content_load_page).
    assert (pager_wf t1) as Hwf1 by (apply (extends_wf t); auto).
    apply wp_load32; ptrs; consts; try lia; [unfold t1; cached_tac|].
    rewrite Hc1.
    change (get32 (content t p) (14 + Z.of_nat r * 297))
      with (leaf_key (content t p) (Z.of_nat r)).
    rewrite Hnth by exact Hr.
    unfold cursor_advance. cbn [page_num cell_num set_cell_num].
    apply wp_bind, wp_bind, wp_get_page_old; auto;
      [rewrite (extends_num_pages _ _ He1); exact Hp|].
    set (t2 := load_page t1 p).
    assert (extends t t2) as He2.
    { eapply extends_trans; [exact He1|]. apply extends_load_page.
      rewrite (extends_num_pages _ _ He1); exact Hp. }
    assert (forall m, content t2 m = content t m) as Hc2
        by (intros m; unfold t2; rewrite content_load_page; apply Hc1).
    assert (pager_wf t2) as Hwf2 by (apply (extends_wf t); auto).
    assert (chain t2 ls) as Hch2.
    { apply (chain_frame t); auto. apply (extends_num_pages _ _ He2). }
    assert (cached t2 p) as Hca2 by (unfold t2; cached_tac).
    apply wp_bind, wp_load32; ptrs; consts; try lia; auto.
    rewrite Hc2. change (get32 (content t p) 6) with (cell_count (content t p)).
    rewrite Hcnt, u32_small by lia.
    assert (forall (k : list Z) t', extends t2 t' ->
              (forall m, content t' m = content t2 m) ->
              extends t t' /\ forall m, content t' m = content t m) as Hfr.
    { intros k t' He Hc. split; [eapply extends_trans; eauto|].
      intros m. rewrite Hc. apply Hc2. }
    destruct (Z.geb_spec (Z.of_nat r + 1) (Z.of_nat (length ks))) as [Hge|Hlt].
    + destruct (Nat.ltb_spec (S r) (length ks)); [lia|].
      apply wp_bind, wp_load32; ptrs; consts; try lia; auto.
      rewrite Hc2.
      change (get32 (content t p) 10) with (next_leaf_ref (content t p)).
      rewrite Hnext.
      destruct (Nat.ltb_spec (S j) (length ls)) as [Hmore|Hlast].
      * destruct (Hsucc Hmore) as (Hnz & Hne).
        destruct (Z.eqb_spec (fst (nth (S j) ls (0, []))) 0); [contradiction|].
        apply wp_ret. cbn [set_page_num set_cell_num page_num cell_num
                             end_of_table].
        apply wp_bind. change 0 with (Z.of_nat 0) at 2.
        apply IH; auto.
        -- destruct (snd (nth (S j) ls (0, []))); [contradiction|].
           cbn [length]. lia.
        -- lia.
        -- intros t' He Hc. apply wp_ret. apply HQ; apply (Hfr [] t'); auto.
      * cbn [Z.eqb]. apply wp_ret.
        rewrite scan_from_end by reflexivity.
        apply wp_bind, wp_ret, wp_ret. apply HQ; auto.
    + destruct (Nat.ltb_spec (S r) (length ks)); [|lia].
      apply wp_ret. apply wp_bind.
      replace (Z.of_nat r + 1) with (Z.of_nat (S r)) by lia.
      apply IH; auto; try lia.
      intros t' He Hc. apply wp_ret. apply HQ; apply (Hfr [] t'); auto.
Qed.

(** ** [table_start] and the whole traversal *)

Lemma leaf_keys_last_nonneg (c : page) ks :
  leaf_keys_are c ks -> 0 <= last ks 0.
Proof.
  intros (_ & _ & _ & Hkeys). rewrite last_nth.
  destruct ks as [|k ks]; [cbn; lia|].
  rewrite <- Hkeys by (cbn [length]; lia). apply get32_range.
Qed.

Lemma find_post_zero (c : page) ks r :
  leaf_keys_are c ks -> StronglySorted Z.lt ks -> find_post c 0 r -> r = 0.
Proof.
  intros Hkeys Hs (Hr & Hpost).
  pose proof (leaf_keys_ascending c ks Hkeys Hs) as Hasc.
  pose proof (get32_range c (14 + 0 * 297)) as H0.
  change (get32 c (14 + 0 * 297)) with (leaf_key c 0) in H0.
  destruct (Z.eq_dec r 0) as [|Hne]; [assumption|exfalso].
  destruct Hpost as [(Hlt & E) | (Hbefore & _)].
  - pose proof (Hasc 0 r ltac:(lia) Hlt). lia.
  - pose proof (Hbefore 0 ltac:(lia)). lia.
Qed.

Lemma keys_from_start ls :
  (0 < length ls)%nat -> keys_from ls 0 0 = all_keys ls.
Proof.
  intros H. unfold keys_from. rewrite (all_keys_decompose ls 0 H).
  reflexivity.
Qed.

Lemma wp_scan fuel mem t ls Q :
  tree_rep t ls -> (length (all_keys ls) <= fuel)%nat ->
  (forall t', extends t t' -> (forall m, content t' m = content t m) ->
              Q (all_keys ls) t') ->
  wp (scan fuel mem) t Q.
Proof.
  intros Htree Hfuel HQ. unfold scan, table_start.
  apply wp_bind, wp_bind, (wp_table_find_tree mem 0 t ls); auto.
  intros c t1 j He1 Hc1 (Hj & Hpage & Hpost & Hlt & _) _.
  pose proof (tree_chain t ls Htree) as Hch.
  pose proof Htree as (Hwf & _ & _ & Hs & _).
  assert (j = O) as ->.
  { destruct j as [|j]; [reflexivity|exfalso].
    pose proof (Hlt O ltac:(lia)) as G.
    destruct (Hch O ltac:(lia)) as (_ & Hk & _).
    pose proof (leaf_keys_last_nonneg _ _ Hk). lia. }
  destruct (Hch O Hj) as (Hp & Hkeys & _).
  destruct c as [p r eot]. cbn [page_num cell_num] in *. subst p.
  set (p := fst (nth 0 ls (0, []))) in *.
  set (ks := snd (nth 0 ls (0, []))) in *.
  assert (r = 0) as ->.
  { apply (find_post_zero (content t p) ks); auto.
    apply sorted_leaf; assumption. }
  assert (pager_wf t1) as Hwf1 by (apply (extends_wf t); auto).
  apply wp_bind, wp_get_page_old; auto;
    [rewrite (extends_num_pages _ _ He1); exact Hp|].
  set (t2 := load_page t1 p).
  assert (extends t t2) as He2.
  { eapply extends_trans; [exact He1|]. apply extends_load_page.
    rewrite (extends_num_pages _ _ He1); exact Hp. }
  assert (forall m, content t2 m = content t m) as Hc2
      by (intros m; unfold t2; rewrite content_load_page; apply Hc1).
  assert (pager_wf t2) as Hwf2 by (apply (extends_wf t); auto).
  apply wp_bind, wp_load32; ptrs; consts; try lia; [unfold t2; cached_tac|].
  rewrite Hc2. change (get32 (content t p) 6) with (cell_count (content t p)).
  rewrite (proj1 (proj2 Hkeys)).
  apply wp_ret. unfold set_end_of_table. cbn [page_num cell_num].
  destruct (Z.eqb_spec (Z.of_nat (length ks)) 0) as [Hempty|Hsome].
  - rewrite scan_from_end by reflexivity. apply wp_ret.
    assert (all_keys ls = []) as Hnil.
    { destruct (Nat.lt_ge_cases 1 (length ls)) as [H|H].
      - pose proof (tree_leaf_nonempty t ls O Htree H) as G. fold ks in G.
        destruct ks; [contradiction | cbn [length] in Hempty; lia].
      - rewrite (all_keys_decompose ls 0 Hj). fold ks.
        rewrite skipn_all2 by lia. cbn [firstn].
        destruct ks; [reflexivity | cbn [length] in Hempty; lia]. }
    rewrite <- Hnil. apply HQ; auto.
  - change 0 with (Z.of_nat 0) at 1.
    apply (wp_scan_from fuel t2 ls O O); auto.
    + apply (chain_frame t); auto. apply (extends_num_pages _ _ He2).
    + fold ks. lia.
    + rewrite keys_from_start by lia. exact Hfuel.
    + intros t' He Hc. rewrite keys_from_start by lia. apply HQ.
      * eapply extends_trans; eauto.
      * intros m. rewrite Hc. apply Hc2.
Qed.

(** ** A table built by inserts *)

Lemma db_open_empty_tree t : db_open [] = Ok tt t -> tree_rep t [(0, [])].
Proof.
  intros Hopen. cbn in Hopen. injection Hopen as <-.
  split.
  { split; [simpl; consts; lia|]. split; [simpl; lia|].
    intros m Hm. unfold cached in Hm. simpl in Hm.
    destruct (Z.eqb_spec m 0); [simpl; lia | contradiction]. }
  split; [reflexivity|]. split; [simpl; lia|].
  split; [constructor|].
  left. exists []. split; [reflexivity|].
  split; [|split; [|split]].
  - split; [vm_compute; reflexivity|]. split; [vm_compute; reflexivity|].
    split; [cbn; lia|]. intros i Hi. cbn in Hi. lia.
  - vm_compute. reflexivity.
  - discriminate.
  - vm_compute. reflexivity.
Qed.

Lemma insert_rows_tree MAX mem rows : forall t ls t',
  tree_rep t ls ->
  NoDup (map fst rows) -> Forall uint32 (map fst rows) ->
  (forall k, In k (map fst rows) -> ~ In k (all_keys ls)) ->
  insert_rows MAX mem rows t = Ok tt t' ->
  exists ls',
    tree_rep t' ls' /\ Permutation (all_keys ls') (all_keys ls ++ map fst rows).
Proof.
  induction rows as [|[key value] rows IH]; intros t ls t' Htree Hnd Hu Hnew Hrun.
  - injection Hrun as <-. exists ls. split; [exact Htree|].
    cbn [map]. rewrite app_nil_r. apply Permutation_refl.
  - cbn [insert_rows] in Hrun. unfold bind in Hrun.
    destruct (insert_row MAX mem key value t) as [[] t1| | |] eqn:Hins;
      try discriminate.
    cbn [map fst] in Hnd, Hu, Hnew.
    apply NoDup_cons_iff in Hnd as (Hfresh & Hnd).
    apply Forall_cons_iff in Hu as (Hkey & Hu).
    destruct (insert_row_tree MAX mem key value t ls t1 Htree Hkey
                (Hnew key (or_introl eq_refl)) Hins)
      as (ls1 & A & B & Htree1 & HAB & HAB1).
    destruct (IH t1 ls1 t' Htree1 Hnd Hu) as (ls' & Htree' & Hperm);
      [|exact Hrun|].
    + intros k Hk Hin. rewrite HAB1 in Hin.
      apply in_app_or in Hin as [Hin|[<-|Hin]].
      * apply (Hnew k (or_intror Hk)). rewrite HAB. apply in_or_app. auto.
      * contradiction.
      * apply (Hnew k (or_intror Hk)). rewrite HAB. apply in_or_app. auto.
    + exists ls'. split; [exact Htree'|].
      rewrite Hperm, HAB1, HAB. cbn [map fst].
      rewrite <- !app_assoc. apply Permutation_app_head.
      cbn [app]. rewrite <- Permutation_middle. reflexivity.
Qed.

(** C2.  Ascending traversal.  On the table that [db_open] makes of an empty
    file, after inserts of rows with pairwise distinct 32-bit keys, in any
    order, that all returned, the traversal from [table_start] by
    [cursor_advance] until [end_of_table] returns (fuel for one visit per
    row suffices) and visits the inserted keys, each one once, in strictly
    ascending order. *)
Theorem ascending_traversal MAX mem mem' rows t0 t fuel :
  NoDup (map fst rows) -> Forall uint32 (map fst rows) ->
  db_open [] = Ok tt t0 ->
  insert_rows MAX mem rows t0 = Ok tt t ->
  (length rows <= fuel)%nat ->
  exists visited t',
    scan fuel mem' t = Ok visited t' /\
    StronglySorted Z.lt visited /\
    Permutation visited (map fst rows).
Proof.
  intros Hnd Hu Hopen Hrun Hfuel.
  pose proof (db_open_empty_tree t0 Hopen) as Htree0.
  destruct (insert_rows_tree MAX mem rows t0 [(0, [])] t Htree0 Hnd Hu)
    as (ls & Htree & Hperm); [intros k _ [] | exact Hrun |].
  cbn [all_keys map snd concat app] in Hperm.
  change (all_keys [(0, [])]) with (@nil Z) in Hperm. cbn [app] in Hperm.
  assert (length (all_keys ls) <= fuel)%nat as Hlen.
  { rewrite (Permutation_length Hperm), length_map. exact Hfuel. }
  destruct (wp_elim _ _ _
              (wp_scan fuel mem' t ls
                 (fun l _ => l = all_keys ls) Htree Hlen
                 (fun _ _ _ => eq_refl)))
    as (l & t' & Hscan & ->).
  exists (all_keys ls), t'. split; [exact Hscan|].
  split; [apply Htree | exact Hperm].
Qed.
(** * Further properties of the node operations *)

(** ** [leaf_node_insert] into a leaf with room *)

(** X1.  [leaf_node_insert] on a leaf that holds fewer than
    [LEAF_NODE_MAX_CELLS] cells, at a cell number up to the cell count,
    returns; afterwards the leaf holds one cell more: the cells before the
    cursor's cell number as they were, then the cell made of the key and
    the serialized row, then the former cells from that number on.  The
    node header but for the count, and every other page, are unchanged. *)
Theorem leaf_node_insert_room_correct MAX cursor key value t :
  pager_wf t ->
  0 <= page_num cursor < num_pages (pager t) ->
  cell_count (content t (page_num cursor)) < LEAF_NODE_MAX_CELLS ->
  0 <= cell_num cursor <= cell_count (content t (page_num cursor)) ->
  let p := page_num cursor in
  let n := Z.to_nat (cell_count (content t p)) in
  let r := Z.to_nat (cell_num cursor) in
  exists t',
    leaf_node_insert MAX cursor key value t = Ok tt t' /\
    cell_count (content t' p) = cell_count (content t p) + 1 /\
    leaf_cells (content t' p) (S n)
    = firstn r (leaf_cells (content t p) n)
      ++ new_cell key value :: skipn r (leaf_cells (content t p) n) /\
    (forall a, a < 6 \/ 10 <= a < 14 ->
               content t' p a = content t p a) /\
    (forall m, m <> p -> content t' m = content t m).
Proof.
  intros Hwf Hp Hroom Hidx p n r.
  pose proof (get32_range (content t p) 6) as Hn.
  change (get32 (content t p) 6) with (cell_count (content t p)) in Hn.
  fold p in Hroom, Hidx. consts.
  assert (wp (leaf_node_insert MAX cursor key value) t
            (fun _ t' =>
               cell_count (content t' p) = cell_count (content t p) + 1 /\
               (forall i d, 0 <= i <= cell_count (content t p) ->
                            0 <= d < 297 ->
                            content t' p (14 + i * 297 + d)
                            = split_source (content t p) (cell_num cursor)
                                key value i d) /\
               (forall a, a < 6 \/ 10 <= a < 14 ->
                          content t' p a = content t p a) /\
               (forall m, m <> p -> content t' m = content t m))) as H.
  { apply wp_leaf_node_insert_cells; auto. }
  apply wp_elim in H as ([] & t' & Hrun & Hcnt & Hcells & Hhead & Hother).
  exists t'. split; [exact Hrun|]. split; [exact Hcnt|].
  split; [|split; assumption].
  assert (length (firstn r (leaf_cells (content t p) n)) = r) as Hlen
      by (rewrite length_firstn, length_leaf_cells; lia).
  apply nth_ext with (d := []) (d' := []).
  - rewrite length_leaf_cells, length_app. cbn [length].
    rewrite Hlen, length_skipn, length_leaf_cells. lia.
  - rewrite length_leaf_cells. intros i Hi.
    rewrite nth_leaf_cells by exact Hi.
    rewrite (leaf_cell_of_source _ (content t p) (cell_num cursor) key value
               (Z.of_nat i) (Z.of_nat i)); try lia;
      [|intros d Hd; apply Hcells; lia].
    destruct (Z.eqb_spec (Z.of_nat i) (cell_num cursor)) as [He|Hne].
    + rewrite app_nth2 by lia. rewrite Hlen.
      replace (i - r)%nat with O by lia. reflexivity.
    + destruct (Z.ltb_spec (cell_num cursor) (Z.of_nat i)).
      * rewrite app_nth2 by lia. rewrite Hlen.
        replace (i - r)%nat with (S (i - r - 1)) by lia.
        cbn [nth]. rewrite nth_skipn, nth_leaf_cells by lia.
        f_equal. lia.
      * rewrite app_nth1 by lia. rewrite nth_firstn.
        destruct (Nat.ltb_spec i r); [|lia].
        symmetry. apply nth_leaf_cells. lia.
Qed.

(** ** The searches on cells in any order *)

Lemma leaf_node_find_loop_total fuel p key t :
  cached t p ->
  cell_count (content t p) <= LEAF_NODE_MAX_CELLS ->
  forall lo hi,
    0 <= lo <= hi -> hi <= cell_count (content t p) ->
    hi - lo < 2 ^ Z.of_nat fuel ->
    wp (leaf_node_find_loop fuel (mkPtr p 0) key lo hi) t
       (fun r t' => t' = t /\ lo <= r <= hi).
Proof.
  intros Hc Hn. consts.
  induction fuel as [|fuel IH]; intros lo hi Hlo Hhi Hf;
    cbn [leaf_node_find_loop]; destruct (Z.eqb_spec hi lo) as [->|Hne].
  - apply wp_ret. split; [reflexivity|lia].
  - cbn in Hf. lia.
  - apply wp_ret. split; [reflexivity|lia].
  - rewrite u32_small by lia.
    assert (lo <= (lo + hi) / 2 < hi) as Hmid
        by (split; [apply Z.div_le_lower_bound | apply Z.div_lt_upper_bound]; lia).
    set (index := (lo + hi) / 2) in *.
    apply wp_bind, wp_load32; ptrs; consts; try lia; [exact Hc|].
    cbv beta.
    pose proof (half_lt (hi - lo) fuel ltac:(lia) Hf).
    destruct (key =? _).
    + apply wp_ret. split; [reflexivity|lia].
    + destruct (key <? _).
      * eapply wp_mono; [apply IH; try lia|].
        -- assert (index - lo <= (hi - lo) / 2); [|lia].
           apply Z.div_le_lower_bound; try lia. subst index.
           pose proof (Z.mul_div_le (lo + hi) 2 ltac:(lia)). lia.
        -- cbv beta. intros r t' (-> & Hr). split; [reflexivity|lia].
      * rewrite u32_small by lia.
        eapply wp_mono; [apply IH; try lia|].
        -- assert (hi - (index + 1) <= (hi - lo) / 2); [|lia].
           apply Z.div_le_lower_bound; try lia. subst index.
           pose proof (Z.mod_pos_bound (lo + hi) 2 ltac:(lia)).
           pose proof (Z.div_mod (lo + hi) 2 ltac:(lia)). lia.
        -- cbv beta. intros r t' (-> & Hr). split; [reflexivity|lia].
Qed.

(** X2.  [leaf_node_find] on any page whose cell count is at most
    [LEAF_NODE_MAX_CELLS], the keys in whatever order: the binary search
    ends, reads no byte outside the page, and returns
    a cursor on the page with a cell number between 0 and the cell count;
    no byte of the store changes. *)
Theorem leaf_node_find_in_bounds mem p key t :
  pager_wf t -> 0 <= p < num_pages (pager t) ->
  cell_count (content t p) <= LEAF_NODE_MAX_CELLS ->
  exists cursor t',
    leaf_node_find mem p key t = Ok cursor t' /\
    (forall m, content t' m = content t m) /\
    page_num cursor = p /\
    0 <= cell_num cursor <= cell_count (content t p).
Proof.
  intros Hwf Hp Hn.
  assert (wp (leaf_node_find mem p key) t
            (fun cursor t' =>
               (forall m, content t' m = content t m) /\
               page_num cursor = p /\
               0 <= cell_num cursor <= cell_count (content t p))) as H.
  { unfold leaf_node_find.
    apply wp_bind, wp_get_page_old; auto.
    apply wp_bind, wp_load32; ptrs; consts; try lia;
      [apply cached_load_page_same|].
    rewrite content_load_page.
    change (get32 (content t p) 6) with (cell_count (content t p)).
    apply wp_bind.
    pose proof (get32_range (content t p) 6) as Hr.
    change (get32 (content t p) 6) with (cell_count (content t p)) in Hr.
    eapply wp_mono.
    - apply leaf_node_find_loop_total with (p := p);
        rewrite ?content_load_page; auto; try lia.
      + apply cached_load_page_same.
      + change (2 ^ Z.of_nat SEARCH_FUEL) with 8589934592. lia.
    - cbv beta. intros r t' [-> Hpost]. apply wp_ret.
      split; [intros m; apply content_load_page|].
      split; [reflexivity | exact Hpost]. }
  apply wp_elim in H as (c & t' & Hrun & H). eauto.
Qed.

(** X3.  [internal_node_find_child] on any node whose cells lie within
    the page, the separators in whatever order: the binary search ends,
    reads no byte outside the page, changes nothing and returns a child
    index between 0 and the key count. *)
Theorem internal_node_find_child_in_bounds p key t :
  cached t p -> keys_in_page (content t p) ->
  exists r,
    internal_node_find_child (mkPtr p 0) key t = Ok r t /\
    0 <= r <= key_count (content t p).
Proof.
  intros Hc Hk.
  assert (wp (internal_node_find_child (mkPtr p 0) key) t
            (fun r t' => t' = t /\ 0 <= r <= key_count (content t p))) as H.
  { unfold internal_node_find_child.
    pose proof Hk as Hk'. unfold keys_in_page in Hk'.
    apply wp_bind, wp_load32; ptrs; consts; try lia; [exact Hc|].
    change (get32 (content t p) 6) with (key_count (content t p)).
    pose proof (get32_range (content t p) 6) as Hr.
    change (get32 (content t p) 6) with (key_count (content t p)) in Hr.
    apply internal_node_find_child_loop_total; auto; try lia.
    change (2 ^ Z.of_nat SEARCH_FUEL) with 8589934592. lia. }
  apply wp_elim in H as (r & t' & Hrun & -> & H). eauto.
Qed.

(** ** [update_internal_node_key] *)

(** * Tables built by inserts *)

(** ** What one insert keeps *)

Lemma insert_row_state MAX mem key value t ls t' :
  tree_rep t ls -> uint32 key -> ~ In key (all_keys ls) ->
  insert_row MAX mem key value t = Ok tt t' ->
  exists ls' A B,
    tree_rep t' ls' /\ all_keys ls = A ++ B /\ all_keys ls' = A ++ key :: B /\
    grown t t' ls ls' key /\
    (forall f, tree_holds t ls f -> tree_holds t' ls' (with_row f key value)).
Proof.
  intros Htree Hkey Hni Hrun.
  assert (wpx (insert_row MAX mem key value) t
            (fun _ t' =>
               exists ls' A B,
                 tree_rep t' ls' /\ all_keys ls = A ++ B /\
                 all_keys ls' = A ++ key :: B /\ grown t t' ls ls' key /\
                 (forall f, tree_holds t ls f ->
                            tree_holds t' ls' (with_row f key value)))) as H.
  { apply wpe_insert_row with (ls := ls); auto.
    intros t1 ls' A B H1 H2 H3 H4 H5. exists ls', A, B. auto. }
  exact (wpx_elim _ _ _ _ _ H Hrun).
Qed.

Lemma grown_pages_used t t' ls ls' key :
  grown t t' ls ls' key -> pages_used t ls -> pages_used t' ls'.
Proof.
  unfold pages_used. intros (j & r & Hj & Hr & H) Hp. cbv zeta in H.
  destruct H as [(_ & -> & ->) | [(_ & Hone & -> & ->) | (_ & Htwo & -> & ->)]].
  - rewrite length_replace_leaf by exact Hj. exact Hp.
  - rewrite Hone in Hp. cbn [Nat.eqb length] in *. lia.
  - rewrite length_split_leaf by exact Hj.
    destruct (Nat.eqb_spec (length ls) 1); [lia|].
    destruct (Nat.eqb_spec (S (length ls)) 1); lia.
Qed.

Lemma grown_half_full t t' ls ls' key :
  grown t t' ls ls' key -> half_full ls -> half_full ls'.
Proof.
  unfold half_full. intros (j & r & Hj & Hr & H) Hh. cbv zeta in H.
  destruct H as [(_ & -> & _) | [(Hl & _ & -> & _) | (Hl & Htwo & -> & _)]].
  - rewrite length_replace_leaf by exact Hj. intros Hlen i Hi.
    rewrite nth_replace_leaf by exact Hj.
    destruct (Nat.eqb_spec i j) as [->|_]; [|auto]. cbn [snd].
    rewrite length_insert_at. pose proof (Hh Hlen j Hj). lia.
  - intros _ i Hi. cbn [length] in Hi.
    destruct i as [|[|i]]; [| |lia]; cbn [nth snd];
      rewrite ?length_firstn, ?length_skipn, Hl; lia.
  - rewrite length_split_leaf by exact Hj. intros _ i Hi.
    rewrite nth_split_leaf by exact Hj.
    destruct (Nat.ltb_spec i j); [apply Hh; lia|].
    destruct (Nat.eqb_spec i j);
      [cbn [snd]; rewrite length_firstn, Hl; lia|].
    destruct (Nat.eqb_spec i (S j));
      [cbn [snd]; rewrite length_skipn, Hl; lia|].
    apply Hh; lia.
Qed.

(** ** What a sequence of inserts keeps *)

Lemma insert_rows_state MAX mem rows : forall t ls f t',
  tree_rep t ls -> pages_used t ls -> half_full ls -> tree_holds t ls f ->
  NoDup (map fst rows) -> Forall uint32 (map fst rows) ->
  (forall k, In k (map fst rows) -> ~ In k (all_keys ls)) ->
  insert_rows MAX mem rows t = Ok tt t' ->
  exists ls',
    tree_rep t' ls' /\ pages_used t' ls' /\ half_full ls' /\
    tree_holds t' ls'
      (fold_left (fun f kv => with_row f (fst kv) (snd kv)) rows f) /\
    Permutation (all_keys ls') (all_keys ls ++ map fst rows).
Proof.
  induction rows as [|[key value] rows IH];
    intros t ls f t' Htree Hpg Hhf Hf Hnd Hu Hnew Hrun.
  - injection Hrun as <-. exists ls. cbn [map fold_left].
    rewrite app_nil_r. auto using Permutation_refl.
  - cbn [insert_rows] in Hrun. unfold bind in Hrun.
    destruct (insert_row MAX mem key value t) as [[] t1| | |] eqn:Hins;
      try discriminate.
    cbn [map fst] in Hnd, Hu, Hnew.
    apply NoDup_cons_iff in Hnd as (Hfresh & Hnd).
    apply Forall_cons_iff in Hu as (Hkey & Hu).
    destruct (insert_row_state MAX mem key value t ls t1 Htree Hkey
                (Hnew key (or_introl eq_refl)) Hins)
      as (ls1 & A & B & Htree1 & HAB & HAB1 & Hg & Hrows).
    destruct (IH t1 ls1 (with_row f key value) t' Htree1
                (grown_pages_used _ _ _ _ _ Hg Hpg)
                (grown_half_full _ _ _ _ _ Hg Hhf) (Hrows f Hf) Hnd Hu)
      as (ls' & Htree' & Hpg' & Hhf' & Hf' & Hperm); [|exact Hrun|].
    + intros k Hk Hin. rewrite HAB1 in Hin.
      apply in_app_or in Hin as [Hin|[<-|Hin]].
      * apply (Hnew k (or_intror Hk)). rewrite HAB. apply in_or_app. auto.
      * contradiction.
      * apply (Hnew k (or_intror Hk)). rewrite HAB. apply in_or_app. auto.
    + exists ls'. split; [exact Htree'|]. split; [exact Hpg'|].
      split; [exact Hhf'|]. split; [exact Hf'|].
      rewrite Hperm, HAB1, HAB. cbn [map fst].
      rewrite <- !app_assoc. apply Permutation_app_head.
      cbn [app]. rewrite <- Permutation_middle. reflexivity.
Qed.

(** The row of a key among rows with pairwise distinct keys. *)
Lemma fold_with_row_other rows : forall f k,
  ~ In k (map fst rows) ->
  fold_left (fun f kv => with_row f (fst kv) (snd kv)) rows f k = f k.
Proof.
  induction rows as [|[key value] rows IH]; intros f k Hk; [reflexivity|].
  cbn [fold_left fst snd]. cbn [map fst In] in Hk.
  rewrite IH by tauto. apply with_row_other. intros ->. tauto.
Qed.

Lemma row_of_in rows d key value :
  NoDup (map fst rows) -> In (key, value) rows -> row_of rows d key = value.
Proof.
  unfold row_of. generalize (fun _ : Z => d).
  induction rows as [|[k v] rows IH]; intros f Hnd Hin; [contradiction|].
  cbn [map fst] in Hnd. apply NoDup_cons_iff in Hnd as (Hfresh & Hnd).
  cbn [fold_left fst snd]. destruct Hin as [Heq|Hin].
  - injection Heq as -> ->. rewrite fold_with_row_other by exact Hfresh.
    apply with_row_same.
  - apply IH; assumption.
Qed.

(** The table after inserts into a new database. *)
Lemma built_table MAX mem rows t0 t d :
  NoDup (map fst rows) -> Forall uint32 (map fst rows) ->
  db_open [] = Ok tt t0 ->
  insert_rows MAX mem rows t0 = Ok tt t ->
  exists ls,
    tree_rep t ls /\ pages_used t ls /\ half_full ls /\
    tree_holds t ls (row_of rows d) /\
    Permutation (all_keys ls) (map fst rows).
Proof.
  intros Hnd Hu Hopen Hrun.
  pose proof (db_open_empty_tree t0 Hopen) as Htree0.
  destruct (insert_rows_state MAX mem rows t0 [(0, [])] (fun _ => d) t)
    as (ls & H1 & H2 & H3 & H4 & H5); auto.
  - unfold pages_used. cbn [length Nat.eqb].
    cbn in Hopen. injection Hopen as <-. reflexivity.
  - intros Hlen. cbn [length] in Hlen. lia.
  - intros j Hj i dd Hi. cbn [length] in Hj.
    assert (j = O) as -> by lia. cbn in Hi. lia.
  - exists ls. repeat (split; [assumption|]). exact H5.
Qed.

(** ** Where [table_find] lands *)

Lemma found_in_leaf t ls key c j :
  tree_rep t ls -> found_at t ls key c j -> In key (all_keys ls) ->
  In key (snd (nth j ls (0, []))).
Proof.
  intros Htree (Hj & _ & _ & Hlt & Hle) Hin.
  pose proof Htree as (_ & _ & _ & Hs & _).
  apply in_all_keys_inv in Hin as (i & Hi & Hin).
  destruct (Nat.lt_trichotomy i j) as [H|[->|H]]; [exfalso| exact Hin |exfalso].
  - pose proof (Hlt i H) as G.
    pose proof (sorted_le_last _ key (sorted_leaf ls i Hs Hi) Hin). lia.
  - pose proof (Hle ltac:(lia)) as G.
    pose proof (tree_leaf_nonempty t ls j Htree ltac:(lia)) as Hne.
    pose proof (sorted_leaves_lt ls Hs j i _ key H Hi (last_In _ Hne) Hin).
    lia.
Qed.

Lemma found_present t ls key c j :
  tree_rep t ls -> found_at t ls key c j -> In key (all_keys ls) ->
  0 <= cell_num c /\
  (Z.to_nat (cell_num c) < length (snd (nth j ls (0%Z, []))))%nat /\
  nth (Z.to_nat (cell_num c)) (snd (nth j ls (0, []))) 0 = key.
Proof.
  intros Htree Hfound Hin.
  pose proof (found_in_leaf t ls key c j Htree Hfound Hin) as Hleaf.
  destruct Hfound as (Hj & Hpage & (Hr & Hpost) & _).
  destruct (tree_leaf t ls j Htree Hj) as (_ & next & (Hkeys & _)).
  rewrite <- Hpage in Hkeys. destruct Hkeys as (_ & Hcnt & _ & Hnth).
  rewrite Hcnt in Hr, Hpost.
  destruct Hpost as [(Hlt & E) | (Hbefore & Hafter)].
  - split; [lia|]. split; [lia|]. rewrite <- Hnth by lia.
    rewrite Z2Nat.id by lia. exact E.
  - exfalso. apply In_nth with (d := 0) in Hleaf as (m & Hm & Em).
    rewrite <- Hnth in Em by exact Hm.
    destruct (Z.lt_ge_cases (Z.of_nat m) (cell_num c)).
    + pose proof (Hbefore (Z.of_nat m) ltac:(lia)). lia.
    + pose proof (Hafter (Z.of_nat m) ltac:(lia)). lia.
Qed.

Lemma permutation_in_iff (l l' : list Z) k :
  Permutation l l' -> (In k l <-> In k l').
Proof.
  intros H. split; [apply Permutation_in; exact H|].
  apply Permutation_in, Permutation_sym, H.
Qed.


(** ** The row under a key *)

Lemma bytes_at_row (c : page) base key value :
  (forall d, 0 <= d < 297 -> c (base + d) = cell_image key value d) ->
  bytes_at c (base + 4) (Z.to_nat ROW_SIZE)
  = bytes_at (of_list (row_bytes value)) 0 (Z.to_nat ROW_SIZE).
Proof.
  intros H. apply bytes_at_rel. consts. intros k Hk.
  replace (base + 4 + k) with (base + (4 + k)) by lia.
  rewrite H by lia. unfold cell_image. consts.
  destruct (Z.ltb_spec (4 + k) 4); [lia|]. f_equal. lia.
Qed.

Lemma find_row_in_tree mem key t ls f :
  tree_rep t ls -> tree_holds t ls f -> In key (all_keys ls) ->
  exists cursor t1 ptr t2,
    table_find mem key t = Ok cursor t1 /\
    cursor_value cursor t1 = Ok ptr t2 /\
    0 <= ptr_off ptr /\ ptr_off ptr + ROW_SIZE <= PAGE_SIZE /\
    bytes_at (content t2 (ptr_page ptr)) (ptr_off ptr) (Z.to_nat ROW_SIZE)
    = bytes_at (of_list (row_bytes (f key))) 0 (Z.to_nat ROW_SIZE).
Proof.
  intros Htree Hrows Hkey.
  assert (wp (table_find mem key) t
            (fun c t' =>
               extends t t' /\ (forall m, content t' m = content t m) /\
               exists j, found_at t ls key c j)) as H.
  { apply (wp_table_find_tree mem key t ls); [exact Htree|].
    intros c t' j He Hc Hfound _. eauto. }
  apply wp_elim in H as (c & t1 & Hfind & He & Hc & j & Hfound).
  destruct (found_present t ls key c j Htree Hfound Hkey) as (H0 & Hlt & E).
  pose proof Hfound as (Hj & Hpage & _).
  destruct (tree_leaf t ls j Htree Hj) as (Hp & next & ((_ & _ & Hlen & _) & _)).
  rewrite <- Hpage in Hp.
  pose proof Htree as (Hwf & _).
  assert (pager_wf t1) as Hwf1 by (apply (extends_wf t); auto).
  assert (wp (cursor_value c) t1
            (fun ptr t2 =>
               ptr = mkPtr (page_num c) (14 + cell_num c * 297 + 4) /\
               forall m, content t2 m = content t m)) as H.
  { unfold cursor_value. apply wp_bind, wp_get_page_old; auto;
      [rewrite (extends_num_pages _ _ He); exact Hp|].
    apply wp_ret. ptrs. consts. split; [reflexivity|].
    intros m. rewrite content_load_page. apply Hc. }
  apply wp_elim in H as (ptr & t2 & Hval & -> & Hc2).
  exists c, t1, (mkPtr (page_num c) (14 + cell_num c * 297 + 4)), t2.
  split; [exact Hfind|]. split; [exact Hval|]. cbn [ptr_page ptr_off].
  consts. split; [lia|]. split; [lia|].
  rewrite Hc2. apply (bytes_at_row _ (14 + cell_num c * 297) key (f key)).
  intros d Hd. pose proof (Hrows j Hj (Z.to_nat (cell_num c)) d Hlt) as G.
  consts. rewrite Z2Nat.id, E in G by lia.
  rewrite <- Hpage in G. apply G. lia.
Qed.

(** X6.  Insert and lookup round trip.  On a table built from a new
    database by inserts of rows with pairwise distinct keys, [table_find]
    of the key of any inserted row followed by [cursor_value] yields a
    pointer to [ROW_SIZE] bytes inside the leaf page, and these bytes are
    the serialized row that was inserted under the key: later inserts and
    splits move rows but do not lose or change them. *)
Theorem find_returns_inserted_row MAX mem mem' rows t0 t key value :
  NoDup (map fst rows) -> Forall uint32 (map fst rows) ->
  db_open [] = Ok tt t0 ->
  insert_rows MAX mem rows t0 = Ok tt t ->
  In (key, value) rows ->
  exists cursor t1 ptr t2,
    table_find mem' key t = Ok cursor t1 /\
    cursor_value cursor t1 = Ok ptr t2 /\
    0 <= ptr_off ptr /\ ptr_off ptr + ROW_SIZE <= PAGE_SIZE /\
    bytes_at (content t2 (ptr_page ptr)) (ptr_off ptr) (Z.to_nat ROW_SIZE)
    = bytes_at (of_list (row_bytes value)) 0 (Z.to_nat ROW_SIZE).
Proof.
  intros Hnd Hu Hopen Hrun Hin.
  destruct (built_table MAX mem rows t0 t (mkRow 0 [] []) Hnd Hu Hopen Hrun)
    as (ls & Htree & _ & _ & Hrows & Hperm).
  assert (In key (all_keys ls)) as Hkey.
  { apply (permutation_in_iff _ _ key Hperm).
    apply in_map_iff. exists (key, value). auto. }
  rewrite <- (row_of_in rows (mkRow 0 [] []) key value Hnd Hin).
  exact (find_row_in_tree mem' key t ls _ Htree Hrows Hkey).
Qed.

(** ** The traversal from a key *)




(** ** Where the traversal starts *)

Lemma wp_table_start mem t ls Q :
  tree_rep t ls ->
  (forall t', extends t t' -> (forall m, content t' m = content t m) ->
              Q (mkCursor (fst (nth 0 ls (0, []))) 0
                   (Nat.eqb (length (snd (nth 0 ls (0%Z, [])))) 0)) t') ->
  wp (table_start mem) t Q.
Proof.
  intros Htree HQ. unfold table_start.
  apply wp_bind, (wp_table_find_tree mem 0 t ls); auto.
  intros c t1 j He1 Hc1 (Hj & Hpage & Hpost & Hlt & _) _.
  pose proof (tree_chain t ls Htree) as Hch.
  pose proof Htree as (Hwf & _ & _ & Hs & _).
  assert (j = O) as ->.
  { destruct j as [|j]; [reflexivity|exfalso].
    pose proof (Hlt O ltac:(lia)) as G.
    destruct (Hch O ltac:(lia)) as (_ & Hk & _).
    pose proof (leaf_keys_last_nonneg _ _ Hk). lia. }
  destruct (Hch O Hj) as (Hp & Hkeys & _).
  destruct c as [p r eot]. cbn [page_num cell_num] in *. subst p.
  set (p := fst (nth 0 ls (0, []))) in *.
  set (ks := snd (nth 0 ls (0, []))) in *.
  assert (r = 0) as ->.
  { apply (find_post_zero (content t p) ks); auto.
    apply sorted_leaf; assumption. }
  assert (pager_wf t1) as Hwf1 by (apply (extends_wf t); auto).
  apply wp_bind, wp_get_page_old; auto;
    [rewrite (extends_num_pages _ _ He1); exact Hp|].
  set (t2 := load_page t1 p).
  assert (extends t t2) as He2.
  { eapply extends_trans; [exact He1|]. apply extends_load_page.
    rewrite (extends_num_pages _ _ He1); exact Hp. }
  assert (forall m, content t2 m = content t m) as Hc2
      by (intros m; unfold t2; rewrite content_load_page; apply Hc1).
  apply wp_bind, wp_load32; ptrs; consts; try lia; [unfold t2; cached_tac|].
  rewrite Hc2. change (get32 (content t p) 6) with (cell_count (content t p)).
  rewrite (proj1 (proj2 Hkeys)).
  apply wp_ret. unfold set_end_of_table. cbn [page_num cell_num].
  replace (Z.of_nat (length ks) =? 0) with (Nat.eqb (length ks) 0);
    [apply HQ; auto|].
  destruct (Nat.eqb_spec (length ks) 0); destruct (Z.eqb_spec (Z.of_nat (length ks)) 0);
    auto; lia.
Qed.

Lemma first_key_least ls :
  StronglySorted Z.lt (all_keys ls) -> (0 < length ls)%nat ->
  snd (nth 0 ls (0, [])) <> [] ->
  forall k, In k (all_keys ls) -> nth 0 (snd (nth 0 ls (0, []))) 0 <= k.
Proof.
  intros Hs Hlen Hne k Hk. destruct ls as [|[p ks] ls]; [cbn in Hlen; lia|].
  cbn [nth snd] in *. rewrite all_keys_cons in Hs, Hk.
  destruct ks as [|k0 ks]; [contradiction|]. cbn [nth app] in *.
  apply sorted_cons in Hs as (_ & Hgt).
  destruct Hk as [<-|Hk]; [lia|]. apply Z.lt_le_incl, Hgt, Hk.
Qed.

(** X8.  Start of the traversal.  On a table built from a new database by
    inserts of rows with pairwise distinct keys, [table_start] returns a
    cursor without changing a byte of the store.  Its [end_of_table] is
    set exactly when no row was inserted; otherwise the cursor is on cell 0
    of a leaf and the key of that cell is the smallest inserted key. *)
Theorem table_start_after_inserts MAX mem mem' rows t0 t :
  NoDup (map fst rows) -> Forall uint32 (map fst rows) ->
  db_open [] = Ok tt t0 ->
  insert_rows MAX mem rows t0 = Ok tt t ->
  exists cursor t',
    table_start mem' t = Ok cursor t' /\
    (forall m, content t' m = content t m) /\
    cell_num cursor = 0 /\
    (rows = [] -> end_of_table cursor = true) /\
    (rows <> [] ->
     end_of_table cursor = false /\
     type_of (content t (page_num cursor)) = NODE_LEAF /\
     0 < cell_count (content t (page_num cursor)) /\
     In (leaf_key (content t (page_num cursor)) 0) (map fst rows) /\
     forall k, In k (map fst rows) ->
               leaf_key (content t (page_num cursor)) 0 <= k).
Proof.
  intros Hnd Hu Hopen Hrun.
  destruct (built_table MAX mem rows t0 t (mkRow 0 [] []) Hnd Hu Hopen Hrun)
    as (ls & Htree & _ & _ & _ & Hperm).
  assert (wp (table_start mem') t
            (fun c t' =>
               c = mkCursor (fst (nth 0 ls (0, []))) 0
                     (Nat.eqb (length (snd (nth 0 ls (0%Z, [])))) 0) /\
               forall m, content t' m = content t m)) as H.
  { apply (wp_table_start mem' t ls); auto. }
  apply wp_elim in H as (c & t' & Hstart & -> & Hc).
  eexists _, t'. split; [exact Hstart|]. split; [exact Hc|].
  cbn [page_num cell_num end_of_table]. split; [reflexivity|].
  pose proof Htree as (_ & _ & _ & Hs & Hshape).
  assert (0 < length ls)%nat as Hlen
      by (destruct Hshape as [(ks & -> & _) | (_ & H & _)]; cbn [length]; lia).
  destruct (tree_leaf t ls O Htree Hlen) as (_ & next & (Hkeys & _)).
  set (p := fst (nth 0 ls (0, []))) in *.
  set (ks := snd (nth 0 ls (0, []))) in *.
  assert (ks = [] -> all_keys ls = []) as Hnil.
  { intros Hks. destruct (Nat.lt_ge_cases 1 (length ls)) as [H|H].
    - pose proof (tree_leaf_nonempty t ls O Htree H). contradiction.
    - rewrite (all_keys_decompose ls 0 Hlen). fold ks.
      rewrite skipn_all2 by lia. rewrite Hks. reflexivity. }
  split.
  - intros ->. cbn [map] in Hperm.
    apply Permutation_sym, Permutation_nil in Hperm.
    destruct ks as [|k ks'] eqn:Eks; [reflexivity|exfalso].
    assert (In k (all_keys ls)) as Hin.
    { apply (in_all_keys ls 0); [exact Hlen|]. fold ks. rewrite Eks.
      left. reflexivity. }
    rewrite Hperm in Hin. exact Hin.
  - intros Hrows.
    assert (ks <> []) as Hne.
    { intros Hks. apply Hrows. apply Hnil in Hks. rewrite Hks in Hperm.
      apply Permutation_nil in Hperm. destruct rows; [reflexivity|].
      discriminate Hperm. }
    destruct Hkeys as (Hty & Hcnt & _ & Hnth).
    assert (0 < length ks)%nat as Hpos
        by (destruct ks; [contradiction | cbn [length]; lia]).
    split; [destruct (Nat.eqb_spec (length ks) 0); [lia | reflexivity]|].
    split; [exact Hty|]. split; [rewrite Hcnt; lia|].
    change (leaf_key (content t p) 0)
      with (leaf_key (content t p) (Z.of_nat 0)). rewrite (Hnth O Hpos).
    split.
    + apply (permutation_in_iff _ _ _ Hperm).
      apply (in_all_keys ls 0); [exact Hlen|]. apply nth_In. exact Hpos.
    + intros k Hk. apply (permutation_in_iff _ _ k Hperm) in Hk.
      apply first_key_least; auto.
Qed.

(** ** The shape of the tree *)

Lemma all_keys_at_least (ls : list (Z * list Z)) n :
  (forall j, (j < length ls)%nat -> (n <= length (snd (nth j ls (0%Z, []))))%nat) ->
  (n * length ls <= length (all_keys ls))%nat.
Proof.
  induction ls as [|[p ks] ls IH]; intros H; [cbn; lia|].
  rewrite all_keys_cons, length_app. cbn [length].
  pose proof (H O ltac:(cbn; lia)) as H0. cbn [nth snd] in H0.
  assert (n * length ls <= length (all_keys ls))%nat.
  { apply IH. intros j Hj. apply (H (S j)). cbn [length]. lia. }
  lia.
Qed.

Lemma leaf_pages_cover t ls q :
  tree_rep t ls -> pages_used t ls -> (2 <= length ls)%nat ->
  1 <= q < num_pages (pager t) ->
  exists j, (j < length ls)%nat /\ fst (nth j ls (0, [])) = q.
Proof.
  intros Htree Hpg Hlen Hq. unfold pages_used in Hpg.
  destruct (Nat.eqb_spec (length ls) 1); [lia|].
  pose proof Htree as (_ & _ & _ & _ & Hshape).
  destruct Hshape as [(ks & -> & _) | (_ & _ & _ & Hlk & Hnd)];
    [cbn [length] in Hlen; lia|].
  assert (incl (map fst ls) (map Z.of_nat (seq 1 (length ls)))) as Hincl.
  { intros p Hp. apply in_map_iff in Hp as ([p' ks] & <- & Hin).
    apply In_nth with (d := (0, [])) in Hin as (j & Hj & E).
    pose proof (proj1 (linked_leaf_ok t ls 0) Hlk j Hj) as (H1 & _).
    rewrite E in H1. cbn [fst] in *.
    apply in_map_iff. exists (Z.to_nat p'). split; [lia|].
    apply in_seq. lia. }
  assert (In q (map fst ls)) as Hin.
  { assert (incl (map Z.of_nat (seq 1 (length ls))) (map fst ls)) as Hback
        by (apply NoDup_length_incl;
            [exact Hnd | rewrite !length_map, length_seq; lia | exact Hincl]).
    apply Hback. apply in_map_iff. exists (Z.to_nat q). split; [lia|].
    apply in_seq. lia. }
  apply in_map_iff in Hin as (x & <- & Hin).
  apply In_nth with (d := (0, [])) in Hin as (j & Hj & <-). eauto.
Qed.

(** X9.  Growth of the root.  On a table built from a new database by
    inserts of rows with pairwise distinct keys: while at most
    [LEAF_NODE_MAX_CELLS] (13) rows were inserted, the store has the one
    page 0, a leaf that holds all the rows; from the fourteenth row on,
    page 0 is an internal node, the store has at least three pages, and
    the key count of the root is the page count minus two (a child for
    each page but the root, and a separator for each child but the
    rightmost). *)
Theorem root_growth MAX mem rows t0 t :
  NoDup (map fst rows) -> Forall uint32 (map fst rows) ->
  db_open [] = Ok tt t0 ->
  insert_rows MAX mem rows t0 = Ok tt t ->
  ((length rows <= 13)%nat ->
   type_of (content t 0) = NODE_LEAF /\
   cell_count (content t 0) = Z.of_nat (length rows) /\
   num_pages (pager t) = 1) /\
  ((14 <= length rows)%nat ->
   type_of (content t 0) = NODE_INTERNAL /\
   3 <= num_pages (pager t) /\
   key_count (content t 0) = num_pages (pager t) - 2).
Proof.
  intros Hnd Hu Hopen Hrun.
  destruct (built_table MAX mem rows t0 t (mkRow 0 [] []) Hnd Hu Hopen Hrun)
    as (ls & Htree & Hpg & Hhf & _ & Hperm).
  pose proof (Permutation_length Hperm) as Hn. rewrite length_map in Hn.
  pose proof Htree as (_ & _ & _ & _ & Hshape). unfold pages_used in Hpg.
  destruct Hshape as [(ks & -> & (Hkeys & _)) | (Hty & Hlen & Hcells & _)].
  - rewrite all_keys_cons, app_nil_r in Hn. cbn [length Nat.eqb] in Hpg.
    destruct Hkeys as (Hty & Hcnt & Hlen & _).
    split; [|lia]. intros _. rewrite Hcnt, Hn. auto.
  - pose proof (all_keys_at_least ls 7 (Hhf Hlen)).
    destruct (Nat.eqb_spec (length ls) 1); [lia|].
    split; [lia|]. intros _. split; [exact Hty|]. split; [lia|].
    rewrite (proj1 Hcells). lia.
Qed.

(** X10.  Fill of the leaves.  On a table built from a new database by
    inserts of rows with pairwise distinct keys, once the root is an
    internal node every other page of the store is a leaf that is at least
    half full: it holds between [LEAF_NODE_LEFT_SPLIT_COUNT] (7) and
    [LEAF_NODE_MAX_CELLS] (13) cells, in strictly ascending key order, is
    not marked root and has page 0 as its parent. *)
Theorem leaves_half_full MAX mem rows t0 t q :
  NoDup (map fst rows) -> Forall uint32 (map fst rows) ->
  db_open [] = Ok tt t0 ->
  insert_rows MAX mem rows t0 = Ok tt t ->
  type_of (content t 0) = NODE_INTERNAL ->
  1 <= q < num_pages (pager t) ->
  type_of (content t q) = NODE_LEAF /\
  LEAF_NODE_LEFT_SPLIT_COUNT <= cell_count (content t q)
  <= LEAF_NODE_MAX_CELLS /\
  strictly_ascending (content t q) /\
  root_flag (content t q) = false /\
  parent_ref (content t q) = 0.
Proof.
  intros Hnd Hu Hopen Hrun Hroot Hq.
  destruct (built_table MAX mem rows t0 t (mkRow 0 [] []) Hnd Hu Hopen Hrun)
    as (ls & Htree & Hpg & Hhf & _ & Hperm).
  pose proof Htree as (_ & _ & _ & Hs & Hshape).
  destruct Hshape as [(ks & -> & ((Hty & _) & _)) | (_ & Hlen & _ & Hlk & _)].
  - rewrite Hty in Hroot. discriminate Hroot.
  - destruct (leaf_pages_cover t ls q Htree Hpg Hlen Hq) as (j & Hj & <-).
    pose proof (proj1 (linked_leaf_ok t ls 0) Hlk j Hj)
      as (_ & _ & (Hkeys & Hrf & Hpr & _)).
    pose proof Hkeys as (Hty & Hcnt & Hmax & _).
    pose proof (Hhf Hlen j Hj) as Hmin.
    split; [exact Hty|]. consts. split; [rewrite Hcnt; lia|].
    split; [|split; [exact Hrf | apply Hpr; reflexivity]].
    apply (leaf_keys_ascending _ _ Hkeys). apply sorted_leaf; assumption.
Qed.

(** ** The root over its leaves *)

(** X11.  The root separates its leaves.  On a table built from a new
    database by inserts of rows with pairwise distinct keys, once the root
    is an internal node: the child of each cell of the root and the child
    after it (the child of the next cell, or the rightmost child after the
    last cell) are two different pages other than the root; the key of
    the cell is the greatest key of its child and smaller than the first
    key of the child after it; the [next_leaf] field of the child is the
    page of the child after it, and that of the rightmost child is 0. *)
Theorem root_separates_leaves MAX mem rows t0 t i :
  NoDup (map fst rows) -> Forall uint32 (map fst rows) ->
  db_open [] = Ok tt t0 ->
  insert_rows MAX mem rows t0 = Ok tt t ->
  type_of (content t 0) = NODE_INTERNAL ->
  0 <= i < key_count (content t 0) ->
  let root := content t 0 in
  let p := child_ref root i in
  let q := if i + 1 <? key_count root then child_ref root (i + 1)
           else right_child_ref root in
  1 <= p < num_pages (pager t) /\ 1 <= q < num_pages (pager t) /\ p <> q /\
  sep_key root i
  = leaf_key (content t p) (cell_count (content t p) - 1) /\
  sep_key root i < leaf_key (content t q) 0 /\
  next_leaf_ref (content t p) = q /\
  next_leaf_ref (content t (right_child_ref root)) = 0.
Proof.
  intros Hnd Hu Hopen Hrun Hroot Hi.
  destruct (built_table MAX mem rows t0 t (mkRow 0 [] []) Hnd Hu Hopen Hrun)
    as (ls & Htree & _ & _ & _ & _).
  pose proof Htree as (_ & _ & _ & Hs & Hshape).
  destruct Hshape
    as [(ks & -> & ((Hty & _) & _)) | (_ & Hlen & Hcells & Hlk & Hpages)].
  { rewrite Hty in Hroot. discriminate Hroot. }
  destruct Hcells as (Hcnt & Hcell & Hright).
  rewrite Hcnt in Hi. cbv zeta. rewrite Hcnt.
  pose proof (proj1 (linked_leaf_ok t ls 0) Hlk) as Hok.
  remember (Z.to_nat i) as j eqn:Ej.
  assert (S j < length ls)%nat as Hj by lia.
  replace i with (Z.of_nat j) by lia.
  destruct (Hcell j Hj) as (Hchild & Hsep). rewrite Hchild, Hsep.
  assert ((if Z.of_nat j + 1 <? Z.of_nat (length ls) - 1
           then child_ref (content t 0) (Z.of_nat j + 1)
           else right_child_ref (content t 0))
          = fst (nth (S j) ls (0, []))) as ->.
  { destruct (Z.ltb_spec (Z.of_nat j + 1) (Z.of_nat (length ls) - 1)).
    - replace (Z.of_nat j + 1) with (Z.of_nat (S j)) by lia.
      apply (Hcell (S j)). lia.
    - rewrite Hright, (last_nth_gen ls).
      replace (length ls - 1)%nat with (S j) by lia. reflexivity. }
  destruct (Hok j ltac:(lia)) as (Hp & Hne & (Hkeys & _ & _ & Hnext)).
  destruct (Hok (S j) Hj) as (Hq & Hne' & (Hkeys' & _)).
  destruct (Nat.ltb_spec (S j) (length ls)); [|lia].
  split; [lia|]. split; [lia|].
  split; [apply (tree_leaf_pages_differ t); auto; lia|].
  destruct Hkeys as (_ & Hc & _ & Hnth).
  destruct Hkeys' as (_ & Hc' & _ & Hnth').
  set (ks := snd (nth j ls (0, []))) in *.
  set (ks' := snd (nth (S j) ls (0, []))) in *.
  assert (0 < length ks)%nat by (destruct ks; [contradiction | cbn; lia]).
  assert (0 < length ks')%nat as Hpos'
    by (destruct ks'; [contradiction | cbn; lia]).
  split; [|split; [|split; [exact Hnext|]]].
  - rewrite Hc, (last_nth_gen ks).
    replace (Z.of_nat (length ks) - 1) with (Z.of_nat (length ks - 1)) by lia.
    symmetry. apply Hnth. lia.
  - pose proof (Hnth' O ltac:(lia)) as G. change (Z.of_nat 0) with 0 in G.
    rewrite G.
    apply (sorted_leaves_lt ls Hs j (S j)); [lia | exact Hj | |].
    + apply last_In. exact Hne.
    + apply nth_In. exact Hpos'.
  - rewrite Hright, (last_nth_gen ls).
    destruct (Hok (length ls - 1)%nat ltac:(lia)) as (_ & _ & (_ & _ & _ & Hl)).
    rewrite Hl. destruct (Nat.ltb_spec (S (length ls - 1)) (length ls)); [lia|].
    reflexivity.
Qed.

(** ** Capacity *)

(** A sequence of inserts returns, or exits on exhausted capacity; it can
    exit only when the rows in the table and the rows to insert are more
    than [n] together, for every [n] up to seven rows per leaf that the
    root and the page store allow (and for 14 in any case). *)
Lemma wpe_insert_rows MAX mem n rows : forall t ls,
  tree_rep t ls -> pages_used t ls -> half_full ls ->
  NoDup (map fst rows) -> Forall uint32 (map fst rows) ->
  (forall k, In k (map fst rows) -> ~ In k (all_keys ls)) ->
  n <= Z.max 14 (7 * Z.min 99 (MAX + 1)) ->
  wpe (insert_rows MAX mem rows) t (fun _ _ => True)
    (fun _ _ => n < Z.of_nat (length (all_keys ls) + length rows)).
Proof.
  induction rows as [|[key value] rows IH];
    intros t ls Htree Hpg Hhf Hnd Hu Hnew Hn.
  - exact I.
  - cbn [insert_rows]. cbn [map fst] in Hnd, Hu, Hnew.
    apply NoDup_cons_iff in Hnd as (Hfresh & Hnd).
    apply Forall_cons_iff in Hu as (Hkey & Hu).
    apply wpe_bind. apply wpe_insert_row with (ls := ls); auto.
    + apply Hnew. left. reflexivity.
    + (* the capacity is reached *)
      intros e t' Hcap. cbn [length]. unfold pages_used in Hpg.
      destruct e; cbn [capacity_reached] in Hcap; consts.
      * destruct (Nat.eqb_spec (length ls) 1) as [H1|H1]; [lia|].
        destruct (Nat.le_gt_cases 2 (length ls)) as [H2|H2]; [|lia].
        pose proof (all_keys_at_least ls 7 (Hhf H2)). lia.
      * destruct Hcap as (H2 & Hmax).
        pose proof (all_keys_at_least ls 7 (Hhf H2)). lia.
    + intros t' ls' A B Htree' HAB HAB' Hg _.
      eapply wpe_mono;
        [apply (IH t' ls' Htree' (grown_pages_used _ _ _ _ _ Hg Hpg)
                  (grown_half_full _ _ _ _ _ Hg Hhf) Hnd Hu)
        | auto |].
      * intros k Hk Hin. rewrite HAB' in Hin.
        apply in_app_or in Hin as [Hin|[<-|Hin]].
        -- apply (Hnew k (or_intror Hk)). rewrite HAB. apply in_or_app. auto.
        -- contradiction.
        -- apply (Hnew k (or_intror Hk)). rewrite HAB. apply in_or_app. auto.
      * exact Hn.
      * cbv beta. intros _ _. rewrite HAB', HAB, !length_app. cbn [length].
        lia.
Qed.

(** X12.  Inserts are safe.  From a new database, a sequence of inserts of
    rows with pairwise distinct 32-bit keys, whatever its length and
    order and whatever [INTERNAL_NODE_MAX_CELLS] is, either returns or
    ends in one of the two fatal exits ([get_page] beyond
    [TABLE_MAX_PAGES], or the internal node that would have to split): no
    call reads or writes outside a page or a page that is not loaded, no
    search or descent runs without end, and [internal_node_find] always
    meets a child of a known type. *)
Theorem insert_rows_safe MAX mem rows t0 :
  NoDup (map fst rows) -> Forall uint32 (map fst rows) ->
  db_open [] = Ok tt t0 ->
  (exists t, insert_rows MAX mem rows t0 = Ok tt t) \/
  (exists e t, insert_rows MAX mem rows t0 = Exit e t).
Proof.
  intros Hnd Hu Hopen.
  pose proof (db_open_empty_tree t0 Hopen) as Htree0.
  assert (wpe (insert_rows MAX mem rows) t0 (fun _ _ => True)
            (fun _ _ =>
               0 < Z.of_nat (length (all_keys [(0, [])]) + length rows)))
    as H.
  { apply wpe_insert_rows; auto; try lia.
    - unfold pages_used. cbn [length Nat.eqb].
      cbn in Hopen. injection Hopen as <-. reflexivity.
    - intros Hlen. cbn [length] in Hlen. lia. }
  unfold wpe in H.
  destruct (insert_rows MAX mem rows t0) as [[] t| e t | |];
    [left | right | |]; eauto; contradiction.
Qed.

(** X13.  Guaranteed capacity.  From a new database, every sequence of
    inserts of rows with pairwise distinct 32-bit keys returns if it is no
    longer than seven rows for each leaf that the root can have
    ([INTERNAL_NODE_MAX_CELLS] + 1 children) and the page store can hold
    (99 pages beside the root); fourteen rows are always possible, as the
    split of the root leaf does not test [INTERNAL_NODE_MAX_CELLS]. *)
Theorem insert_rows_within_capacity MAX mem rows t0 :
  NoDup (map fst rows) -> Forall uint32 (map fst rows) ->
  db_open [] = Ok tt t0 ->
  Z.of_nat (length rows) <= Z.max 14 (7 * Z.min 99 (MAX + 1)) ->
  exists t, insert_rows MAX mem rows t0 = Ok tt t.
Proof.
  intros Hnd Hu Hopen Hlen.
  pose proof (db_open_empty_tree t0 Hopen) as Htree0.
  assert (wpe (insert_rows MAX mem rows) t0 (fun _ _ => True)
            (fun _ _ =>
               Z.of_nat (length rows)
               < Z.of_nat (length (all_keys [(0, [])]) + length rows)))
    as H.
  { apply wpe_insert_rows; auto.
    - unfold pages_used. cbn [length Nat.eqb].
      cbn in Hopen. injection Hopen as <-. reflexivity.
    - intros Hl. cbn [length] in Hl. lia. }
  unfold wpe in H.
  destruct (insert_rows MAX mem rows t0) as [[] t| e t | |];
    try contradiction; [eauto|].
  change (all_keys [(0, [])]) with (@nil Z) in H. cbn [length] in H. lia.
Qed.

(** ** A key that is inserted again *)

Lemma find_present MAX mem mem' rows t0 t key :
  NoDup (map fst rows) -> Forall uint32 (map fst rows) ->
  db_open [] = Ok tt t0 ->
  insert_rows MAX mem rows t0 = Ok tt t ->
  In key (map fst rows) ->
  exists cursor t1,
    table_find mem' key t = Ok cursor t1 /\
    extends t t1 /\ (forall m, content t1 m = content t m) /\
    0 <= page_num cursor < num_pages (pager t) /\
    0 <= cell_num cursor < cell_count (content t (page_num cursor)) /\
    leaf_key (content t (page_num cursor)) (cell_num cursor) = key.
Proof.
  intros Hnd Hu Hopen Hrun Hin.
  destruct (built_table MAX mem rows t0 t (mkRow 0 [] []) Hnd Hu Hopen Hrun)
    as (ls & Htree & _ & _ & _ & Hperm).
  apply (permutation_in_iff _ _ key Hperm) in Hin.
  assert (wp (table_find mem' key) t
            (fun c t' =>
               extends t t' /\ (forall m, content t' m = content t m) /\
               exists j, found_at t ls key c j)) as H.
  { apply (wp_table_find_tree mem' key t ls); [exact Htree|].
    intros c t' j He Hc Hfound _. eauto. }
  apply wp_elim in H as (c & t1 & Hfind & He & Hc & j & Hfound).
  exists c, t1. split; [exact Hfind|]. split; [exact He|]. split; [exact Hc|].
  destruct (found_present t ls key c j Htree Hfound Hin) as (H0 & Hlt & E).
  pose proof Hfound as (Hj & Hpage & _).
  destruct (tree_leaf t ls j Htree Hj) as (Hp & next & (Hkeys & _)).
  rewrite <- Hpage in Hp, Hkeys. split; [exact Hp|].
  destruct Hkeys as (_ & Hcnt & _ & Hnth). split; [lia|].
  rewrite <- (Z2Nat.id (cell_num c)) by lia.
  rewrite Hnth by exact Hlt. exact E.
Qed.

(** X14.  No test for a key that is present.  On a table built from a new
    database by inserts of rows with pairwise distinct keys, the insert of
    a key that is in the table already (at the cursor [table_find] returns
    for it, into a leaf with room) returns: the leaf holds one cell more,
    the new cell is at the cursor's cell number and the cell that held the
    key follows it, so that the leaf has two cells with the key and its
    keys are no longer strictly ascending. *)
Theorem insert_row_again_duplicates MAX mem mem' rows t0 t key value :
  NoDup (map fst rows) -> Forall uint32 (map fst rows) ->
  db_open [] = Ok tt t0 ->
  insert_rows MAX mem rows t0 = Ok tt t ->
  In key (map fst rows) ->
  exists cursor t1,
    table_find mem' key t = Ok cursor t1 /\
    let p := page_num cursor in
    let r := cell_num cursor in
    (cell_count (content t p) < LEAF_NODE_MAX_CELLS ->
     exists t2,
       insert_row MAX mem' key value t = Ok tt t2 /\
       cell_count (content t2 p) = cell_count (content t p) + 1 /\
       leaf_key (content t2 p) r = key /\
       leaf_key (content t2 p) (r + 1) = key /\
       ~ strictly_ascending (content t2 p)).
Proof.
  intros Hnd Hu Hopen Hrun Hin.
  destruct (find_present MAX mem mem' rows t0 t key Hnd Hu Hopen Hrun Hin)
    as (c & t1 & Hfind & He & Hc & Hp & Hr & Hk).
  exists c, t1. split; [exact Hfind|]. cbv zeta. intros Hroom.
  assert (uint32 key) as Hkey.
  { rewrite Forall_forall in Hu. apply Hu, Hin. }
  assert (pager_wf t) as Hwf.
  { destruct (built_table MAX mem rows t0 t (mkRow 0 [] []) Hnd Hu Hopen Hrun)
      as (ls & (Hwf & _) & _). exact Hwf. }
  assert (wp (leaf_node_insert MAX c key value) t1
            (fun _ t2 =>
               cell_count (content t2 (page_num c))
               = cell_count (content t (page_num c)) + 1 /\
               leaf_key (content t2 (page_num c)) (cell_num c) = key /\
               leaf_key (content t2 (page_num c)) (cell_num c + 1) = key))
    as H.
  { apply wp_leaf_node_insert_cells.
    - apply (extends_wf t); assumption.
    - rewrite (extends_num_pages _ _ He). exact Hp.
    - rewrite Hc. exact Hroom.
    - rewrite Hc. lia.
    - intros t2 _ _ _ Hcnt Hcells. rewrite !Hc in Hcnt, Hcells.
      split; [exact Hcnt|]. split.
      + unfold leaf_key. consts.
        rewrite (get32_cell_image _ _ key value).
        * apply u32_small, Hkey.
        * intros d Hd. rewrite Hcells by lia. unfold split_source.
          rewrite Z.eqb_refl. reflexivity.
      + transitivity (leaf_key (content t (page_num c)) (cell_num c));
          [|exact Hk].
        unfold leaf_key. consts.
        apply get32_rel. intros k Hk4. rewrite Hcells by lia.
        unfold split_source. consts.
        destruct (Z.eqb_spec (cell_num c + 1) (cell_num c)); [lia|].
        destruct (Z.ltb_spec (cell_num c) (cell_num c + 1)); [|lia].
        f_equal. lia. }
  apply wp_elim in H as ([] & t2 & Hins & Hcnt & Hk1 & Hk2).
  exists t2. split.
  { unfold insert_row, bind. rewrite Hfind. exact Hins. }
  split; [exact Hcnt|]. split; [exact Hk1|]. split; [exact Hk2|].
  intros Hasc.
  pose proof (Hasc (cell_num c) (cell_num c + 1) ltac:(lia) ltac:(lia)).
  lia.
Qed.
(** * Closing and reopening *)

(** ** The file after a write *)

Lemma length_write_page f n c :
  length (write_page f n c) = Nat.max (length f) (S n).
Proof.
  unfold write_page. rewrite !length_app, length_firstn, repeat_length.
  cbn [length]. rewrite length_skipn. lia.
Qed.

Lemma nth_write_page f n c m :
  nth m (write_page f n c) zero_page
  = if (m =? n)%nat then c else nth m f zero_page.
Proof.
  unfold write_page. rewrite app_assoc.
  assert (length (firstn n f ++ repeat zero_page (n - length f)) = n) as Hlen.
  { rewrite length_app, length_firstn, repeat_length. lia. }
  destruct (Nat.eqb_spec m n) as [->|Hne].
  - rewrite app_nth2 by lia. rewrite Hlen, Nat.sub_diag. reflexivity.
  - destruct (Nat.lt_ge_cases m n) as [Hlt|Hge].
    + rewrite app_nth1 by lia.
      destruct (Nat.lt_ge_cases m (length f)) as [Hm|Hm].
      * rewrite app_nth1 by (rewrite length_firstn; lia).
        rewrite nth_firstn. destruct (Nat.ltb_spec m n); [reflexivity|lia].
      * rewrite app_nth2 by (rewrite length_firstn; lia).
        rewrite (nth_overflow f) by exact Hm.
        apply nth_repeat.
    + rewrite app_nth2 by lia. rewrite Hlen.
      destruct (m - n)%nat as [|k] eqn:E; [lia|]. cbn [nth].
      rewrite nth_skipn. f_equal. lia.
Qed.

(** ** The flush loop *)

(** The loop leaves the bytes of every page as they were, and none of the
    pages it ran over in the cache. *)
Lemma flush_pages_spec n : forall i pg,
  0 <= i -> i + Z.of_nat n <= TABLE_MAX_PAGES ->
  exists pg',
    flush_pages n i pg = Closed pg' /\
    num_pages pg' = num_pages pg /\
    (forall m, pages pg' m
               = if (i <=? m) && (m <? i + Z.of_nat n) then None
                 else pages pg m) /\
    (forall m, 0 <= m ->
               content (mkTable pg' 0) m = content (mkTable pg 0) m) /\
    (length (file pg) <= length (file pg'))%nat /\
    (Z.of_nat (length (file pg'))
     <= Z.max (Z.of_nat (length (file pg))) (i + Z.of_nat n)) /\
    (forall m, i <= m < i + Z.of_nat n -> pages pg m <> None ->
               m < Z.of_nat (length (file pg'))).
Proof.
  induction n as [|n IH]; intros i pg Hi Hn.
  - exists pg. cbn [flush_pages]. split; [reflexivity|]. split; [reflexivity|].
    split.
    { intros m. destruct (Z.leb_spec i m); destruct (Z.ltb_spec m (i + Z.of_nat 0));
        cbn [andb]; try reflexivity; lia. }
    split; [reflexivity|]. split; [lia|]. split; [lia|]. intros m Hm. lia.
  - cbn [flush_pages]. destruct (Z.leb_spec TABLE_MAX_PAGES i) as [H|_]; [lia|].
    destruct (pages pg i) as [c|] eqn:Hc.
    + unfold pager_flush. rewrite Hc.
      set (pg1 := free_page _ i).
      destruct (IH (i + 1) pg1 ltac:(lia) ltac:(lia))
        as (pg' & Hrun & Hnp & Hpages & Hcont & Hlen1 & Hlen2 & Hin).
      exists pg'. split; [exact Hrun|]. split; [rewrite Hnp; reflexivity|].
      assert (length (file pg1) = Nat.max (length (file pg)) (S (Z.to_nat i)))
        as Hl1 by (unfold pg1; cbn [free_page file]; apply length_write_page).
      split.
      { intros m. rewrite Hpages. unfold pg1. cbn [free_page pages].
        destruct (Z.eqb_spec m i);
          destruct (Z.leb_spec (i + 1) m); destruct (Z.leb_spec i m);
          destruct (Z.ltb_spec m (i + 1 + Z.of_nat n));
          destruct (Z.ltb_spec m (i + Z.of_nat (S n)));
          cbn [andb]; try reflexivity; lia. }
      split.
      { intros m Hm. rewrite Hcont by exact Hm.
        unfold content, pg1, free_page, file_page. cbn [pager pages file].
        destruct (Z.eqb_spec m i) as [->|Hne].
        - rewrite nth_write_page, Nat.eqb_refl, Hc. reflexivity.
        - destruct (pages pg m); [reflexivity|]. rewrite nth_write_page.
          destruct (Nat.eqb_spec (Z.to_nat m) (Z.to_nat i)); [lia|].
          reflexivity. }
      split; [lia|]. split; [lia|].
      intros m Hm Hcm. destruct (Z.eq_dec m i) as [->|Hne]; [lia|].
      apply Hin; [lia|]. unfold pg1. cbn [free_page pages].
      destruct (Z.eqb_spec m i); [contradiction|exact Hcm].
    + destruct (IH (i + 1) pg ltac:(lia) ltac:(lia))
        as (pg' & Hrun & Hnp & Hpages & Hcont & Hlen1 & Hlen2 & Hin).
      exists pg'. split; [exact Hrun|]. split; [exact Hnp|].
      split.
      { intros m. rewrite Hpages.
        destruct (Z.eq_dec m i) as [Heq|Hne].
        - rewrite Heq, Hc. destruct (_ && _); destruct (_ && _); reflexivity.
        - destruct (Z.leb_spec (i + 1) m); destruct (Z.leb_spec i m);
            destruct (Z.ltb_spec m (i + 1 + Z.of_nat n));
            destruct (Z.ltb_spec m (i + Z.of_nat (S n)));
            cbn [andb]; try reflexivity; lia. }
      split; [exact Hcont|]. split; [exact Hlen1|]. split; [lia|].
      intros m Hm Hcm. destruct (Z.eq_dec m i) as [->|Hne]; [congruence|].
      apply Hin; [lia | exact Hcm].
Qed.

Lemma file_free_pages n : forall i pg, file (free_pages n i pg) = file pg.
Proof.
  induction n as [|n IH]; intros i pg; [reflexivity|].
  cbn [free_pages]. rewrite IH. destruct (pages pg i); reflexivity.
Qed.

Lemma content_no_cache pg m :
  (forall k, pages pg k = None) ->
  content (mkTable pg 0) m = nth (Z.to_nat m) (file pg) zero_page.
Proof. intros H. unfold content. cbn [pager]. rewrite H. reflexivity. Qed.

Lemma db_close_pages close_result t :
  pager_wf t ->
  (close_result = -1 -> db_close close_result t = CloseExit) /\
  (close_result <> -1 ->
   exists f,
     db_close close_result t = Closed f /\
     (forall n, 0 <= n < num_pages (pager t) ->
                nth (Z.to_nat n) f zero_page = content t n) /\
     (length (file (pager t)) <= length f)%nat /\
     Z.of_nat (length f) <= num_pages (pager t) /\
     (forall n, cached t n -> n < Z.of_nat (length f))).
Proof.
  intros (Hnp & Hfile & Hcached).
  destruct (flush_pages_spec (Z.to_nat (num_pages (pager t))) 0 (pager t))
    as (pg' & Hrun & Hnp' & Hpages & Hcont & Hlen1 & Hlen2 & Hin);
    [lia | lia |].
  unfold db_close. cbv zeta. rewrite Hrun. split.
  - intros ->. reflexivity.
  - intros Hr. destruct (Z.eqb_spec close_result (-1)) as [|_]; [contradiction|].
    eexists. split; [reflexivity|]. rewrite file_free_pages.
    assert (forall k, pages pg' k = None) as Hnone.
    { intros k. rewrite Hpages.
      destruct (Z.leb_spec 0 k); destruct (Z.ltb_spec k (0 + Z.of_nat (Z.to_nat (num_pages (pager t)))));
        cbn [andb]; try reflexivity.
      - destruct (pages (pager t) k) eqn:E; [|reflexivity].
        assert (cached t k) as Hk by (unfold cached; congruence).
        apply Hcached in Hk. lia.
      - destruct (pages (pager t) k) eqn:E; [|reflexivity].
        assert (cached t k) as Hk by (unfold cached; congruence).
        apply Hcached in Hk. lia.
      - destruct (pages (pager t) k) eqn:E; [|reflexivity].
        assert (cached t k) as Hk by (unfold cached; congruence).
        apply Hcached in Hk. lia. }
    split.
    { intros n Hn. rewrite <- (content_no_cache pg' n Hnone).
      rewrite Hcont by lia. destruct t as [pg r]. reflexivity. }
    split; [exact Hlen1|]. split; [lia|].
    intros n Hn. apply Hin; [|exact Hn]. apply Hcached in Hn. lia.
Qed.


(** ** The table that [db_open] reads back *)

Lemma linked_same_content t t1 ls : forall stop,
  num_pages (pager t1) = num_pages (pager t) ->
  (forall n, 0 <= n < num_pages (pager t) -> content t1 n = content t n) ->
  linked t ls stop -> linked t1 ls stop.
Proof.
  intros stop Hnp Hc. induction ls as [|[p ks] ls IH]; [auto|].
  cbn [linked]. intros (Hp & Hne & Hleaf & Hrest).
  split; [lia|]. split; [exact Hne|]. split; [|apply IH; exact Hrest].
  unfold leaf_at in *. rewrite Hc by lia. exact Hleaf.
Qed.

Lemma tree_rep_same_content t t1 ls :
  tree_rep t ls -> pager_wf t1 -> root_page_num t1 = 0 ->
  num_pages (pager t1) = num_pages (pager t) ->
  (forall n, 0 <= n < num_pages (pager t) -> content t1 n = content t n) ->
  tree_rep t1 ls.
Proof.
  intros (Hwf & Hroot & Hpos & Hs & Hshape) Hwf1 Hroot1 Hnp Hc.
  split; [exact Hwf1|]. split; [exact Hroot1|]. split; [lia|].
  split; [exact Hs|].
  destruct Hshape as [(ks & -> & Hl) | (Hty & Hlen & Hcells & Hlk & Hnd)].
  - left. exists ks. split; [reflexivity|].
    unfold leaf_at in *. rewrite Hc by lia. exact Hl.
  - right. rewrite Hc by lia. split; [exact Hty|]. split; [exact Hlen|].
    split; [exact Hcells|]. split; [|exact Hnd].
    apply (linked_same_content t); assumption.
Qed.

Lemma tree_holds_same_content t t1 ls f :
  tree_rep t ls ->
  (forall n, 0 <= n < num_pages (pager t) -> content t1 n = content t n) ->
  tree_holds t ls f -> tree_holds t1 ls f.
Proof.
  intros Htree Hc Hrows j Hj.
  destruct (tree_leaf t ls j Htree Hj) as (Hp & _).
  rewrite Hc by exact Hp. apply Hrows, Hj.
Qed.

(** The page with the greatest number is a leaf. *)
Lemma top_page_leaf t ls :
  tree_rep t ls -> pages_used t ls ->
  type_of (content t (num_pages (pager t) - 1)) = NODE_LEAF.
Proof.
  intros Htree Hpg. pose proof Htree as (_ & _ & _ & _ & Hshape).
  destruct Hshape as [(ks & -> & Hl) | (_ & Hlen & _)].
  - unfold pages_used in Hpg. cbn [length Nat.eqb] in Hpg. rewrite Hpg.
    apply Hl.
  - pose proof Hpg as Hpg'. unfold pages_used in Hpg'.
    destruct (Nat.eqb_spec (length ls) 1); [lia|].
    destruct (leaf_pages_cover t ls (num_pages (pager t) - 1) Htree Hpg Hlen)
      as (j & Hj & E); [lia|].
    destruct (tree_leaf t ls j Htree Hj) as (_ & next & (Hkeys & _)).
    rewrite E in Hkeys. apply Hkeys.
Qed.

Lemma reopen_tree t ls close_result f :
  tree_rep t ls -> pages_used t ls ->
  db_close close_result t = Closed f ->
  exists t1,
    db_open f = Ok tt t1 /\
    num_pages (pager t1) = num_pages (pager t) /\
    (forall n, 0 <= n < num_pages (pager t) -> content t1 n = content t n) /\
    (forall n, ~ cached t1 n) /\
    tree_rep t1 ls.
Proof.
  intros Htree Hpg Hclose.
  pose proof Htree as (Hwf & _ & Hpos & _).
  destruct (db_close_pages close_result t Hwf) as (Hfail & Hok).
  assert (close_result <> -1) as Hr.
  { intros E. rewrite (Hfail E) in Hclose. discriminate. }
  destruct (Hok Hr) as (f' & Hrun & Hpages & _ & Hlen & _).
  rewrite Hrun in Hclose. injection Hclose as ->.
  assert (Z.of_nat (length f) = num_pages (pager t)) as Hlen'.
  { destruct (Z.lt_ge_cases (Z.of_nat (length f)) (num_pages (pager t)))
      as [Hlt|]; [exfalso|lia].
    pose proof (top_page_leaf t ls Htree Hpg) as Htop.
    rewrite <- Hpages in Htop by lia.
    rewrite nth_overflow in Htop by lia. vm_compute in Htop. discriminate. }
  exists (mkTable (pager_open f) 0).
  assert (forall n, 0 <= n < num_pages (pager t) ->
                    content (mkTable (pager_open f) 0) n = content t n) as Hc.
  { intros n Hn. rewrite <- Hpages by exact Hn. reflexivity. }
  split.
  { unfold db_open. cbv zeta. cbn [pager_open num_pages].
    destruct (Z.eqb_spec (Z.of_nat (length f)) 0); [lia|reflexivity]. }
  split; [exact Hlen'|]. split; [exact Hc|].
  split; [intros n H; apply H; reflexivity|].
  apply (tree_rep_same_content t); auto.
  destruct Hwf as (Hnp & _).
  split; [cbn; lia|]. split; [cbn; lia|].
  intros m H. exfalso. apply H. reflexivity.
Qed.

(** X16.  Rows survive close and open.  A table built from a new database by
    inserts of rows with pairwise distinct keys, closed by [db_close]
    (which returned) and opened again by [db_open] on the file that the
    close left: [db_open] returns a table with the same page count whose
    pages, none of them loaded yet, have the bytes they had before the
    close; the traversal visits exactly the inserted keys in strictly
    ascending order, and [table_find] with [cursor_value] yields the
    serialized row of every inserted key. *)
Theorem rows_survive_close_and_open MAX mem mem' rows t0 t close_result f
    fuel :
  NoDup (map fst rows) -> Forall uint32 (map fst rows) ->
  db_open [] = Ok tt t0 ->
  insert_rows MAX mem rows t0 = Ok tt t ->
  db_close close_result t = Closed f ->
  (length rows <= fuel)%nat ->
  exists t1,
    db_open f = Ok tt t1 /\
    num_pages (pager t1) = num_pages (pager t) /\
    (forall n, 0 <= n < num_pages (pager t) -> content t1 n = content t n) /\
    (forall n, ~ cached t1 n) /\
    (exists visited t2,
       scan fuel mem' t1 = Ok visited t2 /\
       StronglySorted Z.lt visited /\
       Permutation visited (map fst rows)) /\
    (forall key value, In (key, value) rows ->
       exists cursor t2 ptr t3,
         table_find mem' key t1 = Ok cursor t2 /\
         cursor_value cursor t2 = Ok ptr t3 /\
         bytes_at (content t3 (ptr_page ptr)) (ptr_off ptr)
           (Z.to_nat ROW_SIZE)
         = bytes_at (of_list (row_bytes value)) 0 (Z.to_nat ROW_SIZE)).
Proof.
  intros Hnd Hu Hopen Hrun Hclose Hfuel.
  destruct (built_table MAX mem rows t0 t (mkRow 0 [] []) Hnd Hu Hopen Hrun)
    as (ls & Htree & Hpg & _ & Hrows & Hperm).
  destruct (reopen_tree t ls close_result f Htree Hpg Hclose)
    as (t1 & Hopen1 & Hnp & Hc & Hnone & Htree1).
  exists t1. split; [exact Hopen1|]. split; [exact Hnp|].
  split; [exact Hc|]. split; [exact Hnone|]. split.
  - assert (length (all_keys ls) <= fuel)%nat as Hlen.
    { rewrite (Permutation_length Hperm), length_map. exact Hfuel. }
    destruct (wp_elim _ _ _
                (wp_scan fuel mem' t1 ls
                   (fun l _ => l = all_keys ls) Htree1 Hlen
                   (fun _ _ _ => eq_refl)))
      as (l & t2 & Hscan & ->).
    exists (all_keys ls), t2. split; [exact Hscan|].
    split; [apply Htree | exact Hperm].
  - intros key value Hin.
    assert (In key (all_keys ls)) as Hkey.
    { apply (permutation_in_iff _ _ key Hperm).
      apply in_map_iff. exists (key, value). auto. }
    pose proof (tree_holds_same_content t t1 ls _ Htree Hc Hrows) as Hrows1.
    destruct (find_row_in_tree mem' key t1 ls _ Htree1 Hrows1 Hkey)
      as (c & t2 & ptr & t3 & Hfind & Hval & _ & _ & Hbytes).
    rewrite (row_of_in rows (mkRow 0 [] []) key value Hnd Hin) in Hbytes.
    exists c, t2, ptr, t3. auto.
Qed.

(** ** Inserts into a table that was opened again *)

Lemma row_of_app rows1 rows2 d :
  fold_left (fun f kv => with_row f (fst kv) (snd kv)) rows2 (row_of rows1 d)
  = row_of (rows1 ++ rows2) d.
Proof. unfold row_of. rewrite fold_left_app. reflexivity. Qed.

Lemma nodup_app_disjoint (l l' : list Z) a :
  NoDup (l ++ l') -> In a l -> In a l' -> False.
Proof.
  induction l as [|x l IH]; intros Hnd Hl Hl'; [contradiction|].
  cbn [app] in Hnd. apply NoDup_cons_iff in Hnd as (Hx & Hnd).
  destruct Hl as [->|Hl]; [|auto].
  apply Hx, in_or_app. auto.
Qed.

(** X17.  Inserts after close and open.  Rows inserted into a new database,
    the table closed by [db_close] and opened again by [db_open] on the
    file the close left, then further rows inserted, all keys pairwise
    distinct: the table is as if it had never been closed.  The traversal
    visits exactly the keys of both sequences of inserts in strictly
    ascending order, and [table_find] with [cursor_value] yields the
    serialized row of every key inserted before or after the close. *)
Theorem inserts_after_close_and_open MAX mem mem' rows1 rows2 t0 t
    close_result f t1 t2 fuel :
  NoDup (map fst (rows1 ++ rows2)) ->
  Forall uint32 (map fst (rows1 ++ rows2)) ->
  db_open [] = Ok tt t0 ->
  insert_rows MAX mem rows1 t0 = Ok tt t ->
  db_close close_result t = Closed f ->
  db_open f = Ok tt t1 ->
  insert_rows MAX mem rows2 t1 = Ok tt t2 ->
  (length (rows1 ++ rows2) <= fuel)%nat ->
  (exists visited t3,
     scan fuel mem' t2 = Ok visited t3 /\
     StronglySorted Z.lt visited /\
     Permutation visited (map fst (rows1 ++ rows2))) /\
  (forall key value, In (key, value) (rows1 ++ rows2) ->
     exists cursor t3 ptr t4,
       table_find mem' key t2 = Ok cursor t3 /\
       cursor_value cursor t3 = Ok ptr t4 /\
       bytes_at (content t4 (ptr_page ptr)) (ptr_off ptr)
         (Z.to_nat ROW_SIZE)
       = bytes_at (of_list (row_bytes value)) 0 (Z.to_nat ROW_SIZE)).
Proof.
  intros Hnd Hu Hopen Hrun Hclose Hopen1 Hrun2 Hfuel.
  pose proof Hnd as Hnd'. pose proof Hu as Hu'.
  rewrite map_app in Hnd', Hu'.
  apply Forall_app in Hu' as (Hu1 & Hu2).
  pose proof (NoDup_app_remove_r _ _ Hnd') as Hnd1.
  pose proof (NoDup_app_remove_l _ _ Hnd') as Hnd2.
  destruct (built_table MAX mem rows1 t0 t (mkRow 0 [] []) Hnd1 Hu1 Hopen Hrun)
    as (ls & Htree & Hpg & Hhf & Hrows & Hperm).
  destruct (reopen_tree t ls close_result f Htree Hpg Hclose)
    as (t1' & Hopen1' & Hnp & Hc & _ & Htree1).
  rewrite Hopen1 in Hopen1'. injection Hopen1' as <-.
  destruct (insert_rows_state MAX mem rows2 t1 ls (row_of rows1 (mkRow 0 [] []))
              t2 Htree1)
    as (ls2 & Htree2 & _ & _ & Hrows2 & Hperm2); auto.
  - unfold pages_used in *. rewrite Hnp. exact Hpg.
  - apply (tree_holds_same_content t); assumption.
  - intros k Hk2 Hk. apply (permutation_in_iff _ _ k Hperm) in Hk.
    exact (nodup_app_disjoint _ _ k Hnd' Hk Hk2).
  - rewrite row_of_app in Hrows2.
    assert (Permutation (all_keys ls2) (map fst (rows1 ++ rows2))) as Hall.
    { rewrite Hperm2, map_app. apply Permutation_app_tail. exact Hperm. }
    split.
    + assert (length (all_keys ls2) <= fuel)%nat as Hlen.
      { rewrite (Permutation_length Hall), length_map. exact Hfuel. }
      destruct (wp_elim _ _ _
                  (wp_scan fuel mem' t2 ls2
                     (fun l _ => l = all_keys ls2) Htree2 Hlen
                     (fun _ _ _ => eq_refl)))
        as (l & t3 & Hscan & ->).
      exists (all_keys ls2), t3. split; [exact Hscan|].
      split; [apply Htree2 | exact Hall].
    + intros key value Hin.
      assert (In key (all_keys ls2)) as Hkey.
      { apply (permutation_in_iff _ _ key Hall).
        apply in_map_iff. exists (key, value). auto. }
      destruct (find_row_in_tree mem' key t2 ls2 _ Htree2 Hrows2 Hkey)
        as (c & t3 & ptr & t4 & Hfind & Hval & _ & _ & Hbytes).
      rewrite (row_of_in (rows1 ++ rows2) (mkRow 0 [] []) key value Hnd Hin)
        in Hbytes.
      exists c, t3, ptr, t4. auto.
Qed.

(** ** The theorems at sample tables *)

Lemma pager_wf_table_of l :
  Z.of_nat (length l) <= TABLE_MAX_PAGES -> pager_wf (table_of l).
Proof.
  intros H. repeat split; simpl; try lia;
    unfold cached, table_of in H0; simpl in H0;
    destruct (Z.leb_spec 0 m); destruct (Z.ltb_spec m (Z.of_nat (length l)));
    simpl in H0; congruence || lia.
Qed.

Lemma cached_table_of l m :
  0 <= m < Z.of_nat (length l) -> cached (table_of l) m.
Proof.
  intros H. unfold cached, table_of. simpl.
  destruct (Z.leb_spec 0 m); destruct (Z.ltb_spec m (Z.of_nat (length l)));
    simpl; congruence || lia.
Qed.

Lemma sample_leaf_ascending : strictly_ascending sample_leaf.
Proof.
  intros i j Hi Hj. change (cell_count sample_leaf) with 3 in Hj.
  assert ((i = 0 /\ j = 1) \/ (i = 0 /\ j = 2) \/ (i = 1 /\ j = 2))
    as [[-> ->] | [[-> ->] | [-> ->]]] by lia; vm_compute; reflexivity.
Qed.

Lemma sample_internal_ascending : separators_ascending sample_internal.
Proof.
  intros i j Hi Hj. change (key_count sample_internal) with 2 in Hj.
  assert ((i = 0 /\ j = 0) \/ (i = 0 /\ j = 1) \/ (i = 1 /\ j = 1))
    as [[-> ->] | [[-> ->] | [-> ->]]] by lia; vm_compute; discriminate.
Qed.

Lemma leaf_node_find_correct_witness :
  exists cursor t',
    leaf_node_find (mkCursor 0 0 false) 0 20 (table_of [sample_leaf])
    = Ok cursor t' /\ page_num cursor = 0 /\ cell_num cursor = 1.
Proof.
  destruct (leaf_node_find_correct (mkCursor 0 0 false) 0 20
              (table_of [sample_leaf]))
    as (cursor & t' & Hrun & _ & Hpg & _ & Hhit & _).
  - apply pager_wf_table_of. vm_compute. discriminate.
  - simpl. lia.
  - vm_compute. discriminate.
  - exact sample_leaf_ascending.
  - exists cursor, t'. split; [exact Hrun|]. split; [exact Hpg|].
    apply Hhit; vm_compute; intuition congruence.
Defined.

Lemma internal_node_find_child_correct_witness :
  exists r,
    internal_node_find_child (mkPtr 0 0) 15 (table_of [sample_internal])
    = Ok r (table_of [sample_internal]) /\ r = 1.
Proof.
  destruct (internal_node_find_child_correct 0 15
              (table_of [sample_internal]))
    as (r & Hrun & Hrange & Hl & Hr & _).
  - apply cached_table_of. simpl. lia.
  - vm_compute. discriminate.
  - exact sample_internal_ascending.
  - exists r. split; [exact Hrun|].
    change (key_count (content (table_of [sample_internal]) 0)) with 2
      in Hrange, Hr.
    assert (r = 0 \/ r = 1 \/ r = 2) as [-> | [-> | ->]] by lia.
    + specialize (Hr 0 ltac:(lia)). vm_compute in Hr. congruence.
    + reflexivity.
    + specialize (Hl 1 ltac:(lia)). vm_compute in Hl. discriminate.
Defined.

Lemma cursor_advance_keeps_end_of_table_witness :
  exists cursor' t',
    advance_times 3 (mkCursor 0 2 true) (table_of [sample_leaf])
    = Ok cursor' t' /\ end_of_table cursor' = true.
Proof.
  destruct (cursor_advance_keeps_end_of_table 3 (mkCursor 0 2 true)
              (table_of [sample_leaf]))
    as (cursor' & t' & Hrun & Hend & _).
  - apply pager_wf_table_of. vm_compute. discriminate.
  - simpl. lia.
  - vm_compute. reflexivity.
  - reflexivity.
  - exists cursor', t'. auto.
Defined.


Lemma internal_node_insert_full_exits_witness :
  exists t',
    internal_node_insert 2 0 4 sample_tree = Exit NeedToSplitInternalNode t' /\
    key_count (content t' 0) = 3.
Proof.
  destruct (internal_node_insert_full_exits 2 0 4 sample_tree)
    as (t' & Hrun & Hk & _).
  - apply pager_wf_table_of. vm_compute. discriminate.
  - simpl. lia.
  - simpl. lia.
  - vm_compute. reflexivity.
  - vm_compute. reflexivity.
  - vm_compute. discriminate.
  - split; vm_compute; [reflexivity | intuition discriminate].
  - exists t'. split; [exact Hrun | exact Hk].
Defined.

Lemma create_new_root_correct_witness :
  exists t',
    create_new_root 1 (table_of [sample_leaf; sample_leaf_of 40]) = Ok tt t' /\
    key_count (content t' 0) = 1 /\ sep_key (content t' 0) 0 = 30.
Proof.
  destruct (create_new_root_correct 1
              (table_of [sample_leaf; sample_leaf_of 40]))
    as (t' & Hrun & H).
  - apply pager_wf_table_of. vm_compute. discriminate.
  - reflexivity.
  - simpl. lia.
  - vm_compute. reflexivity.
  - split; vm_compute; [reflexivity | intuition discriminate].
  - exists t'. split; [exact Hrun|].
    destruct H as (_ & _ & _ & _ & _ & _ & _ & Hk & _ & Hs & _).
    split; [exact Hk | exact Hs].
Defined.

Lemma internal_node_insert_correct_witness :
  exists t' index,
    internal_node_insert 3 0 4 sample_tree = Ok tt t' /\
    index = 1 /\ key_count (content t' 0) = 3.
Proof.
  destruct (internal_node_insert_correct 3 0 4 sample_tree)
    as (t' & index & Hrun & (Hr & Hl & Hg) & _ & Hk & _).
  - apply pager_wf_table_of. vm_compute. discriminate.
  - simpl. lia.
  - simpl. lia.
  - vm_compute. reflexivity.
  - vm_compute. reflexivity.
  - vm_compute. discriminate.
  - exact sample_internal_ascending.
  - split; vm_compute; [reflexivity | intuition discriminate].
  - vm_compute. intuition discriminate.
  - split; vm_compute; [reflexivity | intuition discriminate].
  - exists t', index. split; [exact Hrun|]. split; [|exact Hk].
    change (key_count (content sample_tree 0)) with 2 in Hr, Hg.
    assert (index = 0 \/ index = 1 \/ index = 2) as [-> | [-> | ->]] by lia.
    + specialize (Hg 0 ltac:(lia)). vm_compute in Hg. congruence.
    + reflexivity.
    + specialize (Hl 1 ltac:(lia)). vm_compute in Hl. discriminate.
Defined.

Lemma file_ok_nil : file_ok [].
Proof. split; [simpl; consts; lia | intros H; contradiction H; reflexivity]. Qed.

Lemma root_is_always_page_0_witness :
  match db_open [] with
  | Ok _ t0 =>
      match run_operation 3 (Insert (mkCursor 0 0 false) 5 (mkRow 5 [] [])) t0
      with
      | Ok _ t1 => root_page_num t1 = 0 /\ root_flag (content t1 0) = true
      | _ => False
      end
  | _ => False
  end.
Proof.
  destruct (db_open []) as [[] t0| | |] eqn:E0;
    try (vm_compute in E0; discriminate).
  destruct (run_operation 3 (Insert (mkCursor 0 0 false) 5 (mkRow 5 [] [])) t0)
    as [[] t1| | |] eqn:E1.
  - assert (reachable 3 t1) as Hreach.
    { apply reachable_step with (t := t0)
        (o := Insert (mkCursor 0 0 false) 5 (mkRow 5 [] [])).
      - apply reachable_open with (f := []); [exact file_ok_nil | exact E0].
      - vm_compute. intuition discriminate.
      - exact E1. }
    destruct (root_is_always_page_0 3 t1 Hreach) as (Hroot & Hflags & _).
    split; [exact Hroot | apply Hflags; lia].
  - vm_compute in E0. injection E0 as <-. vm_compute in E1. discriminate.
  - vm_compute in E0. injection E0 as <-. vm_compute in E1. discriminate.
  - vm_compute in E0. injection E0 as <-. vm_compute in E1. discriminate.
Defined.

Lemma returns_final (o : outcome unit) d :
  returns o = true -> o = Ok tt (final o d).
Proof. destruct o as [[] t| | |]; try discriminate. reflexivity. Qed.

Lemma ascending_traversal_witness :
  exists visited t',
    scan 22 (mkCursor 0 0 true) sample_filled = Ok visited t' /\
    StronglySorted Z.lt visited /\
    Permutation visited (map fst sample_rows).
Proof.
  apply (ascending_traversal 3 (mkCursor 0 0 true) (mkCursor 0 0 true)
           sample_rows sample_empty sample_filled 22).
  - cbn [sample_rows sample_row map fst].
    repeat (constructor;
            [intros H; cbn [In] in H;
             repeat (destruct H as [H|H]; [discriminate H|]); exact H|]).
    constructor.
  - cbn [sample_rows sample_row map fst].
    repeat (constructor; [unfold uint32; lia|]). constructor.
  - apply returns_final. vm_compute. reflexivity.
  - apply returns_final. vm_compute. reflexivity.
  - cbn. lia.
Defined.

(** ** The further properties at sample tables *)

(** The sample run, for the properties of tables built by inserts. *)
Lemma sample_keys_distinct : NoDup (map fst sample_rows).
Proof.
  cbn [sample_rows sample_row map fst].
  repeat (constructor;
          [intros H; cbn [In] in H;
           repeat (destruct H as [H|H]; [discriminate H|]); exact H|]).
  constructor.
Qed.

Lemma sample_keys_in_range : Forall uint32 (map fst sample_rows).
Proof.
  cbn [sample_rows sample_row map fst].
  repeat (constructor; [unfold uint32; lia|]). constructor.
Qed.

Lemma sample_empty_opened : db_open [] = Ok tt sample_empty.
Proof. apply returns_final. vm_compute. reflexivity. Qed.

Lemma sample_filled_built :
  insert_rows 3 (mkCursor 0 0 true) sample_rows sample_empty
  = Ok tt sample_filled.
Proof. apply returns_final. vm_compute. reflexivity. Qed.

Lemma closes_file (c : closing (list page)) :
  closes c = true -> c = Closed (closed_file c).
Proof. destruct c; try discriminate. reflexivity. Qed.

Lemma leaf_node_insert_room_correct_witness :
  exists t',
    leaf_node_insert 3 (mkCursor 0 1 false) 15 (mkRow 15 [] [])
      (table_of [sample_leaf]) = Ok tt t' /\
    cell_count (content t' 0) = 4.
Proof.
  destruct (leaf_node_insert_room_correct 3 (mkCursor 0 1 false) 15
              (mkRow 15 [] []) (table_of [sample_leaf]))
    as (t' & Hrun & Hcnt & _).
  - apply pager_wf_table_of. vm_compute. discriminate.
  - simpl. lia.
  - vm_compute. reflexivity.
  - vm_compute. intuition discriminate.
  - exists t'. split; [exact Hrun | exact Hcnt].
Defined.

Lemma leaf_node_find_in_bounds_witness :
  exists cursor t',
    leaf_node_find (mkCursor 0 0 false) 0 20 (table_of [sample_leaf])
    = Ok cursor t' /\ 0 <= cell_num cursor <= 3.
Proof.
  destruct (leaf_node_find_in_bounds (mkCursor 0 0 false) 0 20
              (table_of [sample_leaf]))
    as (cursor & t' & Hrun & _ & _ & Hcell).
  - apply pager_wf_table_of. vm_compute. discriminate.
  - simpl. lia.
  - vm_compute. discriminate.
  - exists cursor, t'. split; [exact Hrun | exact Hcell].
Defined.

Lemma internal_node_find_child_in_bounds_witness :
  exists r,
    internal_node_find_child (mkPtr 0 0) 15 (table_of [sample_internal])
    = Ok r (table_of [sample_internal]) /\ 0 <= r <= 2.
Proof.
  destruct (internal_node_find_child_in_bounds 0 15
              (table_of [sample_internal])) as (r & Hrun & Hr).
  - apply cached_table_of. simpl. lia.
  - vm_compute. discriminate.
  - exists r. split; [exact Hrun | exact Hr].
Defined.



Lemma find_returns_inserted_row_witness :
  exists cursor t1 ptr t2,
    table_find (mkCursor 0 0 false) 30 sample_filled = Ok cursor t1 /\
    cursor_value cursor t1 = Ok ptr t2 /\
    bytes_at (content t2 (ptr_page ptr)) (ptr_off ptr) (Z.to_nat ROW_SIZE)
    = bytes_at (of_list (row_bytes (snd (sample_row 30)))) 0
        (Z.to_nat ROW_SIZE).
Proof.
  destruct (find_returns_inserted_row 3 (mkCursor 0 0 true)
              (mkCursor 0 0 false) sample_rows sample_empty sample_filled
              30 (snd (sample_row 30)))
    as (cursor & t1 & ptr & t2 & Hfind & Hval & _ & _ & Hrow).
  - exact sample_keys_distinct.
  - exact sample_keys_in_range.
  - exact sample_empty_opened.
  - exact sample_filled_built.
  - cbn [sample_rows sample_row map snd In]. do 3 right. left. reflexivity.
  - exists cursor, t1, ptr, t2. auto.
Defined.


Lemma table_start_after_inserts_witness :
  exists cursor t',
    table_start (mkCursor 0 0 true) sample_filled = Ok cursor t' /\
    end_of_table cursor = false /\
    leaf_key (content sample_filled (page_num cursor)) 0 <= 5.
Proof.
  destruct (table_start_after_inserts 3 (mkCursor 0 0 true)
              (mkCursor 0 0 true) sample_rows sample_empty sample_filled)
    as (cursor & t' & Hrun & _ & _ & _ & Hrows).
  - exact sample_keys_distinct.
  - exact sample_keys_in_range.
  - exact sample_empty_opened.
  - exact sample_filled_built.
  - destruct Hrows as (Hend & _ & _ & _ & Hleast); [discriminate|].
    exists cursor, t'. split; [exact Hrun|]. split; [exact Hend|].
    apply Hleast. cbn [sample_rows sample_row map fst In]. do 10 right. left.
    reflexivity.
Defined.

Lemma root_growth_witness :
  type_of (content sample_filled 0) = NODE_INTERNAL /\
  key_count (content sample_filled 0) = num_pages (pager sample_filled) - 2.
Proof.
  destruct (root_growth 3 (mkCursor 0 0 true) sample_rows sample_empty
              sample_filled) as (_ & Hmany).
  - exact sample_keys_distinct.
  - exact sample_keys_in_range.
  - exact sample_empty_opened.
  - exact sample_filled_built.
  - destruct Hmany as (Htype & _ & Hkeys); [cbn; lia|].
    split; [exact Htype | exact Hkeys].
Defined.

Lemma leaves_half_full_witness :
  type_of (content sample_filled 1) = NODE_LEAF /\
  LEAF_NODE_LEFT_SPLIT_COUNT <= cell_count (content sample_filled 1)
  <= LEAF_NODE_MAX_CELLS.
Proof.
  destruct (leaves_half_full 3 (mkCursor 0 0 true) sample_rows sample_empty
              sample_filled 1) as (Htype & Hfill & _).
  - exact sample_keys_distinct.
  - exact sample_keys_in_range.
  - exact sample_empty_opened.
  - exact sample_filled_built.
  - vm_compute. reflexivity.
  - split; [lia | vm_compute; reflexivity].
  - split; [exact Htype | exact Hfill].
Defined.

Lemma insert_rows_safe_witness :
  (exists t,
     insert_rows 1 (mkCursor 0 0 true) sample_rows sample_empty = Ok tt t) \/
  (exists e t,
     insert_rows 1 (mkCursor 0 0 true) sample_rows sample_empty = Exit e t).
Proof.
  apply (insert_rows_safe 1 (mkCursor 0 0 true) sample_rows sample_empty).
  - exact sample_keys_distinct.
  - exact sample_keys_in_range.
  - exact sample_empty_opened.
Defined.

Lemma insert_rows_within_capacity_witness :
  exists t,
    insert_rows 3 (mkCursor 0 0 true) sample_rows sample_empty = Ok tt t.
Proof.
  apply (insert_rows_within_capacity 3 (mkCursor 0 0 true) sample_rows
           sample_empty).
  - exact sample_keys_distinct.
  - exact sample_keys_in_range.
  - exact sample_empty_opened.
  - vm_compute. discriminate.
Defined.

Lemma root_separates_leaves_witness :
  sep_key (content sample_filled 0) 0
  < leaf_key
      (content sample_filled (child_ref (content sample_filled 0) 1)) 0.
Proof.
  destruct (root_separates_leaves 3 (mkCursor 0 0 true) sample_rows
              sample_empty sample_filled 0)
    as (_ & _ & _ & _ & Hlt & _).
  - exact sample_keys_distinct.
  - exact sample_keys_in_range.
  - exact sample_empty_opened.
  - exact sample_filled_built.
  - vm_compute. reflexivity.
  - vm_compute. intuition discriminate.
  - exact Hlt.
Defined.

Lemma insert_row_again_duplicates_witness :
  exists cursor t1 t2,
    table_find (mkCursor 0 0 false) 30 sample_filled = Ok cursor t1 /\
    insert_row 3 (mkCursor 0 0 false) 30 (mkRow 30 [] []) sample_filled
    = Ok tt t2 /\
    leaf_key (content t2 (page_num cursor)) (cell_num cursor) = 30 /\
    leaf_key (content t2 (page_num cursor)) (cell_num cursor + 1) = 30.
Proof.
  destruct (insert_row_again_duplicates 3 (mkCursor 0 0 true)
              (mkCursor 0 0 false) sample_rows sample_empty sample_filled
              30 (mkRow 30 [] []))
    as (cursor & t1 & Hfind & Hins).
  - exact sample_keys_distinct.
  - exact sample_keys_in_range.
  - exact sample_empty_opened.
  - exact sample_filled_built.
  - cbn [sample_rows sample_row map fst In]. do 3 right. left. reflexivity.
  - destruct Hins as (t2 & Hrun & _ & Hkey & Hkey' & _).
    + replace cursor
        with (result (table_find (mkCursor 0 0 false) 30 sample_filled)
                cursor)
        by (rewrite Hfind; reflexivity).
      vm_compute. reflexivity.
    + exists cursor, t1, t2. auto.
Defined.


Lemma rows_survive_close_and_open_witness :
  exists t1 visited t2,
    db_open sample_file = Ok tt t1 /\
    scan 22 (mkCursor 0 0 true) t1 = Ok visited t2 /\
    Permutation visited (map fst sample_rows).
Proof.
  destruct (rows_survive_close_and_open 3 (mkCursor 0 0 true)
              (mkCursor 0 0 true) sample_rows sample_empty sample_filled
              0 sample_file 22)
    as (t1 & Hopen & _ & _ & _ & (visited & t2 & Hscan & _ & Hperm) & _).
  - exact sample_keys_distinct.
  - exact sample_keys_in_range.
  - exact sample_empty_opened.
  - exact sample_filled_built.
  - apply closes_file. vm_compute. reflexivity.
  - cbn. lia.
  - exists t1, visited, t2. auto.
Defined.

Lemma inserts_after_close_and_open_witness :
  exists visited t3,
    scan 25 (mkCursor 0 0 true) sample_extended = Ok visited t3 /\
    StronglySorted Z.lt visited /\
    Permutation visited (map fst (sample_rows ++ sample_more_rows)).
Proof.
  apply (inserts_after_close_and_open 3 (mkCursor 0 0 true)
           (mkCursor 0 0 true) sample_rows sample_more_rows sample_empty
           sample_filled 0 sample_file sample_reopened sample_extended 25).
  - cbn [sample_rows sample_more_rows sample_row map fst app].
    repeat (constructor;
            [intros H; cbn [In] in H;
             repeat (destruct H as [H|H]; [discriminate H|]); exact H|]).
    constructor.
  - cbn [sample_rows sample_more_rows sample_row map fst app].
    repeat (constructor; [unfold uint32; lia|]). constructor.
  - exact sample_empty_opened.
  - exact sample_filled_built.
  - apply closes_file. vm_compute. reflexivity.
  - apply returns_final. vm_compute. reflexivity.
  - apply returns_final. vm_compute. reflexivity.
  - cbn. lia.
Defined.
